(** * Sudoku: the strategy solver, the difficulty validator and the hint oracle

    A shallow embedding of [web/lib/sudoku/strategy-solver.ts] and of the
    [useHint] action of the game store, with the properties their
    specification states about them.

    Conventions of the embedding.
    - A cell is [option nat]: [None] is JavaScript's [null], [Some v] a number.
    - A grid value is a list of rows.  Reading [grid[row][col]] outside a row
      gives [undefined], which is neither [null] nor a number: [cellAt]
      returns [None] there, so [isNull] and [holds] are both false.
    - A [Set<number>] is a list without duplicates in insertion order, which
      is also the iteration order of a JavaScript set.
    - Loops that mutate the candidate table are folds that pass the table
      (and the elimination counter) along. *)

From stdpp Require Import base list numbers option.

Abbreviation Cell := (option nat) (only parsing).
Abbreviation SudokuGrid := (list (list (option nat))) (only parsing).
Abbreviation Candidates := (list (list (list nat))) (only parsing).
Abbreviation Position := (nat * nat)%type (only parsing).

(** ** Shared helpers: array reads, sets, loops *)

(** [grid[row][col]]; the outer [None] is [undefined]. *)
Definition cellAt (grid : SudokuGrid) (row col : nat) : option (option nat) :=
  grid !! row ≫= (.!! col).

(** [grid[row][col] === null] *)
Definition isNull (grid : SudokuGrid) (row col : nat) : bool :=
  match cellAt grid row col with
  | Some None => true
  | _ => false
  end.

(** [grid[row][col] === value] *)
Definition holds (grid : SudokuGrid) (row col value : nat) : bool :=
  match cellAt grid row col with
  | Some (Some x) => x =? value
  | _ => false
  end.

(** [s.has(v)] *)
Definition setHas (s : list nat) (v : nat) : bool := existsb (Nat.eqb v) s.

(** [s.delete(v)] *)
Definition setDelete (s : list nat) (v : nat) : list nat :=
  List.filter (fun x => negb (x =? v)) s.

(** [a.includes(v)] on an array of numbers *)
Definition includes (a : list nat) (v : nat) : bool := existsb (Nat.eqb v) a.

(** [new Set(l).size] *)
Definition distinctCount (l : list nat) : nat := length (remove_dups l).

(** A [for] loop with an early [return]: the first iteration that returns. *)
Fixpoint firstSome {A B : Type} (f : A -> option B) (l : list A) : option B :=
  match l with
  | [] => None
  | x :: l' =>
      match f x with
      | Some y => Some y
      | None => firstSome f l'
      end
  end.

(** A [for] loop that updates a state. *)
Definition forEach {A S : Type} (l : list A) (body : A -> S -> S) (s : S) : S :=
  fold_left (fun acc x => body x acc) l s.

(** [for (i = 0; i < n; i++) for (j = i + 1; j < n; j++)] over [l[i]],
    [l[j]]. *)
Fixpoint orderedPairs {A : Type} (l : list A) : list (A * A) :=
  match l with
  | [] => []
  | x :: l' => map (pair x) l' ++ orderedPairs l'
  end.

(** [for (s = 0; s < gridSize; s += step)]: the multiples of [step] below
    [gridSize] ([step] is a box dimension, never 0). *)
Definition starts (gridSize step : nat) : list nat :=
  List.filter (fun i => i mod step =? 0) (seq 0 gridSize).

(** ** The types module

    [web/lib/sudoku/types.ts], imported by the solver, is absent from the
    source tree as well. *)

(** Modelled from the spec: the [GridSize] type of the absent types module,
    "N x N matrix (N in {4,6,9})". *)
Definition GridSize (n : nat) : Prop := n = 4 \/ n = 6 \/ n = 9.

(** Modelled from the spec: a [SudokuGrid] is an "N x N matrix": every row
    is as long as the grid has rows. *)
Definition square (grid : SudokuGrid) : Prop :=
  Forall (fun row => length row = length grid) grid.

(** ** The validator module

    [web/lib/sudoku/validator.ts] is imported by the solver and by the store
    but is absent from the source tree. *)

Module Validator.

Record BoxDimensions := { rows : nat; cols : nat }.

(** Modelled from the spec: [getBoxDimensions] of the absent validator
    module, "boxDimensions(N) from the fixed table {4:(2,2), 6:(2,3),
    9:(3,3)}".  The table has the three sizes of the [GridSize] type and no
    other.  The last case is not the validator's: what it answers at
    another size is not known; the case is there to make the function
    total, with the value of the store's inline copy of this table
    ([gridSize === 6 ? 2 : gridSize === 4 ? 2 : 3]).  What is stated below
    about the solver's results is stated for the sizes 4, 6 and 9. *)
Definition getBoxDimensions (gridSize : nat) : BoxDimensions :=
  match gridSize with
  | 4 => {| rows := 2; cols := 2 |}
  | 6 => {| rows := 2; cols := 3 |}
  | _ => {| rows := 3; cols := 3 |}
  end.

(** Modelled from the spec: [isValidMove] of the absent validator module,
    "isLegalPlacement(grid,row,col,value)" under the grid invariant "no
    duplicate non-empty value within any row, column, or box": no other
    cell of the row, of the column or of the box holds [value].
    "Out-of-range coordinates yield an empty/false result". *)
Definition isValidMove (grid : SudokuGrid) (row col value : nat) : bool :=
  let gridSize := length grid in
  let boxDims := getBoxDimensions gridSize in
  let boxRow := row / rows boxDims * rows boxDims in
  let boxCol := col / cols boxDims * cols boxDims in
  (row <? gridSize) && (col <? gridSize)
  && forallb (fun c => (c =? col) || negb (holds grid row c value))
       (seq 0 gridSize)
  && forallb (fun r => (r =? row) || negb (holds grid r col value))
       (seq 0 gridSize)
  && forallb (fun r =>
       forallb (fun c =>
         ((r =? row) && (c =? col)) || negb (holds grid r c value))
         (seq boxCol (cols boxDims)))
       (seq boxRow (rows boxDims)).

(** Modelled from the spec: [getCandidates] of the absent validator module,
    "candidates(grid,row,col) -> ascending sequence of legal values". *)
Definition getCandidates (grid : SudokuGrid) (row col : nat) : list nat :=
  List.filter (isValidMove grid row col) (seq 1 (length grid)).

(** Modelled from the spec: [cloneGrid] of the absent validator module, on
    grid values ("all Grid values are pure value objects recreated at each
    pipeline stage"): a copy of every row.  The copy as an object of the
    store is [GridHeap.cloneGrid] below. *)
Definition cloneGrid (grid : SudokuGrid) : SudokuGrid :=
  map (fun row => map (fun cell => cell) row) grid.

End Validator.

(** ** [strategy-solver.ts] *)

Module StrategySolver.
Import Validator.

Inductive Difficulty := beginner | easy | medium | hard | expert.

Inductive Strategy :=
| naked_single
| hidden_single
| naked_pair
| pointing_pair
| box_line_reduction
| guessing.

#[global] Instance Difficulty_eq_dec : EqDecision Difficulty.
Proof. solve_decision. Defined.

#[global] Instance Strategy_eq_dec : EqDecision Strategy.
Proof. solve_decision. Defined.

Record SolveResult := {
  solved : bool;
  grid : SudokuGrid;
  strategiesUsed : list Strategy;
  maxDifficulty : Difficulty;
  steps : nat
}.

Definition STRATEGY_DIFFICULTY (s : Strategy) : Difficulty :=
  match s with
  | naked_single => beginner
  | hidden_single => easy
  | naked_pair => medium
  | pointing_pair => hard
  | box_line_reduction => hard
  | guessing => expert
  end.

Definition DIFFICULTY_ORDER : list Difficulty :=
  [beginner; easy; medium; hard; expert].

(** [Array.prototype.indexOf], counting from [i]. *)
Fixpoint indexOfFrom (d : Difficulty) (l : list Difficulty) (i : Z) : Z :=
  match l with
  | [] => (-1)%Z
  | x :: l' => if decide (x = d) then i else indexOfFrom d l' (i + 1)%Z
  end.

Definition getDifficultyIndex (difficulty : Difficulty) : Z :=
  indexOfFrom difficulty DIFFICULTY_ORDER 0%Z.

(** The source's function [maxDifficulty(a, b)]; the name [maxDifficulty]
    is the field of [SolveResult] here. *)
Definition maxDifficultyOf (a b : Difficulty) : Difficulty :=
  if (getDifficultyIndex b <=? getDifficultyIndex a)%Z then a else b.

(** [strategiesUsed.add(s)] on a set kept in insertion order. *)
Definition setAdd (used : list Strategy) (s : Strategy) : list Strategy :=
  if decide (s ∈ used) then used else used ++ [s].

(** [candidates[row][col]] as a set that is read.  On a grid of size 4, 6
    or 9 every access of the solver is inside the [gridSize] x [gridSize]
    table built by [buildCandidateGrid]: the boxes tile the grid.  For an
    entry that the table does not have, the source raises a [TypeError]
    ([undefined.has], [undefined.size]) where [candAt] gives the empty set:
    this happens at other sizes, where the boxes of the 3x3 default reach
    beyond the table, and what is stated about the solver's results is
    therefore stated for the sizes 4, 6 and 9 ([accesses_inside_table] and
    [fullTable_buildCandidateGrid] below). *)
Definition candAt (candidates : Candidates) (row col : nat) : list nat :=
  default [] (candidates !! row ≫= (.!! col)).

(** [candidates[row][col].delete(value)] on an entry of the table.  For an
    entry that the table does not have, the source raises a [TypeError]
    where [deleteAt] leaves the table as it is; as for [candAt], this does
    not happen on a grid of size 4, 6 or 9. *)
Definition deleteAt (candidates : Candidates) (row col value : nat)
  : Candidates :=
  alter (alter (fun s => setDelete s value) col) row candidates.

(** [if (candidates[row][col].has(num)) { candidates[row][col].delete(num);
    eliminations++ }] *)
Definition eliminate (row col num : nat) (st : Candidates * nat)
  : Candidates * nat :=
  if setHas (candAt st.1 row col) num
  then (deleteAt st.1 row col num, S st.2)
  else st.

(** The cells of the box that starts at [(boxRow, boxCol)], row by row. *)
Definition boxCells (boxRow boxCol : nat) (boxDims : BoxDimensions)
  : list Position :=
  flat_map (fun r => map (fun c => (r, c)) (seq boxCol (cols boxDims)))
    (seq boxRow (rows boxDims)).

Definition buildCandidateGrid (grid : SudokuGrid) : Candidates :=
  let gridSize := length grid in
  map (fun row =>
    map (fun col =>
      if isNull grid row col then getCandidates grid row col else [])
      (seq 0 gridSize))
    (seq 0 gridSize).

Definition findNakedSingle (grid : SudokuGrid) (candidates : Candidates)
  (gridSize : nat) : option (nat * nat * nat) :=
  firstSome (fun row =>
    firstSome (fun col =>
      if isNull grid row col && (length (candAt candidates row col) =? 1)
      then Some (row, col, hd 0 (candAt candidates row col))
      else None)
      (seq 0 gridSize))
    (seq 0 gridSize).

Definition findHiddenSingle (grid : SudokuGrid) (candidates : Candidates)
  (gridSize : nat) : option (nat * nat * nat) :=
  let boxDims := getBoxDimensions gridSize in
  let inRows :=
    firstSome (fun row =>
      firstSome (fun num =>
        let positions :=
          List.filter (fun col => setHas (candAt candidates row col) num)
            (seq 0 gridSize) in
        match positions with
        | [col] => Some (row, col, num)
        | _ => None
        end)
        (seq 1 gridSize))
      (seq 0 gridSize) in
  let inCols :=
    firstSome (fun col =>
      firstSome (fun num =>
        let positions :=
          List.filter (fun row => setHas (candAt candidates row col) num)
            (seq 0 gridSize) in
        match positions with
        | [row] => Some (row, col, num)
        | _ => None
        end)
        (seq 1 gridSize))
      (seq 0 gridSize) in
  let inBoxes :=
    firstSome (fun boxRow =>
      firstSome (fun boxCol =>
        firstSome (fun num =>
          let positions :=
            List.filter (fun p => setHas (candAt candidates p.1 p.2) num)
              (boxCells boxRow boxCol boxDims) in
          match positions with
          | [p] => Some (p.1, p.2, num)
          | _ => None
          end)
          (seq 1 gridSize))
        (starts gridSize (cols boxDims)))
      (starts gridSize (rows boxDims)) in
  match inRows with
  | Some m => Some m
  | None =>
      match inCols with
      | Some m => Some m
      | None => inBoxes
      end
  end.

Definition setsEqual (a b : list nat) : bool :=
  if negb (length a =? length b) then false
  else forallb (fun item => setHas b item) a.

Definition findNakedPairInUnit (candidates : Candidates)
  (cells : list Position) : Candidates * nat :=
  let pairCells :=
    List.filter (fun p => length (candAt candidates p.1 p.2) =? 2) cells in
  forEach (orderedPairs pairCells) (fun pr st =>
    let cell1 := pr.1 in
    let cell2 := pr.2 in
    let cands1 := candAt st.1 cell1.1 cell1.2 in
    let cands2 := candAt st.1 cell2.1 cell2.2 in
    if (length cands1 =? 2) && setsEqual cands1 cands2 then
      let pairValues := cands1 in
      forEach cells (fun p st =>
        if (negb (p.1 =? cell1.1) || negb (p.2 =? cell1.2))
           && (negb (p.1 =? cell2.1) || negb (p.2 =? cell2.2))
        then forEach pairValues (fun val st => eliminate p.1 p.2 val st) st
        else st) st
    else st)
    (candidates, 0).

(** [eliminations += findNakedPairInUnit(candidates, cells)] *)
Definition addUnit (cells : list Position) (st : Candidates * nat)
  : Candidates * nat :=
  let r := findNakedPairInUnit st.1 cells in
  (r.1, st.2 + r.2).

Definition findNakedPairEliminations (candidates : Candidates)
  (gridSize : nat) : Candidates * nat :=
  let boxDims := getBoxDimensions gridSize in
  let st := (candidates, 0) in
  let st :=
    forEach (seq 0 gridSize) (fun row =>
      addUnit (map (fun col => (row, col)) (seq 0 gridSize))) st in
  let st :=
    forEach (seq 0 gridSize) (fun col =>
      addUnit (map (fun row => (row, col)) (seq 0 gridSize))) st in
  forEach (starts gridSize (rows boxDims)) (fun boxRow =>
    forEach (starts gridSize (cols boxDims)) (fun boxCol =>
      addUnit (boxCells boxRow boxCol boxDims))) st.

Definition findPointingPairEliminations (candidates : Candidates)
  (gridSize : nat) : Candidates * nat :=
  let boxDims := getBoxDimensions gridSize in
  forEach (starts gridSize (rows boxDims)) (fun boxRow =>
    forEach (starts gridSize (cols boxDims)) (fun boxCol =>
      forEach (seq 1 gridSize) (fun num st =>
        let positions :=
          List.filter (fun p => setHas (candAt st.1 p.1 p.2) num)
            (boxCells boxRow boxCol boxDims) in
        if (length positions <? 2) || (cols boxDims <? length positions)
        then st
        else
          let st :=
            if distinctCount (map fst positions) =? 1 then
              let row := (hd (0, 0) positions).1 in
              forEach (seq 0 gridSize) (fun col st =>
                if (col <? boxCol) || (boxCol + cols boxDims <=? col)
                then eliminate row col num st
                else st) st
            else st in
          if distinctCount (map snd positions) =? 1 then
            let col := (hd (0, 0) positions).2 in
            forEach (seq 0 gridSize) (fun row st =>
              if (row <? boxRow) || (boxRow + rows boxDims <=? row)
              then eliminate row col num st
              else st) st
          else st)))
    (candidates, 0).

Definition findBoxLineEliminations (candidates : Candidates)
  (gridSize : nat) : Candidates * nat :=
  let boxDims := getBoxDimensions gridSize in
  let st := (candidates, 0) in
  let st :=
    forEach (seq 0 gridSize) (fun row =>
      forEach (seq 1 gridSize) (fun num st =>
        let colsWith :=
          List.filter (fun col => setHas (candAt st.1 row col) num)
            (seq 0 gridSize) in
        if (length colsWith <? 2) || (cols boxDims <? length colsWith)
        then st
        else
          let boxCol := hd 0 colsWith / cols boxDims * cols boxDims in
          if forallb (fun c => (boxCol <=? c) && (c <? boxCol + cols boxDims))
               colsWith
          then
            let boxRow := row / rows boxDims * rows boxDims in
            forEach (seq boxRow (rows boxDims)) (fun r st =>
              if negb (r =? row) then
                forEach (seq boxCol (cols boxDims)) (fun c st =>
                  eliminate r c num st) st
              else st) st
          else st)) st in
  forEach (seq 0 gridSize) (fun col =>
    forEach (seq 1 gridSize) (fun num st =>
      let rowsWith :=
        List.filter (fun row => setHas (candAt st.1 row col) num)
          (seq 0 gridSize) in
      if (length rowsWith <? 2) || (rows boxDims <? length rowsWith)
      then st
      else
        let boxRow := hd 0 rowsWith / rows boxDims * rows boxDims in
        if forallb (fun r => (boxRow <=? r) && (r <? boxRow + rows boxDims))
             rowsWith
        then
          let boxCol := col / cols boxDims * cols boxDims in
          forEach (seq boxRow (rows boxDims)) (fun r st =>
            forEach (seq boxCol (cols boxDims)) (fun c st =>
              if negb (c =? col) then eliminate r c num st else st) st) st
        else st)) st.

(** The candidate half of [applyMove]: [candidates[row][col] = new Set()]
    and the deletions along the row, the column and the box. *)
Definition applyMoveCandidates (candidates : Candidates)
  (row col value gridSize : nat) : Candidates :=
  let candidates := alter (fun r => <[col := []]> r) row candidates in
  let boxDims := getBoxDimensions gridSize in
  let boxRow := row / rows boxDims * rows boxDims in
  let boxCol := col / cols boxDims * cols boxDims in
  let candidates :=
    forEach (seq 0 gridSize) (fun c cs => deleteAt cs row c value)
      candidates in
  let candidates :=
    forEach (seq 0 gridSize) (fun r cs => deleteAt cs r col value)
      candidates in
  forEach (seq boxRow (rows boxDims)) (fun r cs =>
    forEach (seq boxCol (cols boxDims)) (fun c cs =>
      deleteAt cs r c value) cs) candidates.

(** [grid[row][col] = value].  The solver only writes cells it has read as
    [null], which are inside their row ([iteration_progress] below). *)
Definition setCell (grid : SudokuGrid) (row col value : nat) : SudokuGrid :=
  alter (fun r => <[col := Some value]> r) row grid.

Definition applyMove (grid : SudokuGrid) (candidates : Candidates)
  (row col value gridSize : nat) : SudokuGrid * Candidates :=
  (setCell grid row col value,
   applyMoveCandidates candidates row col value gridSize).

Definition isComplete (grid : SudokuGrid) : bool :=
  forallb (fun row => forallb (fun cell => bool_decide (cell <> None)) row)
    grid.

(** The variables of [solveWithStrategies] that the loop updates. *)
Record LoopState := {
  workingGrid : SudokuGrid;
  candidates : Candidates;
  used : list Strategy;
  currentDifficulty : Difficulty;
  stepCount : nat
}.

(** A technique made progress: record it and [continue]. *)
Definition progress (s : LoopState) (g : SudokuGrid) (c : Candidates)
  (t : Strategy) (d : Difficulty) : option Strategy * LoopState :=
  (Some t,
   {| workingGrid := g;
      candidates := c;
      used := setAdd (used s) t;
      currentDifficulty := maxDifficultyOf (currentDifficulty s) d;
      stepCount := S (stepCount s) |}).

(** One pass through the body of [while (madeProgress)].  The first
    component is the technique that set [madeProgress], if any. *)
Definition iteration (gridSize : nat) (s : LoopState)
  : option Strategy * LoopState :=
  match findNakedSingle (workingGrid s) (candidates s) gridSize with
  | Some (row, col, value) =>
      let gc :=
        applyMove (workingGrid s) (candidates s) row col value gridSize in
      progress s gc.1 gc.2 naked_single beginner
  | None =>
  match findHiddenSingle (workingGrid s) (candidates s) gridSize with
  | Some (row, col, value) =>
      let gc :=
        applyMove (workingGrid s) (candidates s) row col value gridSize in
      progress s gc.1 gc.2 hidden_single easy
  | None =>
      let np := findNakedPairEliminations (candidates s) gridSize in
      if 0 <? np.2 then progress s (workingGrid s) np.1 naked_pair medium
      else
      let pp := findPointingPairEliminations np.1 gridSize in
      if 0 <? pp.2 then progress s (workingGrid s) pp.1 pointing_pair hard
      else
      let bl := findBoxLineEliminations pp.1 gridSize in
      if 0 <? bl.2
      then progress s (workingGrid s) bl.1 box_line_reduction hard
      else
        (None,
         {| workingGrid := workingGrid s;
            candidates := bl.1;
            used := used s;
            currentDifficulty := currentDifficulty s;
            stepCount := S (stepCount s) |})
  end
  end.

(** [while (madeProgress) { ... }] with a bound on the number of passes;
    [None] is a loop that is still running when the bound is reached.  The
    list is the sequence of techniques applied, one per progressing pass. *)
Fixpoint solveLoop (fuel gridSize : nat) (s : LoopState)
  : option (list Strategy * LoopState) :=
  match fuel with
  | 0 => None
  | S fuel' =>
      match iteration gridSize s with
      | (Some t, s') =>
          match solveLoop fuel' gridSize s' with
          | Some (ts, s'') => Some (t :: ts, s'')
          | None => None
          end
      | (None, s') => Some ([], s')
      end
  end.

(** The number of [null] cells of a grid. *)
Definition emptyCount (grid : SudokuGrid) : nat :=
  sum_list_with
    (fun row =>
       length (List.filter (fun cell => bool_decide (cell = None)) row))
    grid.

(** The number of candidate entries of a candidate table. *)
Definition candidateTotal (candidates : Candidates) : nat :=
  sum_list_with (sum_list_with length) candidates.

(** The state on entry to the loop. *)
Definition initialState (grid : SudokuGrid) : LoopState :=
  let workingGrid := cloneGrid grid in
  {| workingGrid := workingGrid;
     candidates := buildCandidateGrid workingGrid;
     used := [];
     currentDifficulty := beginner;
     stepCount := 0 |}.

(** Passes that suffice for the loop to exit ([solveLoop_returns]). *)
Definition passBound (s : LoopState) : nat :=
  S (emptyCount (workingGrid s) + candidateTotal (candidates s)).

(** What follows the loop: [isComplete], the guessing tag, the result. *)
Definition finish (s : LoopState) : SolveResult :=
  let solved := isComplete (workingGrid s) in
  {| solved := solved;
     grid := workingGrid s;
     strategiesUsed := if solved then used s else setAdd (used s) guessing;
     maxDifficulty := if solved then currentDifficulty s else expert;
     steps := stepCount s |}.

(** [solveWithStrategies] together with the techniques it applied, in
    order. *)
Definition solveTrace (grid : SudokuGrid)
  : option (list Strategy * SolveResult) :=
  let s := initialState grid in
  let gridSize := length (workingGrid s) in
  match solveLoop (passBound s) gridSize s with
  | Some (ts, s') => Some (ts, finish s')
  | None => None
  end.

Definition solveWithStrategies (grid : SudokuGrid) : option SolveResult :=
  snd <$> solveTrace grid.

Definition analyzeDifficulty (grid : SudokuGrid) : option Difficulty :=
  maxDifficulty <$> solveWithStrategies grid.

Definition getMaxDifficultyForGridSize (gridSize : nat) : Difficulty :=
  match gridSize with
  | 4 => easy
  | 6 => medium
  | _ => expert
  end.

Record Validation := {
  valid : bool;
  actualDifficulty : Difficulty;
  strategiesUsedArray : list Strategy
}.

Definition validateDifficulty (grid : SudokuGrid)
  (expectedDifficulty : Difficulty) : option Validation :=
  let gridSize := length grid in
  result ← solveWithStrategies grid;
  let actualIndex := getDifficultyIndex (maxDifficulty result) in
  let expectedIndex := getDifficultyIndex expectedDifficulty in
  let maxAchievable := getMaxDifficultyForGridSize gridSize in
  let maxIndex := getDifficultyIndex maxAchievable in
  let adjustedExpectedIndex := Z.min expectedIndex maxIndex in
  let withinRange :=
    (Z.abs (actualIndex - adjustedExpectedIndex) <=? 1)%Z in
  let harderThanExpected :=
    (adjustedExpectedIndex <? actualIndex)%Z && (3 <=? expectedIndex)%Z in
  Some {| valid := withinRange || harderThanExpected;
          actualDifficulty := maxDifficulty result;
          strategiesUsedArray := strategiesUsed result |}.

End StrategySolver.

(** ** Invariants of the solver's loop *)

Module SolverInvariants.
Import Validator StrategySolver.

(** A candidate table obtained from another one by deletions only. *)
Definition narrows (cs cs' : Candidates) : Prop :=
  candidateTotal cs' <= candidateTotal cs
  /\ forall r c, sublist (candAt cs' r c) (candAt cs r c).

(** The same for a table with its elimination counter: the counter counts
    deletions, and a counter that did not move means an untouched table. *)
Definition shrinks (st st' : Candidates * nat) : Prop :=
  st.2 <= st'.2
  /\ (st'.2 = st.2 -> st'.1 = st.1)
  /\ candidateTotal st'.1 + st'.2 <= candidateTotal st.1 + st.2
  /\ forall r c, sublist (candAt st'.1 r c) (candAt st.1 r c).

(** Only [null] cells have candidates. *)
Definition consistent (grid : SudokuGrid) (cs : Candidates) : Prop :=
  forall r c, candAt cs r c <> [] -> isNull grid r c = true.

(** Every entry of the candidate table is a set: a list without
    duplicates, whose [size] is its length. *)
Definition setLike (cs : Candidates) : Prop :=
  forall r c, NoDup (candAt cs r c).

(** The quantity that every progressing pass decreases. *)
Definition measure (s : LoopState) : nat :=
  emptyCount (workingGrid s) + candidateTotal (candidates s).

(** The states the loop of [solveWithStrategies] goes through on a grid
    of size [n], from the state [s0] on entry: one more for every pass
    that makes progress. *)
Inductive reachable (n : nat) (s0 : LoopState) : LoopState -> Prop :=
| reach_entry : reachable n s0 s0
| reach_pass (s s' : LoopState) (t : Strategy) :
    reachable n s0 s -> iteration n s = (Some t, s') -> reachable n s0 s'.

End SolverInvariants.

(** ** The solver's loop as the specification words it

    "Repeats: apply the highest-priority technique that makes progress,
    update affected candidates, restart from top priority; stop when nothing
    advances." *)

Module PrioritySpec.
Import Validator StrategySolver.

Definition priority : list Strategy :=
  [naked_single; hidden_single; naked_pair; pointing_pair;
   box_line_reduction].

(** One technique tried on a working grid and its candidate table: the
    grid and table it leaves when it makes progress, [None] when it finds
    nothing. *)
Definition attempt (t : Strategy) (n : nat) (b : SudokuGrid * Candidates)
  : option (SudokuGrid * Candidates) :=
  match t with
  | naked_single =>
      match findNakedSingle b.1 b.2 n with
      | Some (row, col, value) => Some (applyMove b.1 b.2 row col value n)
      | None => None
      end
  | hidden_single =>
      match findHiddenSingle b.1 b.2 n with
      | Some (row, col, value) => Some (applyMove b.1 b.2 row col value n)
      | None => None
      end
  | naked_pair =>
      let r := findNakedPairEliminations b.2 n in
      if 0 <? r.2 then Some (b.1, r.1) else None
  | pointing_pair =>
      let r := findPointingPairEliminations b.2 n in
      if 0 <? r.2 then Some (b.1, r.1) else None
  | box_line_reduction =>
      let r := findBoxLineEliminations b.2 n in
      if 0 <? r.2 then Some (b.1, r.1) else None
  | guessing => None
  end.

(** [t] is the highest-priority technique that makes progress on [b]. *)
Definition highestPriorityStep (n : nat) (b : SudokuGrid * Candidates)
  (t : Strategy) (b' : SudokuGrid * Candidates) : Prop :=
  exists k, priority !! k = Some t
            /\ attempt t n b = Some b'
            /\ forall j t', j < k -> priority !! j = Some t' ->
                           attempt t' n b = None.

(** Nothing advances. *)
Definition stuck (n : nat) (b : SudokuGrid * Candidates) : Prop :=
  forall t, t ∈ priority -> attempt t n b = None.

(** Repeat until stuck; the list is the technique of every repetition. *)
Inductive run (n : nat)
  : SudokuGrid * Candidates -> list Strategy -> SudokuGrid * Candidates
    -> Prop :=
| run_stop (b : SudokuGrid * Candidates) : stuck n b -> run n b [] b
| run_step (b b' b'' : SudokuGrid * Candidates) (t : Strategy)
    (ts : list Strategy) :
    highestPriorityStep n b t b' -> run n b' ts b'' ->
    run n b (t :: ts) b''.

(** The running maximum of the technique-to-difficulty table over the
    techniques applied, from ['beginner']. *)
Definition runningMax (ts : list Strategy) : Difficulty :=
  fold_left (fun d t => maxDifficultyOf d (STRATEGY_DIFFICULTY t)) ts
    beginner.

End PrioritySpec.

(** ** The game store: [useHint]

    The store is the module [@/store/gameStore].  [useHint] reads
    [solution], [currentGrid] and [gridSize] from the state and writes the
    hint fields. *)

Module GameStore.
Import Validator.

(** The tags [useHint] gives to its results (the [Strategy] type of the
    absent [strategies] module has more). *)
Inductive StrategyTag :=
| single_candidate
| hidden_single
| naked_pair
| advanced.

(** The explanation texts, by their template and the numbers they
    interpolate. *)
Inductive Explanation :=
| OnlyCandidate (value : nat)
| OnlyInRow (value : nat)
| OnlyInColumn (value : nat)
| OnlyInBox (value : nat)
| PairForces (first second value : nat)
| NeedsAdvanced.

(** [confidence] is the number 1.0 or 0; [affectedCells] is absent from
    the 'advanced' result. *)
Record StrategyResult := {
  strategy : StrategyTag;
  confidence : nat;
  explanation : Explanation;
  affectedCells : option (list Position)
}.

(** The fields of [GameState] that [useHint] reads or writes. *)
Record GameState := {
  solution : option SudokuGrid;
  currentGrid : option SudokuGrid;
  gridSize : nat;
  selectedCell : option Position;
  hintsUsed : nat;
  highlightedCells : list Position;
  showRowHighlight : bool;
  showColumnHighlight : bool;
  showBoxHighlight : bool;
  hintCell : option (nat * nat * nat);
  hintStrategy : option StrategyResult;
  showHint : bool
}.

(** [gridSize === 6 ? 2 : gridSize === 4 ? 2 : 3] *)
Definition boxHeight (gridSize : nat) : nat :=
  if gridSize =? 6 then 2 else if gridSize =? 4 then 2 else 3.

(** [gridSize === 6 ? 3 : gridSize === 4 ? 2 : 3] *)
Definition boxWidth (gridSize : nat) : nat :=
  if gridSize =? 6 then 3 else if gridSize =? 4 then 2 else 3.

Definition getRowCellsForHint (gridSize row col : nat) : list Position :=
  map (fun c => (row, c))
    (List.filter (fun c => negb (c =? col)) (seq 0 gridSize)).

Definition getColCellsForHint (gridSize row col : nat) : list Position :=
  map (fun r => (r, col))
    (List.filter (fun r => negb (r =? row)) (seq 0 gridSize)).

Definition getBoxCellsForHint (gridSize row col : nat) : list Position :=
  let boxStartRow := row / boxHeight gridSize * boxHeight gridSize in
  let boxStartCol := col / boxWidth gridSize * boxWidth gridSize in
  List.filter (fun p => negb (p.1 =? row) || negb (p.2 =? col))
    (flat_map (fun r =>
       map (fun c => (r, c)) (seq boxStartCol (boxWidth gridSize)))
       (seq boxStartRow (boxHeight gridSize))).

Definition getRelatedCellsForHint (gridSize row col : nat) : list Position :=
  let boxStartRow := row / boxHeight gridSize * boxHeight gridSize in
  let boxStartCol := col / boxWidth gridSize * boxWidth gridSize in
  getRowCellsForHint gridSize row col
  ++ getColCellsForHint gridSize row col
  ++ List.filter (fun p => negb (p.1 =? row) && negb (p.2 =? col))
       (flat_map (fun r =>
          map (fun c => (r, c)) (seq boxStartCol (boxWidth gridSize)))
          (seq boxStartRow (boxHeight gridSize))).

(** STEP 1: the first empty cell, row by row, with exactly one
    candidate. *)
Definition stepNakedSingle (grid : SudokuGrid) (gridSize : nat)
  : option (nat * nat * nat * StrategyResult) :=
  firstSome (fun row =>
    firstSome (fun col =>
      if negb (isNull grid row col) then None
      else
        let candidates := getCandidates grid row col in
        if length candidates =? 1 then
          let value := hd 0 candidates in
          Some (row, col, value,
                {| strategy := single_candidate;
                   confidence := 1;
                   explanation := OnlyCandidate value;
                   affectedCells :=
                     Some (getRelatedCellsForHint gridSize row col) |})
        else None)
      (seq 0 gridSize))
    (seq 0 gridSize).

(** No other empty cell of the row has [value] among its candidates. *)
Definition uniqueInRow (grid : SudokuGrid) (gridSize row col value : nat)
  : bool :=
  forallb (fun c =>
    negb (negb (c =? col) && isNull grid row c
          && includes (getCandidates grid row c) value))
    (seq 0 gridSize).

Definition uniqueInCol (grid : SudokuGrid) (gridSize row col value : nat)
  : bool :=
  forallb (fun r =>
    negb (negb (r =? row) && isNull grid r col
          && includes (getCandidates grid r col) value))
    (seq 0 gridSize).

Definition uniqueInBox (grid : SudokuGrid) (gridSize row col value : nat)
  : bool :=
  let boxStartRow := row / boxHeight gridSize * boxHeight gridSize in
  let boxStartCol := col / boxWidth gridSize * boxWidth gridSize in
  forallb (fun r =>
    forallb (fun c =>
      negb ((negb (r =? row) || negb (c =? col)) && isNull grid r c
            && includes (getCandidates grid r c) value))
      (seq boxStartCol (boxWidth gridSize)))
    (seq boxStartRow (boxHeight gridSize)).

(** The body of [for (const value of candidates)] in STEP 2: the row
    test, then the column test, then the box test. *)
Definition testHiddenSingle (grid : SudokuGrid) (gridSize row col value : nat)
  : option (nat * nat * nat * StrategyResult) :=
  if uniqueInRow grid gridSize row col value then
    Some (row, col, value,
          {| strategy := hidden_single;
             confidence := 1;
             explanation := OnlyInRow value;
             affectedCells := Some (getRowCellsForHint gridSize row col) |})
  else if uniqueInCol grid gridSize row col value then
    Some (row, col, value,
          {| strategy := hidden_single;
             confidence := 1;
             explanation := OnlyInColumn value;
             affectedCells := Some (getColCellsForHint gridSize row col) |})
  else if uniqueInBox grid gridSize row col value then
    Some (row, col, value,
          {| strategy := hidden_single;
             confidence := 1;
             explanation := OnlyInBox value;
             affectedCells := Some (getBoxCellsForHint gridSize row col) |})
  else None.

(** The body of [for (let col ...)] in STEP 2: an empty cell, candidate by
    candidate. *)
Definition cellHiddenSingle (grid : SudokuGrid) (gridSize row col : nat)
  : option (nat * nat * nat * StrategyResult) :=
  if negb (isNull grid row col) then None
  else
    firstSome (testHiddenSingle grid gridSize row col)
      (getCandidates grid row col).

(** STEP 2: cell by cell, row by row. *)
Definition stepHiddenSingle (grid : SudokuGrid) (gridSize : nat)
  : option (nat * nat * nat * StrategyResult) :=
  firstSome (fun row =>
    firstSome (cellHiddenSingle grid gridSize row) (seq 0 gridSize))
    (seq 0 gridSize).

(** [a[i]] on an array of numbers; 0 stands for [undefined], which no
    candidate equals. *)
Definition at_ (a : list nat) (i : nat) : nat := nth i a 0.

Definition samePosition (p q : Position) : bool :=
  (p.1 =? q.1) && (p.2 =? q.2).

(** The local function [findPairLeadingToSingle] of STEP 3: the target,
    the two cells of the pair and the two values of the pair. *)
Definition findPairLeadingToSingle (grid : SudokuGrid)
  (unitCells : list Position)
  : option (nat * nat * nat * list Position * (nat * nat)) :=
  let emptyCells :=
    map (fun c => (c, getCandidates grid c.1 c.2))
      (List.filter (fun c => isNull grid c.1 c.2) unitCells) in
  let pairCandidateCells :=
    List.filter (fun c => length c.2 =? 2) emptyCells in
  firstSome (fun pr =>
    let cell1 := pr.1 in
    let cell2 := pr.2 in
    if (at_ cell1.2 0 =? at_ cell2.2 0) && (at_ cell1.2 1 =? at_ cell2.2 1)
    then
      let pairValues := [at_ cell1.2 0; at_ cell2.2 1] in
      firstSome (fun otherCell =>
        if samePosition otherCell.1 cell1.1
           || samePosition otherCell.1 cell2.1
        then None
        else
          let remainingCandidates :=
            List.filter (fun c => negb (includes pairValues c))
              otherCell.2 in
          if length remainingCandidates =? 1 then
            Some (otherCell.1.1, otherCell.1.2, at_ remainingCandidates 0,
                  [cell1.1; cell2.1],
                  (at_ cell1.2 0, at_ cell2.2 1))
          else None)
        emptyCells
    else None)
    (orderedPairs pairCandidateCells).

Definition pairResult
  (r : nat * nat * nat * list Position * (nat * nat))
  : nat * nat * nat * StrategyResult :=
  let '(row, col, value, pairCells, pairValues) := r in
  (row, col, value,
   {| strategy := naked_pair;
      confidence := 1;
      explanation := PairForces pairValues.1 pairValues.2 value;
      affectedCells := Some pairCells |}).

(** [boxRow < gridSize / boxHeight] with the real quotient: the number of
    values of [boxRow]. *)
Definition boxCount (gridSize boxSide : nat) : nat :=
  (gridSize + boxSide - 1) / boxSide.

(** STEP 3: rows, then columns, then boxes. *)
Definition stepNakedPair (grid : SudokuGrid) (gridSize : nat)
  : option (nat * nat * nat * StrategyResult) :=
  let inRows :=
    firstSome (fun row =>
      findPairLeadingToSingle grid
        (map (fun col => (row, col)) (seq 0 gridSize)))
      (seq 0 gridSize) in
  let inCols :=
    firstSome (fun col =>
      findPairLeadingToSingle grid
        (map (fun row => (row, col)) (seq 0 gridSize)))
      (seq 0 gridSize) in
  let inBoxes :=
    firstSome (fun boxRow =>
      firstSome (fun boxCol =>
        findPairLeadingToSingle grid
          (flat_map (fun r =>
             map (fun c =>
               (boxRow * boxHeight gridSize + r,
                boxCol * boxWidth gridSize + c))
               (seq 0 (boxWidth gridSize)))
             (seq 0 (boxHeight gridSize))))
        (seq 0 (boxCount gridSize (boxWidth gridSize))))
      (seq 0 (boxCount gridSize (boxHeight gridSize))) in
  pairResult <$>
    match inRows with
    | Some r => Some r
    | None =>
        match inCols with
        | Some r => Some r
        | None => inBoxes
        end
    end.

(** [targetCell] and [strategy] after the three steps. *)
Definition findHint (grid : SudokuGrid) (gridSize : nat)
  : option (nat * nat * nat * StrategyResult) :=
  match stepNakedSingle grid gridSize with
  | Some r => Some r
  | None =>
      match stepHiddenSingle grid gridSize with
      | Some r => Some r
      | None => stepNakedPair grid gridSize
      end
  end.

(** [highlighted.add(cellKey(row, col))] *)
Definition addKey (p : Position) (highlighted : list Position)
  : list Position :=
  if existsb (samePosition p) highlighted then highlighted
  else highlighted ++ [p].

(** The row, the column and the box of the target. *)
Definition hintHighlights (gridSize row col : nat) : list Position :=
  let boxSize := if gridSize =? 4 then 2 else if gridSize =? 6 then 2 else 3 in
  let boxColSize := if gridSize =? 6 then 3 else boxSize in
  let boxRow := row / boxSize * boxSize in
  let boxCol := col / boxColSize * boxColSize in
  let highlighted := [] in
  let highlighted :=
    forEach (seq 0 gridSize) (fun c => addKey (row, c)) highlighted in
  let highlighted :=
    forEach (seq 0 gridSize) (fun r => addKey (r, col)) highlighted in
  forEach (seq boxRow boxSize) (fun r =>
    forEach (seq boxCol boxColSize) (fun c => addKey (r, c))) highlighted.

Definition useHint (st : GameState) : GameState :=
  match solution st, currentGrid st with
  | Some _, Some grid =>
      match findHint grid (gridSize st) with
      | None =>
          {| solution := solution st;
             currentGrid := currentGrid st;
             gridSize := gridSize st;
             selectedCell := selectedCell st;
             hintsUsed := hintsUsed st;
             highlightedCells := highlightedCells st;
             showRowHighlight := showRowHighlight st;
             showColumnHighlight := showColumnHighlight st;
             showBoxHighlight := showBoxHighlight st;
             hintCell := None;
             hintStrategy :=
               Some {| strategy := advanced;
                       confidence := 0;
                       explanation := NeedsAdvanced;
                       affectedCells := None |};
             showHint := true |}
      | Some (row, col, value, result) =>
          {| solution := solution st;
             currentGrid := currentGrid st;
             gridSize := gridSize st;
             selectedCell := Some (row, col);
             hintsUsed := hintsUsed st + 1;
             highlightedCells := hintHighlights (gridSize st) row col;
             showRowHighlight := true;
             showColumnHighlight := true;
             showBoxHighlight := true;
             hintCell := Some (row, col, value);
             hintStrategy := Some result;
             showHint := true |}
      end
  | _, _ => st
  end.

(** A game in progress on [grid]: the state after [startNewGame], as far
    as [useHint] reads it. *)
Definition inProgress (grid sol : SudokuGrid) : GameState :=
  {| solution := Some sol;
     currentGrid := Some grid;
     gridSize := length grid;
     selectedCell := None;
     hintsUsed := 0;
     highlightedCells := [];
     showRowHighlight := true;
     showColumnHighlight := false;
     showBoxHighlight := false;
     hintCell := None;
     hintStrategy := None;
     showHint := false |}.

End GameStore.

(** ** The game store: moves, history, pencil marks, highlights

    The other actions of the store.  A [set] call replaces the fields it
    names; an action that throws before its first [set] leaves the state as
    it is.  [Date.now()] is a parameter of the actions that call it.  The
    asynchronous strategy prediction that [makeMove] starts after its
    updates needs the absent modules [@/lib/ml] and
    [@/lib/sudoku/strategies] and writes the teaching fields
    [lastStrategy], [showFeedback] and [strategiesUsed] only; these fields
    are left out, as are [puzzleId] and [difficulty], which no action reads. *)

Module GameMoves.
Import Validator.

(** A [Move]; the value 0 is a cleared cell. *)
Record Move := {
  row : nat;
  col : nat;
  value : nat;
  timestamp : nat
}.

(** [Map<string, Set<number>>], in insertion order; the keys are the
    strings [cellKey(row, col)], one for every position. *)
Definition PencilMarks : Type := list (Position * list nat).

Record GameState := {
  initialGrid : option SudokuGrid;
  currentGrid : option SudokuGrid;
  solution : option SudokuGrid;
  gridSize : nat;
  selectedCell : option Position;
  moveHistory : list Move;
  historyIndex : Z;
  hintsUsed : nat;
  mistakes : nat;
  isComplete : bool;
  startTime : option nat;
  endTime : option nat;
  pencilMarks : PencilMarks;
  isPencilMode : bool;
  highlightedCells : list Position;
  errorCells : list Position;
  showRowHighlight : bool;
  showColumnHighlight : bool;
  showBoxHighlight : bool;
  showErrorFeedback : bool;
  autoCleanPencilMarks : bool;
  hintCell : option (nat * nat * nat);
  hintStrategy : option GameStore.StrategyResult;
  showHint : bool
}.

(** [m.has(key)] *)
Definition marksHas (m : PencilMarks) (key : Position) : bool :=
  existsb (fun e => bool_decide (e.1 = key)) m.

(** [m.get(key)] *)
Definition marksGet (m : PencilMarks) (key : Position) : option (list nat) :=
  snd <$> List.find (fun e => bool_decide (e.1 = key)) m.

(** [m.set(key, marks)]: in place for a key of the map, at the end for a
    new key. *)
Definition marksSet (m : PencilMarks) (key : Position) (marks : list nat)
  : PencilMarks :=
  if marksHas m key
  then map (fun e => if bool_decide (e.1 = key) then (key, marks) else e) m
  else m ++ [(key, marks)].

(** [m.delete(key)] *)
Definition marksDelete (m : PencilMarks) (key : Position) : PencilMarks :=
  List.filter (fun e => negb (bool_decide (e.1 = key))) m.

(** [const marks = m.get(key); if (marks && marks.has(value)) {
    marks.delete(value); if (marks.size === 0) m.delete(key) }] *)
Definition cleanMark (value : nat) (key : Position) (m : PencilMarks)
  : PencilMarks :=
  match marksGet m key with
  | Some marks =>
      if setHas marks value then
        let marks := setDelete marks value in
        if length marks =? 0 then marksDelete m key
        else marksSet m key marks
      else m
  | None => m
  end.

(** The auto-clean of [makeMove]: along the row and the column, then over
    the box. *)
Definition autoClean (gridSize row col value : nat) (m : PencilMarks)
  : PencilMarks :=
  let boxSize := if gridSize =? 4 then 2 else if gridSize =? 6 then 2 else 3 in
  let boxColSize := if gridSize =? 6 then 3 else boxSize in
  let boxRow := row / boxSize * boxSize in
  let boxCol := col / boxColSize * boxColSize in
  let m :=
    forEach (seq 0 gridSize) (fun i m =>
      cleanMark value (i, col) (cleanMark value (row, i) m)) m in
  forEach (seq boxRow boxSize) (fun r m =>
    forEach (seq boxCol boxColSize) (fun c m => cleanMark value (r, c) m) m)
    m.

(** [l.slice(0, k)]; a negative [k] counts from the end. *)
Definition sliceTo {A : Type} (l : list A) (k : Z) : list A :=
  if (k <? 0)%Z then take (Z.to_nat (Z.of_nat (length l) + k)) l
  else take (Z.to_nat k) l.

(** [grid[row][col] = cell] on a cell of the grid; [None] when the grid
    has no such cell.  Without the row the assignment throws; a column
    beyond the end of a row would extend the row, which does not happen on
    the square grids of a game, where the guards of the actions have read
    the cell before. *)
Definition writeCell (grid : SudokuGrid) (row col : nat) (cell : option nat)
  : option SudokuGrid :=
  match cellAt grid row col with
  | Some _ => Some (alter (fun r => <[col := cell]> r) row grid)
  | None => None
  end.

(** [newGrid[move.row][move.col] = move.value === 0 ? null : move.value] *)
Definition applyMoveTo (grid : SudokuGrid) (move : Move)
  : option SudokuGrid :=
  writeCell grid (row move) (col move)
    (if value move =? 0 then None else Some (value move)).

(** The loop of [undo]: the moves applied in order; [None] when one of
    them throws. *)
Fixpoint replay (grid : SudokuGrid) (moves : list Move)
  : option SudokuGrid :=
  match moves with
  | [] => Some grid
  | move :: moves' =>
      match applyMoveTo grid move with
      | Some grid' => replay grid' moves'
      | None => None
      end
  end.

(** [function checkCompletion(grid, solution)]: the cells of [grid], row
    by row, against the same cells of [solution]; a cell that [solution]
    does not have is [undefined] there and differs.  Reading a cell in a
    row that [solution] does not have throws instead: in [makeMove], the
    only caller, the grid and the history are set by then and
    [isComplete] is left as it is, as for [false]. *)
Definition checkCompletion (grid sol : SudokuGrid) : bool :=
  forallb (fun r =>
    forallb (fun c => bool_decide (cellAt grid r c = cellAt sol r c))
      (seq 0 (length (default [] (grid !! r)))))
    (seq 0 (length grid)).

(** The highlighted cells of [selectCell], by the three preferences. *)
Definition selectHighlights (gridSize row col : nat)
  (showRow showColumn showBox : bool) : list Position :=
  let highlighted := [] in
  let highlighted :=
    if showRow
    then forEach (seq 0 gridSize) (fun c => GameStore.addKey (row, c))
           highlighted
    else highlighted in
  let highlighted :=
    if showColumn
    then forEach (seq 0 gridSize) (fun r => GameStore.addKey (r, col))
           highlighted
    else highlighted in
  if showBox then
    let boxSize :=
      if gridSize =? 4 then 2 else if gridSize =? 6 then 2 else 3 in
    let boxColSize := if gridSize =? 6 then 3 else boxSize in
    let boxRow := row / boxSize * boxSize in
    let boxCol := col / boxColSize * boxColSize in
    forEach (seq boxRow boxSize) (fun r =>
      forEach (seq boxCol boxColSize) (fun c => GameStore.addKey (r, c)))
      highlighted
  else highlighted.


(** The arguments are array indices; the guard also rejects a negative
    row or column. *)
Definition selectCell (r c : nat) (st : GameState) : GameState :=
  match currentGrid st with
  | None => st
  | Some _ =>
      if (gridSize st <=? r) || (gridSize st <=? c) then st
      else
        {| initialGrid := initialGrid st;
           currentGrid := currentGrid st;
           solution := solution st;
           gridSize := gridSize st;
           selectedCell := Some (r, c);
           moveHistory := moveHistory st;
           historyIndex := historyIndex st;
           hintsUsed := hintsUsed st;
           mistakes := mistakes st;
           isComplete := isComplete st;
           startTime := startTime st;
           endTime := endTime st;
           pencilMarks := pencilMarks st;
           isPencilMode := isPencilMode st;
           highlightedCells := selectHighlights (gridSize st) r c (showRowHighlight st)
               (showColumnHighlight st) (showBoxHighlight st);
           errorCells := errorCells st;
           showRowHighlight := showRowHighlight st;
           showColumnHighlight := showColumnHighlight st;
           showBoxHighlight := showBoxHighlight st;
           showErrorFeedback := showErrorFeedback st;
           autoCleanPencilMarks := autoCleanPencilMarks st;
           hintCell := hintCell st;
           hintStrategy := hintStrategy st;
           showHint := showHint st |}
  end.


Definition addPencilMark (v : nat) (st : GameState) : GameState :=
  match selectedCell st, currentGrid st with
  | Some (r, c), Some grid =>
      if negb (isNull grid r c) then st
      else
        let key := (r, c) in
        let newPencilMarks := pencilMarks st in
        let newPencilMarks :=
          if negb (marksHas newPencilMarks key)
          then marksSet newPencilMarks key []
          else newPencilMarks in
        let marks := default [] (marksGet newPencilMarks key) in
        let marks :=
          if setHas marks v then setDelete marks v else marks ++ [v] in
        {| initialGrid := initialGrid st;
           currentGrid := currentGrid st;
           solution := solution st;
           gridSize := gridSize st;
           selectedCell := selectedCell st;
           moveHistory := moveHistory st;
           historyIndex := historyIndex st;
           hintsUsed := hintsUsed st;
           mistakes := mistakes st;
           isComplete := isComplete st;
           startTime := startTime st;
           endTime := endTime st;
           pencilMarks := marksSet newPencilMarks key marks;
           isPencilMode := isPencilMode st;
           highlightedCells := highlightedCells st;
           errorCells := errorCells st;
           showRowHighlight := showRowHighlight st;
           showColumnHighlight := showColumnHighlight st;
           showBoxHighlight := showBoxHighlight st;
           showErrorFeedback := showErrorFeedback st;
           autoCleanPencilMarks := autoCleanPencilMarks st;
           hintCell := hintCell st;
           hintStrategy := hintStrategy st;
           showHint := showHint st |}
  | _, _ => st
  end.

Definition removePencilMark (v : nat) (st : GameState) : GameState :=
  match selectedCell st with
  | Some key =>
      let newPencilMarks := pencilMarks st in
      {| initialGrid := initialGrid st;
         currentGrid := currentGrid st;
         solution := solution st;
         gridSize := gridSize st;
         selectedCell := selectedCell st;
         moveHistory := moveHistory st;
         historyIndex := historyIndex st;
         hintsUsed := hintsUsed st;
         mistakes := mistakes st;
         isComplete := isComplete st;
         startTime := startTime st;
         endTime := endTime st;
         pencilMarks := match marksGet newPencilMarks key with
             | Some marks =>
                 marksSet newPencilMarks key (setDelete marks v)
             | None => newPencilMarks
             end;
         isPencilMode := isPencilMode st;
         highlightedCells := highlightedCells st;
         errorCells := errorCells st;
         showRowHighlight := showRowHighlight st;
         showColumnHighlight := showColumnHighlight st;
         showBoxHighlight := showBoxHighlight st;
         showErrorFeedback := showErrorFeedback st;
         autoCleanPencilMarks := autoCleanPencilMarks st;
         hintCell := hintCell st;
         hintStrategy := hintStrategy st;
         showHint := showHint st |}
  | None => st
  end.

Definition clearPencilMarks (st : GameState) : GameState :=
  match selectedCell st with
  | Some key =>
      {| initialGrid := initialGrid st;
         currentGrid := currentGrid st;
         solution := solution st;
         gridSize := gridSize st;
         selectedCell := selectedCell st;
         moveHistory := moveHistory st;
         historyIndex := historyIndex st;
         hintsUsed := hintsUsed st;
         mistakes := mistakes st;
         isComplete := isComplete st;
         startTime := startTime st;
         endTime := endTime st;
         pencilMarks := marksDelete (pencilMarks st) key;
         isPencilMode := isPencilMode st;
         highlightedCells := highlightedCells st;
         errorCells := errorCells st;
         showRowHighlight := showRowHighlight st;
         showColumnHighlight := showColumnHighlight st;
         showBoxHighlight := showBoxHighlight st;
         showErrorFeedback := showErrorFeedback st;
         autoCleanPencilMarks := autoCleanPencilMarks st;
         hintCell := hintCell st;
         hintStrategy := hintStrategy st;
         showHint := showHint st |}
  | None => st
  end.

Definition togglePencilMode (st : GameState) : GameState :=
  {| initialGrid := initialGrid st;
     currentGrid := currentGrid st;
     solution := solution st;
     gridSize := gridSize st;
     selectedCell := selectedCell st;
     moveHistory := moveHistory st;
     historyIndex := historyIndex st;
     hintsUsed := hintsUsed st;
     mistakes := mistakes st;
     isComplete := isComplete st;
     startTime := startTime st;
     endTime := endTime st;
     pencilMarks := pencilMarks st;
     isPencilMode := negb (isPencilMode st);
     highlightedCells := highlightedCells st;
     errorCells := errorCells st;
     showRowHighlight := showRowHighlight st;
     showColumnHighlight := showColumnHighlight st;
     showBoxHighlight := showBoxHighlight st;
     showErrorFeedback := showErrorFeedback st;
     autoCleanPencilMarks := autoCleanPencilMarks st;
     hintCell := hintCell st;
     hintStrategy := hintStrategy st;
     showHint := showHint st |}.


(** [makeMove(value)] up to the start of the asynchronous prediction;
    [now] and [endNow] are the two readings of [Date.now()].  The timer
    that empties [errorCells] 300 ms after a rejected move is a later
    event. *)
Definition makeMove (v now endNow : nat) (st : GameState) : GameState :=
  match selectedCell st, currentGrid st, solution st, initialGrid st with
  | Some (r, c), Some grid, Some sol, Some initial =>
      if negb (isNull initial r c) then st
      else if isPencilMode st then addPencilMark v st
      else if negb (isValidMove grid r c v) then
        {| initialGrid := initialGrid st;
           currentGrid := currentGrid st;
           solution := solution st;
           gridSize := gridSize st;
           selectedCell := selectedCell st;
           moveHistory := moveHistory st;
           historyIndex := historyIndex st;
           hintsUsed := hintsUsed st;
           mistakes := mistakes st + 1;
           isComplete := isComplete st;
           startTime := startTime st;
           endTime := endTime st;
           pencilMarks := pencilMarks st;
           isPencilMode := isPencilMode st;
           highlightedCells := highlightedCells st;
           errorCells := if showErrorFeedback st then [(r, c)] else errorCells st;
           showRowHighlight := showRowHighlight st;
           showColumnHighlight := showColumnHighlight st;
           showBoxHighlight := showBoxHighlight st;
           showErrorFeedback := showErrorFeedback st;
           autoCleanPencilMarks := autoCleanPencilMarks st;
           hintCell := hintCell st;
           hintStrategy := hintStrategy st;
           showHint := showHint st |}
      else
        match writeCell (cloneGrid grid) r c (Some v) with
        | None => st
        | Some newGrid =>
            let newMove :=
              {| row := r; col := c; value := v; timestamp := now |} in
            let newHistory :=
              sliceTo (moveHistory st) (historyIndex st + 1) ++ [newMove] in
            let newPencilMarks := marksDelete (pencilMarks st) (r, c) in
            let newPencilMarks :=
              if autoCleanPencilMarks st
              then autoClean (gridSize st) r c v newPencilMarks
              else newPencilMarks in
            let complete := checkCompletion newGrid sol in
            {| initialGrid := initialGrid st;
               currentGrid := Some newGrid;
               solution := solution st;
               gridSize := gridSize st;
               selectedCell := selectedCell st;
               moveHistory := newHistory;
               historyIndex := (Z.of_nat (length newHistory) - 1)%Z;
               hintsUsed := hintsUsed st;
               mistakes := mistakes st;
               isComplete := if complete then true else isComplete st;
               startTime := startTime st;
               endTime := if complete then Some endNow else endTime st;
               pencilMarks := newPencilMarks;
               isPencilMode := isPencilMode st;
               highlightedCells := [];
               errorCells := errorCells st;
               showRowHighlight := showRowHighlight st;
               showColumnHighlight := showColumnHighlight st;
               showBoxHighlight := showBoxHighlight st;
               showErrorFeedback := showErrorFeedback st;
               autoCleanPencilMarks := autoCleanPencilMarks st;
               hintCell := None;
               hintStrategy := None;
               showHint := false |}
        end
  | _, _, _, _ => st
  end.

Definition clearCell (now : nat) (st : GameState) : GameState :=
  match selectedCell st, currentGrid st, initialGrid st with
  | Some (r, c), Some grid, Some initial =>
      if negb (isNull initial r c) then st
      else
        match writeCell (cloneGrid grid) r c None with
        | None => st
        | Some newGrid =>
            let newMove :=
              {| row := r; col := c; value := 0; timestamp := now |} in
            let newHistory :=
              sliceTo (moveHistory st) (historyIndex st + 1) ++ [newMove] in
            {| initialGrid := initialGrid st;
               currentGrid := Some newGrid;
               solution := solution st;
               gridSize := gridSize st;
               selectedCell := selectedCell st;
               moveHistory := newHistory;
               historyIndex := (Z.of_nat (length newHistory) - 1)%Z;
               hintsUsed := hintsUsed st;
               mistakes := mistakes st;
               isComplete := isComplete st;
               startTime := startTime st;
               endTime := endTime st;
               pencilMarks := pencilMarks st;
               isPencilMode := isPencilMode st;
               highlightedCells := highlightedCells st;
               errorCells := errorCells st;
               showRowHighlight := showRowHighlight st;
               showColumnHighlight := showColumnHighlight st;
               showBoxHighlight := showBoxHighlight st;
               showErrorFeedback := showErrorFeedback st;
               autoCleanPencilMarks := autoCleanPencilMarks st;
               hintCell := hintCell st;
               hintStrategy := hintStrategy st;
               showHint := showHint st |}
        end
  | _, _, _ => st
  end.

(** [undo]: the loop reads [moveHistory[i]] for every [i < historyIndex]
    and throws when there is no such move. *)
Definition undo (st : GameState) : GameState :=
  match initialGrid st with
  | Some initial =>
      if (historyIndex st <? 0)%Z then st
      else if (Z.of_nat (length (moveHistory st)) <? historyIndex st)%Z
      then st
      else
        match replay (cloneGrid initial)
                (take (Z.to_nat (historyIndex st)) (moveHistory st)) with
        | None => st
        | Some newGrid =>
            {| initialGrid := initialGrid st;
               currentGrid := Some newGrid;
               solution := solution st;
               gridSize := gridSize st;
               selectedCell := selectedCell st;
               moveHistory := moveHistory st;
               historyIndex := (historyIndex st - 1)%Z;
               hintsUsed := hintsUsed st;
               mistakes := mistakes st;
               isComplete := false;
               startTime := startTime st;
               endTime := endTime st;
               pencilMarks := pencilMarks st;
               isPencilMode := isPencilMode st;
               highlightedCells := highlightedCells st;
               errorCells := errorCells st;
               showRowHighlight := showRowHighlight st;
               showColumnHighlight := showColumnHighlight st;
               showBoxHighlight := showBoxHighlight st;
               showErrorFeedback := showErrorFeedback st;
               autoCleanPencilMarks := autoCleanPencilMarks st;
               hintCell := hintCell st;
               hintStrategy := hintStrategy st;
               showHint := showHint st |}
        end
  | None => st
  end.

(** [redo]: [moveHistory[historyIndex + 1]] is a move of the history, or
    the action throws. *)
Definition redo (st : GameState) : GameState :=
  match currentGrid st with
  | Some grid =>
      if (Z.of_nat (length (moveHistory st)) - 1 <=? historyIndex st)%Z
      then st
      else if (historyIndex st + 1 <? 0)%Z then st
      else
        match moveHistory st !! Z.to_nat (historyIndex st + 1) with
        | None => st
        | Some nextMove =>
            match applyMoveTo (cloneGrid grid) nextMove with
            | None => st
            | Some newGrid =>
                {| initialGrid := initialGrid st;
                   currentGrid := Some newGrid;
                   solution := solution st;
                   gridSize := gridSize st;
                   selectedCell := selectedCell st;
                   moveHistory := moveHistory st;
                   historyIndex := (historyIndex st + 1)%Z;
                   hintsUsed := hintsUsed st;
                   mistakes := mistakes st;
                   isComplete := isComplete st;
                   startTime := startTime st;
                   endTime := endTime st;
                   pencilMarks := pencilMarks st;
                   isPencilMode := isPencilMode st;
                   highlightedCells := highlightedCells st;
                   errorCells := errorCells st;
                   showRowHighlight := showRowHighlight st;
                   showColumnHighlight := showColumnHighlight st;
                   showBoxHighlight := showBoxHighlight st;
                   showErrorFeedback := showErrorFeedback st;
                   autoCleanPencilMarks := autoCleanPencilMarks st;
                   hintCell := hintCell st;
                   hintStrategy := hintStrategy st;
                   showHint := showHint st |}
            end
        end
  | None => st
  end.


Definition dismissHint (st : GameState) : GameState :=
  {| initialGrid := initialGrid st;
     currentGrid := currentGrid st;
     solution := solution st;
     gridSize := gridSize st;
     selectedCell := selectedCell st;
     moveHistory := moveHistory st;
     historyIndex := historyIndex st;
     hintsUsed := hintsUsed st;
     mistakes := mistakes st;
     isComplete := isComplete st;
     startTime := startTime st;
     endTime := endTime st;
     pencilMarks := pencilMarks st;
     isPencilMode := isPencilMode st;
     highlightedCells := [];
     errorCells := errorCells st;
     showRowHighlight := showRowHighlight st;
     showColumnHighlight := showColumnHighlight st;
     showBoxHighlight := showBoxHighlight st;
     showErrorFeedback := showErrorFeedback st;
     autoCleanPencilMarks := autoCleanPencilMarks st;
     hintCell := None;
     hintStrategy := None;
     showHint := false |}.

Definition resetGame (now : nat) (st : GameState) : GameState :=
  match initialGrid st with
  | Some initial =>
      {| initialGrid := initialGrid st;
         currentGrid := Some (cloneGrid initial);
         solution := solution st;
         gridSize := gridSize st;
         selectedCell := None;
         moveHistory := [];
         historyIndex := (-1)%Z;
         hintsUsed := 0;
         mistakes := 0;
         isComplete := false;
         startTime := Some now;
         endTime := None;
         pencilMarks := [];
         isPencilMode := false;
         highlightedCells := [];
         errorCells := [];
         showRowHighlight := showRowHighlight st;
         showColumnHighlight := showColumnHighlight st;
         showBoxHighlight := showBoxHighlight st;
         showErrorFeedback := showErrorFeedback st;
         autoCleanPencilMarks := autoCleanPencilMarks st;
         hintCell := None;
         hintStrategy := None;
         showHint := false |}
  | None => st
  end.

(** [const { selectedCell } = get(); if (selectedCell)
    get().selectCell(selectedCell.row, selectedCell.col)] *)
Definition reselect (st : GameState) : GameState :=
  match selectedCell st with
  | Some (r, c) => selectCell r c st
  | None => st
  end.

Definition toggleRowHighlight (st : GameState) : GameState :=
  reselect
    {| initialGrid := initialGrid st;
       currentGrid := currentGrid st;
       solution := solution st;
       gridSize := gridSize st;
       selectedCell := selectedCell st;
       moveHistory := moveHistory st;
       historyIndex := historyIndex st;
       hintsUsed := hintsUsed st;
       mistakes := mistakes st;
       isComplete := isComplete st;
       startTime := startTime st;
       endTime := endTime st;
       pencilMarks := pencilMarks st;
       isPencilMode := isPencilMode st;
       highlightedCells := highlightedCells st;
       errorCells := errorCells st;
       showRowHighlight := negb (showRowHighlight st);
       showColumnHighlight := showColumnHighlight st;
       showBoxHighlight := showBoxHighlight st;
       showErrorFeedback := showErrorFeedback st;
       autoCleanPencilMarks := autoCleanPencilMarks st;
       hintCell := hintCell st;
       hintStrategy := hintStrategy st;
       showHint := showHint st |}.

Definition toggleColumnHighlight (st : GameState) : GameState :=
  reselect
    {| initialGrid := initialGrid st;
       currentGrid := currentGrid st;
       solution := solution st;
       gridSize := gridSize st;
       selectedCell := selectedCell st;
       moveHistory := moveHistory st;
       historyIndex := historyIndex st;
       hintsUsed := hintsUsed st;
       mistakes := mistakes st;
       isComplete := isComplete st;
       startTime := startTime st;
       endTime := endTime st;
       pencilMarks := pencilMarks st;
       isPencilMode := isPencilMode st;
       highlightedCells := highlightedCells st;
       errorCells := errorCells st;
       showRowHighlight := showRowHighlight st;
       showColumnHighlight := negb (showColumnHighlight st);
       showBoxHighlight := showBoxHighlight st;
       showErrorFeedback := showErrorFeedback st;
       autoCleanPencilMarks := autoCleanPencilMarks st;
       hintCell := hintCell st;
       hintStrategy := hintStrategy st;
       showHint := showHint st |}.

Definition toggleBoxHighlight (st : GameState) : GameState :=
  reselect
    {| initialGrid := initialGrid st;
       currentGrid := currentGrid st;
       solution := solution st;
       gridSize := gridSize st;
       selectedCell := selectedCell st;
       moveHistory := moveHistory st;
       historyIndex := historyIndex st;
       hintsUsed := hintsUsed st;
       mistakes := mistakes st;
       isComplete := isComplete st;
       startTime := startTime st;
       endTime := endTime st;
       pencilMarks := pencilMarks st;
       isPencilMode := isPencilMode st;
       highlightedCells := highlightedCells st;
       errorCells := errorCells st;
       showRowHighlight := showRowHighlight st;
       showColumnHighlight := showColumnHighlight st;
       showBoxHighlight := negb (showBoxHighlight st);
       showErrorFeedback := showErrorFeedback st;
       autoCleanPencilMarks := autoCleanPencilMarks st;
       hintCell := hintCell st;
       hintStrategy := hintStrategy st;
       showHint := showHint st |}.

Definition applyHighlightPreset (difficulty : StrategySolver.Difficulty)
  (st : GameState) : GameState :=
  let preset :=
    match difficulty with
    | StrategySolver.beginner => (true, true, true)
    | StrategySolver.easy => (true, true, false)
    | StrategySolver.medium => (true, false, false)
    | StrategySolver.hard | StrategySolver.expert => (false, false, false)
    end in
  reselect
    {| initialGrid := initialGrid st;
       currentGrid := currentGrid st;
       solution := solution st;
       gridSize := gridSize st;
       selectedCell := selectedCell st;
       moveHistory := moveHistory st;
       historyIndex := historyIndex st;
       hintsUsed := hintsUsed st;
       mistakes := mistakes st;
       isComplete := isComplete st;
       startTime := startTime st;
       endTime := endTime st;
       pencilMarks := pencilMarks st;
       isPencilMode := isPencilMode st;
       highlightedCells := highlightedCells st;
       errorCells := errorCells st;
       showRowHighlight := preset.1.1;
       showColumnHighlight := preset.1.2;
       showBoxHighlight := preset.2;
       showErrorFeedback := showErrorFeedback st;
       autoCleanPencilMarks := autoCleanPencilMarks st;
       hintCell := hintCell st;
       hintStrategy := hintStrategy st;
       showHint := showHint st |}.

Definition toggleErrorFeedback (st : GameState) : GameState :=
  {| initialGrid := initialGrid st;
     currentGrid := currentGrid st;
     solution := solution st;
     gridSize := gridSize st;
     selectedCell := selectedCell st;
     moveHistory := moveHistory st;
     historyIndex := historyIndex st;
     hintsUsed := hintsUsed st;
     mistakes := mistakes st;
     isComplete := isComplete st;
     startTime := startTime st;
     endTime := endTime st;
     pencilMarks := pencilMarks st;
     isPencilMode := isPencilMode st;
     highlightedCells := highlightedCells st;
     errorCells := errorCells st;
     showRowHighlight := showRowHighlight st;
     showColumnHighlight := showColumnHighlight st;
     showBoxHighlight := showBoxHighlight st;
     showErrorFeedback := negb (showErrorFeedback st);
     autoCleanPencilMarks := autoCleanPencilMarks st;
     hintCell := hintCell st;
     hintStrategy := hintStrategy st;
     showHint := showHint st |}.

Definition toggleAutoCleanPencilMarks (st : GameState) : GameState :=
  {| initialGrid := initialGrid st;
     currentGrid := currentGrid st;
     solution := solution st;
     gridSize := gridSize st;
     selectedCell := selectedCell st;
     moveHistory := moveHistory st;
     historyIndex := historyIndex st;
     hintsUsed := hintsUsed st;
     mistakes := mistakes st;
     isComplete := isComplete st;
     startTime := startTime st;
     endTime := endTime st;
     pencilMarks := pencilMarks st;
     isPencilMode := isPencilMode st;
     highlightedCells := highlightedCells st;
     errorCells := errorCells st;
     showRowHighlight := showRowHighlight st;
     showColumnHighlight := showColumnHighlight st;
     showBoxHighlight := showBoxHighlight st;
     showErrorFeedback := showErrorFeedback st;
     autoCleanPencilMarks := negb (autoCleanPencilMarks st);
     hintCell := hintCell st;
     hintStrategy := hintStrategy st;
     showHint := showHint st |}.

(** The fields of the state that [useHint] reads or writes. *)
Definition hintView (st : GameState) : GameStore.GameState :=
  {| GameStore.solution := solution st;
     GameStore.currentGrid := currentGrid st;
     GameStore.gridSize := gridSize st;
     GameStore.selectedCell := selectedCell st;
     GameStore.hintsUsed := hintsUsed st;
     GameStore.highlightedCells := highlightedCells st;
     GameStore.showRowHighlight := showRowHighlight st;
     GameStore.showColumnHighlight := showColumnHighlight st;
     GameStore.showBoxHighlight := showBoxHighlight st;
     GameStore.hintCell := hintCell st;
     GameStore.hintStrategy := hintStrategy st;
     GameStore.showHint := showHint st |}.

(** [useHint] on the whole state. *)
Definition useHint (st : GameState) : GameState :=
  let h := GameStore.useHint (hintView st) in
  {| initialGrid := initialGrid st;
     currentGrid := currentGrid st;
     solution := solution st;
     gridSize := gridSize st;
     selectedCell := GameStore.selectedCell h;
     moveHistory := moveHistory st;
     historyIndex := historyIndex st;
     hintsUsed := GameStore.hintsUsed h;
     mistakes := mistakes st;
     isComplete := isComplete st;
     startTime := startTime st;
     endTime := endTime st;
     pencilMarks := pencilMarks st;
     isPencilMode := isPencilMode st;
     highlightedCells := GameStore.highlightedCells h;
     errorCells := errorCells st;
     showRowHighlight := GameStore.showRowHighlight h;
     showColumnHighlight := GameStore.showColumnHighlight h;
     showBoxHighlight := GameStore.showBoxHighlight h;
     showErrorFeedback := showErrorFeedback st;
     autoCleanPencilMarks := autoCleanPencilMarks st;
     hintCell := GameStore.hintCell h;
     hintStrategy := GameStore.hintStrategy h;
     showHint := GameStore.showHint h |}.

(** Modelled from the spec: [generatePuzzle] of the absent generator
    module returns a puzzle "grid" and its "solution"; they are the
    arguments [puzzle] and [sol] of [startNewGame] here. *)
Definition startNewGame (puzzle sol : SudokuGrid) (size : nat)
  (difficulty : StrategySolver.Difficulty) (now : nat) (st : GameState)
  : GameState :=
  applyHighlightPreset difficulty
    {| initialGrid := Some puzzle;
       currentGrid := Some (cloneGrid puzzle);
       solution := Some sol;
       gridSize := size;
       selectedCell := None;
       moveHistory := [];
       historyIndex := (-1)%Z;
       hintsUsed := 0;
       mistakes := 0;
       isComplete := false;
       startTime := Some now;
       endTime := None;
       pencilMarks := [];
       isPencilMode := false;
       highlightedCells := [];
       errorCells := [];
       showRowHighlight := showRowHighlight st;
       showColumnHighlight := showColumnHighlight st;
       showBoxHighlight := showBoxHighlight st;
       showErrorFeedback := showErrorFeedback st;
       autoCleanPencilMarks := autoCleanPencilMarks st;
       hintCell := None;
       hintStrategy := None;
       showHint := false |}.

(** What a player can trigger in a game. *)
Inductive Action :=
| SelectCell (r c : nat)
| MakeMove (v now endNow : nat)
| ClearCell (now : nat)
| Undo
| Redo
| TogglePencilMode
| AddPencilMark (v : nat)
| RemovePencilMark (v : nat)
| ClearPencilMarks
| UseHint
| DismissHint
| ResetGame (now : nat)
| ToggleRowHighlight
| ToggleColumnHighlight
| ToggleBoxHighlight
| ApplyHighlightPreset (difficulty : StrategySolver.Difficulty)
| ToggleErrorFeedback
| ToggleAutoCleanPencilMarks.

Definition act (a : Action) (st : GameState) : GameState :=
  match a with
  | SelectCell r c => selectCell r c st
  | MakeMove v now endNow => makeMove v now endNow st
  | ClearCell now => clearCell now st
  | Undo => undo st
  | Redo => redo st
  | TogglePencilMode => togglePencilMode st
  | AddPencilMark v => addPencilMark v st
  | RemovePencilMark v => removePencilMark v st
  | ClearPencilMarks => clearPencilMarks st
  | UseHint => useHint st
  | DismissHint => dismissHint st
  | ResetGame now => resetGame now st
  | ToggleRowHighlight => toggleRowHighlight st
  | ToggleColumnHighlight => toggleColumnHighlight st
  | ToggleBoxHighlight => toggleBoxHighlight st
  | ApplyHighlightPreset difficulty => applyHighlightPreset difficulty st
  | ToggleErrorFeedback => toggleErrorFeedback st
  | ToggleAutoCleanPencilMarks => toggleAutoCleanPencilMarks st
  end.

(** The actions of a play, one after the other. *)
Definition play (actions : list Action) (st : GameState) : GameState :=
  fold_left (fun s a => act a s) actions st.

(** The state of the store before the first game. *)
Definition initialStore : GameState :=
  {| initialGrid := None;
     currentGrid := None;
     solution := None;
     gridSize := 9;
     selectedCell := None;
     moveHistory := [];
     historyIndex := (-1)%Z;
     hintsUsed := 0;
     mistakes := 0;
     isComplete := false;
     startTime := None;
     endTime := None;
     pencilMarks := [];
     isPencilMode := false;
     highlightedCells := [];
     errorCells := [];
     showRowHighlight := true;
     showColumnHighlight := false;
     showBoxHighlight := false;
     showErrorFeedback := true;
     autoCleanPencilMarks := true;
     hintCell := None;
     hintStrategy := None;
     showHint := false |}.

(** The grid after the first [k] moves of the history. *)
Definition gridAfter (initial : SudokuGrid) (moves : list Move) (k : nat)
  : option SudokuGrid :=
  replay initial (take k moves).

(** The history and the grid agree: [historyIndex] points into the
    history, the current grid is the initial grid with the moves up to
    [historyIndex] applied, every move is on a cell that the initial grid
    leaves empty, and every prefix of the history can be replayed. *)
Definition inSync (st : GameState) : Prop :=
  exists initial grid,
    initialGrid st = Some initial
    /\ currentGrid st = Some grid
    /\ (-1 <= historyIndex st < Z.of_nat (length (moveHistory st)))%Z
    /\ gridAfter initial (moveHistory st) (Z.to_nat (historyIndex st + 1))
       = Some grid
    /\ (forall m, m ∈ moveHistory st -> isNull initial (row m) (col m) = true)
    /\ (forall k, k <= length (moveHistory st) ->
          is_Some (gridAfter initial (moveHistory st) k)).

(** The number of a move is not 0, which the history keeps for a cleared
    cell. *)
Definition nonzeroMove (a : Action) : Prop :=
  match a with
  | MakeMove v _ _ => v <> 0
  | _ => True
  end.

(** The two states have the same grids and the same history. *)
Definition sameBoard (st st' : GameState) : Prop :=
  initialGrid st' = initialGrid st
  /\ currentGrid st' = currentGrid st
  /\ moveHistory st' = moveHistory st
  /\ historyIndex st' = historyIndex st.

End GameMoves.

(** ** The hint oracle as the specification words it *)

Module HintSpec.
Import Validator GameStore.

(** The empty cell [p] has [v] among its candidates. *)
Definition canHold (grid : SudokuGrid) (p : Position) (v : nat) : bool :=
  isNull grid p.1 p.2 && includes (getCandidates grid p.1 p.2) v.

(** The units of a grid of size [n]: rows, columns, boxes. *)
Definition rowUnit (n row : nat) : list Position :=
  map (fun c => (row, c)) (seq 0 n).

Definition colUnit (n col : nat) : list Position :=
  map (fun r => (r, col)) (seq 0 n).

Definition boxUnit (n boxRow boxCol : nat) : list Position :=
  let d := getBoxDimensions n in
  flat_map (fun r =>
    map (fun c => (r, c)) (seq (boxCol * cols d) (cols d)))
    (seq (boxRow * rows d) (rows d)).

Definition rowUnits (n : nat) : list (list Position) :=
  map (rowUnit n) (seq 0 n).

Definition colUnits (n : nat) : list (list Position) :=
  map (colUnit n) (seq 0 n).

Definition boxUnits (n : nat) : list (list Position) :=
  let d := getBoxDimensions n in
  flat_map (fun boxRow => map (boxUnit n boxRow) (seq 0 (n / cols d)))
    (seq 0 (n / rows d)).

Definition units (n : nat) : list (list Position) :=
  rowUnits n ++ colUnits n ++ boxUnits n.

(** No cell of the unit other than [p] can hold [v]. *)
Definition aloneIn (grid : SudokuGrid) (unit : list Position)
  (p : Position) (v : nat) : bool :=
  forallb (fun q => samePosition q p || negb (canHold grid q v)) unit.

(** "A value confined to exactly one cell's candidates within a unit". *)
Definition confined (grid : SudokuGrid) (unit : list Position) (v : nat)
  : bool :=
  existsb (fun p => canHold grid p v && aloneIn grid unit p v) unit.

(** Some empty cell has exactly one candidate. *)
Definition hasNakedSingle (grid : SudokuGrid) (n : nat) : bool :=
  existsb (fun row =>
    existsb (fun col =>
      isNull grid row col && (length (getCandidates grid row col) =? 1))
      (seq 0 n))
    (seq 0 n).

(** Some value is confined to a single cell within some row, column or
    box. *)
Definition hasHiddenSingle (grid : SudokuGrid) (n : nat) : bool :=
  existsb (fun unit => existsb (confined grid unit) (seq 1 n)) (units n).

(** The cells [p] and [q] form a naked pair and taking their two values
    from the candidates of the cell [x] leaves exactly one. *)
Definition pairLeavesSingle (grid : SudokuGrid) (p q x : Position) : bool :=
  negb (samePosition p q) && negb (samePosition x p)
  && negb (samePosition x q)
  && isNull grid p.1 p.2 && isNull grid q.1 q.2 && isNull grid x.1 x.2
  && (length (getCandidates grid p.1 p.2) =? 2)
  && bool_decide (getCandidates grid p.1 p.2 = getCandidates grid q.1 q.2)
  && (length
        (List.filter
           (fun v => negb (includes (getCandidates grid p.1 p.2) v))
           (getCandidates grid x.1 x.2)) =? 1).

(** Some naked pair of some unit leaves another cell of that unit with
    exactly one candidate. *)
Definition hasPairSingle (grid : SudokuGrid) (n : nat) : bool :=
  existsb (fun unit =>
    existsb (fun p =>
      existsb (fun q =>
        existsb (fun x => pairLeavesSingle grid p q x) unit) unit) unit)
    (units n).

(** [v] is a hidden single of the cell [p]: [p] can hold it and no other
    cell of [p]'s row, or of its column, or of its box can. *)
Definition hiddenSingleAt (grid : SudokuGrid) (n : nat) (p : Position)
  (v : nat) : bool :=
  let d := getBoxDimensions n in
  canHold grid p v
  && (aloneIn grid (rowUnit n p.1) p v
      || aloneIn grid (colUnit n p.2) p v
      || aloneIn grid (boxUnit n (p.1 / rows d) (p.2 / cols d)) p v).

(** [p] comes before [q] in the row-by-row order of the cells. *)
Definition before (p q : Position) : Prop :=
  p.1 < q.1 \/ (p.1 = q.1 /\ p.2 < q.2).

(** The claim's scan: whole units, all rows first, then all columns, then
    all boxes; in a unit, value by value; the cell a value is confined
    to. *)
Definition unitScan (grid : SudokuGrid) (n : nat)
  : option (nat * nat * nat) :=
  firstSome (fun unit =>
    firstSome (fun v =>
      match List.filter (fun p => canHold grid p v) unit with
      | [p] => Some (p.1, p.2, v)
      | _ => None
      end)
      (seq 1 n))
    (units n).

(** The units as STEP 3 of [useHint] builds them. *)
Definition scannedUnits (n : nat) : list (list Position) :=
  map (fun row => map (fun col => (row, col)) (seq 0 n)) (seq 0 n)
  ++ map (fun col => map (fun row => (row, col)) (seq 0 n)) (seq 0 n)
  ++ flat_map (fun boxRow =>
       map (fun boxCol =>
         flat_map (fun r =>
           map (fun c =>
             (boxRow * boxHeight n + r, boxCol * boxWidth n + c))
             (seq 0 (boxWidth n)))
           (seq 0 (boxHeight n)))
         (seq 0 (boxCount n (boxWidth n))))
       (seq 0 (boxCount n (boxHeight n))).

(** Every unit STEP 3 builds is a unit of the grid, without repeated
    cell. *)
Definition scannedUnitsOk (n : nat) : bool :=
  forallb (fun unit =>
    bool_decide (NoDup unit) && bool_decide (unit ∈ units n))
    (scannedUnits n).

(** Every cell is in its row, its column and its box, which are units of
    the grid. *)
Definition unitsCover (n : nat) : bool :=
  let d := getBoxDimensions n in
  forallb (fun row =>
    forallb (fun col =>
      bool_decide ((row, col) ∈ rowUnit n row)
      && bool_decide (rowUnit n row ∈ units n)
      && bool_decide ((row, col) ∈ colUnit n col)
      && bool_decide (colUnit n col ∈ units n)
      && bool_decide
           ((row, col) ∈ boxUnit n (row / rows d) (col / cols d))
      && bool_decide (boxUnit n (row / rows d) (col / cols d) ∈ units n))
      (seq 0 n))
    (seq 0 n).

End HintSpec.

(** ** Grids as objects of the store

    A JavaScript grid is an array object whose elements are row array
    objects; [solveWithStrategies] receives a reference, and [applyMove]
    writes through one.  The store below holds the row arrays and the grid
    arrays by address; allocation appends.  The finders of the solver read
    the working grid through its reference at every pass. *)

Module GridHeap.
Import Validator StrategySolver.

Record Heap := {
  rowObjects : list (list (option nat));
  gridObjects : list (list nat)
}.

(** The row array at address [a]. *)
Definition readRow (h : Heap) (a : nat) : list (option nat) :=
  default [] (rowObjects h !! a).

(** The value of the grid object at [ref]: its rows, read through. *)
Definition readGrid (h : Heap) (ref : nat) : SudokuGrid :=
  map (readRow h) (default [] (gridObjects h !! ref)).

(** [ref] is a grid object of the store and its rows are row objects of
    the store. *)
Definition validGrid (h : Heap) (ref : nat) : Prop :=
  exists refs,
    gridObjects h !! ref = Some refs
    /\ Forall (fun a => a < length (rowObjects h)) refs.

(** Modelled from the spec: [cloneGrid] of the absent validator module, as
    an operation on the store ("consumers only clone it, never mutate the
    stored copy"; "all Grid values are pure value objects recreated at
    each pipeline stage"): a new row array for every row and a new grid
    array that holds them. *)
Definition cloneGrid (h : Heap) (ref : nat) : Heap * nat :=
  let copies := readGrid h ref in
  let newRows := seq (length (rowObjects h)) (length copies) in
  ({| rowObjects := rowObjects h ++ copies;
      gridObjects := gridObjects h ++ [newRows] |},
   length (gridObjects h)).

(** [grid[row][col] = value] through the reference [ref]. *)
Definition writeCell (h : Heap) (ref row col value : nat) : Heap :=
  match gridObjects h !! ref ≫= (.!! row) with
  | Some a =>
      {| rowObjects :=
           alter (fun r => <[col := Some value]> r) a (rowObjects h);
         gridObjects := gridObjects h |}
  | None => h
  end.

(** The variables of [solveWithStrategies] that the loop updates, with the
    store and the reference held by [workingGrid]. *)
Record HeapLoopState := {
  heap : Heap;
  workingGridRef : nat;
  candidatesOf : Candidates;
  usedOf : list Strategy;
  currentDifficultyOf : Difficulty;
  stepCountOf : nat
}.

(** The loop state as values: the working grid read through. *)
Definition valueState (s : HeapLoopState) : LoopState :=
  {| workingGrid := readGrid (heap s) (workingGridRef s);
     candidates := candidatesOf s;
     used := usedOf s;
     currentDifficulty := currentDifficultyOf s;
     stepCount := stepCountOf s |}.

Definition progress (s : HeapLoopState) (h : Heap) (c : Candidates)
  (t : Strategy) (d : Difficulty) : option Strategy * HeapLoopState :=
  (Some t,
   {| heap := h;
      workingGridRef := workingGridRef s;
      candidatesOf := c;
      usedOf := setAdd (usedOf s) t;
      currentDifficultyOf := maxDifficultyOf (currentDifficultyOf s) d;
      stepCountOf := S (stepCountOf s) |}).

(** One pass through the body of [while (madeProgress)], on the store. *)
Definition iteration (gridSize : nat) (s : HeapLoopState)
  : option Strategy * HeapLoopState :=
  let g := readGrid (heap s) (workingGridRef s) in
  match findNakedSingle g (candidatesOf s) gridSize with
  | Some (row, col, value) =>
      progress s (writeCell (heap s) (workingGridRef s) row col value)
        (applyMoveCandidates (candidatesOf s) row col value gridSize)
        naked_single beginner
  | None =>
  match findHiddenSingle g (candidatesOf s) gridSize with
  | Some (row, col, value) =>
      progress s (writeCell (heap s) (workingGridRef s) row col value)
        (applyMoveCandidates (candidatesOf s) row col value gridSize)
        hidden_single easy
  | None =>
      let np := findNakedPairEliminations (candidatesOf s) gridSize in
      if 0 <? np.2 then progress s (heap s) np.1 naked_pair medium
      else
      let pp := findPointingPairEliminations np.1 gridSize in
      if 0 <? pp.2 then progress s (heap s) pp.1 pointing_pair hard
      else
      let bl := findBoxLineEliminations pp.1 gridSize in
      if 0 <? bl.2 then progress s (heap s) bl.1 box_line_reduction hard
      else
        (None,
         {| heap := heap s;
            workingGridRef := workingGridRef s;
            candidatesOf := bl.1;
            usedOf := usedOf s;
            currentDifficultyOf := currentDifficultyOf s;
            stepCountOf := S (stepCountOf s) |})
  end
  end.

Fixpoint solveLoop (fuel gridSize : nat) (s : HeapLoopState)
  : option (list Strategy * HeapLoopState) :=
  match fuel with
  | 0 => None
  | S fuel' =>
      match iteration gridSize s with
      | (Some t, s') =>
          match solveLoop fuel' gridSize s' with
          | Some (ts, s'') => Some (t :: ts, s'')
          | None => None
          end
      | (None, s') => Some ([], s')
      end
  end.

(** The result object; [gridRef] is the reference it holds in [grid]. *)
Record SolveResultRef := {
  resSolved : bool;
  gridRef : nat;
  resStrategiesUsed : list Strategy;
  resMaxDifficulty : Difficulty;
  resSteps : nat
}.

Definition initialState (h : Heap) (ref : nat) : HeapLoopState :=
  let hw := cloneGrid h ref in
  {| heap := hw.1;
     workingGridRef := hw.2;
     candidatesOf := buildCandidateGrid (readGrid hw.1 hw.2);
     usedOf := [];
     currentDifficultyOf := beginner;
     stepCountOf := 0 |}.

Definition finish (s : HeapLoopState) : Heap * SolveResultRef :=
  let solved := isComplete (readGrid (heap s) (workingGridRef s)) in
  (heap s,
   {| resSolved := solved;
      gridRef := workingGridRef s;
      resStrategiesUsed :=
        if solved then usedOf s else setAdd (usedOf s) guessing;
      resMaxDifficulty := if solved then currentDifficultyOf s else expert;
      resSteps := stepCountOf s |}).

(** [solveWithStrategies(grid)] on the store [h], [grid] holding the
    reference [ref]: the store after the call and the result object. *)
Definition solveWithStrategies (h : Heap) (ref : nat)
  : option (Heap * SolveResultRef) :=
  let s := initialState h ref in
  let gridSize := length (readGrid (heap s) (workingGridRef s)) in
  match solveLoop (passBound (valueState s)) gridSize s with
  | Some (_, s') => Some (finish s')
  | None => None
  end.

(** The result object as a value: its grid read through. *)
Definition valueResult (hr : Heap * SolveResultRef) : SolveResult :=
  {| solved := resSolved hr.2;
     grid := readGrid hr.1 (gridRef hr.2);
     strategiesUsed := resStrategiesUsed hr.2;
     maxDifficulty := resMaxDifficulty hr.2;
     steps := resSteps hr.2 |}.

(** A store that holds the grid value [g] as its only grid object, at
    reference 0. *)
Definition storeOf (g : SudokuGrid) : Heap :=
  {| rowObjects := g; gridObjects := [seq 0 (length g)] |}.

(** What the working grid's reference must satisfy for the loop: it is a
    grid object whose rows are the [k] row objects from address [base]
    on. *)
Definition ownsRows (h : Heap) (w base k : nat) : Prop :=
  gridObjects h !! w = Some (seq base k)
  /\ base + k <= length (rowObjects h).

(** The store [h'] has every object of the store [h], unchanged. *)
Definition extends (h h' : Heap) : Prop :=
  (forall a, a < length (rowObjects h) ->
             rowObjects h' !! a = rowObjects h !! a)
  /\ (forall r, r < length (gridObjects h) ->
                gridObjects h' !! r = gridObjects h !! r).

(** The store [h'] has the rows below [base] and the grid objects of
    the store [h], unchanged. *)
Definition sameBelow (base : nat) (h h' : Heap) : Prop :=
  (forall a, a < base -> rowObjects h' !! a = rowObjects h !! a)
  /\ gridObjects h' = gridObjects h.

End GridHeap.

(** ** Solutions, peers and conflicts

    What the properties of the solver and of the hint oracle are stated
    with: the cells [applyMove] sweeps, grids that are solved, and grids
    without conflict. *)

Module SolutionSpec.
Import Validator StrategySolver SolverInvariants GameStore HintSpec.

(** The cells of a grid of size [n], row by row. *)
Definition cells (n : nat) : list Position :=
  flat_map (fun r => map (fun c => (r, c)) (seq 0 n)) (seq 0 n).

(** The cell [p] is one that [applyMove] at [(row, col)] deletes the value
    from: a cell of the row, of the column or of the box. *)
Definition swept (n row col : nat) (p : Position) : bool :=
  let d := getBoxDimensions n in
  let boxRow := row / rows d * rows d in
  let boxCol := col / cols d * cols d in
  ((p.1 =? row) && (p.2 <? n))
  || ((p.2 =? col) && (p.1 <? n))
  || ((boxRow <=? p.1) && (p.1 <? boxRow + rows d)
      && (boxCol <=? p.2) && (p.2 <? boxCol + cols d)).

(** The cells of the unit that have [v] among their cached candidates. *)
Definition holders (cs : Candidates) (unit : list Position) (v : nat)
  : list Position :=
  List.filter (fun p => setHas (candAt cs p.1 p.2) v) unit.

(** The number of a filled cell, 0 for a cell that has none. *)
Definition valueAt (g : SudokuGrid) (p : Position) : nat :=
  match cellAt g p.1 p.2 with
  | Some (Some v) => v
  | _ => 0
  end.

(** Modelled from the spec: [isGridSolved] of the absent validator module,
    "isFullySolved (complete and every unit a permutation of 1..N)": every
    cell holds a number from 1 to [n] and every unit holds each of them
    once. *)
Definition isGridSolved (g : SudokuGrid) (n : nat) : bool :=
  forallb (fun p => existsb (fun v => holds g p.1 p.2 v) (seq 1 n)) (cells n)
  && forallb (fun unit =>
       forallb (fun v =>
         length (List.filter (fun p => holds g p.1 p.2 v) unit) =? 1)
         (seq 1 n))
       (units n).

(** The grid [sol] has every number of the grid [g] where [g] has it. *)
Definition completes (sol g : SudokuGrid) (n : nat) : bool :=
  forallb (fun p =>
    match cellAt g p.1 p.2 with
    | Some (Some v) => holds sol p.1 p.2 v
    | _ => true
    end) (cells n).

(** No number of the grid is repeated in its row, its column or its box:
    every filled cell holds a legal move. *)
Definition conflictFree (g : SudokuGrid) : bool :=
  forallb (fun p =>
    match cellAt g p.1 p.2 with
    | Some (Some v) => isValidMove g p.1 p.2 v
    | _ => true
    end) (cells (length g)).

(** No cell of the unit other than [p] holds [v]. *)
Definition legalIn (g : SudokuGrid) (unit : list Position) (p : Position)
  (v : nat) : bool :=
  forallb (fun q => samePosition q p || negb (holds g q.1 q.2 v)) unit.

(** No cell that shares a row, a column or a box with [p] holds [v]. *)
Definition noPeerHolds (g : SudokuGrid) (n : nat) (p : Position) (v : nat)
  : Prop :=
  forall unit q, unit ∈ units n -> p ∈ unit -> q ∈ unit -> q <> p ->
                 holds g q.1 q.2 v = false.

(** The row, the column and the box of a cell. *)
Definition unitsOfCell (n : nat) (p : Position) : list (list Position) :=
  let d := getBoxDimensions n in
  [rowUnit n p.1; colUnit n p.2; boxUnit n (p.1 / rows d) (p.2 / cols d)].

(** Every unit is without repeated cell, lies inside the grid and is the
    row, the column or the box of each of its cells; the boxes the solver
    walks through are units. *)
Definition unitsWellFormed (n : nat) : bool :=
  let d := getBoxDimensions n in
  forallb (fun unit =>
    bool_decide (NoDup unit)
    && forallb (fun p =>
         bool_decide (p ∈ cells n) && bool_decide (unit ∈ unitsOfCell n p))
         unit)
    (units n)
  && forallb (fun boxRow =>
       forallb (fun boxCol =>
         bool_decide (boxCells boxRow boxCol d ∈ units n))
         (starts n (cols d)))
       (starts n (rows d)).

(** The candidate table agrees with the grid: every cached candidate of a
    cell is a candidate of that cell on the grid, and the cell is empty. *)
Definition legalCache (g : SudokuGrid) (cs : Candidates) : Prop :=
  forall r c v, v ∈ candAt cs r c ->
                isNull g r c = true /\ v ∈ getCandidates g r c.

(** The candidate table still has the number of the solution [sol] at
    every empty cell. *)
Definition keepsSolution (sol g : SudokuGrid) (n : nat) (cs : Candidates)
  : Prop :=
  forall p, p ∈ cells n -> isNull g p.1 p.2 = true ->
            valueAt sol p ∈ candAt cs p.1 p.2.

(** The units as [findHiddenSingle] and the elimination passes walk
    through them: rows, then columns, then boxes. *)
Definition solverUnits (n : nat) : list (list Position) :=
  let d := getBoxDimensions n in
  map (fun row => map (fun col => (row, col)) (seq 0 n)) (seq 0 n)
  ++ map (fun col => map (fun row => (row, col)) (seq 0 n)) (seq 0 n)
  ++ flat_map (fun boxRow =>
       map (fun boxCol => boxCells boxRow boxCol d) (starts n (cols d)))
       (starts n (rows d)).

(** One unit scanned value by value: the cell a value is confined to
    within the unit, by the candidate table. *)
Definition scanUnit (cs : Candidates) (n : nat) (unit : list Position)
  : option (nat * nat * nat) :=
  firstSome (fun num =>
    match holders cs unit num with
    | [p] => Some (p.1, p.2, num)
    | _ => None
    end)
    (seq 1 n).

(** The grid [g'] is the grid [g] with some of its empty cells filled:
    the same shape, the same numbers where [g] has one. *)
Definition fillsIn (g g' : SudokuGrid) : Prop :=
  length g' = length g
  /\ forall r c,
       match cellAt g r c with
       | Some (Some v) => cellAt g' r c = Some (Some v)
       | Some None =>
           cellAt g' r c = Some None \/ exists v, cellAt g' r c = Some (Some v)
       | None => cellAt g' r c = None
       end.

(** The passes of a run that placed a number. *)
Definition placements (ts : list Strategy) : nat :=
  length (List.filter (fun t =>
            bool_decide (t = naked_single \/ t = StrategySolver.hidden_single))
            ts).

(** The table is a table of sets and the counter counts what has been
    deleted from a table of [k] candidates. *)
Definition counted (k : nat) (st : Candidates * nat) : Prop :=
  setLike st.1 /\ candidateTotal st.1 + st.2 = k.

(** The candidate table is sound for the solution [sol] of the grid [g]:
    it holds candidates of empty cells only, its entries are sets, and it
    has the number of the solution at every empty cell. *)
Definition tracks (sol g : SudokuGrid) (n : nat) (cs : Candidates) : Prop :=
  legalCache g cs /\ setLike cs /\ keepsSolution sol g n cs.

(** The grid [g] is a grid of size [n] with a cell at every position, and
    its numbers are those of [sol]. *)
Definition partOf (sol g : SudokuGrid) (n : nat) : Prop :=
  length g = n
  /\ (forall p, p ∈ cells n -> cellAt g p.1 p.2 <> None)
  /\ completes sol g n = true.

(** The candidate table has an entry for every cell of a grid of size
    [n], as the table of [buildCandidateGrid] has. *)
Definition fullTable (n : nat) (cs : Candidates) : bool :=
  (length cs =? n) && forallb (fun rowSets => length rowSets =? n) cs.

(** Every number of the grid is a number from 1 to [n]. *)
Definition inRange (g : SudokuGrid) (n : nat) : bool :=
  forallb (fun p =>
    match cellAt g p.1 p.2 with
    | Some (Some v) => (1 <=? v) && (v <=? n)
    | _ => true
    end) (cells n).

(** Every unit has [n] cells. *)
Definition unitsFull (n : nat) : bool :=
  forallb (fun unit => length unit =? n) (units n).

(** A grid of size [n] with a cell at every position, without conflict,
    with numbers from 1 to [n], and a candidate table that agrees with
    it. *)
Definition wellFormed (n : nat) (g : SudokuGrid) (cs : Candidates) : Prop :=
  length g = n
  /\ (forall p, p ∈ cells n -> cellAt g p.1 p.2 <> None)
  /\ legalCache g cs
  /\ conflictFree g = true
  /\ inRange g n = true.

End SolutionSpec.

(** ** What the properties of the store are stated with *)

Module StoreSpec.
Import Validator GameMoves SolutionSpec.

(** The pencil marks of a cell; none for a cell without an entry. *)
Definition marksOf (m : PencilMarks) (p : Position) : list nat :=
  default [] (marksGet m p).

(** Every grid of the history, the initial grid with the first [k] moves
    applied, has the size of the initial grid and no number repeated in a
    row, a column or a box. *)
Definition conflictFreeHistory (st : GameState) : Prop :=
  forall initial k g,
    initialGrid st = Some initial ->
    gridAfter initial (moveHistory st) k = Some g ->
    length g = length initial /\ conflictFree g = true.

(** The cell [p] is in a unit of the cell [(r, c)] that is switched on. *)
Definition lit (n r c : nat) (showRow showColumn showBox : bool)
  (p : Position) : bool :=
  let d := getBoxDimensions n in
  let boxRow := r / rows d * rows d in
  let boxCol := c / cols d * cols d in
  (showRow && (p.1 =? r) && (p.2 <? n))
  || (showColumn && (p.2 =? c) && (p.1 <? n))
  || (showBox && (boxRow <=? p.1) && (p.1 <? boxRow + rows d)
      && (boxCol <=? p.2) && (p.2 <? boxCol + cols d)).

End StoreSpec.

(** ** Grids of the scenarios *)

Module Scenarios.

(** The 4x4 grid of the naked-single scenario. *)
Definition nakedSingleGrid : SudokuGrid :=
  [[Some 1; Some 2; Some 3; None];
   [Some 3; Some 4; Some 1; Some 2];
   [Some 2; Some 1; Some 4; Some 3];
   [Some 4; Some 3; Some 2; Some 1]].

(** The same grid with its last cell filled. *)
Definition solvedGrid : SudokuGrid :=
  [[Some 1; Some 2; Some 3; Some 4];
   [Some 3; Some 4; Some 1; Some 2];
   [Some 2; Some 1; Some 4; Some 3];
   [Some 4; Some 3; Some 2; Some 1]].

(** A 6x6 puzzle with a single solution and no naked single.  The value 1
    is confined to the cell (0,4) within row 0; the value 5 is confined to
    the cell (0,0) within column 0 and within its box, but not within
    row 0. *)
Definition columnFirstGrid : SudokuGrid :=
  [[None; Some 3; None; None; None; None];
   [Some 1; None; None; Some 4; None; None];
   [None; Some 5; None; None; None; None];
   [None; None; Some 3; Some 1; None; Some 4];
   [None; None; None; None; None; None];
   [None; None; Some 5; Some 3; Some 2; Some 1]].

Definition columnFirstSolution : SudokuGrid :=
  [[Some 5; Some 3; Some 4; Some 6; Some 1; Some 2];
   [Some 1; Some 2; Some 6; Some 4; Some 3; Some 5];
   [Some 4; Some 5; Some 1; Some 2; Some 6; Some 3];
   [Some 2; Some 6; Some 3; Some 1; Some 5; Some 4];
   [Some 3; Some 1; Some 2; Some 5; Some 4; Some 6];
   [Some 6; Some 4; Some 5; Some 3; Some 2; Some 1]].

(** The empty 4x4 grid and one of its solutions. *)
Definition emptyGrid : SudokuGrid :=
  [[None; None; None; None];
   [None; None; None; None];
   [None; None; None; None];
   [None; None; None; None]].

End Scenarios.

(** * Properties *)

Import Validator StrategySolver SolverInvariants PrioritySpec Scenarios.

(** ** Loops and arrays *)

Lemma firstSome_None {A B : Type} (f : A -> option B) (l : list A) :
  firstSome f l = None <-> forall x, x ∈ l -> f x = None.
Proof.
  induction l as [|a l IH]; simpl.
  - split; [intros _ x Hx; inversion Hx | done].
  - destruct (f a) eqn:Ha.
    + split; [done |].
      intros H. specialize (H a (list_elem_of_here _ _)). congruence.
    + rewrite IH. split.
      * intros H x Hx. apply elem_of_cons in Hx as [-> | Hx]; auto.
      * intros H x Hx. apply H. by apply list_elem_of_further.
Qed.

(** The iteration that returns is the first one that does. *)
Lemma firstSome_Some {A B : Type} (f : A -> option B) (l : list A) (y : B) :
  firstSome f l = Some y ->
  exists l1 x l2, l = l1 ++ x :: l2 /\ f x = Some y
                  /\ forall z, z ∈ l1 -> f z = None.
Proof.
  induction l as [|a l IH]; simpl; [done |].
  destruct (f a) eqn:Ha.
  - intros [= ->]. exists [], a, l. split; [done |]. split; [done |].
    intros z Hz. inversion Hz.
  - intros H. destruct (IH H) as (l1 & x & l2 & -> & Hx & Hl1).
    exists (a :: l1), x, l2. split; [done |]. split; [done |].
    intros z Hz. apply elem_of_cons in Hz as [-> | Hz]; auto.
Qed.

Lemma firstSome_elem {A B : Type} (f : A -> option B) (l : list A) (y : B) :
  firstSome f l = Some y -> exists x, x ∈ l /\ f x = Some y.
Proof.
  intros H. destruct (firstSome_Some _ _ _ H) as (l1 & x & l2 & -> & Hx & _).
  exists x. split; [| done]. apply elem_of_app. right. left.
Qed.

Lemma forEach_nil {A S : Type} (body : A -> S -> S) (s : S) :
  forEach [] body s = s.
Proof. reflexivity. Qed.

Lemma forEach_cons {A S : Type} (body : A -> S -> S) (x : A) (l : list A)
  (s : S) :
  forEach (x :: l) body s = forEach l body (body x s).
Proof. reflexivity. Qed.

(** A loop stays inside a preorder that every pass of its body stays in. *)
Lemma forEach_rel {A S : Type} (R : S -> S -> Prop) (body : A -> S -> S)
  (l : list A) :
  (forall s, R s s) ->
  (forall a b c, R a b -> R b c -> R a c) ->
  (forall x s, R s (body x s)) ->
  forall s, R s (forEach l body s).
Proof.
  intros Hrefl Htrans Hbody. induction l as [|x l IH]; intros s.
  - apply Hrefl.
  - rewrite forEach_cons. eapply Htrans; [apply Hbody | apply IH].
Qed.

Lemma forEach_id {A S : Type} (body : A -> S -> S) (l : list A) (s : S) :
  (forall x, body x s = s) -> forEach l body s = s.
Proof.
  intros H. induction l as [|x l IH]; [done |].
  rewrite forEach_cons, H. exact IH.
Qed.

Lemma sum_list_with_alter_le {A : Type} (f : A -> nat) (g : A -> A) (i : nat)
  (l : list A) :
  (forall x, f (g x) <= f x) ->
  sum_list_with f (alter g i l) <= sum_list_with f l.
Proof.
  intros Hg. revert i. induction l as [|a l IH]; intros i; [done |].
  destruct i as [|i]; simpl.
  - specialize (Hg a). lia.
  - apply Nat.add_le_mono_l, IH.
Qed.

Lemma sum_list_with_alter_lt {A : Type} (f : A -> nat) (g : A -> A) (i : nat)
  (l : list A) (x : A) :
  l !! i = Some x -> f (g x) < f x ->
  sum_list_with f (alter g i l) < sum_list_with f l.
Proof.
  revert i. induction l as [|a l IH]; intros i Hi Hlt; [done |].
  destruct i as [|i]; simpl in *.
  - injection Hi as ->. lia.
  - apply Nat.add_lt_mono_l. by apply IH.
Qed.

(** ** Sets of candidates *)

Lemma setHas_true (s : list nat) (v : nat) : setHas s v = true <-> v ∈ s.
Proof.
  unfold setHas. rewrite existsb_exists. split.
  - intros (x & Hx & Heq). apply Nat.eqb_eq in Heq as ->.
    by apply list_elem_of_In.
  - intros H. exists v. split; [by apply list_elem_of_In | apply Nat.eqb_refl].
Qed.

Lemma setHas_nil (v : nat) : setHas [] v = false.
Proof. reflexivity. Qed.

Lemma setDelete_length_le (s : list nat) (v : nat) :
  length (setDelete s v) <= length s.
Proof. apply List.filter_length_le. Qed.

Lemma setDelete_length_lt (s : list nat) (v : nat) :
  setHas s v = true -> length (setDelete s v) < length s.
Proof.
  unfold setHas, setDelete. induction s as [|a s IH]; simpl; [done |].
  destruct (v =? a) eqn:Hva.
  - intros _. apply Nat.eqb_eq in Hva as ->. rewrite Nat.eqb_refl. simpl.
    pose proof (List.filter_length_le (fun x => negb (x =? a)) s). lia.
  - simpl. intros H. specialize (IH H).
    destruct (negb (a =? v)); simpl; lia.
Qed.

Lemma setDelete_nil (v : nat) : setDelete [] v = [].
Proof. reflexivity. Qed.

(** ** The candidate table *)

Lemma candAt_alter (f : list nat -> list nat) (cs : Candidates)
  (r c r' c' : nat) :
  f [] = [] ->
  candAt (alter (alter f c) r cs) r' c'
  = if decide (r' = r /\ c' = c) then f (candAt cs r c) else candAt cs r' c'.
Proof.
  intros Hf. unfold candAt.
  destruct (decide (r' = r)) as [-> | Hr].
  - rewrite list_lookup_alter_eq.
    destruct (cs !! r) as [rowl |] eqn:Hrow; simpl.
    + destruct (decide (c' = c)) as [-> | Hc].
      * rewrite list_lookup_alter_eq. rewrite decide_True by done.
        destruct (rowl !! c); done.
      * rewrite list_lookup_alter_ne by done. rewrite decide_False by tauto.
        done.
    + case_decide as H; [| done]. destruct H as [_ ->]. by rewrite Hf.
  - rewrite list_lookup_alter_ne by done. rewrite decide_False by tauto. done.
Qed.

Lemma candAt_deleteAt (cs : Candidates) (r c v r' c' : nat) :
  candAt (deleteAt cs r c v) r' c'
  = if decide (r' = r /\ c' = c) then setDelete (candAt cs r c) v
    else candAt cs r' c'.
Proof. unfold deleteAt. by rewrite candAt_alter. Qed.

Lemma candAt_Some (cs : Candidates) (r c : nat) :
  candAt cs r c <> [] ->
  exists rowl, cs !! r = Some rowl /\ rowl !! c = Some (candAt cs r c).
Proof.
  unfold candAt. destruct (cs !! r) as [rowl |]; simpl; [| done].
  destruct (rowl !! c) eqn:Hc; simpl; [| done]. eauto.
Qed.

Lemma candidateTotal_alter_le (f : list nat -> list nat) (cs : Candidates)
  (r c : nat) :
  (forall s, length (f s) <= length s) ->
  candidateTotal (alter (alter f c) r cs) <= candidateTotal cs.
Proof.
  intros Hf. unfold candidateTotal.
  apply sum_list_with_alter_le. intros rowl.
  by apply sum_list_with_alter_le.
Qed.

Lemma candidateTotal_deleteAt_lt (cs : Candidates) (r c v : nat) :
  setHas (candAt cs r c) v = true ->
  candidateTotal (deleteAt cs r c v) < candidateTotal cs.
Proof.
  intros Hhas.
  assert (Hne : candAt cs r c <> []) by (intros E; by rewrite E in Hhas).
  destruct (candAt_Some _ _ _ Hne) as (rowl & Hrow & Hcell).
  unfold candidateTotal, deleteAt.
  eapply sum_list_with_alter_lt; [exact Hrow |].
  eapply sum_list_with_alter_lt; [exact Hcell |].
  by apply setDelete_length_lt.
Qed.

(** ** Eliminations only remove candidates *)

Lemma setDelete_sublist (s : list nat) (v : nat) : sublist (setDelete s v) s.
Proof.
  unfold setDelete. induction s as [|a s IH]; simpl; [constructor |].
  destruct (negb (a =? v)); by constructor.
Qed.

Lemma narrows_refl (cs : Candidates) : narrows cs cs.
Proof. split; [lia | intros r c; reflexivity]. Qed.

Lemma narrows_trans (a b c : Candidates) :
  narrows a b -> narrows b c -> narrows a c.
Proof.
  intros [H1 H2] [H3 H4]. split; [lia |].
  intros r c'. etrans; [apply H4 | apply H2].
Qed.

Lemma narrows_empty (cs cs' : Candidates) (r c : nat) :
  narrows cs cs' -> candAt cs r c = [] -> candAt cs' r c = [].
Proof.
  intros [_ H] E. specialize (H r c). rewrite E in H.
  by apply sublist_nil_r.
Qed.

Lemma narrows_deleteAt (cs : Candidates) (r c v : nat) :
  narrows cs (deleteAt cs r c v).
Proof.
  split.
  - apply candidateTotal_alter_le. intros s. apply setDelete_length_le.
  - intros r' c'. rewrite candAt_deleteAt. case_decide as Hd; [| done].
    destruct Hd as [-> ->]. apply setDelete_sublist.
Qed.

Lemma narrows_forEach {A : Type} (body : A -> Candidates -> Candidates)
  (l : list A) (cs cs0 : Candidates) :
  narrows cs cs0 ->
  (forall x cs1, narrows cs1 (body x cs1)) ->
  narrows cs (forEach l body cs0).
Proof.
  intros H0 Hbody. eapply narrows_trans; [exact H0 |].
  apply (forEach_rel narrows);
    [apply narrows_refl | apply narrows_trans | exact Hbody].
Qed.

Lemma shrinks_refl (st : Candidates * nat) : shrinks st st.
Proof.
  unfold shrinks. split; [done |]. split; [done |].
  split; [done | intros r c; reflexivity].
Qed.

Lemma shrinks_trans (a b c : Candidates * nat) :
  shrinks a b -> shrinks b c -> shrinks a c.
Proof.
  intros (H1 & H2 & H3 & H4) (H5 & H6 & H7 & H8).
  split; [lia |]. split; [| split; [lia |]].
  - intros E. rewrite H6 by lia. apply H2. lia.
  - intros r c'. etrans; [apply H8 | apply H4].
Qed.

Lemma shrinks_eliminate (st st0 : Candidates * nat) (r c v : nat) :
  shrinks st st0 -> shrinks st (eliminate r c v st0).
Proof.
  intros H0. eapply shrinks_trans; [exact H0 |]. clear H0.
  unfold eliminate. destruct (setHas (candAt st0.1 r c) v) eqn:Hhas.
  - split; [simpl; lia |]. split; [simpl; lia |]. split; simpl.
    + pose proof (candidateTotal_deleteAt_lt _ _ _ _ Hhas). lia.
    + apply narrows_deleteAt.
  - apply shrinks_refl.
Qed.

Lemma shrinks_forEach {A : Type}
  (body : A -> Candidates * nat -> Candidates * nat) (l : list A)
  (st st0 : Candidates * nat) :
  shrinks st st0 ->
  (forall x st1, shrinks st1 (body x st1)) ->
  shrinks st (forEach l body st0).
Proof.
  intros H0 Hbody. eapply shrinks_trans; [exact H0 |].
  apply (forEach_rel shrinks);
    [apply shrinks_refl | apply shrinks_trans | exact Hbody].
Qed.

(** Walks through the nested loops of an elimination pass. *)
Ltac shrink_loops :=
  repeat (cbv zeta; first
    [ apply shrinks_refl
    | apply shrinks_eliminate
    | apply shrinks_forEach; [| intros ? ?]
    | match goal with
      | |- shrinks _ (if ?b then _ else _) => destruct b
      end ]).

Lemma shrinks_findNakedPairInUnit (cs : Candidates) (cells : list Position) :
  shrinks (cs, 0) (findNakedPairInUnit cs cells).
Proof. unfold findNakedPairInUnit. shrink_loops. Qed.

Lemma shrinks_addUnit (cells : list Position) (st st0 : Candidates * nat) :
  shrinks st st0 -> shrinks st (addUnit cells st0).
Proof.
  intros H0. eapply shrinks_trans; [exact H0 |]. clear H0.
  destruct (shrinks_findNakedPairInUnit st0.1 cells) as (H1 & H2 & H3 & H4).
  unfold addUnit. simpl in *.
  split; [simpl; lia |]. split; [| split; [simpl; lia | done]].
  simpl. intros E. apply H2. lia.
Qed.

Lemma shrinks_findNakedPairEliminations (cs : Candidates) (gridSize : nat) :
  shrinks (cs, 0) (findNakedPairEliminations cs gridSize).
Proof.
  unfold findNakedPairEliminations.
  repeat (cbv zeta; first
    [ apply shrinks_refl | apply shrinks_addUnit
    | apply shrinks_forEach; [| intros ? ?] ]).
Qed.

Lemma shrinks_findPointingPairEliminations (cs : Candidates) (gridSize : nat) :
  shrinks (cs, 0) (findPointingPairEliminations cs gridSize).
Proof. unfold findPointingPairEliminations. shrink_loops. Qed.

Lemma shrinks_findBoxLineEliminations (cs : Candidates) (gridSize : nat) :
  shrinks (cs, 0) (findBoxLineEliminations cs gridSize).
Proof. unfold findBoxLineEliminations. shrink_loops. Qed.

(** ** [applyMove] *)

Lemma narrows_applyMoveCandidates (cs : Candidates) (row col value n : nat) :
  narrows cs (applyMoveCandidates cs row col value n).
Proof.
  unfold applyMoveCandidates. cbv zeta.
  assert (H0 : narrows cs (alter (fun r => <[col := []]> r) row cs)).
  { erewrite list_alter_ext with (g := alter (fun _ => []) col);
      [| intros x _; apply list_insert_alter | reflexivity].
    split.
    - apply candidateTotal_alter_le. intros s. simpl. lia.
    - intros r c. rewrite candAt_alter by done.
      case_decide; [apply sublist_nil_l | done]. }
  repeat first
    [ exact H0 | apply narrows_refl | apply narrows_deleteAt
    | apply narrows_forEach; [| intros ? ?] ].
Qed.

Lemma applyMoveCandidates_cell (cs : Candidates) (row col value n : nat) :
  candAt (applyMoveCandidates cs row col value n) row col = [].
Proof.
  unfold applyMoveCandidates. cbv zeta.
  set (cs0 := alter (fun r => <[col := []]> r) row cs).
  assert (H0 : candAt cs0 row col = []).
  { unfold cs0.
    erewrite list_alter_ext with (g := alter (fun _ => []) col);
      [| intros x _; apply list_insert_alter | reflexivity].
    rewrite candAt_alter by done. by rewrite decide_True. }
  assert (Hn : narrows cs0 (applyMoveCandidates cs row col value n)).
  { unfold applyMoveCandidates. cbv zeta. fold cs0.
    repeat first
      [ apply narrows_refl | apply narrows_deleteAt
      | apply narrows_forEach; [| intros ? ?] ]. }
  exact (narrows_empty _ _ _ _ Hn H0).
Qed.

Lemma cellAt_setCell (g : SudokuGrid) (r c v r' c' : nat) :
  cellAt (setCell g r c v) r' c'
  = if decide (r' = r /\ c' = c)
    then (fun _ => Some v) <$> cellAt g r c
    else cellAt g r' c'.
Proof.
  unfold cellAt, setCell.
  destruct (decide (r' = r)) as [-> | Hr].
  - rewrite list_lookup_alter_eq.
    destruct (g !! r) as [rowl |] eqn:Hrow; simpl.
    + destruct (decide (c' = c)) as [-> | Hc].
      * rewrite decide_True by done.
        destruct (rowl !! c) eqn:Hc; simpl.
        -- apply list_lookup_insert_eq. by eapply lookup_lt_Some.
        -- rewrite list_insert_ge by (by apply lookup_ge_None). exact Hc.
      * rewrite list_lookup_insert_ne by done.
        by rewrite decide_False by tauto.
    + by case_decide.
  - rewrite list_lookup_alter_ne by done. by rewrite decide_False by tauto.
Qed.

Lemma isNull_setCell (g : SudokuGrid) (r c v r' c' : nat) :
  isNull (setCell g r c v) r' c'
  = if decide (r' = r /\ c' = c) then false else isNull g r' c'.
Proof.
  unfold isNull. rewrite cellAt_setCell. case_decide; [| done].
  by destruct (cellAt g r c).
Qed.

Lemma isNull_lookup (g : SudokuGrid) (r c : nat) :
  isNull g r c = true <->
  exists rowl, g !! r = Some rowl /\ rowl !! c = Some None.
Proof.
  unfold isNull, cellAt. destruct (g !! r) as [rowl |]; simpl.
  - destruct (rowl !! c) as [[x |] |] eqn:Hc; split; try done.
    + intros (? & [= <-] & ?). congruence.
    + eauto.
    + intros (? & [= <-] & ?). congruence.
  - split; [done | intros (? & ? & ?); done].
Qed.

Lemma emptyCount_setCell (g : SudokuGrid) (r c v : nat) :
  isNull g r c = true -> emptyCount (setCell g r c v) < emptyCount g.
Proof.
  intros H. apply isNull_lookup in H as (rowl & Hrow & Hcell).
  unfold emptyCount, setCell.
  eapply sum_list_with_alter_lt; [exact Hrow |].
  clear Hrow. revert c Hcell. induction rowl as [|a rowl IH]; intros c Hc.
  - done.
  - destruct c as [|c]; simpl in *.
    + injection Hc as ->. simpl. lia.
    + specialize (IH c Hc). destruct (bool_decide (a = None)); simpl; lia.
Qed.

(** ** The candidate table on entry *)

Lemma cloneGrid_eq (g : SudokuGrid) : cloneGrid g = g.
Proof.
  unfold cloneGrid. induction g as [|rowl g IH]; simpl; [done |].
  rewrite IH. f_equal. apply map_id.
Qed.

Lemma candAt_buildCandidateGrid (g : SudokuGrid) (r c : nat) :
  candAt (buildCandidateGrid g) r c
  = if decide (r < length g /\ c < length g)
    then (if isNull g r c then getCandidates g r c else [])
    else [].
Proof.
  unfold candAt, buildCandidateGrid. cbv zeta.
  change (map ?f ?l) with (f <$> l).
  rewrite list_lookup_fmap.
  destruct (decide (r < length g)) as [Hr | Hr].
  - rewrite lookup_seq_lt by done. simpl.
    change (map ?f ?l) with (f <$> l). rewrite list_lookup_fmap.
    destruct (decide (c < length g)) as [Hc | Hc].
    + rewrite lookup_seq_lt by done. simpl. by rewrite decide_True.
    + rewrite lookup_seq_ge by lia. simpl. by rewrite decide_False by tauto.
  - rewrite lookup_seq_ge by lia. simpl. by rewrite decide_False by tauto.
Qed.

Lemma consistent_buildCandidateGrid (g : SudokuGrid) :
  consistent g (buildCandidateGrid g).
Proof.
  intros r c. rewrite candAt_buildCandidateGrid.
  case_decide; [| done]. by destruct (isNull g r c).
Qed.

(** ** What the placing techniques return *)

Lemma findNakedSingle_Some (g : SudokuGrid) (cs : Candidates)
  (n row col value : nat) :
  findNakedSingle g cs n = Some (row, col, value) ->
  row < n /\ col < n /\ isNull g row col = true
  /\ candAt cs row col = [value].
Proof.
  unfold findNakedSingle. intros H.
  apply firstSome_elem in H as (r & Hr & H).
  apply firstSome_elem in H as (c & Hc & H).
  destruct (isNull g r c) eqn:Hnull; simpl in H; [| done].
  destruct (length (candAt cs r c) =? 1) eqn:Hlen; [| done].
  injection H as -> -> <-.
  apply elem_of_seq in Hr, Hc. apply Nat.eqb_eq in Hlen.
  destruct (candAt cs row col) as [|x [|]]; try done.
  repeat split; [lia | lia | done].
Qed.

Lemma filter_singleton {A : Type} (f : A -> bool) (l : list A) (x : A) :
  List.filter f l = [x] -> x ∈ l /\ f x = true.
Proof.
  intros H. assert (Hin : In x (List.filter f l)) by (rewrite H; by left).
  apply filter_In in Hin as [Hin Hf]. split; [by apply list_elem_of_In | done].
Qed.

Lemma findHiddenSingle_Some (g : SudokuGrid) (cs : Candidates)
  (n row col value : nat) :
  findHiddenSingle g cs n = Some (row, col, value) ->
  setHas (candAt cs row col) value = true.
Proof.
  unfold findHiddenSingle. cbv zeta.
  destruct (firstSome _ (seq 0 n)) as [m |] eqn:Hrows.
  { intros [= ->].
    apply firstSome_elem in Hrows as (r & _ & H).
    apply firstSome_elem in H as (num & _ & H).
    destruct (List.filter _ _) as [|x [|]] eqn:Hpos in H; try done.
    injection H as -> -> ->.
    by apply filter_singleton in Hpos as [_ Hpos]. }
  clear Hrows.
  destruct (firstSome _ (seq 0 n)) as [m |] eqn:Hcols.
  { intros [= ->].
    apply firstSome_elem in Hcols as (c & _ & H).
    apply firstSome_elem in H as (num & _ & H).
    destruct (List.filter _ _) as [|x [|]] eqn:Hpos in H; try done.
    injection H as -> -> ->.
    by apply filter_singleton in Hpos as [_ Hpos]. }
  clear Hcols. intros H.
  apply firstSome_elem in H as (br & _ & H).
  apply firstSome_elem in H as (bc & _ & H).
  apply firstSome_elem in H as (num & _ & H).
  destruct (List.filter _ _) as [|x [|]] eqn:Hpos in H; try done.
  injection H as <- <- ->.
  by apply filter_singleton in Hpos as [_ Hpos].
Qed.

(** ** One pass of the loop *)

Lemma shrinks_zero (cs : Candidates) (st : Candidates * nat) :
  shrinks (cs, 0) st -> (0 <? st.2) = false -> st.1 = cs.
Proof.
  intros (_ & H & _) Hz. apply Nat.ltb_ge in Hz. apply H. simpl. lia.
Qed.

Lemma shrinks_pos (cs : Candidates) (st : Candidates * nat) :
  shrinks (cs, 0) st -> (0 <? st.2) = true ->
  candidateTotal st.1 < candidateTotal cs.
Proof.
  intros (_ & _ & H & _) Hp. apply Nat.ltb_lt in Hp. simpl in H. lia.
Qed.

Lemma consistent_shrinks (g : SudokuGrid) (cs : Candidates)
  (st : Candidates * nat) :
  consistent g cs -> shrinks (cs, 0) st -> consistent g st.1.
Proof.
  intros Hc (_ & _ & _ & H) r c Hne. apply Hc. intros E.
  specialize (H r c). simpl in H. rewrite E in H.
  by apply sublist_nil_r in H.
Qed.

Lemma consistent_applyMove (g : SudokuGrid) (cs : Candidates)
  (row col value n : nat) :
  consistent g cs ->
  consistent (setCell g row col value)
    (applyMoveCandidates cs row col value n).
Proof.
  intros Hc r c Hne. rewrite isNull_setCell. case_decide as Hd.
  - destruct Hd as [-> ->]. by rewrite applyMoveCandidates_cell in Hne.
  - apply Hc. intros E.
    by apply (narrows_empty _ _ _ _
                (narrows_applyMoveCandidates cs row col value n)) in E.
Qed.

Lemma setLike_narrows (cs cs' : Candidates) :
  setLike cs -> narrows cs cs' -> setLike cs'.
Proof. intros Hs [_ H] r c. eapply sublist_NoDup; [apply Hs | apply H]. Qed.

Lemma setLike_shrinks (cs : Candidates) (st : Candidates * nat) :
  setLike cs -> shrinks (cs, 0) st -> setLike st.1.
Proof.
  intros Hs (_ & _ & _ & H) r c. eapply sublist_NoDup; [apply Hs | apply H].
Qed.

Lemma NoDup_List_filter (f : nat -> bool) (l : list nat) :
  NoDup l -> NoDup (List.filter f l).
Proof.
  intros H. eapply sublist_NoDup; [exact H |].
  clear H. induction l as [|a l IH]; simpl; [constructor |].
  destruct (f a); by constructor.
Qed.

Lemma setLike_buildCandidateGrid (g : SudokuGrid) :
  setLike (buildCandidateGrid g).
Proof.
  intros r c. rewrite candAt_buildCandidateGrid.
  case_decide; [| constructor].
  destruct (isNull g r c); [| constructor].
  apply NoDup_List_filter, NoDup_seq.
Qed.

(** The six ways through the body of the loop.  An elimination pass that
    counts nothing leaves the table as it was, so every technique is tried
    on the state the pass started from. *)
Lemma iteration_cases (n : nat) (s : LoopState) :
  let g := workingGrid s in
  let cs := candidates s in
  (exists row col value,
      findNakedSingle g cs n = Some (row, col, value)
      /\ iteration n s
         = progress s (setCell g row col value)
             (applyMoveCandidates cs row col value n) naked_single beginner)
  \/ (findNakedSingle g cs n = None
      /\ exists row col value,
        findHiddenSingle g cs n = Some (row, col, value)
        /\ iteration n s
           = progress s (setCell g row col value)
               (applyMoveCandidates cs row col value n) hidden_single easy)
  \/ (findNakedSingle g cs n = None /\ findHiddenSingle g cs n = None
      /\ (0 <? (findNakedPairEliminations cs n).2) = true
      /\ iteration n s
         = progress s g (findNakedPairEliminations cs n).1 naked_pair medium)
  \/ (findNakedSingle g cs n = None /\ findHiddenSingle g cs n = None
      /\ (0 <? (findNakedPairEliminations cs n).2) = false
      /\ (0 <? (findPointingPairEliminations cs n).2) = true
      /\ iteration n s
         = progress s g (findPointingPairEliminations cs n).1
             pointing_pair hard)
  \/ (findNakedSingle g cs n = None /\ findHiddenSingle g cs n = None
      /\ (0 <? (findNakedPairEliminations cs n).2) = false
      /\ (0 <? (findPointingPairEliminations cs n).2) = false
      /\ (0 <? (findBoxLineEliminations cs n).2) = true
      /\ iteration n s
         = progress s g (findBoxLineEliminations cs n).1
             box_line_reduction hard)
  \/ (findNakedSingle g cs n = None /\ findHiddenSingle g cs n = None
      /\ (0 <? (findNakedPairEliminations cs n).2) = false
      /\ (0 <? (findPointingPairEliminations cs n).2) = false
      /\ (0 <? (findBoxLineEliminations cs n).2) = false
      /\ iteration n s
         = (None,
            {| workingGrid := g; candidates := cs; used := used s;
               currentDifficulty := currentDifficulty s;
               stepCount := S (stepCount s) |})).
Proof.
  intros g cs. unfold iteration. fold g cs.
  destruct (findNakedSingle g cs n) as [[[row col] value] |] eqn:Hns.
  { left. by exists row, col, value. }
  right.
  destruct (findHiddenSingle g cs n) as [[[row col] value] |] eqn:Hhs.
  { left. split; [done |]. by exists row, col, value. }
  right. cbv zeta.
  destruct (0 <? (findNakedPairEliminations cs n).2) eqn:Hnp.
  { left. done. }
  right.
  rewrite (shrinks_zero cs _ (shrinks_findNakedPairEliminations cs n) Hnp).
  destruct (0 <? (findPointingPairEliminations cs n).2) eqn:Hpp.
  { left. done. }
  right.
  rewrite (shrinks_zero cs _ (shrinks_findPointingPairEliminations cs n) Hpp).
  destruct (0 <? (findBoxLineEliminations cs n).2) eqn:Hbl.
  { left. done. }
  right.
  rewrite (shrinks_zero cs _ (shrinks_findBoxLineEliminations cs n) Hbl).
  done.
Qed.

(** A pass that makes progress keeps the invariant and either fills a cell
    that was [null] or deletes candidates and leaves the grid alone. *)
Lemma iteration_progress (n : nat) (s s' : LoopState) (t : Strategy) :
  consistent (workingGrid s) (candidates s) ->
  iteration n s = (Some t, s') ->
  consistent (workingGrid s') (candidates s')
  /\ stepCount s' = S (stepCount s)
  /\ ((exists row col value,
          isNull (workingGrid s) row col = true
          /\ workingGrid s' = setCell (workingGrid s) row col value
          /\ emptyCount (workingGrid s') < emptyCount (workingGrid s)
          /\ candidateTotal (candidates s') <= candidateTotal (candidates s))
      \/ (workingGrid s' = workingGrid s
          /\ candidateTotal (candidates s') < candidateTotal (candidates s))).
Proof.
  intros Hc Hit.
  destruct (iteration_cases n s)
    as [(row & col & value & Hf & E)
       | [(_ & row & col & value & Hf & E)
         | [(_ & _ & Hp & E)
           | [(_ & _ & _ & Hp & E)
             | [(_ & _ & _ & _ & Hp & E) | (_ & _ & _ & _ & _ & E)]]]]];
    rewrite E in Hit; unfold progress in Hit; simplify_eq; simpl.
  - apply findNakedSingle_Some in Hf as (_ & _ & Hnull & _).
    split; [by apply consistent_applyMove |]. split; [done |]. left.
    exists row, col, value. repeat split; [done | |].
    + by apply emptyCount_setCell.
    + apply narrows_applyMoveCandidates.
  - apply findHiddenSingle_Some in Hf.
    assert (Hnull : isNull (workingGrid s) row col = true).
    { apply Hc. intros E'. by rewrite E' in Hf. }
    split; [by apply consistent_applyMove |]. split; [done |]. left.
    exists row, col, value. repeat split; [done | |].
    + by apply emptyCount_setCell.
    + apply narrows_applyMoveCandidates.
  - pose proof (shrinks_findNakedPairEliminations (candidates s) n) as Hs.
    split; [by eapply consistent_shrinks |]. split; [done |]. right.
    split; [done |]. by apply shrinks_pos.
  - pose proof (shrinks_findPointingPairEliminations (candidates s) n) as Hs.
    split; [by eapply consistent_shrinks |]. split; [done |]. right.
    split; [done |]. by apply shrinks_pos.
  - pose proof (shrinks_findBoxLineEliminations (candidates s) n) as Hs.
    split; [by eapply consistent_shrinks |]. split; [done |]. right.
    split; [done |]. by apply shrinks_pos.
Qed.

Lemma iteration_measure (n : nat) (s s' : LoopState) (t : Strategy) :
  consistent (workingGrid s) (candidates s) ->
  iteration n s = (Some t, s') ->
  consistent (workingGrid s') (candidates s') /\ measure s' < measure s.
Proof.
  intros Hc Hit.
  destruct (iteration_progress n s s' t Hc Hit)
    as (Hc' & _ & [(? & ? & ? & _ & _ & H1 & H2) | (Hg & H1)]).
  - split; [done |]. unfold measure. lia.
  - split; [done |]. unfold measure. rewrite Hg. lia.
Qed.

(** ** The loop returns *)

Lemma solveLoop_S (n fuel : nat) (s : LoopState) :
  solveLoop (S fuel) n s
  = match iteration n s with
    | (Some t, s') =>
        match solveLoop fuel n s' with
        | Some (ts, s'') => Some (t :: ts, s'')
        | None => None
        end
    | (None, s') => Some ([], s')
    end.
Proof. reflexivity. Qed.

Lemma solveLoop_returns (n fuel : nat) (s : LoopState) :
  consistent (workingGrid s) (candidates s) ->
  measure s < fuel ->
  exists ts s', solveLoop fuel n s = Some (ts, s').
Proof.
  revert s. induction fuel as [|fuel IH]; intros s Hc Hm; [lia |].
  simpl. destruct (iteration n s) as [[t |] s1] eqn:Hit.
  - destruct (iteration_measure n s s1 t Hc Hit) as [Hc1 Hm1].
    destruct (IH s1 Hc1) as (ts & s2 & E); [lia |].
    rewrite E. eauto.
  - eauto.
Qed.

Lemma consistent_initialState (grid : SudokuGrid) :
  consistent (workingGrid (initialState grid))
    (candidates (initialState grid)).
Proof. simpl. apply consistent_buildCandidateGrid. Qed.

Lemma solveTrace_returns (grid : SudokuGrid) :
  exists ts s',
    solveLoop (passBound (initialState grid)) (length grid)
      (initialState grid) = Some (ts, s')
    /\ solveTrace grid = Some (ts, finish s').
Proof.
  destruct (solveLoop_returns (length grid) (passBound (initialState grid))
              (initialState grid)) as (ts & s' & E).
  - apply consistent_initialState.
  - unfold passBound, measure. lia.
  - exists ts, s'. split; [done |]. unfold solveTrace. cbv zeta.
    replace (length (workingGrid (initialState grid))) with (length grid).
    + by rewrite E.
    + simpl. by rewrite cloneGrid_eq.
Qed.

(** ** The bookkeeping of the loop *)

Ltac lower_attempts Hns Hhs Hnp Hpp :=
  let j := fresh "j" in
  let Hj := fresh "Hj" in
  let Hl := fresh "Hl" in
  intros j ? Hj Hl;
  repeat (destruct j as [|j];
          [simpl in Hl; simplify_eq; simpl;
           rewrite ?Hns, ?Hhs, ?Hnp, ?Hpp; done |]);
  simpl in Hj; lia.

Lemma iteration_bookkeeping (n : nat) (s s' : LoopState) (t : Strategy) :
  iteration n s = (Some t, s') ->
  used s' = setAdd (used s) t
  /\ currentDifficulty s'
     = maxDifficultyOf (currentDifficulty s) (STRATEGY_DIFFICULTY t)
  /\ stepCount s' = S (stepCount s)
  /\ highestPriorityStep n (workingGrid s, candidates s) t
       (workingGrid s', candidates s').
Proof.
  intros Hit.
  destruct (iteration_cases n s)
    as [(row & col & value & Hf & E)
       | [(Hns & row & col & value & Hf & E)
         | [(Hns & Hhs & Hp & E)
           | [(Hns & Hhs & Hnp & Hp & E)
             | [(Hns & Hhs & Hnp & Hpp & Hp & E)
               | (_ & _ & _ & _ & _ & E)]]]]];
    rewrite E in Hit; unfold progress in Hit; simplify_eq; simpl;
    (split; [done |]); (split; [done |]); (split; [done |]).
  - exists 0. split; [done |]. split; [simpl; by rewrite Hf | lia].
  - exists 1. split; [done |]. split; [simpl; by rewrite Hf |].
    lower_attempts Hns Hns Hns Hns.
  - exists 2. split; [done |]. split; [simpl; by rewrite Hp |].
    lower_attempts Hns Hhs Hns Hns.
  - exists 3. split; [done |]. split; [simpl; by rewrite Hp |].
    lower_attempts Hns Hhs Hnp Hns.
  - exists 4. split; [done |]. split; [simpl; by rewrite Hp |].
    lower_attempts Hns Hhs Hnp Hpp.
Qed.

Lemma iteration_stuck (n : nat) (s s' : LoopState) :
  iteration n s = (None, s') ->
  stuck n (workingGrid s, candidates s)
  /\ s' = {| workingGrid := workingGrid s; candidates := candidates s;
             used := used s; currentDifficulty := currentDifficulty s;
             stepCount := S (stepCount s) |}.
Proof.
  intros Hit.
  destruct (iteration_cases n s)
    as [(row & col & value & Hf & E)
       | [(Hns & row & col & value & Hf & E)
         | [(Hns & Hhs & Hp & E)
           | [(Hns & Hhs & Hnp & Hp & E)
             | [(Hns & Hhs & Hnp & Hpp & Hp & E)
               | (Hns & Hhs & Hnp & Hpp & Hbl & E)]]]]];
    rewrite E in Hit; unfold progress in Hit; simplify_eq.
  split; [| done]. intros t Ht. unfold priority in Ht.
  repeat (apply elem_of_cons in Ht as [-> | Ht];
          [simpl; rewrite ?Hns, ?Hhs, ?Hnp, ?Hpp, ?Hbl; done |]).
  by apply elem_of_nil in Ht.
Qed.

(** What a loop that returns has done. *)
Lemma solveLoop_trace (n fuel : nat) (s s' : LoopState) (ts : list Strategy) :
  solveLoop fuel n s = Some (ts, s') ->
  run n (workingGrid s, candidates s) ts (workingGrid s', candidates s')
  /\ used s' = fold_left setAdd ts (used s)
  /\ currentDifficulty s'
     = fold_left (fun d t => maxDifficultyOf d (STRATEGY_DIFFICULTY t)) ts
         (currentDifficulty s)
  /\ stepCount s' = stepCount s + length ts + 1.
Proof.
  revert s ts. induction fuel as [|fuel IH]; intros s ts; [done |].
  simpl. destruct (iteration n s) as [[t |] s1] eqn:Hit.
  - destruct (solveLoop fuel n s1) as [[ts1 s2] |] eqn:Hloop; [| done].
    intros [= <- <-].
    destruct (IH _ _ Hloop) as (Hrun & Hu & Hd & Hs).
    destruct (iteration_bookkeeping n s s1 t Hit) as (Hu1 & Hd1 & Hs1 & Hp).
    repeat split.
    + eapply run_step; [exact Hp | exact Hrun].
    + simpl. by rewrite <- Hu1.
    + simpl. by rewrite <- Hd1.
    + simpl. lia.
  - intros [= <- <-].
    destruct (iteration_stuck n s s1 Hit) as [Hstuck ->]. simpl.
    repeat split; [by apply run_stop | lia].
Qed.

Lemma solveLoop_length (n fuel : nat) (s s' : LoopState) (ts : list Strategy) :
  consistent (workingGrid s) (candidates s) ->
  solveLoop fuel n s = Some (ts, s') ->
  length ts <= measure s.
Proof.
  revert s ts. induction fuel as [|fuel IH]; intros s ts Hc; [done |].
  simpl. destruct (iteration n s) as [[t |] s1] eqn:Hit.
  - destruct (solveLoop fuel n s1) as [[ts1 s2] |] eqn:Hloop; [| done].
    intros [= <- <-].
    destruct (iteration_measure n s s1 t Hc Hit) as [Hc1 Hm1].
    specialize (IH _ _ Hc1 Hloop). simpl. lia.
  - intros [= <- <-]. simpl. lia.
Qed.

Lemma reachable_invariant (n : nat) (s0 s : LoopState) :
  consistent (workingGrid s0) (candidates s0) ->
  reachable n s0 s ->
  consistent (workingGrid s) (candidates s)
  /\ emptyCount (workingGrid s) <= emptyCount (workingGrid s0)
  /\ candidateTotal (candidates s) <= candidateTotal (candidates s0).
Proof.
  intros Hc0 Hreach. induction Hreach as [| s s' t Hreach IH Hit].
  - repeat split; [done | lia | lia].
  - destruct IH as (Hc & He & Ht).
    destruct (iteration_progress n s s' t Hc Hit)
      as (Hc' & _ & [(? & ? & ? & _ & _ & H1 & H2) | (Hg & H1)]).
    + repeat split; [done | lia | lia].
    + rewrite Hg in *. repeat split; [done | lia | lia].
Qed.

(** Every entry of the candidate table is duplicate-free in every state
    the loop reaches, so that the length of an entry is the [size] of the
    set it stands for. *)
Lemma reachable_setLike (g : SudokuGrid) (n : nat) (s : LoopState) :
  reachable n (initialState g) s -> setLike (candidates s).
Proof.
  intros Hreach. induction Hreach as [| s s' t Hreach IH Hit].
  - simpl. apply setLike_buildCandidateGrid.
  - destruct (iteration_cases n s)
      as [(row & col & value & _ & E)
         | [(_ & row & col & value & _ & E)
           | [(_ & _ & _ & E)
             | [(_ & _ & _ & _ & E)
               | [(_ & _ & _ & _ & _ & E) | (_ & _ & _ & _ & _ & E)]]]]];
      rewrite E in Hit; unfold progress in Hit; simplify_eq; simpl.
    + eapply setLike_narrows; [exact IH |].
      apply narrows_applyMoveCandidates.
    + eapply setLike_narrows; [exact IH |].
      apply narrows_applyMoveCandidates.
    + eapply setLike_shrinks; [exact IH |].
      apply shrinks_findNakedPairEliminations.
    + eapply setLike_shrinks; [exact IH |].
      apply shrinks_findPointingPairEliminations.
    + eapply setLike_shrinks; [exact IH |].
      apply shrinks_findBoxLineEliminations.
Qed.

(** ** Bounds by the grid size *)

Lemma sum_list_with_bound {A : Type} (f : A -> nat) (l : list A) (k : nat) :
  (forall x, x ∈ l -> f x <= k) -> sum_list_with f l <= length l * k.
Proof.
  induction l as [|a l IH]; intros H; simpl; [lia |].
  assert (f a <= k) by apply H, list_elem_of_here.
  assert (sum_list_with f l <= length l * k).
  { apply IH. intros x Hx. apply H. by apply list_elem_of_further. }
  lia.
Qed.

Lemma emptyCount_bound (g : SudokuGrid) :
  square g -> emptyCount g <= length g * length g.
Proof.
  intros Hsq. unfold emptyCount. apply sum_list_with_bound.
  intros rowl Hrow. unfold square in Hsq. rewrite Forall_forall in Hsq.
  apply list_elem_of_In in Hrow.
  rewrite <- (Hsq rowl Hrow). apply List.filter_length_le.
Qed.

Lemma getCandidates_length (g : SudokuGrid) (r c : nat) :
  length (getCandidates g r c) <= length g.
Proof.
  unfold getCandidates.
  etrans; [apply List.filter_length_le |]. by rewrite length_seq.
Qed.

Lemma candidateTotal_bound (g : SudokuGrid) :
  candidateTotal (buildCandidateGrid g) <= length g * length g * length g.
Proof.
  unfold candidateTotal, buildCandidateGrid. cbv zeta.
  set (n := length g).
  etrans; [apply (sum_list_with_bound _ _ (n * n)) |].
  - intros rowl Hrow. apply list_elem_of_In, in_map_iff in Hrow
      as (r & <- & _).
    etrans; [apply (sum_list_with_bound _ _ n) |].
    + intros s Hs. apply list_elem_of_In, in_map_iff in Hs as (c & <- & _).
      destruct (isNull g r c); [apply getCandidates_length | simpl; lia].
    + by rewrite length_map, length_seq.
  - rewrite length_map, length_seq. lia.
Qed.

(** ** Filled grids *)

Lemma isComplete_isNull (g : SudokuGrid) (r c : nat) :
  isComplete g = true -> isNull g r c = false.
Proof.
  intros Hcomp. destruct (isNull g r c) eqn:Hnull; [| done].
  apply isNull_lookup in Hnull as (rowl & Hrow & Hcell).
  unfold isComplete in Hcomp. rewrite forallb_forall in Hcomp.
  specialize (Hcomp rowl). rewrite forallb_forall in Hcomp.
  assert (Hin : In rowl g).
  { apply list_elem_of_In. by eapply list_elem_of_lookup_2. }
  assert (Hin' : In None rowl).
  { apply list_elem_of_In. by eapply list_elem_of_lookup_2. }
  specialize (Hcomp Hin None Hin'). by apply bool_decide_eq_true in Hcomp.
Qed.

Lemma sum_list_with_map_zero {A B : Type} (f : B -> nat) (h : A -> B)
  (l : list A) :
  (forall x, f (h x) = 0) -> sum_list_with f (map h l) = 0.
Proof.
  intros H. induction l as [|a l IH]; simpl; [done |]. rewrite H, IH. done.
Qed.

Lemma candidateTotal_complete (g : SudokuGrid) :
  isComplete g = true -> candidateTotal (buildCandidateGrid g) = 0.
Proof.
  intros Hcomp. unfold candidateTotal, buildCandidateGrid. cbv zeta.
  apply sum_list_with_map_zero. intros r.
  apply sum_list_with_map_zero. intros c.
  by rewrite (isComplete_isNull g r c Hcomp).
Qed.

(** ** The set of techniques and the running maximum *)

Lemma elem_of_setAdd (u : list Strategy) (t x : Strategy) :
  x ∈ setAdd u t <-> x ∈ u \/ x = t.
Proof.
  unfold setAdd. case_decide as Hin.
  - split; [tauto | intros [H | ->]; done].
  - rewrite elem_of_app, list_elem_of_singleton. done.
Qed.

Lemma elem_of_fold_setAdd (ts u : list Strategy) (x : Strategy) :
  x ∈ fold_left setAdd ts u <-> x ∈ u \/ x ∈ ts.
Proof.
  revert u. induction ts as [|t ts IH]; intros u; simpl.
  - rewrite elem_of_nil. tauto.
  - rewrite IH, elem_of_setAdd, elem_of_cons. tauto.
Qed.

Lemma getDifficultyIndex_range (d : Difficulty) :
  (0 <= getDifficultyIndex d <= 4)%Z.
Proof. destruct d; vm_compute; split; discriminate. Qed.

Lemma maxDifficultyOf_index (a b : Difficulty) :
  getDifficultyIndex (maxDifficultyOf a b)
  = Z.max (getDifficultyIndex a) (getDifficultyIndex b).
Proof. by destruct a, b. Qed.

Lemma fold_max_spec (ts : list Strategy) (d : Difficulty) :
  let r := fold_left (fun d t => maxDifficultyOf d (STRATEGY_DIFFICULTY t))
             ts d in
  (getDifficultyIndex d <= getDifficultyIndex r)%Z
  /\ (forall t, t ∈ ts ->
        (getDifficultyIndex (STRATEGY_DIFFICULTY t) <= getDifficultyIndex r)%Z)
  /\ (r = d \/ exists t, t ∈ ts /\ r = STRATEGY_DIFFICULTY t).
Proof.
  revert d. induction ts as [|t ts IH]; intros d; simpl.
  - repeat split; [lia | | by left]. intros t Ht. by apply elem_of_nil in Ht.
  - destruct (IH (maxDifficultyOf d (STRATEGY_DIFFICULTY t)))
      as (H1 & H2 & H3).
    rewrite maxDifficultyOf_index in H1.
    repeat split.
    + lia.
    + intros t' Ht'. apply elem_of_cons in Ht' as [-> | Ht']; [lia | auto].
    + destruct H3 as [H3 | (t' & Ht' & H3)].
      * rewrite H3. unfold maxDifficultyOf. case_match.
        -- by left.
        -- right. exists t. split; [apply list_elem_of_here | done].
      * right. exists t'. split; [by apply list_elem_of_further | done].
Qed.

(** ** The solver: results *)

Lemma run_stuck (n : nat) (b b' : SudokuGrid * Candidates)
  (ts : list Strategy) :
  run n b ts b' -> stuck n b'.
Proof. induction 1; auto. Qed.

(** C1.  On every grid of size 4, 6 or 9 [solveWithStrategies] returns;
    with [ts] the techniques it applied, in order: every applied technique is in
    [strategiesUsed], which holds nothing else but ['guessing'], and that
    exactly when the result is unsolved; [maxDifficulty] is the running
    maximum, from ['beginner'], of the table naked_single -> beginner,
    hidden_single -> easy, naked_pair -> medium, pointing_pair -> hard,
    box_line_reduction -> hard, guessing -> expert over the applied
    techniques, followed by 'guessing' when the result is unsolved, hence
    the greatest difficulty of a member of [strategiesUsed]; and whenever
    the final working grid is not completely filled the result has
    [solved = false], ['guessing'] in [strategiesUsed] and
    [maxDifficulty = 'expert']. *)
Theorem solveWithStrategies_records_techniques (g : SudokuGrid) :
  GridSize (length g) ->
  exists ts res,
    solveTrace g = Some (ts, res)
    /\ solveWithStrategies g = Some res
    /\ (forall t, t ∈ ts -> t ∈ priority /\ t ∈ strategiesUsed res)
    /\ (forall t, t ∈ strategiesUsed res <->
          t ∈ ts \/ (t = guessing /\ solved res = false))
    /\ maxDifficulty res
       = runningMax (if solved res then ts else ts ++ [guessing])
    /\ (forall t, t ∈ strategiesUsed res ->
          (getDifficultyIndex (STRATEGY_DIFFICULTY t)
           <= getDifficultyIndex (maxDifficulty res))%Z)
    /\ (maxDifficulty res = beginner
        \/ exists t, t ∈ strategiesUsed res
                     /\ maxDifficulty res = STRATEGY_DIFFICULTY t)
    /\ (ts = [] -> solved res = true -> maxDifficulty res = beginner)
    /\ (STRATEGY_DIFFICULTY naked_single = beginner
        /\ STRATEGY_DIFFICULTY hidden_single = easy
        /\ STRATEGY_DIFFICULTY naked_pair = medium
        /\ STRATEGY_DIFFICULTY pointing_pair = hard
        /\ STRATEGY_DIFFICULTY box_line_reduction = hard)
    /\ solved res = isComplete (grid res)
    /\ (isComplete (grid res) = false ->
          solved res = false
          /\ guessing ∈ strategiesUsed res
          /\ maxDifficulty res = expert).
Proof.
  intros _.
  destruct (solveTrace_returns g) as (ts & s' & Hloop & Htrace).
  destruct (solveLoop_trace _ _ _ _ _ Hloop) as (Hrun & Hu & Hd & Hs).
  simpl in Hu, Hd.
  exists ts, (finish s').
  split; [exact Htrace |].
  split; [unfold solveWithStrategies; by rewrite Htrace |].
  assert (Hprio : forall t, t ∈ ts -> t ∈ priority).
  { clear -Hrun. induction Hrun as [| b b' b'' t ts Hstep Hrun IH].
    - intros t Ht. by apply elem_of_nil in Ht.
    - intros t' Ht'. apply elem_of_cons in Ht' as [-> | Ht']; [| auto].
      destruct Hstep as (k & Hk & _). by eapply list_elem_of_lookup_2. }
  assert (Hused : forall t, t ∈ strategiesUsed (finish s') <->
            t ∈ ts \/ (t = guessing /\ solved (finish s') = false)).
  { intros t. unfold finish. simpl.
    destruct (isComplete (workingGrid s')).
    - rewrite Hu, elem_of_fold_setAdd, elem_of_nil. split; [tauto |].
      intros [H | [_ H]]; [tauto | done].
    - rewrite elem_of_setAdd, Hu, elem_of_fold_setAdd, elem_of_nil. tauto. }
  assert (Hmax : maxDifficulty (finish s')
            = runningMax (if solved (finish s') then ts
                          else ts ++ [guessing])).
  { unfold finish, runningMax. simpl.
    destruct (isComplete (workingGrid s')); [exact Hd |].
    rewrite fold_left_app. simpl.
    by destruct (fold_left _ ts beginner). }
  split; [intros t Ht; split; [auto | apply Hused; by left] |].
  split; [exact Hused |].
  split; [exact Hmax |].
  destruct (fold_max_spec
              (if solved (finish s') then ts else ts ++ [guessing]) beginner)
    as (_ & Hle & Hwit).
  fold (runningMax (if solved (finish s') then ts else ts ++ [guessing]))
    in Hle, Hwit.
  rewrite <- Hmax in Hle, Hwit.
  assert (Hmem : forall t,
            t ∈ (if solved (finish s') then ts else ts ++ [guessing]) <->
            t ∈ strategiesUsed (finish s')).
  { intros t. rewrite Hused. destruct (solved (finish s')).
    - split; [tauto | intros [H | [_ H]]; [done | done]].
    - rewrite elem_of_app, list_elem_of_singleton. tauto. }
  split; [intros t Ht; by apply Hle, Hmem |].
  split.
  { destruct Hwit as [H | (t & Ht & H)]; [by left |].
    right. exists t. split; [by apply Hmem | done]. }
  split; [intros -> Hsolved; by rewrite Hmax, Hsolved |].
  split; [done |].
  split; [done |].
  unfold finish. simpl. intros H. rewrite H. repeat split.
  apply elem_of_setAdd. by right.
Qed.

Lemma solveWithStrategies_records_techniques_witness :
  GridSize (length columnFirstGrid)
  /\ exists ts res,
       solveTrace columnFirstGrid = Some (ts, res)
       /\ (forall t, t ∈ ts -> t ∈ strategiesUsed res)
       /\ maxDifficulty res
          = runningMax (if solved res then ts else ts ++ [guessing]).
Proof.
  assert (Hn : GridSize (length columnFirstGrid)) by (right; left; reflexivity).
  split; [exact Hn |].
  destruct (solveWithStrategies_records_techniques columnFirstGrid Hn)
    as (ts & res & H1 & _ & H2 & _ & H3 & _).
  exists ts, res. split; [exact H1 |]. split; [| exact H3].
  intros t Ht. exact (proj2 (H2 t Ht)).
Defined.

(** C2.  On a grid of size 4, 6 or 9 the loop of [solveWithStrategies] is
    the specification's repetition: every pass that makes progress applies the first technique,
    in the order naked single, hidden single, naked pair, pointing pair,
    box/line reduction, that makes progress on the state the pass started
    from, every technique before it finding nothing there; the next pass
    starts again from naked single; and the loop ends with the first pass in
    which none of the five advances, so that [steps] is the number of
    applied techniques plus one. *)
Theorem solveWithStrategies_priority_order (g : SudokuGrid) :
  GridSize (length g) ->
  exists ts res cs,
    solveTrace g = Some (ts, res)
    /\ run (length g) (g, buildCandidateGrid g) ts (grid res, cs)
    /\ stuck (length g) (grid res, cs)
    /\ steps res = length ts + 1.
Proof.
  intros _.
  destruct (solveTrace_returns g) as (ts & s' & Hloop & Htrace).
  destruct (solveLoop_trace _ _ _ _ _ Hloop) as (Hrun & _ & _ & Hs).
  exists ts, (finish s'), (candidates s').
  simpl in Hrun, Hs. rewrite cloneGrid_eq in Hrun.
  split; [exact Htrace |].
  split; [exact Hrun |].
  split; [exact (run_stuck _ _ _ _ Hrun) | exact Hs].
Qed.

Lemma solveWithStrategies_priority_order_witness :
  GridSize (length columnFirstGrid)
  /\ exists ts res cs,
       solveTrace columnFirstGrid = Some (ts, res)
       /\ run 6 (columnFirstGrid, buildCandidateGrid columnFirstGrid) ts
            (grid res, cs)
       /\ steps res = length ts + 1.
Proof.
  assert (Hn : GridSize (length columnFirstGrid)) by (right; left; reflexivity).
  split; [exact Hn |].
  destruct (solveWithStrategies_priority_order columnFirstGrid Hn)
    as (ts & res & cs & H1 & H2 & _ & H3).
  exists ts, res, cs. split; [exact H1 |]. split; [exact H2 | exact H3].
Defined.

(** C6.  On a completely filled grid of size 4, 6 or 9
    [solveWithStrategies] applies no
    technique and returns [solved = true], an empty [strategiesUsed],
    [steps = 1] and [maxDifficulty = 'beginner'], with the grid as it was. *)
Theorem solveWithStrategies_complete_grid (g : SudokuGrid) :
  GridSize (length g) ->
  isComplete g = true ->
  solveTrace g
  = Some ([], {| solved := true; grid := g; strategiesUsed := [];
                 maxDifficulty := beginner; steps := 1 |})
  /\ solveWithStrategies g
     = Some {| solved := true; grid := g; strategiesUsed := [];
               maxDifficulty := beginner; steps := 1 |}.
Proof.
  intros _ Hcomp.
  assert (Htrace : solveTrace g
    = Some ([], {| solved := true; grid := g; strategiesUsed := [];
                   maxDifficulty := beginner; steps := 1 |})).
  { destruct (solveTrace_returns g) as (ts & s' & Hloop & Htrace).
    rewrite Htrace. unfold passBound in Hloop. rewrite solveLoop_S in Hloop.
    destruct (iteration (length g) (initialState g)) as [[t |] s1] eqn:Hit.
    - exfalso.
      destruct (iteration_progress _ _ s1 t (consistent_initialState g) Hit)
        as (_ & _ & [(row & col & value & Hnull & _) | (_ & Hlt)]);
        simpl in *; rewrite cloneGrid_eq in *.
      + by rewrite (isComplete_isNull g row col Hcomp) in Hnull.
      + rewrite (candidateTotal_complete g Hcomp) in Hlt. lia.
    - injection Hloop as <- <-.
      destruct (iteration_stuck _ _ _ Hit) as [_ ->].
      unfold finish. simpl. rewrite cloneGrid_eq. by rewrite Hcomp. }
  split; [exact Htrace |]. unfold solveWithStrategies. by rewrite Htrace.
Qed.

Lemma solveWithStrategies_complete_grid_witness :
  GridSize (length solvedGrid)
  /\ isComplete solvedGrid = true
  /\ solveWithStrategies solvedGrid
     = Some {| solved := true; grid := solvedGrid; strategiesUsed := [];
               maxDifficulty := beginner; steps := 1 |}.
Proof.
  assert (Hn : GridSize (length solvedGrid)) by (left; reflexivity).
  assert (H : isComplete solvedGrid = true) by reflexivity.
  split; [exact Hn |]. split; [exact H |].
  exact (proj2 (solveWithStrategies_complete_grid solvedGrid Hn H)).
Defined.

(** C7.  On the grid [[1,2,3,null],[3,4,1,2],[2,1,4,3],[4,3,2,1]] the first
    pass finds the naked single 4 at (0,3); [solveWithStrategies] applies
    that one technique, fills (0,3) with 4 and returns [solved = true],
    [strategiesUsed = {naked_single}] and [maxDifficulty = 'beginner']. *)
Theorem solveWithStrategies_naked_single_scenario :
  findNakedSingle nakedSingleGrid (buildCandidateGrid nakedSingleGrid) 4
  = Some (0, 3, 4)
  /\ solveTrace nakedSingleGrid
     = Some ([naked_single],
             {| solved := true; grid := solvedGrid;
                strategiesUsed := [naked_single];
                maxDifficulty := beginner; steps := 2 |})
  /\ solveWithStrategies nakedSingleGrid
     = Some {| solved := true; grid := solvedGrid;
               strategiesUsed := [naked_single];
               maxDifficulty := beginner; steps := 2 |}
  /\ cellAt solvedGrid 0 3 = Some (Some 4)
  /\ solvedGrid = setCell nakedSingleGrid 0 3 4.
Proof. repeat split; vm_compute; reflexivity. Qed.

(** C9.  [solveWithStrategies] returns on every square grid of size 4, 6
    or 9.  In every state the
    loop reaches, the number of [null] cells is at most N*N and the number
    of candidate entries at most N*N*N; a pass that makes progress either
    fills a cell that was [null], which lowers the first number and does not
    raise the second, or leaves the grid alone and lowers the second; a pass
    that makes no progress ends the loop; and the loop makes at most
    N*N + N*N*N + 1 passes. *)
Theorem solveWithStrategies_terminates (g : SudokuGrid) :
  GridSize (length g) ->
  square g ->
  let n := length g in
  (forall s, reachable n (initialState g) s ->
     emptyCount (workingGrid s) <= n * n
     /\ candidateTotal (candidates s) <= n * n * n
     /\ (forall t s', iteration n s = (Some t, s') ->
           (exists row col value,
               isNull (workingGrid s) row col = true
               /\ workingGrid s' = setCell (workingGrid s) row col value
               /\ emptyCount (workingGrid s') < emptyCount (workingGrid s)
               /\ candidateTotal (candidates s')
                  <= candidateTotal (candidates s))
           \/ (workingGrid s' = workingGrid s
               /\ candidateTotal (candidates s')
                  < candidateTotal (candidates s)))
     /\ (forall s' fuel, iteration n s = (None, s') ->
           solveLoop (S fuel) n s = Some ([], s')))
  /\ exists res,
       solveWithStrategies g = Some res
       /\ steps res <= n * n + n * n * n + 1.
Proof.
  intros _ Hsq n.
  assert (He0 : emptyCount (workingGrid (initialState g)) <= n * n).
  { simpl. rewrite cloneGrid_eq. by apply emptyCount_bound. }
  assert (Hc0 : candidateTotal (candidates (initialState g)) <= n * n * n).
  { simpl. rewrite cloneGrid_eq. apply candidateTotal_bound. }
  split.
  - intros s Hreach.
    destruct (reachable_invariant n _ s (consistent_initialState g) Hreach)
      as (Hc & He & Ht).
    split; [lia |]. split; [lia |]. split.
    + intros t s' Hit.
      by destruct (iteration_progress n s s' t Hc Hit) as (_ & _ & H).
    + intros s' fuel Hit. rewrite solveLoop_S. by rewrite Hit.
  - destruct (solveTrace_returns g) as (ts & s' & Hloop & Htrace).
    exists (finish s'). split.
    + unfold solveWithStrategies. by rewrite Htrace.
    + destruct (solveLoop_trace _ _ _ _ _ Hloop) as (_ & _ & _ & Hs).
      pose proof (solveLoop_length _ _ _ _ _ (consistent_initialState g) Hloop)
        as Hlen.
      unfold measure in Hlen. simpl steps. rewrite Hs.
      change (stepCount (initialState g)) with 0. lia.
Qed.

Lemma solveWithStrategies_terminates_witness :
  GridSize (length nakedSingleGrid)
  /\ square nakedSingleGrid
  /\ exists res,
      solveWithStrategies nakedSingleGrid = Some res
      /\ steps res <= 4 * 4 + 4 * 4 * 4 + 1.
Proof.
  assert (Hn : GridSize (length nakedSingleGrid)) by (left; reflexivity).
  assert (H : square nakedSingleGrid) by (repeat constructor).
  split; [exact Hn |]. split; [exact H |].
  exact (proj2 (solveWithStrategies_terminates nakedSingleGrid Hn H)).
Defined.

(** ** The difficulty validator *)

Lemma solveWithStrategies_returns (g : SudokuGrid) :
  exists res, solveWithStrategies g = Some res.
Proof.
  destruct (solveTrace_returns g) as (ts & s' & _ & Htrace).
  exists (finish s'). unfold solveWithStrategies. by rewrite Htrace.
Qed.

(** C3.  For a grid of size 4, 6 or 9, whose ceiling is easy, medium or
    expert, [validateDifficulty] returns [valid = true] exactly when, with
    [actual] the index of the solver's [maxDifficulty] and [capped] the
    smaller of the index of the requested difficulty and of the ceiling,
    [|actual - capped| <= 1], or [actual > capped] while the requested
    difficulty is hard or expert.  The index is the position in beginner,
    easy, medium, hard, expert. *)
Theorem validateDifficulty_valid_iff (g : SudokuGrid)
  (requested ceiling : Difficulty) :
  (length g = 4 /\ ceiling = easy)
  \/ (length g = 6 /\ ceiling = medium)
  \/ (length g = 9 /\ ceiling = expert) ->
  exists res v,
    solveWithStrategies g = Some res
    /\ validateDifficulty g requested = Some v
    /\ actualDifficulty v = maxDifficulty res
    /\ (getDifficultyIndex <$> DIFFICULTY_ORDER = [0; 1; 2; 3; 4]%Z)
    /\ let actual := getDifficultyIndex (maxDifficulty res) in
       let capped :=
         Z.min (getDifficultyIndex requested) (getDifficultyIndex ceiling) in
       valid v = true <->
       (Z.abs (actual - capped) <= 1)%Z
       \/ ((capped < actual)%Z /\ (requested = hard \/ requested = expert)).
Proof.
  intros Hsize.
  destruct (solveWithStrategies_returns g) as (res & Hres).
  assert (Hceil : getMaxDifficultyForGridSize (length g) = ceiling).
  { destruct Hsize as [[-> ->] | [[-> ->] | [-> ->]]]; reflexivity. }
  unfold validateDifficulty. rewrite Hres. simpl. rewrite Hceil.
  eexists _, _. split; [reflexivity |]. split; [reflexivity |].
  split; [reflexivity |]. split; [reflexivity |]. simpl.
  rewrite orb_true_iff, andb_true_iff, Z.leb_le, Z.ltb_lt, Z.leb_le.
  assert (Hreq : (3 <= getDifficultyIndex requested)%Z
                 <-> requested = hard \/ requested = expert).
  { destruct requested; vm_compute; split; intros H;
      try (by left); try (by right); try done;
      destruct H; done. }
  rewrite Hreq. done.
Qed.

Lemma validateDifficulty_valid_iff_witness :
  ((length nakedSingleGrid = 4 /\ easy = easy)
   \/ (length nakedSingleGrid = 6 /\ easy = medium)
   \/ (length nakedSingleGrid = 9 /\ easy = expert))
  /\ exists res v,
      solveWithStrategies nakedSingleGrid = Some res
      /\ validateDifficulty nakedSingleGrid expert = Some v.
Proof.
  assert (H : (length nakedSingleGrid = 4 /\ easy = easy)
              \/ (length nakedSingleGrid = 6 /\ easy = medium)
              \/ (length nakedSingleGrid = 9 /\ easy = expert))
    by (left; split; reflexivity).
  split; [exact H |].
  destruct (validateDifficulty_valid_iff nakedSingleGrid expert easy H)
    as (res & v & H1 & H2 & _).
  exists res, v. split; [exact H1 | exact H2].
Defined.
(** ** The solver on the store *)

Lemma map_seq_lookup {A : Type} (f : nat -> A) (base k i : nat) :
  map f (seq base k) !! i
  = if decide (i < k) then Some (f (base + i)) else None.
Proof.
  change (map f (seq base k)) with (f <$> seq base k).
  rewrite list_lookup_fmap. case_decide.
  - by rewrite lookup_seq_lt.
  - by rewrite lookup_seq_ge by lia.
Qed.

Lemma readGrid_ownsRows (h : GridHeap.Heap) (w base k : nat) :
  GridHeap.ownsRows h w base k ->
  GridHeap.readGrid h w = map (GridHeap.readRow h) (seq base k).
Proof. intros [Hw _]. unfold GridHeap.readGrid. by rewrite Hw. Qed.

Lemma cloneGrid_ownsRows (h : GridHeap.Heap) (ref : nat) :
  GridHeap.ownsRows (GridHeap.cloneGrid h ref).1 (GridHeap.cloneGrid h ref).2
    (length (GridHeap.rowObjects h)) (length (GridHeap.readGrid h ref)).
Proof.
  unfold GridHeap.ownsRows, GridHeap.cloneGrid. simpl. split.
  - by rewrite list_lookup_middle.
  - rewrite length_app. lia.
Qed.

Lemma cloneGrid_sameBelow (h : GridHeap.Heap) (ref : nat) :
  GridHeap.extends h (GridHeap.cloneGrid h ref).1.
Proof.
  unfold GridHeap.extends, GridHeap.cloneGrid. simpl. split.
  - intros a Ha. by rewrite lookup_app_l.
  - intros r Hr. by rewrite lookup_app_l.
Qed.

Lemma readGrid_cloneGrid (h : GridHeap.Heap) (ref : nat) :
  GridHeap.readGrid (GridHeap.cloneGrid h ref).1 (GridHeap.cloneGrid h ref).2
  = GridHeap.readGrid h ref.
Proof.
  rewrite (readGrid_ownsRows _ _ _ _ (cloneGrid_ownsRows h ref)).
  apply list_eq. intros i. rewrite map_seq_lookup.
  unfold GridHeap.readRow, GridHeap.cloneGrid. simpl.
  case_decide as Hi.
  - rewrite lookup_app_r by lia.
    replace (length (GridHeap.rowObjects h) + i
             - length (GridHeap.rowObjects h)) with i by lia.
    destruct (lookup_lt_is_Some_2 _ _ Hi) as [x Hx]. by rewrite Hx.
  - symmetry. apply lookup_ge_None. lia.
Qed.

Lemma alter_out_of_range {A : Type} (f : A -> A) (i : nat) (l : list A) :
  length l <= i -> alter f i l = l.
Proof.
  intros Hi. apply list_eq. intros j.
  destruct (decide (i = j)) as [<- | Hne].
  - rewrite list_lookup_alter_eq.
    by rewrite (proj2 (lookup_ge_None l i) Hi).
  - by rewrite list_lookup_alter_ne.
Qed.

(** A write through the working grid's reference is the write on its
    value, and touches no row below the grid's own. *)
Lemma writeCell_setCell (h : GridHeap.Heap) (w base k row col v : nat) :
  GridHeap.ownsRows h w base k ->
  GridHeap.readGrid (GridHeap.writeCell h w row col v) w
  = setCell (GridHeap.readGrid h w) row col v
  /\ GridHeap.ownsRows (GridHeap.writeCell h w row col v) w base k
  /\ GridHeap.sameBelow base h (GridHeap.writeCell h w row col v).
Proof.
  intros Hown. pose proof Hown as [Hw Hlen].
  unfold GridHeap.writeCell. rewrite Hw. simpl.
  destruct (decide (row < k)) as [Hrow | Hrow].
  - rewrite lookup_seq_lt by done.
    set (h' := {| GridHeap.rowObjects := _; GridHeap.gridObjects := _ |}).
    assert (Hown' : GridHeap.ownsRows h' w base k).
    { split; [done |]. simpl. by rewrite length_alter. }
    split; [| split; [done |]].
    + rewrite (readGrid_ownsRows _ _ _ _ Hown'),
        (readGrid_ownsRows _ _ _ _ Hown).
      unfold setCell. apply list_eq. intros i.
      rewrite map_seq_lookup.
      destruct (decide (i = row)) as [-> | Hne].
      * rewrite list_lookup_alter_eq, map_seq_lookup.
        rewrite !decide_True by done. simpl.
        unfold GridHeap.readRow, h'. simpl.
        rewrite list_lookup_alter_eq.
        destruct (lookup_lt_is_Some_2 (GridHeap.rowObjects h) (base + row))
          as [x Hx]; [lia |].
        by rewrite Hx.
      * rewrite list_lookup_alter_ne by done. rewrite map_seq_lookup.
        case_decide; [| done].
        unfold GridHeap.readRow, h'. simpl.
        by rewrite list_lookup_alter_ne by lia.
    + split; [| done]. intros a Ha. simpl.
      by rewrite list_lookup_alter_ne by lia.
  - rewrite lookup_seq_ge by lia.
    split; [| split; [done | by split]].
    unfold setCell. rewrite alter_out_of_range; [done |].
    rewrite (readGrid_ownsRows _ _ _ _ Hown), length_map, length_seq. lia.
Qed.

Lemma sameBelow_refl (base : nat) (h : GridHeap.Heap) :
  GridHeap.sameBelow base h h.
Proof. by split. Qed.

Lemma sameBelow_trans (base : nat) (h1 h2 h3 : GridHeap.Heap) :
  GridHeap.sameBelow base h1 h2 -> GridHeap.sameBelow base h2 h3 ->
  GridHeap.sameBelow base h1 h3.
Proof.
  intros [H1 H2] [H3 H4]. split.
  - intros a Ha. by rewrite H3, H1.
  - by rewrite H4.
Qed.

(** One pass on the store is one pass on the values. *)
Lemma iteration_on_store (n base k : nat) (s : GridHeap.HeapLoopState) :
  GridHeap.ownsRows (GridHeap.heap s) (GridHeap.workingGridRef s) base k ->
  let r := GridHeap.iteration n s in
  iteration n (GridHeap.valueState s) = (r.1, GridHeap.valueState r.2)
  /\ GridHeap.workingGridRef r.2 = GridHeap.workingGridRef s
  /\ GridHeap.ownsRows (GridHeap.heap r.2) (GridHeap.workingGridRef s) base k
  /\ GridHeap.sameBelow base (GridHeap.heap s) (GridHeap.heap r.2).
Proof.
  intros Hown. unfold GridHeap.iteration, iteration. simpl.
  destruct (findNakedSingle _ _ n) as [[[row col] value] |].
  { destruct (writeCell_setCell _ _ _ _ row col value Hown) as (E & Ho & Hs).
    simpl. unfold progress, GridHeap.valueState. simpl. rewrite E. done. }
  destruct (findHiddenSingle _ _ n) as [[[row col] value] |].
  { destruct (writeCell_setCell _ _ _ _ row col value Hown) as (E & Ho & Hs).
    simpl. unfold progress, GridHeap.valueState. simpl. rewrite E. done. }
  assert (Hrefl := sameBelow_refl base (GridHeap.heap s)).
  destruct (0 <? _);
    [simpl; split; [reflexivity | split; [reflexivity | by split]] |].
  destruct (0 <? _);
    [simpl; split; [reflexivity | split; [reflexivity | by split]] |].
  destruct (0 <? _);
    simpl; (split; [reflexivity | split; [reflexivity | by split]]).
Qed.

Lemma solveLoop_on_store (n base k fuel : nat) (s : GridHeap.HeapLoopState) :
  GridHeap.ownsRows (GridHeap.heap s) (GridHeap.workingGridRef s) base k ->
  match GridHeap.solveLoop fuel n s with
  | Some (ts, s') =>
      solveLoop fuel n (GridHeap.valueState s)
      = Some (ts, GridHeap.valueState s')
      /\ GridHeap.workingGridRef s' = GridHeap.workingGridRef s
      /\ GridHeap.ownsRows (GridHeap.heap s') (GridHeap.workingGridRef s)
           base k
      /\ GridHeap.sameBelow base (GridHeap.heap s) (GridHeap.heap s')
  | None => solveLoop fuel n (GridHeap.valueState s) = None
  end.
Proof.
  revert s. induction fuel as [|fuel IH]; intros s Hown; [done |].
  simpl GridHeap.solveLoop. rewrite solveLoop_S.
  destruct (iteration_on_store n base k s Hown) as (E & Hw & Hown' & Hsame).
  rewrite E. destruct (GridHeap.iteration n s) as [[t |] s1]; simpl in *.
  - rewrite <- Hw in Hown'. specialize (IH s1 Hown').
    destruct (GridHeap.solveLoop fuel n s1) as [[ts s2] |].
    + destruct IH as (E2 & Hw2 & Hown2 & Hsame2). rewrite E2.
      split; [done |]. split; [congruence |].
      split; [by rewrite <- Hw |]. by eapply sameBelow_trans.
    + by rewrite IH.
  - done.
Qed.

Lemma valueState_initialState (h : GridHeap.Heap) (ref : nat) :
  GridHeap.valueState (GridHeap.initialState h ref)
  = initialState (GridHeap.readGrid h ref).
Proof.
  unfold GridHeap.valueState, GridHeap.initialState, initialState.
  cbv zeta.
  cbn [GridHeap.heap GridHeap.workingGridRef GridHeap.candidatesOf
       GridHeap.usedOf GridHeap.currentDifficultyOf GridHeap.stepCountOf].
  by rewrite readGrid_cloneGrid, cloneGrid_eq.
Qed.

(** The solver on the store computes what the solver on values computes,
    in a grid object of its own, and leaves every object of the store it
    was given as it was. *)
Lemma solveWithStrategies_on_store (h : GridHeap.Heap) (ref : nat) :
  exists hr res,
    GridHeap.solveWithStrategies h ref = Some hr
    /\ solveWithStrategies (GridHeap.readGrid h ref) = Some res
    /\ GridHeap.valueResult hr = res
    /\ GridHeap.gridRef hr.2 = length (GridHeap.gridObjects h)
    /\ GridHeap.ownsRows hr.1 (GridHeap.gridRef hr.2)
         (length (GridHeap.rowObjects h)) (length (GridHeap.readGrid h ref))
    /\ GridHeap.extends h hr.1.
Proof.
  destruct (solveTrace_returns (GridHeap.readGrid h ref))
    as (ts & s' & Hloop & Htrace).
  unfold GridHeap.solveWithStrategies. cbv zeta.
  pose proof (cloneGrid_ownsRows h ref) as Hown.
  assert (Hlen : length (GridHeap.readGrid
                           (GridHeap.heap (GridHeap.initialState h ref))
                           (GridHeap.workingGridRef
                              (GridHeap.initialState h ref)))
                 = length (GridHeap.readGrid h ref)).
  { unfold GridHeap.initialState. cbv zeta.
    cbn [GridHeap.heap GridHeap.workingGridRef].
    by rewrite readGrid_cloneGrid. }
  rewrite Hlen, valueState_initialState.
  pose proof (solveLoop_on_store (length (GridHeap.readGrid h ref)) _ _
                (passBound (initialState (GridHeap.readGrid h ref)))
                (GridHeap.initialState h ref) Hown) as Hsim.
  rewrite valueState_initialState, Hloop in Hsim.
  destruct (GridHeap.solveLoop _ _ (GridHeap.initialState h ref))
    as [[ts1 s1] |]; [| done].
  destruct Hsim as (E & Hw & Hown1 & Hrows & Hgrids).
  injection E as <- ->.
  exists (GridHeap.finish s1), (finish (GridHeap.valueState s1)).
  split; [done |]. split; [unfold solveWithStrategies; by rewrite Htrace |].
  split; [done |].
  unfold GridHeap.finish. cbn [fst snd GridHeap.gridRef]. rewrite Hw.
  split; [done |]. split; [exact Hown1 |].
  destruct (cloneGrid_sameBelow h ref) as [Hc1 Hc2]. split.
  - intros a Ha. rewrite Hrows by done. by apply Hc1.
  - intros r Hr. rewrite Hgrids. by apply Hc2.
Qed.

Lemma readGrid_extends (h h' : GridHeap.Heap) (ref : nat) :
  GridHeap.validGrid h ref -> GridHeap.extends h h' ->
  GridHeap.readGrid h' ref = GridHeap.readGrid h ref.
Proof.
  intros (refs & Href & Hrows) [Hext1 Hext2].
  unfold GridHeap.readGrid.
  rewrite Hext2 by (by eapply lookup_lt_Some). rewrite Href. simpl.
  apply map_ext_in. intros a Ha. unfold GridHeap.readRow.
  rewrite Hext1; [done |]. rewrite List.Forall_forall in Hrows. by apply Hrows.
Qed.

(** C10.  [solveWithStrategies] does not write to the grid it is given: on
    a grid object of size 4, 6 or 9 it returns, every object that the store held before the call is unchanged
    after it, so the caller's grid is cell for cell what it was; the grid of
    the result is another object, none of whose rows is a row of the
    caller's grid; and this object holds the placements: its value is the
    grid of the result computed on values. *)
Theorem solveWithStrategies_leaves_input_grid (h : GridHeap.Heap)
  (ref : nat) :
  GridHeap.validGrid h ref ->
  GridSize (length (GridHeap.readGrid h ref)) ->
  exists h' res,
    GridHeap.solveWithStrategies h ref = Some (h', res)
    /\ GridHeap.extends h h'
    /\ GridHeap.readGrid h' ref = GridHeap.readGrid h ref
    /\ GridHeap.gridRef res <> ref
    /\ (forall rowsIn rowsOut a,
          GridHeap.gridObjects h' !! ref = Some rowsIn ->
          GridHeap.gridObjects h' !! GridHeap.gridRef res = Some rowsOut ->
          a ∈ rowsOut -> a ∉ rowsIn)
    /\ solveWithStrategies (GridHeap.readGrid h ref)
       = Some (GridHeap.valueResult (h', res)).
Proof.
  intros Hvalid _.
  destruct (solveWithStrategies_on_store h ref)
    as ([h' res] & pure & Hcall & Hpure & Hval & Hfresh & Hown & Hext).
  simpl in Hfresh, Hown, Hext.
  exists h', res. split; [exact Hcall |]. split; [exact Hext |].
  split; [by apply readGrid_extends |].
  destruct Hvalid as (refs & Href & Hrows).
  split; [apply lookup_lt_Some in Href; lia |].
  split; [| by rewrite Hval].
  intros rowsIn rowsOut a Hin Hout Ha Ha'.
  destruct Hown as [Hown _]. rewrite Hown in Hout. injection Hout as <-.
  destruct Hext as [_ Hext]. rewrite Hext in Hin by (by eapply lookup_lt_Some).
  rewrite Href in Hin. injection Hin as <-.
  apply elem_of_seq in Ha. rewrite List.Forall_forall in Hrows.
  apply list_elem_of_In, Hrows in Ha'. lia.
Qed.

Lemma solveWithStrategies_leaves_input_grid_witness :
  GridHeap.validGrid (GridHeap.storeOf nakedSingleGrid) 0
  /\ GridSize (length (GridHeap.readGrid (GridHeap.storeOf nakedSingleGrid) 0))
  /\ exists h' res,
      GridHeap.solveWithStrategies (GridHeap.storeOf nakedSingleGrid) 0
      = Some (h', res)
      /\ GridHeap.readGrid h' 0 = nakedSingleGrid
      /\ GridHeap.gridRef res <> 0.
Proof.
  assert (H : GridHeap.validGrid (GridHeap.storeOf nakedSingleGrid) 0).
  { exists (seq 0 4). split; [reflexivity |].
    repeat (constructor; [simpl; lia |]). constructor. }
  assert (Hn : GridSize
            (length (GridHeap.readGrid (GridHeap.storeOf nakedSingleGrid) 0)))
    by (left; reflexivity).
  split; [exact H |]. split; [exact Hn |].
  destruct (solveWithStrategies_leaves_input_grid _ 0 H Hn)
    as (h' & res & H1 & _ & H2 & H3 & _).
  exists h', res. split; [exact H1 |]. split; [| exact H3].
  rewrite H2. reflexivity.
Defined.

(** ** The hint oracle *)

Import GameStore HintSpec.

Lemma existsb_false_elem {A : Type} (f : A -> bool) (l : list A) (x : A) :
  existsb f l = false -> x ∈ l -> f x = false.
Proof.
  intros H Hx. destruct (f x) eqn:Hfx; [| done].
  rewrite <- H. symmetry. apply existsb_exists. exists x.
  split; [by apply list_elem_of_In | done].
Qed.

Lemma existsb_true_elem {A : Type} (f : A -> bool) (l : list A) (x : A) :
  x ∈ l -> f x = true -> existsb f l = true.
Proof.
  intros Hx Hfx. apply existsb_exists. exists x.
  split; [by apply list_elem_of_In | done].
Qed.

Lemma forallb_elem {A : Type} (f : A -> bool) (l : list A) :
  forallb f l = true <-> forall x, x ∈ l -> f x = true.
Proof.
  rewrite forallb_forall. split; intros H x Hx; apply H;
    by apply list_elem_of_In.
Qed.

Lemma forallb_fmap {A B : Type} (f : B -> bool) (h : A -> B) (l : list A) :
  forallb f (map h l) = forallb (fun x => f (h x)) l.
Proof. induction l as [|a l IH]; simpl; [done | by rewrite IH]. Qed.

Lemma forallb_flat_map {A B : Type} (f : B -> bool) (h : A -> list B)
  (l : list A) :
  forallb f (flat_map h l) = forallb (fun x => forallb f (h x)) l.
Proof.
  induction l as [|a l IH]; simpl; [done |].
  by rewrite forallb_app, IH.
Qed.

Lemma forallb_ext_all {A : Type} (f h : A -> bool) (l : list A) :
  (forall x, f x = h x) -> forallb f l = forallb h l.
Proof.
  intros H. induction l as [|a l IH]; simpl; [done | by rewrite H, IH].
Qed.

Lemma boxHeight_rows (n : nat) : boxHeight n = rows (getBoxDimensions n).
Proof. by do 7 (destruct n as [|n]; [done |]). Qed.

Lemma boxWidth_cols (n : nat) : boxWidth n = cols (getBoxDimensions n).
Proof. by do 7 (destruct n as [|n]; [done |]). Qed.

(** The three tests of STEP 2 are the three units of the cell. *)
Lemma uniqueInRow_aloneIn (g : SudokuGrid) (n row col v : nat) :
  uniqueInRow g n row col v = aloneIn g (rowUnit n row) (row, col) v.
Proof.
  unfold uniqueInRow, aloneIn, rowUnit. rewrite forallb_fmap.
  apply forallb_ext_all. intros c. unfold samePosition, canHold. simpl.
  rewrite Nat.eqb_refl.
  by destruct (c =? col), (isNull g row c), (includes _ v).
Qed.

Lemma uniqueInCol_aloneIn (g : SudokuGrid) (n row col v : nat) :
  uniqueInCol g n row col v = aloneIn g (colUnit n col) (row, col) v.
Proof.
  unfold uniqueInCol, aloneIn, colUnit. rewrite forallb_fmap.
  apply forallb_ext_all. intros r. unfold samePosition, canHold. simpl.
  rewrite Nat.eqb_refl.
  by destruct (r =? row), (isNull g r col), (includes _ v).
Qed.

Lemma uniqueInBox_aloneIn (g : SudokuGrid) (n row col v : nat) :
  uniqueInBox g n row col v
  = aloneIn g
      (boxUnit n (row / rows (getBoxDimensions n))
         (col / cols (getBoxDimensions n)))
      (row, col) v.
Proof.
  unfold uniqueInBox, aloneIn, boxUnit. cbv zeta.
  rewrite boxHeight_rows, boxWidth_cols, forallb_flat_map.
  apply forallb_ext_all. intros r. rewrite forallb_fmap.
  apply forallb_ext_all. intros c. unfold samePosition, canHold. simpl.
  by destruct (r =? row), (c =? col), (isNull g r c), (includes _ v).
Qed.

Lemma hiddenSingleAt_tests (g : SudokuGrid) (n row col v : nat) :
  hiddenSingleAt g n (row, col) v
  = isNull g row col && includes (getCandidates g row col) v
    && (uniqueInRow g n row col v || uniqueInCol g n row col v
        || uniqueInBox g n row col v).
Proof.
  unfold hiddenSingleAt. cbv zeta.
  by rewrite uniqueInRow_aloneIn, uniqueInCol_aloneIn, uniqueInBox_aloneIn.
Qed.

Lemma includes_true (a : list nat) (v : nat) : includes a v = true <-> v ∈ a.
Proof. apply setHas_true. Qed.

Lemma getCandidates_range (g : SudokuGrid) (r c v : nat) :
  v ∈ getCandidates g r c -> v ∈ seq 1 (length g).
Proof.
  unfold getCandidates. intros H.
  apply list_elem_of_In, filter_In in H as [H _].
  by apply list_elem_of_In.
Qed.

(** A list cut out of an ascending range: what is smaller than the element
    at the cut is before the cut. *)
Lemma filter_seq_split (f : nat -> bool) (a n x : nat) (l1 l2 : list nat) :
  List.filter f (seq a n) = l1 ++ x :: l2 ->
  forall y, y < x -> y ∈ List.filter f (seq a n) -> y ∈ l1.
Proof.
  revert a l1. induction n as [|n IH]; intros a l1 Hsplit y Hy Hin.
  - by destruct l1.
  - simpl in *. destruct (f a) eqn:Hfa.
    + destruct l1 as [|z l1]; simpl in Hsplit; injection Hsplit as -> Hsplit.
      * apply elem_of_cons in Hin as [-> | Hin]; [lia |].
        apply list_elem_of_In, filter_In in Hin as [Hin _].
        apply in_seq in Hin. lia.
      * apply elem_of_cons in Hin as [-> | Hin]; [apply list_elem_of_here |].
        apply list_elem_of_further. by eapply IH.
    + by eapply IH.
Qed.

Lemma filter_all (l : list nat) : List.filter (fun _ => true) l = l.
Proof. induction l as [|a l IH]; simpl; [done | by rewrite IH]. Qed.

Lemma seq_split (a n x : nat) (l1 l2 : list nat) :
  seq a n = l1 ++ x :: l2 ->
  x ∈ seq a n /\ forall y, a <= y < x -> y ∈ l1.
Proof.
  intros Hsplit. split.
  - rewrite Hsplit. apply elem_of_app. right. apply list_elem_of_here.
  - intros y Hy.
    assert (Hx : x ∈ seq a n).
    { rewrite Hsplit. apply elem_of_app. right. apply list_elem_of_here. }
    apply elem_of_seq in Hx.
    apply (filter_seq_split (fun _ => true) a n x l1 l2).
    + by rewrite filter_all.
    + lia.
    + rewrite filter_all. apply elem_of_seq. lia.
Qed.

(** *** STEP 1 *)

Lemma stepNakedSingle_None (g : SudokuGrid) (n : nat) :
  hasNakedSingle g n = false -> stepNakedSingle g n = None.
Proof.
  intros H. unfold stepNakedSingle.
  apply firstSome_None. intros row Hrow.
  apply firstSome_None. intros col Hcol.
  pose proof (existsb_false_elem _ _ _ H Hrow) as H1. simpl in H1.
  pose proof (existsb_false_elem _ _ _ H1 Hcol) as H2. simpl in H2.
  destruct (isNull g row col); simpl in *; [| done]. by rewrite H2.
Qed.

(** *** STEP 2 *)

Lemma testHiddenSingle_None (g : SudokuGrid) (n row col v : nat) :
  testHiddenSingle g n row col v = None <->
  uniqueInRow g n row col v || uniqueInCol g n row col v
  || uniqueInBox g n row col v = false.
Proof.
  unfold testHiddenSingle.
  by destruct (uniqueInRow g n row col v), (uniqueInCol g n row col v),
    (uniqueInBox g n row col v).
Qed.

Lemma testHiddenSingle_Some (g : SudokuGrid) (n row col v : nat)
  (r : nat * nat * nat * StrategyResult) :
  testHiddenSingle g n row col v = Some r ->
  r.1 = (row, col, v) /\ strategy r.2 = hidden_single /\ confidence r.2 = 1
  /\ uniqueInRow g n row col v || uniqueInCol g n row col v
     || uniqueInBox g n row col v = true
  /\ explanation r.2
     = if aloneIn g (rowUnit n row) (row, col) v then OnlyInRow v
       else if aloneIn g (colUnit n col) (row, col) v then OnlyInColumn v
       else OnlyInBox v.
Proof.
  unfold testHiddenSingle.
  rewrite <- uniqueInRow_aloneIn, <- uniqueInCol_aloneIn.
  destruct (uniqueInRow g n row col v), (uniqueInCol g n row col v),
    (uniqueInBox g n row col v); intros H; by simplify_eq.
Qed.

Lemma cellHiddenSingle_None (g : SudokuGrid) (n row col : nat) :
  cellHiddenSingle g n row col = None <->
  forall v, hiddenSingleAt g n (row, col) v = false.
Proof.
  unfold cellHiddenSingle. split.
  - intros H v. rewrite hiddenSingleAt_tests.
    destruct (isNull g row col); simpl in *; [| done].
    destruct (includes (getCandidates g row col) v) eqn:Hinc; simpl; [| done].
    apply includes_true in Hinc.
    rewrite firstSome_None in H. by apply testHiddenSingle_None, H.
  - intros H. destruct (isNull g row col) eqn:Hnull; simpl; [| done].
    apply firstSome_None. intros v Hv. apply testHiddenSingle_None.
    specialize (H v). rewrite hiddenSingleAt_tests, Hnull in H.
    apply includes_true in Hv. by rewrite Hv in H.
Qed.

Lemma cellHiddenSingle_Some (g : SudokuGrid) (n row col : nat)
  (r : nat * nat * nat * StrategyResult) :
  cellHiddenSingle g n row col = Some r ->
  exists v,
    r.1 = (row, col, v) /\ strategy r.2 = hidden_single /\ confidence r.2 = 1
    /\ explanation r.2
       = (if aloneIn g (rowUnit n row) (row, col) v then OnlyInRow v
          else if aloneIn g (colUnit n col) (row, col) v then OnlyInColumn v
          else OnlyInBox v)
    /\ hiddenSingleAt g n (row, col) v = true
    /\ forall v', v' < v -> hiddenSingleAt g n (row, col) v' = false.
Proof.
  unfold cellHiddenSingle.
  destruct (isNull g row col) eqn:Hnull; simpl; [| done].
  intros H. apply firstSome_Some in H as (l1 & v & l2 & Hsplit & Hv & Hl1).
  apply testHiddenSingle_Some in Hv as (Hr & Hs & Hc & Ht & He).
  assert (Hin : v ∈ getCandidates g row col).
  { rewrite Hsplit. apply elem_of_app. right. apply list_elem_of_here. }
  exists v. repeat split; [done | done | done | done | |].
  - rewrite hiddenSingleAt_tests, Hnull, Ht.
    apply includes_true in Hin. by rewrite Hin.
  - intros v' Hlt. rewrite hiddenSingleAt_tests, Hnull. simpl.
    destruct (includes (getCandidates g row col) v') eqn:Hinc; simpl; [| done].
    apply includes_true in Hinc. apply testHiddenSingle_None, Hl1.
    unfold getCandidates in *. by eapply filter_seq_split.
Qed.

Lemma stepHiddenSingle_None (g : SudokuGrid) (n : nat) :
  stepHiddenSingle g n = None <->
  forall row col v, row < n -> col < n ->
                    hiddenSingleAt g n (row, col) v = false.
Proof.
  unfold stepHiddenSingle. rewrite firstSome_None. split.
  - intros H row col v Hrow Hcol.
    assert (Hr : row ∈ seq 0 n) by (apply elem_of_seq; lia).
    assert (Hc : col ∈ seq 0 n) by (apply elem_of_seq; lia).
    specialize (H row Hr). rewrite firstSome_None in H.
    by apply cellHiddenSingle_None, H.
  - intros H row Hrow. apply firstSome_None. intros col Hcol.
    apply cellHiddenSingle_None. intros v.
    apply elem_of_seq in Hrow, Hcol. apply H; lia.
Qed.

(** The cell STEP 2 reports is the first one, row by row, that has a hidden
    single, with its smallest such value. *)
Lemma stepHiddenSingle_Some (g : SudokuGrid) (n : nat)
  (r : nat * nat * nat * StrategyResult) :
  stepHiddenSingle g n = Some r ->
  exists row col v,
    r.1 = (row, col, v) /\ strategy r.2 = hidden_single /\ confidence r.2 = 1
    /\ explanation r.2
       = (if aloneIn g (rowUnit n row) (row, col) v then OnlyInRow v
          else if aloneIn g (colUnit n col) (row, col) v then OnlyInColumn v
          else OnlyInBox v)
    /\ row < n /\ col < n
    /\ hiddenSingleAt g n (row, col) v = true
    /\ (forall p v', p.1 < n -> p.2 < n -> before p (row, col) ->
                     hiddenSingleAt g n p v' = false)
    /\ (forall v', v' < v -> hiddenSingleAt g n (row, col) v' = false).
Proof.
  unfold stepHiddenSingle. intros H.
  apply firstSome_Some in H as (rs1 & row & rs2 & Hrows & H & Hrs1).
  apply firstSome_Some in H as (cs1 & col & cs2 & Hcols & H & Hcs1).
  apply cellHiddenSingle_Some in H as (v & Hr & Hs & Hc & He & Hhid & Hsmall).
  apply seq_split in Hrows as [Hrow Hrows].
  apply seq_split in Hcols as [Hcol Hcols].
  apply elem_of_seq in Hrow, Hcol.
  exists row, col, v.
  repeat split; [done | done | done | done | lia | lia | done | |].
  - intros [r' c'] v' Hr' Hc' [Hlt | [Heq Hlt]]; simpl in *; subst.
    + assert (Hin : r' ∈ rs1) by (apply Hrows; lia).
      specialize (Hrs1 r' Hin). rewrite firstSome_None in Hrs1.
      apply cellHiddenSingle_None, Hrs1, elem_of_seq. lia.
    + apply cellHiddenSingle_None, Hcs1, Hcols. lia.
  - exact Hsmall.
Qed.

(** *** The units of the three grid sizes *)

Lemma scannedUnitsOk_GridSize (n : nat) : GridSize n -> scannedUnitsOk n = true.
Proof. intros [-> | [-> | ->]]; vm_compute; reflexivity. Qed.

Lemma unitsCover_GridSize (n : nat) : GridSize n -> unitsCover n = true.
Proof. intros [-> | [-> | ->]]; vm_compute; reflexivity. Qed.

Lemma unitsCover_cell (n row col : nat) :
  GridSize n -> row < n -> col < n ->
  let d := getBoxDimensions n in
  ((row, col) ∈ rowUnit n row /\ rowUnit n row ∈ units n)
  /\ ((row, col) ∈ colUnit n col /\ colUnit n col ∈ units n)
  /\ ((row, col) ∈ boxUnit n (row / rows d) (col / cols d)
      /\ boxUnit n (row / rows d) (col / cols d) ∈ units n).
Proof.
  intros Hn Hrow Hcol d. pose proof (unitsCover_GridSize n Hn) as H.
  unfold unitsCover in H. cbv zeta in H. rewrite forallb_elem in H.
  specialize (H row). rewrite forallb_elem in H.
  assert (Hr : row ∈ seq 0 n) by (apply elem_of_seq; lia).
  assert (Hc : col ∈ seq 0 n) by (apply elem_of_seq; lia).
  specialize (H Hr col Hc).
  repeat (apply andb_true_iff in H as [H ?]).
  repeat match goal with
         | Hb : bool_decide _ = true |- _ => apply bool_decide_eq_true in Hb
         end.
  done.
Qed.

(** A hidden single of a cell is a value confined to a single cell within
    one of the units of the grid. *)
Lemma hiddenSingleAt_hasHiddenSingle (g : SudokuGrid) (row col v : nat) :
  GridSize (length g) -> row < length g -> col < length g ->
  hiddenSingleAt g (length g) (row, col) v = true ->
  hasHiddenSingle g (length g) = true.
Proof.
  intros Hn Hrow Hcol H. unfold hiddenSingleAt in H. cbv zeta in H.
  apply andb_true_iff in H as [Hcan Halone].
  assert (Hv : v ∈ seq 1 (length g)).
  { unfold canHold in Hcan. apply andb_true_iff in Hcan as [_ Hinc].
    apply includes_true in Hinc. by eapply getCandidates_range. }
  destruct (unitsCover_cell _ row col Hn Hrow Hcol)
    as ((Hp1 & Hu1) & (Hp2 & Hu2) & (Hp3 & Hu3)).
  unfold hasHiddenSingle.
  apply orb_true_iff in Halone as [Halone | Halone];
    [apply orb_true_iff in Halone as [Halone | Halone] |].
  - eapply existsb_true_elem; [exact Hu1 |].
    eapply existsb_true_elem; [exact Hv |]. unfold confined.
    eapply existsb_true_elem; [exact Hp1 |].
    cbn [fst snd] in Halone. cbv beta. by rewrite Hcan, Halone.
  - eapply existsb_true_elem; [exact Hu2 |].
    eapply existsb_true_elem; [exact Hv |]. unfold confined.
    eapply existsb_true_elem; [exact Hp2 |].
    cbn [fst snd] in Halone. cbv beta. by rewrite Hcan, Halone.
  - eapply existsb_true_elem; [exact Hu3 |].
    eapply existsb_true_elem; [exact Hv |]. unfold confined.
    eapply existsb_true_elem; [exact Hp3 |].
    cbn [fst snd] in Halone. cbv beta. by rewrite Hcan, Halone.
Qed.

(** *** STEP 3 *)

Lemma orderedPairs_elem {A : Type} (l : list A) (a b : A) :
  (a, b) ∈ orderedPairs l -> a ∈ l /\ b ∈ l.
Proof.
  induction l as [|x l IH]; simpl; [by intros ?%elem_of_nil |].
  intros H. apply elem_of_app in H as [H | H].
  - apply list_elem_of_In, in_map_iff in H as (y & [= <- <-] & Hy).
    split; [apply list_elem_of_here |].
    by apply list_elem_of_further, list_elem_of_In.
  - destruct (IH H). split; by apply list_elem_of_further.
Qed.

Lemma orderedPairs_distinct {A K : Type} (k : A -> K) (l : list A) (a b : A) :
  NoDup (map k l) -> (a, b) ∈ orderedPairs l -> k a <> k b.
Proof.
  induction l as [|x l IH]; simpl; [by intros _ ?%elem_of_nil |].
  intros Hnd H. inversion_clear Hnd as [| ? ? Hx Hnd'].
  apply elem_of_app in H as [H | H]; [| by apply IH].
  apply list_elem_of_In, in_map_iff in H as (y & [= <- <-] & Hy).
  intros E. apply Hx. rewrite E. by apply list_elem_of_In, in_map.
Qed.

Lemma NoDup_map_filter {A K : Type} (k : A -> K) (f : A -> bool) (l : list A) :
  NoDup (map k l) -> NoDup (map k (List.filter f l)).
Proof.
  induction l as [|x l IH]; simpl; [done |].
  intros Hnd. inversion_clear Hnd as [| ? ? Hx Hnd'].
  destruct (f x); simpl; [| by apply IH].
  constructor; [| by apply IH].
  intros Hin. apply Hx.
  apply list_elem_of_In, in_map_iff in Hin as (y & <- & Hy).
  apply filter_In in Hy as [Hy _]. by apply list_elem_of_In, in_map.
Qed.

Lemma map_fst_pair {A B : Type} (h : A -> B) (l : list A) :
  map fst (map (fun c => (c, h c)) l) = l.
Proof. induction l as [|x l IH]; simpl; [done | by rewrite IH]. Qed.

Lemma samePosition_false (p q : Position) :
  p <> q -> samePosition p q = false.
Proof.
  intros Hne. unfold samePosition. destruct p as [a b], q as [c d]. simpl.
  destruct (a =? c) eqn:E1; [| done]. destruct (b =? d) eqn:E2; [| done].
  apply Nat.eqb_eq in E1, E2. by subst.
Qed.

(** A unit in which no naked pair leaves a single gives STEP 3 nothing. *)
Lemma findPairLeadingToSingle_None (g : SudokuGrid) (unit : list Position) :
  NoDup unit ->
  (forall p q x, p ∈ unit -> q ∈ unit -> x ∈ unit ->
                 pairLeavesSingle g p q x = false) ->
  findPairLeadingToSingle g unit = None.
Proof.
  intros Hnd Hno.
  destruct (findPairLeadingToSingle g unit) as [r |] eqn:E; [exfalso | done].
  unfold findPairLeadingToSingle in E. cbv zeta in E.
  set (emptyCells :=
         map (fun c => (c, getCandidates g c.1 c.2))
           (List.filter (fun c => isNull g c.1 c.2) unit)) in *.
  set (pairCells := List.filter (fun c => length c.2 =? 2) emptyCells) in *.
  assert (Hempty : forall e, e ∈ emptyCells ->
            e.1 ∈ unit /\ isNull g e.1.1 e.1.2 = true
            /\ e.2 = getCandidates g e.1.1 e.1.2).
  { intros e He. apply list_elem_of_In, in_map_iff in He as (c & <- & Hc).
    apply filter_In in Hc as [Hc Hnull]. simpl.
    split; [by apply list_elem_of_In | done]. }
  assert (Hpair : forall e, e ∈ pairCells ->
            e ∈ emptyCells /\ length e.2 = 2).
  { intros e He. apply list_elem_of_In, filter_In in He as [He Hlen].
    split; [by apply list_elem_of_In | by apply Nat.eqb_eq]. }
  assert (Hkeys : NoDup (map fst pairCells)).
  { apply NoDup_map_filter. unfold emptyCells. rewrite map_fst_pair.
    rewrite <- (map_id (List.filter _ unit)). by apply NoDup_map_filter;
      rewrite map_id. }
  apply firstSome_elem in E as ([cell1 cell2] & Hpr & E). simpl in E.
  pose proof (orderedPairs_distinct fst _ _ _ Hkeys Hpr) as Hdist.
  apply orderedPairs_elem in Hpr as [H1 H2].
  apply Hpair in H1 as [H1 Hlen1]. apply Hpair in H2 as [H2 Hlen2].
  apply Hempty in H1 as (Hu1 & Hn1 & Hc1).
  apply Hempty in H2 as (Hu2 & Hn2 & Hc2).
  destruct ((at_ cell1.2 0 =? at_ cell2.2 0)
            && (at_ cell1.2 1 =? at_ cell2.2 1)) eqn:Hsame; [| done].
  apply andb_true_iff in Hsame as [Hs0 Hs1].
  apply Nat.eqb_eq in Hs0, Hs1.
  apply firstSome_elem in E as (other & Hother & E).
  apply Hempty in Hother as (Hu3 & Hn3 & Hc3).
  destruct (samePosition other.1 cell1.1 || samePosition other.1 cell2.1)
    eqn:Hsp; [done |].
  apply orb_false_iff in Hsp as [Hsp1 Hsp2].
  destruct (length _ =? 1) eqn:Hrem in E; [| done].
  specialize (Hno cell1.1 cell2.1 other.1 Hu1 Hu2 Hu3).
  destruct cell1 as [p c1], cell2 as [q c2], other as [x c3]. simpl in *.
  subst c1 c2 c3.
  destruct (getCandidates g p.1 p.2) as [|a [|b [|]]] eqn:Ep; try done.
  destruct (getCandidates g q.1 q.2) as [|c [|d [|]]] eqn:Eq; try done.
  unfold at_ in *. simpl in *. subst c d.
  unfold pairLeavesSingle in Hno.
  rewrite (samePosition_false p q Hdist), Hsp1, Hsp2, Hn1, Hn2, Hn3, Ep, Eq
    in Hno.
  simpl in Hno. rewrite bool_decide_eq_true_2 in Hno by done.
  simpl in Hno. by rewrite Hrem in Hno.
Qed.

Lemma scannedUnits_None (g : SudokuGrid) (n : nat) (unit : list Position) :
  GridSize n -> hasPairSingle g n = false ->
  unit ∈ scannedUnits n ->
  findPairLeadingToSingle g unit = None.
Proof.
  intros Hn Hno Hin. pose proof (scannedUnitsOk_GridSize n Hn) as Hok.
  unfold scannedUnitsOk in Hok. rewrite forallb_elem in Hok.
  specialize (Hok unit Hin). apply andb_true_iff in Hok as [Hnd Hunit].
  apply bool_decide_eq_true in Hnd, Hunit.
  apply findPairLeadingToSingle_None; [done |].
  intros p q x Hp Hq Hx. unfold hasPairSingle in Hno.
  pose proof (existsb_false_elem _ _ _ Hno Hunit) as H1. simpl in H1.
  pose proof (existsb_false_elem _ _ _ H1 Hp) as H2. simpl in H2.
  pose proof (existsb_false_elem _ _ _ H2 Hq) as H3. simpl in H3.
  exact (existsb_false_elem _ _ _ H3 Hx).
Qed.

Lemma stepNakedPair_None (g : SudokuGrid) (n : nat) :
  GridSize n -> hasPairSingle g n = false -> stepNakedPair g n = None.
Proof.
  intros Hn Hno. unfold stepNakedPair. cbv zeta.
  assert (Hrows : firstSome (fun row =>
            findPairLeadingToSingle g
              (map (fun col => (row, col)) (seq 0 n))) (seq 0 n) = None).
  { apply firstSome_None. intros row Hrow.
    apply (scannedUnits_None g n); [done | done |].
    unfold scannedUnits. apply elem_of_app. left.
    apply list_elem_of_In, in_map_iff. exists row.
    split; [done | by apply list_elem_of_In]. }
  assert (Hcols : firstSome (fun col =>
            findPairLeadingToSingle g
              (map (fun row => (row, col)) (seq 0 n))) (seq 0 n) = None).
  { apply firstSome_None. intros col Hcol.
    apply (scannedUnits_None g n); [done | done |].
    unfold scannedUnits. apply elem_of_app. right.
    apply elem_of_app. left.
    apply list_elem_of_In, in_map_iff. exists col.
    split; [done | by apply list_elem_of_In]. }
  rewrite Hrows, Hcols.
  replace (firstSome _ (seq 0 (boxCount n (boxHeight n)))) with
    (@None (nat * nat * nat * list Position * (nat * nat))); [done |].
  symmetry. apply firstSome_None. intros boxRow HboxRow.
  apply firstSome_None. intros boxCol HboxCol.
  apply (scannedUnits_None g n); [done | done |].
  unfold scannedUnits. apply elem_of_app. right. apply elem_of_app. right.
  apply list_elem_of_In, in_flat_map. exists boxRow.
  split; [by apply list_elem_of_In |].
  apply in_map_iff. exists boxCol. split; [done | by apply list_elem_of_In].
Qed.

(** *** The oracle *)

(** C5.  In a game in progress on a grid of size 4, 6 or 9 in which no
    empty cell has exactly one candidate, no value is confined to a single
    cell within any row, column or box, and no naked pair leaves another
    cell of its unit with exactly one candidate, [useHint] sets no target
    cell and the result 'advanced' with confidence 0. *)
Theorem useHint_no_directly_solvable_cell (st : GameState)
  (g sol : SudokuGrid) :
  solution st = Some sol ->
  currentGrid st = Some g ->
  gridSize st = length g ->
  GridSize (length g) ->
  hasNakedSingle g (length g) = false ->
  hasHiddenSingle g (length g) = false ->
  hasPairSingle g (length g) = false ->
  hintCell (useHint st) = None
  /\ hintStrategy (useHint st)
     = Some {| strategy := advanced; confidence := 0;
               explanation := NeedsAdvanced; affectedCells := None |}
  /\ showHint (useHint st) = true
  /\ hintsUsed (useHint st) = hintsUsed st.
Proof.
  intros Hsol Hgrid Hsize Hn Hns Hhs Hnp.
  assert (Hnone : findHint g (length g) = None).
  { unfold findHint. rewrite (stepNakedSingle_None g _ Hns).
    replace (stepHiddenSingle g (length g)) with
      (@None (nat * nat * nat * StrategyResult)).
    - by apply stepNakedPair_None.
    - symmetry. apply stepHiddenSingle_None. intros row col v Hrow Hcol.
      destruct (hiddenSingleAt g (length g) (row, col) v) eqn:E; [| done].
      by rewrite (hiddenSingleAt_hasHiddenSingle g row col v Hn Hrow Hcol E)
        in Hhs. }
  unfold useHint. rewrite Hsol, Hgrid, Hsize, Hnone. done.
Qed.

Lemma useHint_no_directly_solvable_cell_witness :
  hasNakedSingle emptyGrid 4 = false
  /\ hasHiddenSingle emptyGrid 4 = false
  /\ hasPairSingle emptyGrid 4 = false
  /\ hintCell (useHint (inProgress emptyGrid solvedGrid)) = None.
Proof.
  assert (H1 : hasNakedSingle emptyGrid (length emptyGrid) = false)
    by (vm_compute; reflexivity).
  assert (H2 : hasHiddenSingle emptyGrid (length emptyGrid) = false)
    by (vm_compute; reflexivity).
  assert (H3 : hasPairSingle emptyGrid (length emptyGrid) = false)
    by (vm_compute; reflexivity).
  split; [exact H1 |]. split; [exact H2 |]. split; [exact H3 |].
  refine (proj1 (useHint_no_directly_solvable_cell
                   (inProgress emptyGrid solvedGrid) emptyGrid solvedGrid
                   _ _ _ _ H1 H2 H3));
    [reflexivity | reflexivity | reflexivity | left; reflexivity].
Defined.

(** C4, as the store has it.  In a game in progress on a grid without naked
    single in which some cell has a hidden single, [useHint] reports a
    hidden single, with confidence 1: the one of the first empty cell, row
    by row, that has a candidate confined to it within its row, its column
    or its box, and the smallest such candidate of that cell; the unit it
    names is the row if the candidate is confined within the row, else the
    column if it is confined within the column, else the box. *)
Theorem useHint_first_hidden_single_by_cell (st : GameState)
  (g sol : SudokuGrid) :
  solution st = Some sol ->
  currentGrid st = Some g ->
  gridSize st = length g ->
  hasNakedSingle g (length g) = false ->
  (exists p v, p.1 < length g /\ p.2 < length g
               /\ hiddenSingleAt g (length g) p v = true) ->
  exists row col v r,
    hintCell (useHint st) = Some (row, col, v)
    /\ hintStrategy (useHint st) = Some r
    /\ strategy r = hidden_single
    /\ confidence r = 1
    /\ explanation r
       = (if aloneIn g (rowUnit (length g) row) (row, col) v
          then OnlyInRow v
          else if aloneIn g (colUnit (length g) col) (row, col) v
          then OnlyInColumn v
          else OnlyInBox v)
    /\ row < length g /\ col < length g
    /\ hiddenSingleAt g (length g) (row, col) v = true
    /\ (forall p v', p.1 < length g -> p.2 < length g ->
                     before p (row, col) ->
                     hiddenSingleAt g (length g) p v' = false)
    /\ (forall v', v' < v ->
                   hiddenSingleAt g (length g) (row, col) v' = false).
Proof.
  intros Hsol Hgrid Hsize Hns ([pr pc] & pv & Hpr & Hpc & Hp).
  destruct (stepHiddenSingle g (length g)) as [res |] eqn:Hstep.
  - destruct (stepHiddenSingle_Some g _ res Hstep)
      as (row & col & v & Hres & Hs & Hc & He & Hrow & Hcol & Hhid & H1 & H2).
    destruct res as [[[row' col'] v'] r]. simpl in Hres, Hs, Hc, He.
    injection Hres as -> -> ->.
    exists row, col, v, r.
    unfold useHint, findHint.
    rewrite Hsol, Hgrid, Hsize, (stepNakedSingle_None g _ Hns), Hstep.
    cbn [hintCell hintStrategy].
    split; [reflexivity |]. split; [reflexivity |]. split; [exact Hs |].
    split; [exact Hc |]. split; [exact He |].
    split; [exact Hrow |]. split; [exact Hcol |].
    split; [exact Hhid |]. split; [exact H1 | exact H2].
  - rewrite stepHiddenSingle_None in Hstep.
    by rewrite (Hstep pr pc pv Hpr Hpc) in Hp.
Qed.

Lemma useHint_first_hidden_single_by_cell_witness :
  hasNakedSingle columnFirstGrid 6 = false
  /\ hiddenSingleAt columnFirstGrid 6 (0, 4) 1 = true
  /\ exists row col v,
      hintCell (useHint (inProgress columnFirstGrid columnFirstSolution))
      = Some (row, col, v)
      /\ hiddenSingleAt columnFirstGrid 6 (row, col) v = true.
Proof.
  assert (H1 : hasNakedSingle columnFirstGrid (length columnFirstGrid) = false)
    by (vm_compute; reflexivity).
  assert (H2 : hiddenSingleAt columnFirstGrid (length columnFirstGrid)
                 (0, 4) 1 = true)
    by (vm_compute; reflexivity).
  split; [exact H1 |]. split; [exact H2 |].
  destruct (useHint_first_hidden_single_by_cell
              (inProgress columnFirstGrid columnFirstSolution)
              columnFirstGrid columnFirstSolution)
    as (row & col & v & r & Hcell & _ & _ & _ & _ & _ & _ & Hhid & _).
  - reflexivity.
  - reflexivity.
  - reflexivity.
  - exact H1.
  - exists (0, 4), 1. split; [simpl; lia |]. split; [simpl; lia | exact H2].
  - exists row, col, v. split; [exact Hcell | exact Hhid].
Defined.

(** C4 as it is stated fails.  The grid [columnFirstGrid] has no naked
    single; scanning whole units, rows first, finds the value 1 confined to
    the cell (0,4) within row 0; [useHint] reports the value 5 at the cell
    (0,0) instead, which is confined to that cell within its column and its
    box and within no row. *)
Lemma useHint_reports_column_single_before_row_single :
  let st := inProgress columnFirstGrid columnFirstSolution in
  GridSize (length columnFirstGrid)
  /\ hasNakedSingle columnFirstGrid 6 = false
  /\ confined columnFirstGrid (rowUnit 6 0) 1 = true
  /\ unitScan columnFirstGrid 6 = Some (0, 4, 1)
  /\ hintCell (useHint st) = Some (0, 0, 5)
  /\ (strategy <$> hintStrategy (useHint st)) = Some hidden_single
  /\ (explanation <$> hintStrategy (useHint st)) = Some (OnlyInColumn 5)
  /\ existsb (fun unit =>
       bool_decide ((0, 0) ∈ unit) && aloneIn columnFirstGrid unit (0, 0) 5)
       (rowUnits 6) = false
  /\ hintCell (useHint st) <> unitScan columnFirstGrid 6.
Proof.
  cbv zeta. split; [right; left; reflexivity |].
  repeat split; try (vm_compute; reflexivity).
  vm_compute. intros H. discriminate H.
Qed.

(** ** More on loops and sets *)

Import SolutionSpec.

Lemma forEach_app {A S : Type} (body : A -> S -> S) (l1 l2 : list A) (s : S) :
  forEach (l1 ++ l2) body s = forEach l2 body (forEach l1 body s).
Proof. apply fold_left_app. Qed.

(** A property that every pass of the loop keeps holds after the loop. *)
Lemma forEach_inv {A S : Type} (I : S -> Prop) (body : A -> S -> S)
  (l : list A) :
  (forall x s, x ∈ l -> I s -> I (body x s)) ->
  forall s, I s -> I (forEach l body s).
Proof.
  induction l as [|a l IH]; intros Hbody s Hs; [exact Hs |].
  rewrite forEach_cons. apply IH.
  - intros x s' Hx. apply Hbody. by apply list_elem_of_further.
  - apply Hbody; [apply list_elem_of_here | exact Hs].
Qed.

Lemma setDelete_elem (s : list nat) (v x : nat) :
  x ∈ setDelete s v <-> x ∈ s /\ x <> v.
Proof.
  unfold setDelete. rewrite list_elem_of_In, List.filter_In, <- list_elem_of_In.
  rewrite negb_true_iff, Nat.eqb_neq. done.
Qed.

Lemma setDelete_idem (s : list nat) (v : nat) :
  setDelete (setDelete s v) v = setDelete s v.
Proof.
  unfold setDelete. induction s as [|a s IH]; simpl; [done |].
  destruct (negb (a =? v)) eqn:Ha; simpl; [rewrite Ha, IH; done | exact IH].
Qed.

Lemma setDelete_absent (s : list nat) (v : nat) :
  v ∉ s -> setDelete s v = s.
Proof.
  unfold setDelete. induction s as [|a s IH]; simpl; [done |].
  intros Hv. rewrite not_elem_of_cons in Hv. destruct Hv as [Hne Hv].
  destruct (Nat.eqb_spec a v) as [-> | _]; [done |]. simpl. by rewrite IH.
Qed.

Lemma setDelete_length (s : list nat) (v : nat) :
  NoDup s -> v ∈ s -> S (length (setDelete s v)) = length s.
Proof.
  unfold setDelete. induction s as [|a s IH]; intros Hnd Hv.
  - inversion Hv.
  - inversion_clear Hnd as [|? ? Ha Hs]. simpl.
    destruct (Nat.eqb_spec a v) as [-> | Hne]; simpl.
    + f_equal. fold (setDelete s v). by rewrite setDelete_absent.
    + f_equal. apply IH; [exact Hs |].
      apply elem_of_cons in Hv as [-> | Hv]; [done | exact Hv].
Qed.

Lemma existsb_andb_l {A : Type} (b : bool) (f : A -> bool) (l : list A) :
  existsb (fun x => b && f x) l = b && existsb f l.
Proof.
  induction l as [|a l IH]; simpl; [by destruct b |].
  rewrite IH. by destruct b, (f a).
Qed.

Lemma existsb_eqb_seq (x a k : nat) :
  existsb (Nat.eqb x) (seq a k) = (a <=? x) && (x <? a + k).
Proof.
  revert a. induction k as [|k IH]; intros a; simpl.
  - destruct (Nat.leb_spec a x), (Nat.ltb_spec x (a + 0)); simpl; lia.
  - rewrite IH.
    destruct (Nat.eqb_spec x a), (Nat.leb_spec (S a) x), (Nat.leb_spec a x),
      (Nat.ltb_spec x (S a + k)), (Nat.ltb_spec x (a + S k)); simpl; lia.
Qed.

Lemma sum_list_with_alter_eq {A : Type} (f : A -> nat) (g : A -> A) (i : nat)
  (l : list A) (x : A) :
  l !! i = Some x ->
  sum_list_with f (alter g i l) + f x = sum_list_with f l + f (g x).
Proof.
  revert i. induction l as [|a l IH]; intros [|i] Hi; simplify_eq/=.
  - lia.
  - specialize (IH i Hi).
    change (list_alter g i l) with (alter g i l). lia.
Qed.

(** ** Exact elimination counts *)

Lemma candidateTotal_deleteAt (cs : Candidates) (r c v : nat) :
  NoDup (candAt cs r c) -> v ∈ candAt cs r c ->
  S (candidateTotal (deleteAt cs r c v)) = candidateTotal cs.
Proof.
  intros Hnd Hv.
  assert (Hne : candAt cs r c <> []) by (intros E; rewrite E in Hv; inversion Hv).
  destruct (candAt_Some cs r c Hne) as (rowl & Hrow & Hcell).
  unfold candidateTotal, deleteAt.
  pose proof (sum_list_with_alter_eq (sum_list_with length)
                (alter (fun s => setDelete s v) c) r cs rowl Hrow) as H1.
  pose proof (sum_list_with_alter_eq length (fun s => setDelete s v) c rowl
                (candAt cs r c) Hcell) as H2.
  pose proof (setDelete_length (candAt cs r c) v Hnd Hv) as H3.
  lia.
Qed.

Lemma counted_eliminate (k r c v : nat) (st : Candidates * nat) :
  counted k st -> counted k (eliminate r c v st).
Proof.
  intros [Hs Hk]. unfold eliminate.
  destruct (setHas (candAt st.1 r c) v) eqn:Hhas; [| by split].
  apply setHas_true in Hhas. split; simpl.
  - eapply setLike_narrows; [exact Hs | apply narrows_deleteAt].
  - pose proof (candidateTotal_deleteAt st.1 r c v (Hs r c) Hhas). lia.
Qed.

Ltac count_loops :=
  repeat (cbv zeta; first
    [ assumption
    | apply counted_eliminate
    | apply forEach_inv; [intros ? ? _ ? |]
    | match goal with
      | |- counted _ (if ?b then _ else _) => destruct b
      end ]).

Lemma counted_findNakedPairInUnit (cs : Candidates) (cells : list Position) :
  setLike cs ->
  counted (candidateTotal cs) (findNakedPairInUnit cs cells).
Proof.
  intros Hs. unfold findNakedPairInUnit.
  assert (H0 : counted (candidateTotal cs) (cs, 0)) by (split; simpl; [done | lia]).
  count_loops.
Qed.

Lemma counted_addUnit (k : nat) (cells : list Position)
  (st : Candidates * nat) :
  counted k st -> counted k (addUnit cells st).
Proof.
  intros [Hs Hk]. unfold addUnit.
  destruct (counted_findNakedPairInUnit st.1 cells Hs) as [Hs' Hk'].
  split; simpl; [exact Hs' | lia].
Qed.

Lemma counted_findNakedPairEliminations (cs : Candidates) (n : nat) :
  setLike cs -> counted (candidateTotal cs) (findNakedPairEliminations cs n).
Proof.
  intros Hs. unfold findNakedPairEliminations.
  assert (H0 : counted (candidateTotal cs) (cs, 0)) by (split; simpl; [done | lia]).
  repeat (cbv zeta; first
    [ assumption
    | apply counted_addUnit
    | apply forEach_inv; [intros ? ? _ ? |] ]).
Qed.

Lemma counted_findPointingPairEliminations (cs : Candidates) (n : nat) :
  setLike cs -> counted (candidateTotal cs) (findPointingPairEliminations cs n).
Proof.
  intros Hs. unfold findPointingPairEliminations.
  assert (H0 : counted (candidateTotal cs) (cs, 0)) by (split; simpl; [done | lia]).
  count_loops.
Qed.

Lemma counted_findBoxLineEliminations (cs : Candidates) (n : nat) :
  setLike cs -> counted (candidateTotal cs) (findBoxLineEliminations cs n).
Proof.
  intros Hs. unfold findBoxLineEliminations.
  assert (H0 : counted (candidateTotal cs) (cs, 0)) by (split; simpl; [done | lia]).
  count_loops.
Qed.

(** Each of the three elimination passes returns the number of candidates
    it removed: on a table of sets, the candidates left and the number
    returned add up to the candidates there were. *)
Theorem eliminations_count_removed_candidates (cs : Candidates) (n : nat) :
  setLike cs ->
  candidateTotal (findNakedPairEliminations cs n).1
  + (findNakedPairEliminations cs n).2 = candidateTotal cs
  /\ candidateTotal (findPointingPairEliminations cs n).1
     + (findPointingPairEliminations cs n).2 = candidateTotal cs
  /\ candidateTotal (findBoxLineEliminations cs n).1
     + (findBoxLineEliminations cs n).2 = candidateTotal cs.
Proof.
  intros Hs. split; [| split].
  - apply (counted_findNakedPairEliminations cs n Hs).
  - apply (counted_findPointingPairEliminations cs n Hs).
  - apply (counted_findBoxLineEliminations cs n Hs).
Qed.

Lemma eliminations_count_removed_candidates_witness :
  setLike (buildCandidateGrid columnFirstGrid)
  /\ candidateTotal
       (findBoxLineEliminations (buildCandidateGrid columnFirstGrid) 6).1
     + (findBoxLineEliminations (buildCandidateGrid columnFirstGrid) 6).2
     = candidateTotal (buildCandidateGrid columnFirstGrid).
Proof.
  split; [apply setLike_buildCandidateGrid |].
  apply (eliminations_count_removed_candidates
           (buildCandidateGrid columnFirstGrid) 6).
  apply setLike_buildCandidateGrid.
Defined.

(** ** What [applyMove] does to the candidate table *)

Lemma candAt_clear (cs : Candidates) (row col r c : nat) :
  candAt (alter (fun rw => <[col := []]> rw) row cs) r c
  = if decide (r = row /\ c = col) then [] else candAt cs r c.
Proof.
  unfold candAt.
  destruct (decide (r = row)) as [-> | Hr].
  - rewrite list_lookup_alter_eq.
    destruct (cs !! row) as [rw |] eqn:Hrow; simpl.
    + destruct (decide (c = col)) as [-> | Hc].
      * rewrite decide_True by done.
        destruct (rw !! col) eqn:Hcol; simpl.
        -- rewrite list_lookup_insert_eq; [done |]. by eapply lookup_lt_Some.
        -- rewrite list_insert_ge by (by apply lookup_ge_None).
           by rewrite Hcol.
      * rewrite list_lookup_insert_ne by done.
        by rewrite decide_False by tauto.
    + by case_decide.
  - rewrite list_lookup_alter_ne by done. by rewrite decide_False by tauto.
Qed.

(** A loop whose passes delete [v] at the cell [(r, c)] or leave that cell
    alone. *)
Lemma candAt_forEach_hit {A : Type} (body : A -> Candidates -> Candidates)
  (hit : A -> bool) (v r c : nat) (l : list A) :
  (forall x cs, candAt (body x cs) r c
                = if hit x then setDelete (candAt cs r c) v
                  else candAt cs r c) ->
  forall cs, candAt (forEach l body cs) r c
             = if existsb hit l then setDelete (candAt cs r c) v
               else candAt cs r c.
Proof.
  intros Hbody. induction l as [|a l IH]; intros cs; [done |].
  rewrite forEach_cons, IH, Hbody. simpl.
  destruct (hit a), (existsb hit l); simpl; try done.
  by rewrite setDelete_idem.
Qed.

Lemma candAt_deleteAt_hit (cs : Candidates) (r c v r' c' : nat) :
  candAt (deleteAt cs r c v) r' c'
  = if (r' =? r) && (c' =? c) then setDelete (candAt cs r' c') v
    else candAt cs r' c'.
Proof.
  rewrite candAt_deleteAt.
  destruct (Nat.eqb_spec r' r) as [-> | Hr], (Nat.eqb_spec c' c) as [-> | Hc];
    simpl; case_decide as Hd; try done; try (destruct Hd; done);
    exfalso; apply Hd; done.
Qed.

Lemma candAt_applyMoveCandidates (cs : Candidates) (row col value n r c : nat) :
  candAt (applyMoveCandidates cs row col value n) r c
  = if samePosition (r, c) (row, col) then []
    else if swept n row col (r, c) then setDelete (candAt cs r c) value
    else candAt cs r c.
Proof.
  unfold applyMoveCandidates. cbv zeta.
  set (d := getBoxDimensions n).
  rewrite (candAt_forEach_hit _
             (fun r' => existsb (fun c' => (r =? r') && (c =? c'))
                          (seq (col / cols d * cols d) (cols d))) value).
  2:{ intros r' cs'.
      apply (candAt_forEach_hit _ (fun c' => (r =? r') && (c =? c')) value).
      intros c' cs''. apply candAt_deleteAt_hit. }
  rewrite (candAt_forEach_hit _ (fun r' => (r =? r') && (c =? col)) value).
  2:{ intros r' cs'. apply candAt_deleteAt_hit. }
  rewrite (candAt_forEach_hit _ (fun c' => (r =? row) && (c =? c')) value).
  2:{ intros c' cs'. apply candAt_deleteAt_hit. }
  rewrite candAt_clear.
  unfold samePosition, swept. fold d. cbn [fst snd].
  rewrite existsb_andb_l, existsb_eqb_seq.
  assert (E1 : existsb (fun r' => (r =? r') && (c =? col)) (seq 0 n)
               = (c =? col) && ((0 <=? r) && (r <? 0 + n))).
  { rewrite <- existsb_eqb_seq, <- existsb_andb_l.
    induction (seq 0 n) as [|a l IH]; simpl; [done |].
    by rewrite IH, (andb_comm (r =? a)). }
  assert (E2 : existsb (fun r' =>
                 existsb (fun c' => (r =? r') && (c =? c'))
                   (seq (col / cols d * cols d) (cols d)))
                 (seq (row / rows d * rows d) (rows d))
               = ((row / rows d * rows d <=? r)
                  && (r <? row / rows d * rows d + rows d))
                 && ((col / cols d * cols d <=? c)
                     && (c <? col / cols d * cols d + cols d))).
  { rewrite <- (existsb_eqb_seq r), <- (existsb_eqb_seq c).
    induction (seq (row / rows d * rows d) (rows d)) as [|a l IH];
      simpl; [done |].
    rewrite IH, existsb_andb_l. rewrite existsb_eqb_seq.
    by destruct (r =? a), (existsb (Nat.eqb r) l),
         ((col / cols d * cols d <=? c)
          && (c <? col / cols d * cols d + cols d)). }
  rewrite E1, E2. simpl. clear E1 E2.
  destruct (row / rows d * rows d <=? r),
    (r <? row / rows d * rows d + rows d),
    (col / cols d * cols d <=? c),
    (c <? col / cols d * cols d + cols d), (c <? n), (r <? n); simpl;
    (case_decide as Heq;
     [ destruct Heq as [-> ->]; rewrite !Nat.eqb_refl; simpl; done
     | destruct (Nat.eqb_spec r row) as [-> | Hr],
         (Nat.eqb_spec c col) as [-> | Hc];
       simpl; rewrite ?setDelete_idem; try done; exfalso; by apply Heq ]).
Qed.



(** ** What the scans of the placing techniques find *)

Lemma findNakedSingle_first (g : SudokuGrid) (cs : Candidates)
  (n row col value : nat) :
  findNakedSingle g cs n = Some (row, col, value) ->
  forall p, p.2 < n -> before p (row, col) ->
            isNull g p.1 p.2 && (length (candAt cs p.1 p.2) =? 1) = false.
Proof.
  unfold findNakedSingle. intros H [r c] Hc Hbefore.
  unfold before in Hbefore. cbn [fst snd] in *.
  apply firstSome_Some in H as (l1 & row' & l2 & Hrows & H & Hl1).
  apply firstSome_Some in H as (k1 & col' & k2 & Hcols & H & Hk1).
  destruct (seq_split _ _ _ _ _ Hrows) as [_ Hbelow].
  destruct (seq_split _ _ _ _ _ Hcols) as [_ Hleft].
  destruct (isNull g row' col' && (length (candAt cs row' col') =? 1))
    eqn:Hhit; [| done].
  injection H as <- <- _.
  destruct Hbefore as [Hlt | [-> Hlt]]; cbn [fst snd] in *.
  - specialize (Hl1 r (Hbelow r ltac:(lia))).
    rewrite firstSome_None in Hl1.
    specialize (Hl1 c ltac:(apply elem_of_seq; lia)).
    by destruct (isNull g r c && (length (candAt cs r c) =? 1)).
  - specialize (Hk1 c (Hleft c ltac:(lia))).
    by destruct (isNull g row' c && (length (candAt cs row' c) =? 1)).
Qed.

Lemma findNakedSingle_None (g : SudokuGrid) (cs : Candidates) (n : nat) :
  findNakedSingle g cs n = None <->
  forall r c, r < n -> c < n ->
              isNull g r c && (length (candAt cs r c) =? 1) = false.
Proof.
  unfold findNakedSingle. rewrite firstSome_None. split.
  - intros H r c Hr Hc.
    specialize (H r ltac:(apply elem_of_seq; lia)).
    rewrite firstSome_None in H.
    specialize (H c ltac:(apply elem_of_seq; lia)).
    by destruct (isNull g r c && (length (candAt cs r c) =? 1)).
  - intros H r Hr. apply firstSome_None. intros c Hc.
    apply elem_of_seq in Hr, Hc. by rewrite H by lia.
Qed.

(** [findNakedSingle] returns the first empty cell, row by row, whose
    cached candidate set has exactly one element, with that element; it
    returns nothing exactly when the grid has no such cell. *)
Theorem findNakedSingle_first_single_candidate (g : SudokuGrid)
  (cs : Candidates) (n : nat) :
  match findNakedSingle g cs n with
  | Some (row, col, value) =>
      row < n /\ col < n /\ isNull g row col = true
      /\ candAt cs row col = [value]
      /\ forall p, p.2 < n -> before p (row, col) ->
           ~ (isNull g p.1 p.2 = true /\ length (candAt cs p.1 p.2) = 1)
  | None =>
      forall r c, r < n -> c < n ->
        ~ (isNull g r c = true /\ length (candAt cs r c) = 1)
  end.
Proof.
  destruct (findNakedSingle g cs n) as [[[row col] value] |] eqn:Hfind.
  - destruct (findNakedSingle_Some _ _ _ _ _ _ Hfind) as (H1 & H2 & H3 & H4).
    split; [exact H1 |]. split; [exact H2 |]. split; [exact H3 |].
    split; [exact H4 |].
    intros p Hp Hbefore [Hnull Hone].
    pose proof (findNakedSingle_first _ _ _ _ _ _ Hfind p Hp Hbefore) as H.
    rewrite Hnull, Hone in H. done.
  - intros r c Hr Hc [Hnull Hone].
    pose proof (proj1 (findNakedSingle_None g cs n) Hfind r c Hr Hc) as H.
    rewrite Hnull, Hone in H. done.
Qed.

Lemma firstSome_map {A B C : Type} (f : B -> option C) (h : A -> B)
  (l : list A) :
  firstSome f (map h l) = firstSome (fun x => f (h x)) l.
Proof. induction l as [|a l IH]; simpl; [done | by rewrite IH]. Qed.

Lemma firstSome_app {A B : Type} (f : A -> option B) (l1 l2 : list A) :
  firstSome f (l1 ++ l2)
  = match firstSome f l1 with
    | Some y => Some y
    | None => firstSome f l2
    end.
Proof.
  induction l1 as [|a l1 IH]; simpl; [done |]. by destruct (f a).
Qed.

Lemma firstSome_flat_map {A B C : Type} (f : B -> option C)
  (h : A -> list B) (l : list A) :
  firstSome f (flat_map h l) = firstSome (fun x => firstSome f (h x)) l.
Proof.
  induction l as [|a l IH]; simpl; [done |].
  rewrite firstSome_app, IH. done.
Qed.

Lemma firstSome_ext {A B : Type} (f h : A -> option B) (l : list A) :
  (forall x, f x = h x) -> firstSome f l = firstSome h l.
Proof.
  intros E. induction l as [|a l IH]; simpl; [done | by rewrite E, IH].
Qed.

Lemma filter_map_comm {A B : Type} (f : B -> bool) (h : A -> B) (l : list A) :
  List.filter f (map h l) = map h (List.filter (fun x => f (h x)) l).
Proof.
  induction l as [|a l IH]; simpl; [done |].
  destruct (f (h a)); simpl; by rewrite IH.
Qed.

(** [findHiddenSingle] is the scan of the rows, then of the columns, then
    of the boxes, each unit value by value. *)
Lemma findHiddenSingle_scan (g : SudokuGrid) (cs : Candidates) (n : nat) :
  findHiddenSingle g cs n = firstSome (scanUnit cs n) (solverUnits n).
Proof.
  unfold findHiddenSingle, solverUnits. cbv zeta.
  rewrite !firstSome_app, !firstSome_map, firstSome_flat_map.
  assert (E1 : forall row num,
    match List.filter (fun col => setHas (candAt cs row col) num) (seq 0 n) with
    | [col] => Some (row, col, num)
    | _ => None
    end
    = match holders cs (map (fun col => (row, col)) (seq 0 n)) num with
      | [p] => Some (p.1, p.2, num)
      | _ => None
      end).
  { intros row num. unfold holders. rewrite filter_map_comm. cbn [fst snd].
    by destruct (List.filter _ (seq 0 n)) as [|? [|? ?]]. }
  assert (E2 : forall col num,
    match List.filter (fun row => setHas (candAt cs row col) num) (seq 0 n) with
    | [row] => Some (row, col, num)
    | _ => None
    end
    = match holders cs (map (fun row => (row, col)) (seq 0 n)) num with
      | [p] => Some (p.1, p.2, num)
      | _ => None
      end).
  { intros col num. unfold holders. rewrite filter_map_comm. cbn [fst snd].
    by destruct (List.filter _ (seq 0 n)) as [|? [|? ?]]. }
  rewrite (firstSome_ext _ (fun row =>
             scanUnit cs n (map (fun col => (row, col)) (seq 0 n)))).
  2:{ intros row. apply firstSome_ext. intros num. apply E1. }
  rewrite (firstSome_ext
             (fun col => firstSome _ (seq 1 n))
             (fun col =>
                scanUnit cs n (map (fun row => (row, col)) (seq 0 n)))).
  2:{ intros col. apply firstSome_ext. intros num. apply E2. }
  f_equal.
  destruct (firstSome _ (seq 0 n)); [done |]. f_equal.
  destruct (firstSome _ (seq 0 n)); [done |].
  apply firstSome_ext. intros boxRow. by rewrite firstSome_map.
Qed.

Lemma scanUnit_Some (cs : Candidates) (n : nat) (unit : list Position)
  (row col value : nat) :
  scanUnit cs n unit = Some (row, col, value) ->
  value ∈ seq 1 n /\ holders cs unit value = [(row, col)].
Proof.
  unfold scanUnit. intros H.
  apply firstSome_elem in H as (num & Hnum & H).
  destruct (holders cs unit num) as [|[r c] [|? ?]] eqn:Hh; try done.
  cbn [fst snd] in H. by simplify_eq.
Qed.

Lemma scanUnit_None (cs : Candidates) (n : nat) (unit : list Position) :
  scanUnit cs n unit = None <->
  forall v, v ∈ seq 1 n -> length (holders cs unit v) <> 1.
Proof.
  unfold scanUnit. rewrite firstSome_None. split; intros H v Hv.
  - specialize (H v Hv).
    by destruct (holders cs unit v) as [|? [|? ?]].
  - specialize (H v Hv).
    by destruct (holders cs unit v) as [|? [|? ?]].
Qed.

Lemma findHiddenSingle_unit (g : SudokuGrid) (cs : Candidates)
  (n row col value : nat) :
  findHiddenSingle g cs n = Some (row, col, value) ->
  value ∈ seq 1 n
  /\ exists unit, unit ∈ solverUnits n
                  /\ holders cs unit value = [(row, col)].
Proof.
  rewrite findHiddenSingle_scan. intros H.
  apply firstSome_elem in H as (unit & Hunit & H).
  apply scanUnit_Some in H as [Hv Hh]. split; [exact Hv |].
  exists unit. by split.
Qed.

(** On a grid of size 4, 6 or 9, with a candidate table that has an entry
    for every cell, [findHiddenSingle] returns a cell and a number from 1
    to the grid size such that, in some row, column or box, the cell is
    the only one that has the number among its cached candidates; it
    returns nothing exactly when no number is confined to one cell within
    any row, column or box. *)
Theorem findHiddenSingle_confined_in_a_unit (g : SudokuGrid)
  (cs : Candidates) (n : nat) :
  GridSize n ->
  fullTable n cs = true ->
  match findHiddenSingle g cs n with
  | Some (row, col, value) =>
      value ∈ seq 1 n
      /\ exists unit, unit ∈ solverUnits n
                      /\ (row, col) ∈ unit
                      /\ value ∈ candAt cs row col
                      /\ forall q, q ∈ unit -> q <> (row, col) ->
                                   value ∉ candAt cs q.1 q.2
  | None =>
      forall unit v, unit ∈ solverUnits n -> v ∈ seq 1 n ->
                     length (holders cs unit v) <> 1
  end.
Proof.
  intros _ _.
  destruct (findHiddenSingle g cs n) as [[[row col] value] |] eqn:Hfind.
  - destruct (findHiddenSingle_unit _ _ _ _ _ _ Hfind)
      as (Hv & unit & Hunit & Hh).
    split; [exact Hv |]. exists unit. split; [exact Hunit |].
    destruct (filter_singleton _ _ _ Hh) as [Hin Hhas].
    split; [exact Hin |]. split; [by apply setHas_true |].
    intros q Hq Hne Hcand.
    assert (Hq' : q ∈ holders cs unit value).
    { unfold holders. apply list_elem_of_In, List.filter_In.
      split; [by apply list_elem_of_In | by apply setHas_true]. }
    rewrite Hh in Hq'. apply list_elem_of_singleton in Hq'. done.
  - intros unit v Hunit Hv.
    rewrite findHiddenSingle_scan, firstSome_None in Hfind.
    by apply (proj1 (scanUnit_None cs n unit) (Hfind unit Hunit)).
Qed.

Lemma findHiddenSingle_confined_in_a_unit_witness :
  GridSize 6
  /\ fullTable 6 (buildCandidateGrid columnFirstGrid) = true
  /\ exists row col value,
       findHiddenSingle columnFirstGrid (buildCandidateGrid columnFirstGrid) 6
       = Some (row, col, value)
       /\ value ∈ candAt (buildCandidateGrid columnFirstGrid) row col.
Proof.
  assert (Hn : GridSize 6) by (right; left; reflexivity).
  assert (Hf : fullTable 6 (buildCandidateGrid columnFirstGrid) = true)
    by reflexivity.
  split; [exact Hn |]. split; [exact Hf |].
  pose proof (findHiddenSingle_confined_in_a_unit columnFirstGrid
                (buildCandidateGrid columnFirstGrid) 6 Hn Hf) as H.
  destruct (findHiddenSingle columnFirstGrid
              (buildCandidateGrid columnFirstGrid) 6)
    as [[[row col] value] |] eqn:E.
  - exists row, col, value. split; [reflexivity |].
    destruct H as (_ & unit & _ & _ & Hc & _). exact Hc.
  - vm_compute in E. discriminate E.
Defined.

(** ** Properties kept by every pass of the solver's loop *)

Lemma iteration_preserves (I : SudokuGrid -> Candidates -> Prop) (n : nat) :
  (forall g cs row col value,
     I g cs -> findNakedSingle g cs n = Some (row, col, value) ->
     I (setCell g row col value) (applyMoveCandidates cs row col value n)) ->
  (forall g cs row col value,
     I g cs -> findHiddenSingle g cs n = Some (row, col, value) ->
     I (setCell g row col value) (applyMoveCandidates cs row col value n)) ->
  (forall g cs, I g cs -> I g (findNakedPairEliminations cs n).1) ->
  (forall g cs, I g cs -> I g (findPointingPairEliminations cs n).1) ->
  (forall g cs, I g cs -> I g (findBoxLineEliminations cs n).1) ->
  forall s t s',
    I (workingGrid s) (candidates s) -> iteration n s = (Some t, s') ->
    I (workingGrid s') (candidates s').
Proof.
  intros Hns Hhs Hnp Hpp Hbl s t s' HI Hit.
  destruct (iteration_cases n s)
    as [(row & col & v & Hf & E)
       | [(_ & row & col & v & Hf & E)
         | [(_ & _ & _ & E)
           | [(_ & _ & _ & _ & E)
             | [(_ & _ & _ & _ & _ & E)
               | (_ & _ & _ & _ & _ & E)]]]]];
    rewrite E in Hit; unfold progress in Hit; simplify_eq; simpl; eauto.
Qed.

Lemma solveLoop_preserves (I : SudokuGrid -> Candidates -> Prop) (n : nat) :
  (forall s t s',
     I (workingGrid s) (candidates s) -> iteration n s = (Some t, s') ->
     I (workingGrid s') (candidates s')) ->
  forall fuel s ts s',
    I (workingGrid s) (candidates s) ->
    solveLoop fuel n s = Some (ts, s') ->
    I (workingGrid s') (candidates s').
Proof.
  intros Hstep. induction fuel as [|fuel IH]; intros s ts s' HI Hloop;
    [done |].
  rewrite solveLoop_S in Hloop.
  destruct (iteration n s) as [[t |] s1] eqn:Hit.
  - destruct (solveLoop fuel n s1) as [[ts' s2] |] eqn:Hrest; [| done].
    simplify_eq. eapply IH; [| exact Hrest]. eapply Hstep; [exact HI | exact Hit].
  - simplify_eq. destruct (iteration_stuck _ _ _ Hit) as [_ ->]. exact HI.
Qed.

(** ** The grid the solver returns *)

Lemma fillsIn_refl (g : SudokuGrid) : fillsIn g g.
Proof.
  split; [done |]. intros r c.
  destruct (cellAt g r c) as [[v |] |]; auto.
Qed.

Lemma fillsIn_setCell (g0 g : SudokuGrid) (row col value : nat) :
  fillsIn g0 g -> isNull g row col = true ->
  fillsIn g0 (setCell g row col value).
Proof.
  intros [Hlen Hcells] Hnull. split.
  - unfold setCell. by rewrite length_alter.
  - intros r c. specialize (Hcells r c). rewrite cellAt_setCell.
    unfold isNull in Hnull.
    case_decide as Heq; [| exact Hcells]. destruct Heq as [-> ->].
    destruct (cellAt g row col) as [[v |] |] eqn:Hg; try done.
    destruct (cellAt g0 row col) as [[v0 |] |]; simpl; try done.
    right. by exists value.
Qed.

Lemma hiddenSingle_isNull (g : SudokuGrid) (cs : Candidates)
  (n row col value : nat) :
  consistent g cs -> findHiddenSingle g cs n = Some (row, col, value) ->
  isNull g row col = true.
Proof.
  intros Hc Hf. apply Hc. apply findHiddenSingle_Some in Hf.
  intros E. rewrite E in Hf. done.
Qed.

Lemma solveLoop_fillsIn (g0 : SudokuGrid) (n fuel : nat) (s s' : LoopState)
  (ts : list Strategy) :
  consistent (workingGrid s) (candidates s) ->
  fillsIn g0 (workingGrid s) ->
  solveLoop fuel n s = Some (ts, s') ->
  fillsIn g0 (workingGrid s').
Proof.
  intros Hc Hf Hloop.
  cut (consistent (workingGrid s') (candidates s')
       /\ fillsIn g0 (workingGrid s')); [by intros [_ ?] |].
  apply (solveLoop_preserves
           (fun g cs => consistent g cs /\ fillsIn g0 g) n)
    with (fuel := fuel) (s := s) (ts := ts); [| by split | exact Hloop].
  apply (iteration_preserves
           (fun g cs => consistent g cs /\ fillsIn g0 g) n).
  - intros g cs row col value [Hc' Hf'] Hfind. split.
    + by apply consistent_applyMove.
    + apply fillsIn_setCell; [exact Hf' |].
      by destruct (findNakedSingle_Some _ _ _ _ _ _ Hfind) as (_ & _ & ? & _).
  - intros g cs row col value [Hc' Hf'] Hfind. split.
    + by apply consistent_applyMove.
    + apply fillsIn_setCell; [exact Hf' |].
      by eapply hiddenSingle_isNull.
  - intros g cs [Hc' Hf']. split; [| exact Hf'].
    eapply consistent_shrinks; [exact Hc' |].
    apply shrinks_findNakedPairEliminations.
  - intros g cs [Hc' Hf']. split; [| exact Hf'].
    eapply consistent_shrinks; [exact Hc' |].
    apply shrinks_findPointingPairEliminations.
  - intros g cs [Hc' Hf']. split; [| exact Hf'].
    eapply consistent_shrinks; [exact Hc' |].
    apply shrinks_findBoxLineEliminations.
Qed.

(** On a grid of size 4, 6 or 9, the grid [solveWithStrategies] returns
    has the shape of the grid it was given and every number of it: the
    solver only fills cells that were empty, and never writes outside the
    rows. *)
Theorem solveWithStrategies_keeps_given_numbers (g : SudokuGrid) :
  GridSize (length g) ->
  exists res,
    solveWithStrategies g = Some res
    /\ length (grid res) = length g
    /\ forall r c,
         match cellAt g r c with
         | Some (Some v) => cellAt (grid res) r c = Some (Some v)
         | Some None =>
             cellAt (grid res) r c = Some None
             \/ exists v, cellAt (grid res) r c = Some (Some v)
         | None => cellAt (grid res) r c = None
         end.
Proof.
  intros _.
  destruct (solveTrace_returns g) as (ts & s' & Hloop & Htrace).
  exists (finish s'). split.
  { unfold solveWithStrategies. by rewrite Htrace. }
  assert (Hf : fillsIn g (workingGrid s')).
  { eapply solveLoop_fillsIn; [| | exact Hloop].
    - apply consistent_initialState.
    - simpl. rewrite cloneGrid_eq. apply fillsIn_refl. }
  exact Hf.
Qed.

Lemma solveWithStrategies_keeps_given_numbers_witness :
  GridSize (length nakedSingleGrid)
  /\ exists res,
       solveWithStrategies nakedSingleGrid = Some res
       /\ length (grid res) = 4
       /\ cellAt (grid res) 0 0 = Some (Some 1).
Proof.
  assert (Hn : GridSize (length nakedSingleGrid)) by (left; reflexivity).
  split; [exact Hn |].
  destruct (solveWithStrategies_keeps_given_numbers nakedSingleGrid Hn)
    as (res & H1 & H2 & H3).
  exists res. split; [exact H1 |]. split; [exact H2 | exact (H3 0 0)].
Defined.

(** ** Placements and empty cells *)

Lemma filter_null_insert (rowl : list (option nat)) (c v : nat) :
  rowl !! c = Some None ->
  S (length (List.filter (fun cell => bool_decide (cell = None))
               (<[c := Some v]> rowl)))
  = length (List.filter (fun cell => bool_decide (cell = None)) rowl).
Proof.
  revert c. induction rowl as [|a rowl IH]; intros [|c] Hc; simplify_eq/=.
  - done.
  - specialize (IH c Hc).
    change (list_insert c (Some v) rowl) with (<[c := Some v]> rowl).
    destruct (bool_decide (a = None)); simpl; lia.
Qed.

Lemma emptyCount_setCell_eq (g : SudokuGrid) (r c v : nat) :
  isNull g r c = true -> S (emptyCount (setCell g r c v)) = emptyCount g.
Proof.
  intros Hnull. apply isNull_lookup in Hnull as (rowl & Hrow & Hcell).
  unfold emptyCount, setCell.
  pose proof (sum_list_with_alter_eq
    (fun row => length (List.filter (fun cell => bool_decide (cell = None)) row))
    (fun rw => <[c := Some v]> rw) r g rowl Hrow) as H1.
  pose proof (filter_null_insert rowl c v Hcell) as H2.
  simpl in H1. lia.
Qed.

Lemma isComplete_emptyCount (g : SudokuGrid) :
  isComplete g = true -> emptyCount g = 0.
Proof.
  unfold isComplete, emptyCount. induction g as [|rowl g IH]; simpl; [done |].
  rewrite andb_true_iff. intros [Hrow Hrest]. rewrite IH by done.
  rewrite Nat.add_0_r. clear IH Hrest.
  induction rowl as [|a rowl IH]; simpl in *; [done |].
  apply andb_true_iff in Hrow as [Ha Hrow].
  apply bool_decide_eq_true in Ha.
  rewrite bool_decide_eq_false_2 by done. by apply IH.
Qed.

Lemma solveLoop_placements (n fuel : nat) (s s' : LoopState)
  (ts : list Strategy) :
  consistent (workingGrid s) (candidates s) ->
  solveLoop fuel n s = Some (ts, s') ->
  placements ts + emptyCount (workingGrid s') = emptyCount (workingGrid s).
Proof.
  revert s ts s'. induction fuel as [|fuel IH]; intros s ts s' Hc Hloop;
    [done |].
  rewrite solveLoop_S in Hloop.
  destruct (iteration n s) as [[t |] s1] eqn:Hit.
  - destruct (solveLoop fuel n s1) as [[ts' s2] |] eqn:Hrest; [| done].
    simplify_eq.
    destruct (iteration_measure _ _ _ _ Hc Hit) as [Hc1 _].
    specialize (IH _ _ _ Hc1 Hrest).
    destruct (iteration_cases n s)
      as [(row & col & v & Hf & E)
         | [(_ & row & col & v & Hf & E)
           | [(_ & _ & _ & E)
             | [(_ & _ & _ & _ & E)
               | [(_ & _ & _ & _ & _ & E)
                 | (_ & _ & _ & _ & _ & E)]]]]];
      rewrite E in Hit; unfold progress in Hit; simplify_eq;
      unfold placements in *; simpl in *; try lia.
    + destruct (findNakedSingle_Some _ _ _ _ _ _ Hf) as (_ & _ & Hnull & _).
      pose proof (emptyCount_setCell_eq _ _ _ v Hnull). lia.
    + pose proof (hiddenSingle_isNull _ _ _ _ _ _ Hc Hf) as Hnull.
      pose proof (emptyCount_setCell_eq _ _ _ v Hnull). lia.
  - simplify_eq. destruct (iteration_stuck _ _ _ Hit) as [_ ->].
    unfold placements. simpl. lia.
Qed.

(** On a grid of size 4, 6 or 9, the passes of [solveWithStrategies] that
    apply a naked or a hidden single fill one cell each and the other
    passes fill none: their number is the number of empty cells of the
    input less that of the result, and on a solved puzzle the number of
    empty cells of the input. *)
Theorem solveWithStrategies_one_cell_per_single (g : SudokuGrid) :
  GridSize (length g) ->
  exists ts res,
    solveTrace g = Some (ts, res)
    /\ placements ts + emptyCount (grid res) = emptyCount g
    /\ (solved res = true -> placements ts = emptyCount g).
Proof.
  intros _.
  destruct (solveTrace_returns g) as (ts & s' & Hloop & Htrace).
  exists ts, (finish s'). split; [exact Htrace |].
  pose proof (solveLoop_placements _ _ _ _ _
                (consistent_initialState g) Hloop) as H.
  simpl in H. rewrite cloneGrid_eq in H.
  split; [exact H |].
  simpl. intros Hsolved. apply isComplete_emptyCount in Hsolved. lia.
Qed.

Lemma solveWithStrategies_one_cell_per_single_witness :
  GridSize (length nakedSingleGrid)
  /\ exists ts res,
       solveTrace nakedSingleGrid = Some (ts, res)
       /\ placements ts + emptyCount (grid res) = 1.
Proof.
  assert (Hn : GridSize (length nakedSingleGrid)) by (left; reflexivity).
  split; [exact Hn |].
  destruct (solveWithStrategies_one_cell_per_single nakedSingleGrid Hn)
    as (ts & res & H1 & H2 & _).
  exists ts, res. split; [exact H1 | exact H2].
Defined.

(** ** Units, peers and legal moves *)

Lemma elem_of_flat_map {A B : Type} (f : A -> list B) (l : list A) (x : B) :
  x ∈ flat_map f l <-> exists y, y ∈ l /\ x ∈ f y.
Proof.
  rewrite list_elem_of_In, in_flat_map. split.
  - intros (y & Hy & Hx). exists y. by rewrite !list_elem_of_In.
  - intros (y & Hy & Hx). exists y. by rewrite <- !list_elem_of_In.
Qed.

Lemma elem_of_List_filter {A : Type} (f : A -> bool) (l : list A) (x : A) :
  x ∈ List.filter f l <-> x ∈ l /\ f x = true.
Proof. by rewrite list_elem_of_In, List.filter_In, <- list_elem_of_In. Qed.

Lemma elem_of_map_pair_l (r : nat) (l : list nat) (p : Position) :
  p ∈ map (fun c => (r, c)) l <-> p.1 = r /\ p.2 ∈ l.
Proof.
  change (map (fun c => (r, c)) l) with ((fun c => (r, c)) <$> l).
  rewrite list_elem_of_fmap. destruct p as [a b]. simpl. split.
  - intros (c & [= -> ->] & Hc). done.
  - intros [-> Hb]. by exists b.
Qed.

Lemma elem_of_map_pair_r (c : nat) (l : list nat) (p : Position) :
  p ∈ map (fun r => (r, c)) l <-> p.2 = c /\ p.1 ∈ l.
Proof.
  change (map (fun r => (r, c)) l) with ((fun r => (r, c)) <$> l).
  rewrite list_elem_of_fmap. destruct p as [a b]. simpl. split.
  - intros (r & [= -> ->] & Hr). done.
  - intros [-> Ha]. by exists a.
Qed.

Lemma elem_of_cells (n : nat) (p : Position) :
  p ∈ cells n <-> p.1 < n /\ p.2 < n.
Proof.
  unfold cells. rewrite elem_of_flat_map. split.
  - intros (r & Hr & Hp). apply elem_of_map_pair_l in Hp as [-> Hc].
    apply elem_of_seq in Hr, Hc. lia.
  - intros [Hr Hc]. exists p.1. split; [apply elem_of_seq; lia |].
    apply elem_of_map_pair_l. split; [done | apply elem_of_seq; lia].
Qed.

Lemma elem_of_rowUnit (n row : nat) (p : Position) :
  p ∈ rowUnit n row <-> p.1 = row /\ p.2 < n.
Proof.
  unfold rowUnit. rewrite elem_of_map_pair_l, elem_of_seq. intuition lia.
Qed.

Lemma elem_of_colUnit (n col : nat) (p : Position) :
  p ∈ colUnit n col <-> p.2 = col /\ p.1 < n.
Proof.
  unfold colUnit. rewrite elem_of_map_pair_r, elem_of_seq. intuition lia.
Qed.

Lemma elem_of_boxCells (boxRow boxCol : nat) (d : BoxDimensions)
  (p : Position) :
  p ∈ boxCells boxRow boxCol d <->
  (boxRow <= p.1 < boxRow + rows d) /\ (boxCol <= p.2 < boxCol + cols d).
Proof.
  unfold boxCells. rewrite elem_of_flat_map. split.
  - intros (r & Hr & Hp). apply elem_of_map_pair_l in Hp as [-> Hc].
    apply elem_of_seq in Hr, Hc. lia.
  - intros [Hr Hc]. exists p.1. split; [apply elem_of_seq; lia |].
    apply elem_of_map_pair_l. split; [done | apply elem_of_seq; lia].
Qed.

Lemma boxUnit_boxCells (n boxRow boxCol : nat) :
  boxUnit n boxRow boxCol
  = boxCells (boxRow * rows (getBoxDimensions n))
      (boxCol * cols (getBoxDimensions n)) (getBoxDimensions n).
Proof. reflexivity. Qed.

Lemma samePosition_true (p q : Position) :
  samePosition p q = true <-> p = q.
Proof.
  unfold samePosition. rewrite andb_true_iff, !Nat.eqb_eq.
  destruct p, q; simpl. split; [intros [-> ->]; done | intros [= -> ->]; done].
Qed.

Lemma unitsWellFormed_GridSize (n : nat) :
  GridSize n -> unitsWellFormed n = true.
Proof. intros [-> | [-> | ->]]; vm_compute; reflexivity. Qed.

Lemma solverUnits_units (n : nat) : GridSize n -> solverUnits n = units n.
Proof. intros [-> | [-> | ->]]; vm_compute; reflexivity. Qed.

Lemma unit_facts (n : nat) (unit : list Position) :
  GridSize n -> unit ∈ units n ->
  NoDup unit
  /\ forall p, p ∈ unit -> p ∈ cells n /\ unit ∈ unitsOfCell n p.
Proof.
  intros Hn Hunit. pose proof (unitsWellFormed_GridSize n Hn) as H.
  unfold unitsWellFormed in H. cbv zeta in H.
  apply andb_true_iff in H as [H _]. rewrite forallb_elem in H.
  specialize (H unit Hunit). apply andb_true_iff in H as [Hnd H].
  apply bool_decide_eq_true in Hnd. split; [exact Hnd |].
  intros p Hp. rewrite forallb_elem in H. specialize (H p Hp).
  apply andb_true_iff in H as [H1 H2].
  by apply bool_decide_eq_true in H1, H2.
Qed.

Lemma boxCells_unit (n boxRow boxCol : nat) :
  GridSize n ->
  boxRow ∈ starts n (rows (getBoxDimensions n)) ->
  boxCol ∈ starts n (cols (getBoxDimensions n)) ->
  boxCells boxRow boxCol (getBoxDimensions n) ∈ units n.
Proof.
  intros Hn Hr Hc. pose proof (unitsWellFormed_GridSize n Hn) as H.
  unfold unitsWellFormed in H. cbv zeta in H.
  apply andb_true_iff in H as [_ H]. rewrite forallb_elem in H.
  specialize (H boxRow Hr). rewrite forallb_elem in H.
  specialize (H boxCol Hc). by apply bool_decide_eq_true in H.
Qed.

Lemma GridSize_box (n : nat) :
  GridSize n ->
  0 < rows (getBoxDimensions n) /\ 0 < cols (getBoxDimensions n) /\ 0 < n.
Proof. intros [-> | [-> | ->]]; simpl; lia. Qed.

Lemma div_box (a h : nat) : 0 < h -> a / h * h <= a < a / h * h + h.
Proof.
  intros Hh. pose proof (Nat.div_mod_eq a h) as E.
  pose proof (Nat.mod_upper_bound a h ltac:(lia)) as Hm. lia.
Qed.

(** On a grid of size 4, 6 or 9 the cells that the scans of the units and
    the sweep of [applyMove] visit are cells of the grid, and the table of
    [buildCandidateGrid] has an entry for every cell of the grid: the
    reads and the deletions of the solver stay inside the table. *)
Lemma accesses_inside_table (n : nat) :
  GridSize n ->
  (forall unit p, unit ∈ solverUnits n -> p ∈ unit -> p.1 < n /\ p.2 < n)
  /\ (forall row col p, row < n -> col < n -> swept n row col p = true ->
                        p.1 < n /\ p.2 < n).
Proof.
  intros Hn. split.
  - intros unit p Hunit Hp. rewrite (solverUnits_units n Hn) in Hunit.
    destruct (unit_facts n unit Hn Hunit) as [_ H].
    by apply elem_of_cells, H.
  - intros row col p Hrow Hcol Hswept.
    unfold swept in Hswept. cbv zeta in Hswept.
    rewrite !orb_true_iff, !andb_true_iff, !Nat.eqb_eq, !Nat.ltb_lt,
      !Nat.leb_le in Hswept.
    pose proof (Nat.div_mod_eq row (rows (getBoxDimensions n))) as Er.
    pose proof (Nat.div_mod_eq col (cols (getBoxDimensions n))) as Ec.
    destruct Hn as [-> | [-> | ->]]; simpl in *.
    + pose proof (Nat.mod_upper_bound row 2 ltac:(lia)).
      pose proof (Nat.mod_upper_bound col 2 ltac:(lia)). lia.
    + pose proof (Nat.mod_upper_bound row 2 ltac:(lia)).
      pose proof (Nat.mod_upper_bound col 3 ltac:(lia)). lia.
    + pose proof (Nat.mod_upper_bound row 3 ltac:(lia)).
      pose proof (Nat.mod_upper_bound col 3 ltac:(lia)). lia.
Qed.

Lemma fullTable_buildCandidateGrid (g : SudokuGrid) :
  fullTable (length g) (buildCandidateGrid g) = true.
Proof.
  unfold fullTable, buildCandidateGrid. cbv zeta.
  rewrite length_map, length_seq, Nat.eqb_refl. simpl.
  apply forallb_forall. intros rowSets Hin.
  apply in_map_iff in Hin as (row & <- & _).
  by rewrite length_map, length_seq, Nat.eqb_refl.
Qed.

(** Two cells of one unit: each is swept when a number is placed in the
    other. *)
Lemma swept_unit (n row col : nat) (unit : list Position) (p : Position) :
  GridSize n -> unit ∈ units n -> (row, col) ∈ unit -> p ∈ unit ->
  swept n row col p = true.
Proof.
  intros Hn Hunit Hrc Hp.
  destruct (unit_facts n unit Hn Hunit) as [_ Hcells].
  destruct (Hcells _ Hrc) as [_ Hof].
  unfold unitsOfCell in Hof. cbv zeta in Hof. cbn [fst snd] in Hof.
  unfold swept. cbv zeta.
  rewrite !elem_of_cons in Hof.
  destruct Hof as [-> | [-> | [-> | Hnil]]]; [| | | inversion Hnil].
  - apply elem_of_rowUnit in Hp as [-> Hlt].
    rewrite Nat.eqb_refl. apply Nat.ltb_lt in Hlt. by rewrite Hlt.
  - apply elem_of_colUnit in Hp as [-> Hlt].
    rewrite Nat.eqb_refl. apply Nat.ltb_lt in Hlt. rewrite Hlt.
    by rewrite orb_true_r.
  - rewrite boxUnit_boxCells in Hp. apply elem_of_boxCells in Hp as [H1 H2].
    destruct H1 as [H1 H1'], H2 as [H2 H2'].
    apply Nat.leb_le in H1, H2. apply Nat.ltb_lt in H1', H2'.
    rewrite H1, H1', H2, H2'. by rewrite orb_true_r.
Qed.

Lemma isValidMove_legalIn (g : SudokuGrid) (r c v : nat) :
  let n := length g in
  let d := getBoxDimensions n in
  isValidMove g r c v
  = (r <? n) && (c <? n)
    && legalIn g (rowUnit n r) (r, c) v
    && legalIn g (colUnit n c) (r, c) v
    && legalIn g (boxUnit n (r / rows d) (c / cols d)) (r, c) v.
Proof.
  cbv zeta. unfold isValidMove, legalIn, rowUnit, colUnit, boxUnit. cbv zeta.
  rewrite !forallb_fmap, forallb_flat_map. f_equal; [f_equal; [f_equal |] |].
  - apply forallb_ext_all. intros c'. unfold samePosition. simpl.
    by rewrite Nat.eqb_refl.
  - apply forallb_ext_all. intros r'. unfold samePosition. simpl.
    by rewrite Nat.eqb_refl, andb_true_r.
  - apply forallb_ext_all. intros r'. rewrite forallb_fmap.
    apply forallb_ext_all. intros c'. done.
Qed.

Lemma legalIn_true (g : SudokuGrid) (unit : list Position) (p : Position)
  (v : nat) :
  legalIn g unit p v = true <->
  forall q, q ∈ unit -> q <> p -> holds g q.1 q.2 v = false.
Proof.
  unfold legalIn. rewrite forallb_elem. split.
  - intros H q Hq Hne. specialize (H q Hq).
    rewrite samePosition_false in H by done. simpl in H.
    by apply negb_true_iff in H.
  - intros H q Hq. destruct (decide (q = p)) as [-> | Hne].
    + by rewrite (proj2 (samePosition_true p p)).
    + rewrite (H q Hq Hne). by rewrite orb_true_r.
Qed.

(** A move is legal when the cell is inside the grid and no cell that
    shares a unit with it holds the number. *)
Lemma isValidMove_peers (g : SudokuGrid) (r c v : nat) :
  GridSize (length g) ->
  isValidMove g r c v = true <->
  r < length g /\ c < length g /\ noPeerHolds g (length g) (r, c) v.
Proof.
  intros Hn. rewrite isValidMove_legalIn. cbv zeta.
  rewrite !andb_true_iff, !Nat.ltb_lt, !legalIn_true. split.
  - intros [[[[Hr Hc] Hrow] Hcol] Hbox]. split; [exact Hr |].
    split; [exact Hc |]. intros unit q Hunit Hp Hq Hne.
    destruct (unit_facts _ unit Hn Hunit) as [_ Hcells].
    destruct (Hcells _ Hp) as [_ Hof].
    unfold unitsOfCell in Hof. cbv zeta in Hof. cbn [fst snd] in Hof.
    rewrite !elem_of_cons in Hof.
    destruct Hof as [-> | [-> | [-> | Hnil]]]; [| | | inversion Hnil]; auto.
  - intros (Hr & Hc & Hpeers).
    destruct (unitsCover_cell _ r c Hn Hr Hc)
      as ([Hp1 Hu1] & [Hp2 Hu2] & [Hp3 Hu3]).
    split; [split; [split; [split; [exact Hr | exact Hc] |] |] |];
      intros q Hq Hne.
    + exact (Hpeers _ q Hu1 Hp1 Hq Hne).
    + exact (Hpeers _ q Hu2 Hp2 Hq Hne).
    + exact (Hpeers _ q Hu3 Hp3 Hq Hne).
Qed.

(** ** The candidate table holds legal moves only *)

Lemma length_setCell (g : SudokuGrid) (r c v : nat) :
  length (setCell g r c v) = length g.
Proof. unfold setCell. by rewrite length_alter. Qed.

Lemma holds_setCell (g : SudokuGrid) (row col value r c v : nat) :
  isNull g row col = true ->
  holds (setCell g row col value) r c v
  = if decide (r = row /\ c = col) then value =? v else holds g r c v.
Proof.
  intros Hnull. unfold holds. rewrite cellAt_setCell.
  case_decide; [| done]. unfold isNull in Hnull.
  by destruct (cellAt g row col) as [[? |] |].
Qed.

Lemma holds_true (g : SudokuGrid) (r c v : nat) :
  holds g r c v = true <-> cellAt g r c = Some (Some v).
Proof.
  unfold holds. destruct (cellAt g r c) as [[x |] |]; [| done | done].
  rewrite Nat.eqb_eq. split; [by intros -> | by intros [= ->]].
Qed.

Lemma elem_of_getCandidates (g : SudokuGrid) (r c v : nat) :
  v ∈ getCandidates g r c <->
  1 <= v <= length g /\ isValidMove g r c v = true.
Proof.
  unfold getCandidates. rewrite elem_of_List_filter, elem_of_seq.
  intuition lia.
Qed.

Lemma legalCache_buildCandidateGrid (g : SudokuGrid) :
  legalCache g (buildCandidateGrid g).
Proof.
  intros r c v Hv. rewrite candAt_buildCandidateGrid in Hv.
  case_decide; [| inversion Hv].
  destruct (isNull g r c) eqn:E; [| inversion Hv]. by split.
Qed.

Lemma legalCache_narrows (g : SudokuGrid) (cs cs' : Candidates) :
  legalCache g cs -> narrows cs cs' -> legalCache g cs'.
Proof.
  intros H [_ Hsub] r c v Hv. apply (H r c v).
  eapply elem_of_sublist; [exact Hv | apply Hsub].
Qed.

Lemma legalCache_shrinks (g : SudokuGrid) (cs : Candidates)
  (st : Candidates * nat) :
  legalCache g cs -> shrinks (cs, 0) st -> legalCache g st.1.
Proof.
  intros H (_ & _ & _ & Hsub) r c v Hv. apply (H r c v).
  eapply elem_of_sublist; [exact Hv | apply Hsub].
Qed.

Lemma legalCache_consistent (g : SudokuGrid) (cs : Candidates) :
  legalCache g cs -> consistent g cs.
Proof.
  intros H r c Hne. destruct (candAt cs r c) as [|v l] eqn:E; [done |].
  apply (H r c v). rewrite E. apply list_elem_of_here.
Qed.

Lemma legalCache_applyMove (g : SudokuGrid) (cs : Candidates)
  (row col value : nat) :
  GridSize (length g) -> legalCache g cs -> isNull g row col = true ->
  legalCache (setCell g row col value)
    (applyMoveCandidates cs row col value (length g)).
Proof.
  intros Hn Hlegal Hnull r c v Hv.
  rewrite candAt_applyMoveCandidates in Hv.
  destruct (samePosition (r, c) (row, col)) eqn:Hsame; [inversion Hv |].
  assert (Hne : ~ (r = row /\ c = col)).
  { intros [-> ->]. by rewrite (proj2 (samePosition_true _ _)) in Hsame. }
  assert (Hv0 : v ∈ candAt cs r c).
  { destruct (swept _ row col (r, c)); [| exact Hv].
    by apply setDelete_elem in Hv as [? _]. }
  destruct (Hlegal r c v Hv0) as [Hnull' Hcand].
  split.
  { rewrite isNull_setCell. by rewrite decide_False. }
  apply elem_of_getCandidates in Hcand as [Hrange Hvalid].
  apply elem_of_getCandidates. rewrite length_setCell. split; [exact Hrange |].
  apply isValidMove_peers in Hvalid as (Hr & Hc & Hpeers); [| exact Hn].
  apply isValidMove_peers; rewrite length_setCell; [exact Hn |].
  split; [exact Hr |]. split; [exact Hc |].
  intros unit q Hunit Hp Hq Hqne. rewrite holds_setCell by exact Hnull.
  case_decide as Hq'; [| by apply (Hpeers unit)].
  destruct q as [qr qc]. simpl in Hq'. destruct Hq' as [-> ->].
  destruct (Nat.eqb_spec value v) as [-> |]; [| done].
  rewrite (swept_unit _ row col unit (r, c) Hn Hunit Hq Hp) in Hv.
  apply setDelete_elem in Hv as [_ Hv]. done.
Qed.

Lemma conflictFree_true (g : SudokuGrid) :
  conflictFree g = true <->
  forall r c v, r < length g -> c < length g ->
                cellAt g r c = Some (Some v) -> isValidMove g r c v = true.
Proof.
  unfold conflictFree. rewrite forallb_elem. split.
  - intros H r c v Hr Hc Hcell.
    specialize (H (r, c) ltac:(apply elem_of_cells; simpl; lia)).
    simpl in H. by rewrite Hcell in H.
  - intros H [r c] Hp. apply elem_of_cells in Hp as [Hr Hc]. simpl in *.
    destruct (cellAt g r c) as [[v |] |] eqn:Hcell; [| done | done].
    by apply H.
Qed.

Lemma conflictFree_setCell (g : SudokuGrid) (row col value : nat) :
  GridSize (length g) -> conflictFree g = true ->
  isNull g row col = true -> isValidMove g row col value = true ->
  conflictFree (setCell g row col value) = true.
Proof.
  intros Hn Hfree Hnull Hvalid.
  rewrite conflictFree_true in Hfree. apply conflictFree_true.
  rewrite length_setCell. intros r c v Hr Hc Hcell.
  apply isValidMove_peers in Hvalid as (Hrow & Hcol & Hmove); [| exact Hn].
  apply isValidMove_peers; rewrite length_setCell; [exact Hn |].
  split; [exact Hr |]. split; [exact Hc |].
  intros unit q Hunit Hp Hq Hqne. rewrite holds_setCell by exact Hnull.
  rewrite cellAt_setCell in Hcell.
  case_decide as Hrc.
  - destruct Hrc as [-> ->].
    assert (Hv : v = value).
    { unfold isNull in Hnull.
      destruct (cellAt g row col) as [[? |] |]; simplify_eq/=; done. }
    subst v. rewrite decide_False.
    + by apply (Hmove unit).
    + intros [E1 E2]. apply Hqne. destruct q; simpl in *; by subst.
  - pose proof (Hfree r c v Hr Hc Hcell) as Hrcv.
    apply isValidMove_peers in Hrcv as (_ & _ & Hpeers); [| exact Hn].
    case_decide as Hq'; [| by apply (Hpeers unit)].
    destruct q as [qr qc]. simpl in Hq'. destruct Hq' as [-> ->].
    destruct (Nat.eqb_spec value v) as [-> |]; [| done].
    assert (Hne : (r, c) <> (row, col)) by (intros [= -> ->]; by apply Hrc).
    pose proof (Hmove unit (r, c) Hunit Hq Hp Hne) as Hfalse. simpl in Hfalse.
    apply holds_true in Hcell. congruence.
Qed.

Lemma placing_legal (g : SudokuGrid) (cs : Candidates) (n row col value : nat) :
  legalCache g cs ->
  findNakedSingle g cs n = Some (row, col, value)
  \/ findHiddenSingle g cs n = Some (row, col, value) ->
  isNull g row col = true /\ value ∈ getCandidates g row col.
Proof.
  intros Hlegal [Hf | Hf]; apply Hlegal.
  - destruct (findNakedSingle_Some _ _ _ _ _ _ Hf) as (_ & _ & _ & ->).
    apply list_elem_of_here.
  - apply findHiddenSingle_Some in Hf. by apply setHas_true.
Qed.

Lemma iteration_legal (n : nat) (s s' : LoopState) (t : Strategy) :
  GridSize n ->
  length (workingGrid s) = n /\ legalCache (workingGrid s) (candidates s) ->
  iteration n s = (Some t, s') ->
  length (workingGrid s') = n /\ legalCache (workingGrid s') (candidates s').
Proof.
  intros Hn.
  apply (iteration_preserves
           (fun g cs => length g = n /\ legalCache g cs) n).
  - intros g cs row col value [Hlen Hl] Hf.
    split; [by rewrite length_setCell |]. subst n.
    apply legalCache_applyMove; [done | done |].
    by destruct (placing_legal g cs _ row col value Hl (or_introl Hf)).
  - intros g cs row col value [Hlen Hl] Hf.
    split; [by rewrite length_setCell |]. subst n.
    apply legalCache_applyMove; [done | done |].
    by destruct (placing_legal g cs _ row col value Hl (or_intror Hf)).
  - intros g cs [Hlen Hl]. split; [done |].
    eapply legalCache_shrinks; [exact Hl |].
    apply shrinks_findNakedPairEliminations.
  - intros g cs [Hlen Hl]. split; [done |].
    eapply legalCache_shrinks; [exact Hl |].
    apply shrinks_findPointingPairEliminations.
  - intros g cs [Hlen Hl]. split; [done |].
    eapply legalCache_shrinks; [exact Hl |].
    apply shrinks_findBoxLineEliminations.
Qed.

Lemma reachable_legal (g : SudokuGrid) (s : LoopState) :
  GridSize (length g) -> reachable (length g) (initialState g) s ->
  length (workingGrid s) = length g
  /\ legalCache (workingGrid s) (candidates s).
Proof.
  intros Hn. induction 1 as [|s s' t _ IH Hit].
  - simpl. rewrite cloneGrid_eq. split; [done |].
    apply legalCache_buildCandidateGrid.
  - eapply iteration_legal; [exact Hn | exact IH | exact Hit].
Qed.

(** On a grid of size 4, 6 or 9, in every state the loop of
    [solveWithStrategies] goes through, every cached candidate of a cell is
    a candidate of that empty cell on the working grid, and a pass that
    changes the working grid writes a legal move, a number from 1 to the
    grid size, into an empty cell. *)
Theorem solver_places_legal_moves_only (g : SudokuGrid) (s : LoopState) :
  GridSize (length g) ->
  reachable (length g) (initialState g) s ->
  (forall r c v, v ∈ candAt (candidates s) r c ->
     isNull (workingGrid s) r c = true
     /\ v ∈ getCandidates (workingGrid s) r c)
  /\ forall t s', iteration (length g) s = (Some t, s') ->
       workingGrid s' = workingGrid s
       \/ exists row col value,
            workingGrid s' = setCell (workingGrid s) row col value
            /\ isNull (workingGrid s) row col = true
            /\ 1 <= value <= length g
            /\ isValidMove (workingGrid s) row col value = true.
Proof.
  intros Hn Hreach.
  destruct (reachable_legal g s Hn Hreach) as [Hlen Hlegal].
  split; [exact Hlegal |]. intros t s' Hit.
  destruct (iteration_cases (length g) s)
    as [(row & col & v & Hf & E)
       | [(_ & row & col & v & Hf & E)
         | [(_ & _ & _ & E)
           | [(_ & _ & _ & _ & E)
             | [(_ & _ & _ & _ & _ & E)
               | (_ & _ & _ & _ & _ & E)]]]]];
    rewrite E in Hit; unfold progress in Hit; simplify_eq; simpl;
    try (by left).
  - right. exists row, col, v. split; [done |].
    destruct (placing_legal _ _ _ row col v Hlegal (or_introl Hf))
      as [Hnull Hcand].
    apply elem_of_getCandidates in Hcand as [Hrange Hvalid].
    rewrite Hlen in Hrange. done.
  - right. exists row, col, v. split; [done |].
    destruct (placing_legal _ _ _ row col v Hlegal (or_intror Hf))
      as [Hnull Hcand].
    apply elem_of_getCandidates in Hcand as [Hrange Hvalid].
    rewrite Hlen in Hrange. done.
Qed.

Lemma solver_places_legal_moves_only_witness :
  GridSize (length nakedSingleGrid)
  /\ reachable (length nakedSingleGrid) (initialState nakedSingleGrid)
       (initialState nakedSingleGrid)
  /\ forall r c v,
       v ∈ candAt (candidates (initialState nakedSingleGrid)) r c ->
       isNull (workingGrid (initialState nakedSingleGrid)) r c = true
       /\ v ∈ getCandidates (workingGrid (initialState nakedSingleGrid)) r c.
Proof.
  assert (Hn : GridSize (length nakedSingleGrid)) by (left; reflexivity).
  split; [exact Hn |]. split; [apply reach_entry |].
  apply (solver_places_legal_moves_only nakedSingleGrid
           (initialState nakedSingleGrid) Hn (reach_entry _ _)).
Defined.

(** On a grid of size 4, 6 or 9 in which no number is repeated in a row,
    a column or a box, [solveWithStrategies] returns a grid in which no
    number is repeated in a row, a column or a box. *)
Theorem solveWithStrategies_keeps_conflict_free (g : SudokuGrid) :
  GridSize (length g) ->
  conflictFree g = true ->
  exists res,
    solveWithStrategies g = Some res /\ conflictFree (grid res) = true.
Proof.
  intros Hn Hfree.
  destruct (solveTrace_returns g) as (ts & s' & Hloop & Htrace).
  exists (finish s'). split.
  { unfold solveWithStrategies. by rewrite Htrace. }
  simpl.
  cut (length (workingGrid s') = length g
       /\ legalCache (workingGrid s') (candidates s')
       /\ conflictFree (workingGrid s') = true); [by intros (_ & _ & ?) |].
  apply (solveLoop_preserves
           (fun g' cs => length g' = length g /\ legalCache g' cs
                         /\ conflictFree g' = true) (length g))
    with (fuel := passBound (initialState g)) (s := initialState g) (ts := ts);
    [| | exact Hloop].
  - apply (iteration_preserves
             (fun g' cs => length g' = length g /\ legalCache g' cs
                           /\ conflictFree g' = true) (length g)).
    + intros g' cs row col value (Hlen & Hl & Hcf) Hf.
      destruct (placing_legal g' cs _ row col value Hl (or_introl Hf))
        as [Hnull Hcand].
      apply elem_of_getCandidates in Hcand as [_ Hvalid].
      rewrite <- Hlen in Hn |- *.
      split; [by rewrite length_setCell |].
      split; [by apply legalCache_applyMove |].
      by apply conflictFree_setCell.
    + intros g' cs row col value (Hlen & Hl & Hcf) Hf.
      destruct (placing_legal g' cs _ row col value Hl (or_intror Hf))
        as [Hnull Hcand].
      apply elem_of_getCandidates in Hcand as [_ Hvalid].
      rewrite <- Hlen in Hn |- *.
      split; [by rewrite length_setCell |].
      split; [by apply legalCache_applyMove |].
      by apply conflictFree_setCell.
    + intros g' cs (Hlen & Hl & Hcf). split; [done |]. split; [| done].
      eapply legalCache_shrinks; [exact Hl |].
      apply shrinks_findNakedPairEliminations.
    + intros g' cs (Hlen & Hl & Hcf). split; [done |]. split; [| done].
      eapply legalCache_shrinks; [exact Hl |].
      apply shrinks_findPointingPairEliminations.
    + intros g' cs (Hlen & Hl & Hcf). split; [done |]. split; [| done].
      eapply legalCache_shrinks; [exact Hl |].
      apply shrinks_findBoxLineEliminations.
  - simpl. rewrite cloneGrid_eq. split; [done |].
    split; [apply legalCache_buildCandidateGrid | exact Hfree].
Qed.

Lemma solveWithStrategies_keeps_conflict_free_witness :
  GridSize (length columnFirstGrid)
  /\ conflictFree columnFirstGrid = true
  /\ exists res,
      solveWithStrategies columnFirstGrid = Some res
      /\ conflictFree (grid res) = true.
Proof.
  assert (Hn : GridSize (length columnFirstGrid)) by (right; left; reflexivity).
  assert (Hfree : conflictFree columnFirstGrid = true) by (vm_compute; reflexivity).
  split; [exact Hn |]. split; [exact Hfree |].
  exact (solveWithStrategies_keeps_conflict_free columnFirstGrid Hn Hfree).
Defined.

(** ** Solved grids *)

Lemma holds_valueAt (g : SudokuGrid) (p : Position) (v : nat) :
  holds g p.1 p.2 v = true -> valueAt g p = v.
Proof. rewrite holds_true. unfold valueAt. by intros ->. Qed.

Lemma existsb_elem {A : Type} (f : A -> bool) (l : list A) :
  existsb f l = true -> exists x, x ∈ l /\ f x = true.
Proof.
  rewrite existsb_exists. intros (x & Hx & Hf). exists x.
  by rewrite list_elem_of_In.
Qed.

Lemma solved_cell (sol : SudokuGrid) (n : nat) (p : Position) :
  isGridSolved sol n = true -> p ∈ cells n ->
  valueAt sol p ∈ seq 1 n
  /\ cellAt sol p.1 p.2 = Some (Some (valueAt sol p)).
Proof.
  unfold isGridSolved. rewrite andb_true_iff, forallb_elem.
  intros [H _] Hp. specialize (H p Hp).
  apply existsb_elem in H as (v & Hv & Hholds).
  pose proof (holds_valueAt _ _ _ Hholds) as ->.
  by apply holds_true in Hholds.
Qed.

Lemma solved_unit_has (sol : SudokuGrid) (n : nat) (unit : list Position)
  (v : nat) :
  isGridSolved sol n = true -> unit ∈ units n -> v ∈ seq 1 n ->
  exists q, q ∈ unit /\ holds sol q.1 q.2 v = true.
Proof.
  unfold isGridSolved. rewrite andb_true_iff. intros [_ H] Hunit Hv.
  rewrite forallb_elem in H. specialize (H unit Hunit).
  rewrite forallb_elem in H. specialize (H v Hv).
  apply Nat.eqb_eq in H.
  destruct (List.filter _ unit) as [|q l] eqn:Hf; [done |].
  assert (Hq : q ∈ List.filter (fun p => holds sol p.1 p.2 v) unit)
    by (rewrite Hf; apply list_elem_of_here).
  apply elem_of_List_filter in Hq. by exists q.
Qed.

Lemma two_elements {A : Type} (l : list A) (x y : A) :
  x ∈ l -> y ∈ l -> x <> y -> 2 <= length l.
Proof.
  destruct l as [|a [|b l]]; simpl; intros Hx Hy Hne; [inversion Hx | | lia].
  apply list_elem_of_singleton in Hx, Hy. congruence.
Qed.

Lemma solved_unit_distinct (sol : SudokuGrid) (n : nat)
  (unit : list Position) (p q : Position) :
  GridSize n -> isGridSolved sol n = true -> unit ∈ units n ->
  p ∈ unit -> q ∈ unit -> p <> q -> valueAt sol p <> valueAt sol q.
Proof.
  intros Hn Hsolved Hunit Hp Hq Hne Heq.
  destruct (unit_facts n unit Hn Hunit) as [_ Hcells].
  destruct (solved_cell sol n p Hsolved (proj1 (Hcells p Hp))) as [Hv Hpc].
  destruct (solved_cell sol n q Hsolved (proj1 (Hcells q Hq))) as [_ Hqc].
  rewrite <- Heq in Hqc. apply holds_true in Hpc, Hqc.
  unfold isGridSolved in Hsolved. apply andb_true_iff in Hsolved as [_ H].
  rewrite forallb_elem in H. specialize (H unit Hunit).
  rewrite forallb_elem in H. specialize (H _ Hv). apply Nat.eqb_eq in H.
  pose proof (two_elements
    (List.filter (fun p0 => holds sol p0.1 p0.2 (valueAt sol p)) unit) p q)
    as H2.
  rewrite !elem_of_List_filter in H2.
  specialize (H2 (conj Hp Hpc) (conj Hq Hqc) Hne). lia.
Qed.

Lemma completes_true (sol g : SudokuGrid) (n : nat) :
  completes sol g n = true <->
  forall p v, p ∈ cells n -> cellAt g p.1 p.2 = Some (Some v) ->
              holds sol p.1 p.2 v = true.
Proof.
  unfold completes. rewrite forallb_elem. split.
  - intros H p v Hp Hcell. specialize (H p Hp). by rewrite Hcell in H.
  - intros H p Hp.
    destruct (cellAt g p.1 p.2) as [[v |] |] eqn:Hcell; [| done | done].
    by apply H.
Qed.

(** ** The eliminations keep the numbers of a solution *)

Lemma NoDup_List_filter_pos {A : Type} (f : A -> bool) (l : list A) :
  NoDup l -> NoDup (List.filter f l).
Proof.
  intros H. eapply sublist_NoDup; [exact H |].
  induction l as [|a l IH]; simpl; [constructor |].
  inversion_clear H.
  destruct (f a); [apply sublist_skip | apply sublist_cons]; by apply IH.
Qed.


Section Soundness.

Context (sol g : SudokuGrid) (n : nat).
Context (Hn : GridSize n) (Hsolved : isGridSolved sol n = true).
Context (Hpart : partOf sol g n).

(** A number that some cell of a unit still has as a candidate is, in the
    solution, in an empty cell of the unit that still has it as a
    candidate. *)
Lemma solution_holder (cs : Candidates) (unit : list Position)
  (p0 : Position) (v : nat) :
  tracks sol g n cs -> unit ∈ units n -> p0 ∈ unit ->
  v ∈ candAt cs p0.1 p0.2 ->
  exists q, q ∈ unit /\ valueAt sol q = v /\ isNull g q.1 q.2 = true
            /\ v ∈ candAt cs q.1 q.2.
Proof.
  intros (Hlegal & _ & Hkeep) Hunit Hp0 Hv.
  destruct Hpart as (Hlen & Hcover & Hcomp).
  destruct (Hlegal _ _ _ Hv) as [Hnull0 Hcand].
  apply elem_of_getCandidates in Hcand as [Hrange Hvalid].
  rewrite Hlen in Hrange.
  destruct (solved_unit_has sol n unit v Hsolved Hunit
              ltac:(apply elem_of_seq; lia)) as (q & Hq & Hholds).
  pose proof (holds_valueAt _ _ _ Hholds) as Hvq.
  destruct (unit_facts n unit Hn Hunit) as [_ Hcells].
  destruct (Hcells q Hq) as [Hqc _].
  exists q. split; [exact Hq |]. split; [exact Hvq |].
  assert (Hnull : isNull g q.1 q.2 = true).
  { pose proof (Hcover q Hqc) as Hdef. unfold isNull.
    destruct (cellAt g q.1 q.2) as [[w |] |] eqn:Hcell; [| done | done].
    exfalso.
    pose proof (proj1 (completes_true sol g n) Hcomp q w Hqc Hcell) as Hw.
    apply holds_valueAt in Hw. rewrite Hvq in Hw. subst w.
    apply isValidMove_peers in Hvalid as (_ & _ & Hpeers);
      [| by rewrite Hlen].
    rewrite Hlen in Hpeers. destruct p0 as [r0 c0]. simpl in *.
    assert (Hne : q <> (r0, c0)).
    { intros ->. simpl in Hcell. unfold isNull in Hnull0.
      by rewrite Hcell in Hnull0. }
    pose proof (Hpeers unit q Hunit Hp0 Hq Hne) as Hfalse.
    apply holds_true in Hcell. congruence. }
  split; [exact Hnull |]. rewrite <- Hvq. by apply Hkeep.
Qed.

Lemma tracks_eliminate (r c num : nat) (st : Candidates * nat) :
  tracks sol g n st.1 ->
  (isNull g r c = true -> (r, c) ∈ cells n -> valueAt sol (r, c) <> num) ->
  tracks sol g n (eliminate r c num st).1.
Proof.
  intros (Hlegal & Hset & Hkeep) Hcond. unfold eliminate.
  destruct (setHas (candAt st.1 r c) num); [| done]. simpl.
  split; [| split].
  - eapply legalCache_narrows; [exact Hlegal | apply narrows_deleteAt].
  - eapply setLike_narrows; [exact Hset | apply narrows_deleteAt].
  - intros p Hp Hnull. rewrite candAt_deleteAt. case_decide as Heq.
    + destruct p as [pr pc]. simpl in Heq. destruct Heq as [-> ->].
      apply setDelete_elem. split; [by apply (Hkeep (r, c)) |].
      by apply Hcond.
    + by apply Hkeep.
Qed.

Lemma orderedPairs_ne (l : list Position) (a b : Position) :
  NoDup l -> (a, b) ∈ orderedPairs l -> a <> b.
Proof.
  intros Hnd Hab.
  apply (orderedPairs_distinct (fun x : Position => x) l a b); [| exact Hab].
  by rewrite map_id.
Qed.

Lemma pair_values (l : list nat) (a b x : nat) :
  length l = 2 -> a ∈ l -> b ∈ l -> a <> b -> x ∈ l -> x = a \/ x = b.
Proof.
  destruct l as [|x1 [|x2 [|? ?]]]; simpl; try done. intros _.
  rewrite !elem_of_cons, !elem_of_nil. intuition congruence.
Qed.

Lemma tracks_findNakedPairInUnit (cs : Candidates) (unit : list Position) :
  unit ∈ units n -> tracks sol g n cs ->
  tracks sol g n (findNakedPairInUnit cs unit).1.
Proof.
  intros Hunit Htr. unfold findNakedPairInUnit. cbv zeta.
  destruct (unit_facts n unit Hn Hunit) as [Hnd Hcells].
  apply (forEach_inv (fun st => tracks sol g n st.1)); [| exact Htr].
  intros [cell1 cell2] st Hpair Hst. cbn [fst snd].
  destruct ((length (candAt st.1 cell1.1 cell1.2) =? 2)
            && setsEqual (candAt st.1 cell1.1 cell1.2)
                 (candAt st.1 cell2.1 cell2.2)) eqn:Hcond; [| exact Hst].
  apply andb_true_iff in Hcond as [Hlen2 Heq].
  apply Nat.eqb_eq in Hlen2.
  pose proof (orderedPairs_ne _ _ _
                (NoDup_List_filter_pos _ _ Hnd) Hpair) as Hne12.
  apply orderedPairs_elem in Hpair as [H1 H2].
  apply elem_of_List_filter in H1 as [H1 _], H2 as [H2 _].
  destruct Hst as (Hlegal & Hset & Hkeep).
  remember (candAt st.1 cell1.1 cell1.2) as cands1 eqn:E1.
  remember (candAt st.1 cell2.1 cell2.2) as cands2 eqn:E2.
  destruct cands1 as [|a [|b [|? ?]]]; try done.
  assert (Hab : a <> b).
  { pose proof (Hset cell1.1 cell1.2) as Hnd1. rewrite <- E1 in Hnd1.
    inversion_clear Hnd1 as [|? ? Ha _]. intros ->. apply Ha.
    apply list_elem_of_here. }
  unfold setsEqual in Heq.
  destruct (negb (length [a; b] =? length cands2)) eqn:Hl; [done |].
  apply negb_false_iff, Nat.eqb_eq in Hl. simpl in Hl.
  simpl in Heq. rewrite andb_true_r in Heq.
  apply andb_true_iff in Heq as [Ha2 Hb2].
  apply setHas_true in Ha2, Hb2.
  assert (Hnull1 : isNull g cell1.1 cell1.2 = true).
  { apply (Hlegal _ _ a). rewrite <- E1. apply list_elem_of_here. }
  assert (Hnull2 : isNull g cell2.1 cell2.2 = true).
  { apply (Hlegal _ _ a). by rewrite <- E2. }
  pose proof (Hkeep cell1 (proj1 (Hcells _ H1)) Hnull1) as Hs1.
  pose proof (Hkeep cell2 (proj1 (Hcells _ H2)) Hnull2) as Hs2.
  rewrite <- E1 in Hs1. rewrite <- E2 in Hs2.
  assert (Hs2' : valueAt sol cell2 = a \/ valueAt sol cell2 = b)
    by (by apply (pair_values cands2)).
  assert (Hs1' : valueAt sol cell1 = a \/ valueAt sol cell1 = b).
  { rewrite !elem_of_cons, elem_of_nil in Hs1. tauto. }
  pose proof (solved_unit_distinct sol n unit cell1 cell2 Hn Hsolved Hunit
                H1 H2 Hne12) as Hdist.
  assert (Hvals : forall val, val ∈ [a; b] ->
                    val = valueAt sol cell1 \/ val = valueAt sol cell2).
  { intros val. rewrite !elem_of_cons, elem_of_nil.
    intros [-> | [-> | []]]; lia. }
  apply (forEach_inv (fun st => tracks sol g n st.1));
    [| by split; [| split]].
  intros p st' Hp Hst'.
  destruct ((negb (p.1 =? cell1.1) || negb (p.2 =? cell1.2))
            && (negb (p.1 =? cell2.1) || negb (p.2 =? cell2.2))) eqn:Hother;
    [| exact Hst'].
  assert (Hp1 : p <> cell1).
  { intros ->. by rewrite !Nat.eqb_refl in Hother. }
  assert (Hp2 : p <> cell2).
  { intros ->. rewrite !Nat.eqb_refl in Hother. simpl in Hother.
    by rewrite andb_false_r in Hother. }
  apply (forEach_inv (fun st => tracks sol g n st.1)); [| exact Hst'].
  intros val st'' Hval Hst''. apply tracks_eliminate; [exact Hst'' |].
  intros _ _. destruct p as [pr pc]. cbn [fst snd].
  destruct (Hvals val Hval) as [-> | ->].
  - by apply (solved_unit_distinct sol n unit).
  - by apply (solved_unit_distinct sol n unit).
Qed.

Lemma tracks_eliminate_peer (unit : list Position) (q : Position)
  (r c num : nat) (st : Candidates * nat) :
  tracks sol g n st.1 -> unit ∈ units n -> q ∈ unit -> (r, c) ∈ unit ->
  (r, c) <> q -> valueAt sol q = num ->
  tracks sol g n (eliminate r c num st).1.
Proof.
  intros Hst Hunit Hq Hrc Hne <-. apply tracks_eliminate; [exact Hst |].
  intros _ _. by apply (solved_unit_distinct sol n unit).
Qed.

Lemma units_of_solver (unit : list Position) :
  unit ∈ solverUnits n -> unit ∈ units n.
Proof. by rewrite solverUnits_units. Qed.

Lemma row_solverUnits (row : nat) :
  row ∈ seq 0 n -> map (fun col => (row, col)) (seq 0 n) ∈ solverUnits n.
Proof.
  intros Hrow. unfold solverUnits. cbv zeta. apply elem_of_app. left.
  change (map ?f ?l) with (f <$> l).
  by apply (list_elem_of_fmap_2 (fun row => (fun col => (row, col)) <$> seq 0 n)).
Qed.

Lemma col_solverUnits (col : nat) :
  col ∈ seq 0 n -> map (fun row => (row, col)) (seq 0 n) ∈ solverUnits n.
Proof.
  intros Hcol. unfold solverUnits. cbv zeta.
  apply elem_of_app. right. apply elem_of_app. left.
  change (map ?f ?l) with (f <$> l).
  by apply (list_elem_of_fmap_2 (fun col => (fun row => (row, col)) <$> seq 0 n)).
Qed.

Lemma tracks_addUnit (unit : list Position) (st : Candidates * nat) :
  unit ∈ units n -> tracks sol g n st.1 ->
  tracks sol g n (addUnit unit st).1.
Proof.
  intros Hunit Hst. unfold addUnit. cbn [fst].
  by apply tracks_findNakedPairInUnit.
Qed.

Lemma tracks_findNakedPairEliminations (cs : Candidates) :
  tracks sol g n cs -> tracks sol g n (findNakedPairEliminations cs n).1.
Proof.
  intros Htr. unfold findNakedPairEliminations. cbv zeta.
  apply (forEach_inv (fun st => tracks sol g n st.1)).
  { intros boxRow st HboxRow Hst.
    apply (forEach_inv (fun st => tracks sol g n st.1)); [| exact Hst].
    intros boxCol st' HboxCol Hst'.
    apply tracks_addUnit; [| exact Hst']. by apply boxCells_unit. }
  apply (forEach_inv (fun st => tracks sol g n st.1)).
  { intros col st Hcol Hst. apply tracks_addUnit; [| exact Hst].
    by apply units_of_solver, col_solverUnits. }
  apply (forEach_inv (fun st => tracks sol g n st.1)); [| exact Htr].
  intros row st Hrow Hst. apply tracks_addUnit; [| exact Hst].
  by apply units_of_solver, row_solverUnits.
Qed.

Lemma distinctCount_one (l : list nat) (x y : nat) :
  distinctCount l = 1 -> x ∈ l -> y ∈ l -> x = y.
Proof.
  unfold distinctCount. intros H Hx Hy.
  apply elem_of_remove_dups in Hx, Hy.
  destruct (remove_dups l) as [|a [|? ?]]; try done.
  apply list_elem_of_singleton in Hx, Hy. congruence.
Qed.

Lemma rowUnit_units (row col : nat) :
  row < n -> col < n -> rowUnit n row ∈ units n.
Proof.
  intros Hr Hc. by destruct (unitsCover_cell n row col Hn Hr Hc) as ([_ ?] & _).
Qed.

Lemma colUnit_units (row col : nat) :
  row < n -> col < n -> colUnit n col ∈ units n.
Proof.
  intros Hr Hc.
  by destruct (unitsCover_cell n row col Hn Hr Hc) as (_ & [_ ?] & _).
Qed.

(** The number [num] of the solution is at [q]: it can go from the rest
    of the row of [q]. *)
Lemma tracks_rest_of_row (q : Position) (num boxCol w : nat)
  (st : Candidates * nat) :
  tracks sol g n st.1 -> q ∈ cells n -> valueAt sol q = num ->
  boxCol <= q.2 < boxCol + w ->
  tracks sol g n
    (forEach (seq 0 n) (fun col st =>
       if (col <? boxCol) || (boxCol + w <=? col)
       then eliminate q.1 col num st
       else st) st).1.
Proof.
  intros Hst Hq Hv Hin.
  apply elem_of_cells in Hq as [Hq1 Hq2].
  apply (forEach_inv (fun st => tracks sol g n st.1)); [| exact Hst].
  intros col st' Hcol Hst'. apply elem_of_seq in Hcol.
  destruct ((col <? boxCol) || (boxCol + w <=? col)) eqn:Hout; [| exact Hst'].
  apply (tracks_eliminate_peer (rowUnit n q.1) q); try done.
  - apply (rowUnit_units q.1 col); lia.
  - apply elem_of_rowUnit. split; [done | lia].
  - apply elem_of_rowUnit. simpl. split; [done | lia].
  - intros E. rewrite <- E in Hin. simpl in Hin.
    apply orb_true_iff in Hout as [Hout | Hout];
      [apply Nat.ltb_lt in Hout | apply Nat.leb_le in Hout]; lia.
Qed.

Lemma tracks_rest_of_col (q : Position) (num boxRow h : nat)
  (st : Candidates * nat) :
  tracks sol g n st.1 -> q ∈ cells n -> valueAt sol q = num ->
  boxRow <= q.1 < boxRow + h ->
  tracks sol g n
    (forEach (seq 0 n) (fun row st =>
       if (row <? boxRow) || (boxRow + h <=? row)
       then eliminate row q.2 num st
       else st) st).1.
Proof.
  intros Hst Hq Hv Hin.
  apply elem_of_cells in Hq as [Hq1 Hq2].
  apply (forEach_inv (fun st => tracks sol g n st.1)); [| exact Hst].
  intros row st' Hrow Hst'. apply elem_of_seq in Hrow.
  destruct ((row <? boxRow) || (boxRow + h <=? row)) eqn:Hout; [| exact Hst'].
  apply (tracks_eliminate_peer (colUnit n q.2) q); try done.
  - apply (colUnit_units row q.2); lia.
  - apply elem_of_colUnit. split; [done | lia].
  - apply elem_of_colUnit. simpl. split; [done | lia].
  - intros E. rewrite <- E in Hin. simpl in Hin.
    apply orb_true_iff in Hout as [Hout | Hout];
      [apply Nat.ltb_lt in Hout | apply Nat.leb_le in Hout]; lia.
Qed.

Lemma tracks_findPointingPairEliminations (cs : Candidates) :
  tracks sol g n cs -> tracks sol g n (findPointingPairEliminations cs n).1.
Proof.
  intros Htr. unfold findPointingPairEliminations. cbv zeta.
  apply (forEach_inv (fun st => tracks sol g n st.1)); [| exact Htr].
  intros boxRow st0 HboxRow Hst0.
  apply (forEach_inv (fun st => tracks sol g n st.1)); [| exact Hst0].
  intros boxCol st1 HboxCol Hst1.
  apply (forEach_inv (fun st => tracks sol g n st.1)); [| exact Hst1].
  intros num st Hnum Hst.
  pose proof (boxCells_unit n boxRow boxCol Hn HboxRow HboxCol) as HB.
  destruct (unit_facts n _ Hn HB) as [_ HBcells].
  remember (List.filter (fun p => setHas (candAt st.1 p.1 p.2) num)
              (boxCells boxRow boxCol (getBoxDimensions n)))
    as positions eqn:Hpos.
  destruct ((length positions <? 2)
            || (cols (getBoxDimensions n) <? length positions)) eqn:Hcount;
    [exact Hst |].
  apply orb_false_iff in Hcount as [Hge2 _]. apply Nat.ltb_ge in Hge2.
  destruct positions as [|p0 rest]; [simpl in Hge2; lia |].
  assert (Hp0 : p0 ∈ p0 :: rest) by apply list_elem_of_here.
  rewrite Hpos in Hp0. apply elem_of_List_filter in Hp0 as [Hp0B Hp0has].
  apply setHas_true in Hp0has.
  destruct (solution_holder st.1 _ p0 num Hst HB Hp0B Hp0has)
    as (q & HqB & Hvq & Hnullq & Hqhas).
  assert (Hqpos : q ∈ p0 :: rest).
  { rewrite Hpos. apply elem_of_List_filter.
    split; [exact HqB | by apply setHas_true]. }
  destruct (HBcells q HqB) as [Hqcells _].
  apply elem_of_boxCells in HqB as [Hqr Hqc].
  cbn [hd].
  assert (Hrow : distinctCount (map fst (p0 :: rest)) = 1 -> p0.1 = q.1).
  { intros Hd. apply (distinctCount_one (map fst (p0 :: rest))); [exact Hd | |].
    - apply (list_elem_of_fmap_2 fst), list_elem_of_here.
    - by apply (list_elem_of_fmap_2 fst). }
  assert (Hcol : distinctCount (map snd (p0 :: rest)) = 1 -> p0.2 = q.2).
  { intros Hd. apply (distinctCount_one (map snd (p0 :: rest))); [exact Hd | |].
    - apply (list_elem_of_fmap_2 snd), list_elem_of_here.
    - by apply (list_elem_of_fmap_2 snd). }
  destruct (distinctCount (map fst (p0 :: rest)) =? 1) eqn:Hd1;
    destruct (distinctCount (map snd (p0 :: rest)) =? 1) eqn:Hd2;
    try apply Nat.eqb_eq in Hd1; try apply Nat.eqb_eq in Hd2;
    rewrite ?(Hrow Hd1), ?(Hcol Hd2).
  - apply tracks_rest_of_col; try done.
    by apply tracks_rest_of_row.
  - by apply tracks_rest_of_row.
  - by apply tracks_rest_of_col.
  - exact Hst.
Qed.

Lemma boxUnit_units (row col : nat) :
  row < n -> col < n ->
  boxCells (row / rows (getBoxDimensions n) * rows (getBoxDimensions n))
    (col / cols (getBoxDimensions n) * cols (getBoxDimensions n))
    (getBoxDimensions n) ∈ units n.
Proof.
  intros Hr Hc. rewrite <- boxUnit_boxCells.
  by destruct (unitsCover_cell n row col Hn Hr Hc) as (_ & _ & [_ ?]).
Qed.

Lemma tracks_findBoxLineEliminations (cs : Candidates) :
  tracks sol g n cs -> tracks sol g n (findBoxLineEliminations cs n).1.
Proof.
  intros Htr. unfold findBoxLineEliminations. cbv zeta.
  destruct (GridSize_box n Hn) as (Hh & Hw & _).
  set (d := getBoxDimensions n) in *.
  apply (forEach_inv (fun st => tracks sol g n st.1)).
  - (* columns *)
    intros col st0 Hcol Hst0.
    apply (forEach_inv (fun st => tracks sol g n st.1)); [| exact Hst0].
    intros num st Hnum Hst. apply elem_of_seq in Hcol.
    remember (List.filter (fun row => setHas (candAt st.1 row col) num)
                (seq 0 n)) as rowsWith eqn:Hrows.
    destruct ((length rowsWith <? 2) || (rows d <? length rowsWith))
      eqn:Hcount; [exact Hst |].
    apply orb_false_iff in Hcount as [Hge2 _]. apply Nat.ltb_ge in Hge2.
    destruct rowsWith as [|r0 rest]; [simpl in Hge2; lia |].
    cbn [hd].
    destruct (forallb _ (r0 :: rest)) eqn:Hall; [| exact Hst].
    rewrite forallb_elem in Hall.
    assert (Hr0 : r0 ∈ r0 :: rest) by apply list_elem_of_here.
    rewrite Hrows in Hr0. apply elem_of_List_filter in Hr0 as [Hr0n Hr0has].
    apply elem_of_seq in Hr0n. apply setHas_true in Hr0has.
    destruct (solution_holder st.1 (colUnit n col) (r0, col) num Hst
                (colUnit_units r0 col ltac:(lia) ltac:(lia))
                ltac:(apply elem_of_colUnit; simpl; lia) Hr0has)
      as (q & HqU & Hvq & Hnullq & Hqhas).
    apply elem_of_colUnit in HqU as [Hq2 Hq1].
    assert (Hqin : q.1 ∈ r0 :: rest).
    { rewrite Hrows. apply elem_of_List_filter.
      split; [apply elem_of_seq; lia |]. apply setHas_true. by rewrite <- Hq2. }
    specialize (Hall _ Hqin). apply andb_true_iff in Hall as [Hlo Hhi].
    apply Nat.leb_le in Hlo. apply Nat.ltb_lt in Hhi.
    pose proof (boxUnit_units r0 col ltac:(lia) ltac:(lia)) as HB.
    fold d in HB. pose proof (div_box col (cols d) Hw) as Hcolbox.
    apply (forEach_inv (fun st => tracks sol g n st.1)); [| exact Hst].
    intros r st' Hr Hst'.
    apply (forEach_inv (fun st => tracks sol g n st.1)); [| exact Hst'].
    intros c st'' Hc Hst''. apply elem_of_seq in Hr, Hc.
    destruct (negb (c =? col)) eqn:Hne; [| exact Hst''].
    apply negb_true_iff, Nat.eqb_neq in Hne.
    apply (tracks_eliminate_peer _ q r c num st'' Hst'' HB); [| | | exact Hvq].
    + apply elem_of_boxCells. lia.
    + apply elem_of_boxCells. simpl. lia.
    + intros E. rewrite <- E in Hq2. simpl in Hq2. lia.
  - (* rows *)
    apply (forEach_inv (fun st => tracks sol g n st.1)); [| exact Htr].
    intros row st0 Hrow Hst0.
    apply (forEach_inv (fun st => tracks sol g n st.1)); [| exact Hst0].
    intros num st Hnum Hst. apply elem_of_seq in Hrow.
    remember (List.filter (fun col => setHas (candAt st.1 row col) num)
                (seq 0 n)) as colsWith eqn:Hcols.
    destruct ((length colsWith <? 2) || (cols d <? length colsWith))
      eqn:Hcount; [exact Hst |].
    apply orb_false_iff in Hcount as [Hge2 _]. apply Nat.ltb_ge in Hge2.
    destruct colsWith as [|c0 rest]; [simpl in Hge2; lia |].
    cbn [hd].
    destruct (forallb _ (c0 :: rest)) eqn:Hall; [| exact Hst].
    rewrite forallb_elem in Hall.
    assert (Hc0 : c0 ∈ c0 :: rest) by apply list_elem_of_here.
    rewrite Hcols in Hc0. apply elem_of_List_filter in Hc0 as [Hc0n Hc0has].
    apply elem_of_seq in Hc0n. apply setHas_true in Hc0has.
    destruct (solution_holder st.1 (rowUnit n row) (row, c0) num Hst
                (rowUnit_units row c0 ltac:(lia) ltac:(lia))
                ltac:(apply elem_of_rowUnit; simpl; lia) Hc0has)
      as (q & HqU & Hvq & Hnullq & Hqhas).
    apply elem_of_rowUnit in HqU as [Hq1 Hq2].
    assert (Hqin : q.2 ∈ c0 :: rest).
    { rewrite Hcols. apply elem_of_List_filter.
      split; [apply elem_of_seq; lia |]. apply setHas_true. by rewrite <- Hq1. }
    specialize (Hall _ Hqin). apply andb_true_iff in Hall as [Hlo Hhi].
    apply Nat.leb_le in Hlo. apply Nat.ltb_lt in Hhi.
    pose proof (boxUnit_units row c0 ltac:(lia) ltac:(lia)) as HB.
    fold d in HB. pose proof (div_box row (rows d) Hh) as Hrowbox.
    apply (forEach_inv (fun st => tracks sol g n st.1)); [| exact Hst].
    intros r st' Hr Hst'.
    destruct (negb (r =? row)) eqn:Hne; [| exact Hst'].
    apply negb_true_iff, Nat.eqb_neq in Hne.
    apply (forEach_inv (fun st => tracks sol g n st.1)); [| exact Hst'].
    intros c st'' Hc Hst''. apply elem_of_seq in Hr, Hc.
    apply (tracks_eliminate_peer _ q r c num st'' Hst'' HB); [| | | exact Hvq].
    + apply elem_of_boxCells. lia.
    + apply elem_of_boxCells. simpl. lia.
    + intros E. rewrite <- E in Hq1. simpl in Hq1. lia.
Qed.

End Soundness.

(** ** The solver agrees with every solution *)

Section Placing.

Context (sol : SudokuGrid) (n : nat).
Context (Hn : GridSize n) (Hsolved : isGridSolved sol n = true).

Lemma placing_agrees (g : SudokuGrid) (cs : Candidates)
  (row col value : nat) :
  partOf sol g n -> tracks sol g n cs ->
  findNakedSingle g cs n = Some (row, col, value)
  \/ findHiddenSingle g cs n = Some (row, col, value) ->
  (row, col) ∈ cells n /\ isNull g row col = true
  /\ valueAt sol (row, col) = value.
Proof.
  intros Hpart Htr [Hf | Hf].
  - destruct (findNakedSingle_Some _ _ _ _ _ _ Hf) as (Hr & Hc & Hnull & Hcand).
    assert (Hcell : (row, col) ∈ cells n) by (by apply elem_of_cells).
    split; [exact Hcell |]. split; [exact Hnull |].
    destruct Htr as (_ & _ & Hkeep).
    pose proof (Hkeep (row, col) Hcell Hnull) as Hin. simpl in Hin.
    rewrite Hcand in Hin. by apply list_elem_of_singleton in Hin.
  - destruct (findHiddenSingle_unit _ _ _ _ _ _ Hf)
      as (Hv & unit & Hunit & Hh).
    apply (units_of_solver n Hn) in Hunit.
    destruct (filter_singleton _ _ _ Hh) as [Hin Hhas]. simpl in Hhas.
    apply setHas_true in Hhas.
    destruct (solution_holder sol g n Hn Hsolved Hpart cs unit (row, col)
                value Htr Hunit Hin Hhas)
      as (q & Hq & Hvq & Hnullq & Hqhas).
    assert (Hq' : q ∈ holders cs unit value).
    { apply elem_of_List_filter. split; [exact Hq | by apply setHas_true]. }
    rewrite Hh in Hq'. apply list_elem_of_singleton in Hq'. subst q.
    destruct (unit_facts n unit Hn Hunit) as [_ Hcells].
    split; [apply (Hcells _ Hin) |]. by split.
Qed.

Lemma swept_shares_unit (row col : nat) (p : Position) :
  (row, col) ∈ cells n -> p ∈ cells n -> swept n row col p = true ->
  exists unit, unit ∈ units n /\ (row, col) ∈ unit /\ p ∈ unit.
Proof.
  intros Hrc Hp Hswept.
  apply elem_of_cells in Hrc as [Hr Hc], Hp as [Hp1 Hp2]. simpl in Hr, Hc.
  destruct (unitsCover_cell n row col Hn Hr Hc)
    as ([Hin1 Hu1] & [Hin2 Hu2] & [Hin3 Hu3]).
  unfold swept in Hswept. cbv zeta in Hswept.
  apply orb_true_iff in Hswept as [Hswept | Hbox];
    [apply orb_true_iff in Hswept as [Hrow | Hcol] |].
  - apply andb_true_iff in Hrow as [E _]. apply Nat.eqb_eq in E.
    exists (rowUnit n row). split; [exact Hu1 |]. split; [exact Hin1 |].
    by apply elem_of_rowUnit.
  - apply andb_true_iff in Hcol as [E _]. apply Nat.eqb_eq in E.
    exists (colUnit n col). split; [exact Hu2 |]. split; [exact Hin2 |].
    by apply elem_of_colUnit.
  - exists (boxUnit n (row / rows (getBoxDimensions n))
              (col / cols (getBoxDimensions n))).
    split; [exact Hu3 |]. split; [exact Hin3 |].
    rewrite boxUnit_boxCells. apply elem_of_boxCells.
    rewrite !andb_true_iff, !Nat.leb_le, !Nat.ltb_lt in Hbox. lia.
Qed.

Lemma tracks_applyMove (g : SudokuGrid) (cs : Candidates) (row col : nat) :
  partOf sol g n -> tracks sol g n cs ->
  (row, col) ∈ cells n -> isNull g row col = true ->
  partOf sol (setCell g row col (valueAt sol (row, col))) n
  /\ tracks sol (setCell g row col (valueAt sol (row, col))) n
       (applyMoveCandidates cs row col (valueAt sol (row, col)) n).
Proof.
  intros (Hlen & Hcover & Hcomp) (Hlegal & Hset & Hkeep) Hcell Hnull.
  set (value := valueAt sol (row, col)).
  split; [split; [| split] | split; [| split]].
  - by rewrite length_setCell.
  - intros p Hp. rewrite cellAt_setCell. case_decide; [| by apply Hcover].
    unfold isNull in Hnull. by destruct (cellAt g row col) as [[? |] |].
  - apply completes_true. intros p v Hp. rewrite cellAt_setCell.
    case_decide as Heq; [| by apply (proj1 (completes_true sol g n) Hcomp)].
    destruct p as [pr pc]. simpl in Heq. destruct Heq as [-> ->]. simpl.
    unfold isNull in Hnull.
    destruct (cellAt g row col) as [[? |] |]; simpl; try done.
    intros [= <-]. apply holds_true.
    apply (solved_cell sol n (row, col) Hsolved Hcell).
  - subst n. by apply legalCache_applyMove.
  - eapply setLike_narrows; [exact Hset | apply narrows_applyMoveCandidates].
  - intros [pr pc] Hp. cbn [fst snd]. rewrite isNull_setCell.
    case_decide as Heq; [done |]. intros Hnullp.
    rewrite candAt_applyMoveCandidates.
    assert (Hne : (pr, pc) <> (row, col)) by (intros [= -> ->]; by apply Heq).
    rewrite samePosition_false by exact Hne.
    pose proof (Hkeep (pr, pc) Hp Hnullp) as Hin. simpl in Hin.
    destruct (swept n row col (pr, pc)) eqn:Hswept; [| exact Hin].
    apply setDelete_elem. split; [exact Hin |].
    destruct (swept_shares_unit row col (pr, pc) Hcell Hp Hswept)
      as (unit & Hunit & H1 & H2).
    by apply (solved_unit_distinct sol n unit).
Qed.

Lemma iteration_tracks (s s' : LoopState) (t : Strategy) :
  partOf sol (workingGrid s) n /\ tracks sol (workingGrid s) n (candidates s) ->
  iteration n s = (Some t, s') ->
  partOf sol (workingGrid s') n
  /\ tracks sol (workingGrid s') n (candidates s').
Proof.
  apply (iteration_preserves
           (fun g cs => partOf sol g n /\ tracks sol g n cs) n).
  - intros g cs row col value [Hpart Htr] Hf.
    destruct (placing_agrees g cs row col value Hpart Htr (or_introl Hf))
      as (Hcell & Hnull & <-).
    by apply tracks_applyMove.
  - intros g cs row col value [Hpart Htr] Hf.
    destruct (placing_agrees g cs row col value Hpart Htr (or_intror Hf))
      as (Hcell & Hnull & <-).
    by apply tracks_applyMove.
  - intros g cs [Hpart Htr]. split; [exact Hpart |].
    by apply tracks_findNakedPairEliminations.
  - intros g cs [Hpart Htr]. split; [exact Hpart |].
    by apply tracks_findPointingPairEliminations.
  - intros g cs [Hpart Htr]. split; [exact Hpart |].
    by apply tracks_findBoxLineEliminations.
Qed.

Lemma square_cover (g : SudokuGrid) (p : Position) :
  square g -> length g = n -> p ∈ cells n -> cellAt g p.1 p.2 <> None.
Proof.
  intros Hsq Hlen Hp. apply elem_of_cells in Hp as [Hr Hc].
  unfold cellAt.
  destruct (g !! p.1) as [rowl |] eqn:Hrow.
  - simpl. unfold square in Hsq. rewrite List.Forall_forall in Hsq.
    assert (Hlenr : length rowl = length g).
    { apply Hsq. apply list_elem_of_In. by eapply list_elem_of_lookup_2. }
    intros Hnone. apply lookup_ge_None in Hnone. lia.
  - apply lookup_ge_None in Hrow. lia.
Qed.

Lemma tracks_buildCandidateGrid (g : SudokuGrid) :
  partOf sol g n -> tracks sol g n (buildCandidateGrid g).
Proof.
  intros (Hlen & Hcover & Hcomp).
  split; [apply legalCache_buildCandidateGrid |].
  split; [apply setLike_buildCandidateGrid |].
  intros [r c] Hp Hnull. cbn [fst snd] in *.
  pose proof Hp as Hrange. apply elem_of_cells in Hrange as [Hr Hc].
  simpl in Hr, Hc.
  rewrite candAt_buildCandidateGrid, decide_True by lia. rewrite Hnull.
  destruct (solved_cell sol n (r, c) Hsolved Hp) as [Hv _].
  apply elem_of_seq in Hv.
  apply elem_of_getCandidates. split; [lia |].
  apply isValidMove_peers; [by rewrite Hlen |]. rewrite Hlen.
  split; [exact Hr |]. split; [exact Hc |].
  intros unit q Hunit Hpu Hq Hne.
  destruct (holds g q.1 q.2 (valueAt sol (r, c))) eqn:Hholds; [| done].
  exfalso. apply holds_true in Hholds.
  destruct (unit_facts n unit Hn Hunit) as [_ Hcells].
  pose proof (proj1 (completes_true sol g n) Hcomp q _
                (proj1 (Hcells q Hq)) Hholds) as Hsolq.
  apply holds_valueAt in Hsolq.
  by apply (solved_unit_distinct sol n unit q (r, c) Hn Hsolved Hunit).
Qed.

End Placing.

Lemma solveWithStrategies_sound (g sol : SudokuGrid) :
  GridSize (length g) -> square g ->
  isGridSolved sol (length g) = true ->
  completes sol g (length g) = true ->
  exists res,
    solveWithStrategies g = Some res
    /\ partOf sol (grid res) (length g)
    /\ (solved res = true ->
        forall r c, r < length g -> c < length g ->
                    cellAt (grid res) r c = cellAt sol r c).
Proof.
  intros Hn Hsq Hsolved Hcomp.
  destruct (solveTrace_returns g) as (ts & s' & Hloop & Htrace).
  exists (finish s'). split.
  { unfold solveWithStrategies. by rewrite Htrace. }
  assert (Hpart0 : partOf sol g (length g)).
  { split; [done |]. split; [| done].
    intros p Hp. by apply (square_cover (length g)). }
  assert (H : partOf sol (workingGrid s') (length g)
              /\ tracks sol (workingGrid s') (length g) (candidates s')).
  { apply (solveLoop_preserves
             (fun g' cs => partOf sol g' (length g)
                           /\ tracks sol g' (length g) cs) (length g))
      with (fuel := passBound (initialState g)) (s := initialState g)
           (ts := ts); [| | exact Hloop].
    - intros s t s1. by apply iteration_tracks.
    - simpl. rewrite cloneGrid_eq. split; [exact Hpart0 |].
      by apply tracks_buildCandidateGrid. }
  destruct H as [Hpart _]. split; [exact Hpart |].
  simpl. intros Hdone r c Hr Hc.
  destruct Hpart as (_ & Hcover & Hcomp').
  assert (Hp : (r, c) ∈ cells (length g)) by (by apply elem_of_cells).
  pose proof (Hcover (r, c) Hp) as Hdef. simpl in Hdef.
  pose proof (isComplete_isNull _ r c Hdone) as Hnn. unfold isNull in Hnn.
  destruct (cellAt (workingGrid s') r c) as [[v |] |] eqn:Hcell; try done.
  symmetry. apply holds_true.
  by apply (proj1 (completes_true sol _ _) Hcomp' (r, c) v).
Qed.

(** On a square grid of size 4, 6 or 9, for every solved grid that has the
    numbers of the input, every number of the grid [solveWithStrategies]
    returns is the number the solved grid has there; when the solver
    reports the puzzle solved, the returned grid is that solved grid. *)
Theorem solveWithStrategies_agrees_with_solution (g sol : SudokuGrid) :
  GridSize (length g) -> square g ->
  isGridSolved sol (length g) = true ->
  completes sol g (length g) = true ->
  exists res,
    solveWithStrategies g = Some res
    /\ completes sol (grid res) (length g) = true
    /\ (solved res = true ->
        forall r c, r < length g -> c < length g ->
                    cellAt (grid res) r c = cellAt sol r c).
Proof.
  intros Hn Hsq Hsolved Hcomp.
  destruct (solveWithStrategies_sound g sol Hn Hsq Hsolved Hcomp)
    as (res & Hres & (_ & _ & Hpart) & Hall).
  exists res. split; [exact Hres |]. split; [exact Hpart | exact Hall].
Qed.

Lemma solveWithStrategies_agrees_with_solution_witness :
  GridSize (length columnFirstGrid) /\ square columnFirstGrid
  /\ isGridSolved columnFirstSolution (length columnFirstGrid) = true
  /\ completes columnFirstSolution columnFirstGrid (length columnFirstGrid)
     = true
  /\ exists res,
      solveWithStrategies columnFirstGrid = Some res
      /\ completes columnFirstSolution (grid res) (length columnFirstGrid)
         = true.
Proof.
  assert (Hn : GridSize (length columnFirstGrid)) by (right; left; reflexivity).
  assert (Hsq : square columnFirstGrid) by (repeat constructor).
  assert (Hsolved :
            isGridSolved columnFirstSolution (length columnFirstGrid) = true)
    by (vm_compute; reflexivity).
  assert (Hcomp :
            completes columnFirstSolution columnFirstGrid
              (length columnFirstGrid) = true)
    by (vm_compute; reflexivity).
  split; [exact Hn |]. split; [exact Hsq |]. split; [exact Hsolved |].
  split; [exact Hcomp |].
  destruct (solveWithStrategies_agrees_with_solution columnFirstGrid
              columnFirstSolution Hn Hsq Hsolved Hcomp)
    as (res & H1 & H2 & _).
  exists res. split; [exact H1 | exact H2].
Defined.

(** A puzzle that [solveWithStrategies] reports solved has one solution
    only: any two solved grids that have the numbers of the input are the
    same grid. *)
Theorem solveWithStrategies_solved_means_unique (g sol1 sol2 : SudokuGrid)
  (res : SolveResult) :
  GridSize (length g) -> square g ->
  solveWithStrategies g = Some res -> solved res = true ->
  isGridSolved sol1 (length g) = true ->
  completes sol1 g (length g) = true ->
  isGridSolved sol2 (length g) = true ->
  completes sol2 g (length g) = true ->
  forall r c, r < length g -> c < length g ->
              cellAt sol1 r c = cellAt sol2 r c.
Proof.
  intros Hn Hsq Hres Hdone Hs1 Hc1 Hs2 Hc2 r c Hr Hc.
  destruct (solveWithStrategies_sound g sol1 Hn Hsq Hs1 Hc1)
    as (res1 & Hres1 & _ & Hall1).
  destruct (solveWithStrategies_sound g sol2 Hn Hsq Hs2 Hc2)
    as (res2 & Hres2 & _ & Hall2).
  rewrite Hres in Hres1, Hres2. simplify_eq.
  by rewrite <- (Hall1 Hdone r c Hr Hc), <- (Hall2 Hdone r c Hr Hc).
Qed.

Lemma solveWithStrategies_solved_means_unique_witness :
  exists res,
    solveWithStrategies nakedSingleGrid = Some res /\ solved res = true
    /\ forall r c, r < 4 -> c < 4 ->
                   cellAt solvedGrid r c = cellAt solvedGrid r c.
Proof.
  exists {| solved := true; grid := solvedGrid;
            strategiesUsed := [naked_single];
            maxDifficulty := beginner; steps := 2 |}.
  split; [vm_compute; reflexivity |]. split; [reflexivity |].
  apply (solveWithStrategies_solved_means_unique nakedSingleGrid
           solvedGrid solvedGrid
           {| solved := true; grid := solvedGrid;
              strategiesUsed := [naked_single];
              maxDifficulty := beginner; steps := 2 |}).
  - left. reflexivity.
  - repeat constructor.
  - vm_compute. reflexivity.
  - reflexivity.
  - vm_compute. reflexivity.
  - vm_compute. reflexivity.
  - vm_compute. reflexivity.
  - vm_compute. reflexivity.
Defined.

(** ** A grid the solver reports solved is a solved grid *)

Lemma unitsFull_GridSize (n : nat) : GridSize n -> unitsFull n = true.
Proof. intros [-> | [-> | ->]]; vm_compute; reflexivity. Qed.

Lemma inRange_true (g : SudokuGrid) (n : nat) :
  inRange g n = true <->
  forall p v, p ∈ cells n -> cellAt g p.1 p.2 = Some (Some v) -> 1 <= v <= n.
Proof.
  unfold inRange. rewrite forallb_elem. split.
  - intros H p v Hp Hcell. specialize (H p Hp). rewrite Hcell in H.
    apply andb_true_iff in H as [H1 H2].
    apply Nat.leb_le in H1, H2. lia.
  - intros H p Hp.
    destruct (cellAt g p.1 p.2) as [[v |] |] eqn:Hcell; [| done | done].
    specialize (H p v Hp Hcell).
    apply andb_true_iff. split; apply Nat.leb_le; lia.
Qed.

Lemma setCell_defined (g : SudokuGrid) (row col value : nat) (p : Position) :
  isNull g row col = true -> cellAt g p.1 p.2 <> None ->
  cellAt (setCell g row col value) p.1 p.2 <> None.
Proof.
  intros Hnull Hdef. rewrite cellAt_setCell. case_decide; [| exact Hdef].
  unfold isNull in Hnull. by destruct (cellAt g row col) as [[? |] |].
Qed.

Lemma wellFormed_applyMove (g : SudokuGrid) (cs : Candidates)
  (row col value : nat) :
  GridSize (length g) -> wellFormed (length g) g cs ->
  isNull g row col = true -> value ∈ getCandidates g row col ->
  wellFormed (length g) (setCell g row col value)
    (applyMoveCandidates cs row col value (length g)).
Proof.
  intros Hn (_ & Hcover & Hlegal & Hfree & Hrange) Hnull Hcand.
  apply elem_of_getCandidates in Hcand as [Hv Hvalid].
  split; [apply length_setCell |].
  split; [intros p Hp; by apply setCell_defined, Hcover |].
  split; [by apply legalCache_applyMove |].
  split; [by apply conflictFree_setCell |].
  apply inRange_true. intros p v Hp. rewrite cellAt_setCell.
  case_decide as Heq; [| by apply (proj1 (inRange_true g _) Hrange)].
  unfold isNull in Hnull.
  destruct (cellAt g row col) as [[? |] |]; simpl; try done.
  by intros [= <-].
Qed.

Lemma iteration_wellFormed (n : nat) (s s' : LoopState) (t : Strategy) :
  GridSize n ->
  wellFormed n (workingGrid s) (candidates s) ->
  iteration n s = (Some t, s') ->
  wellFormed n (workingGrid s') (candidates s').
Proof.
  intros Hn. apply (iteration_preserves (wellFormed n) n).
  - intros g cs row col value Hw Hf.
    pose proof Hw as (Hlen & _ & Hl & _). subst n.
    destruct (placing_legal g cs _ row col value Hl (or_introl Hf)).
    by apply wellFormed_applyMove.
  - intros g cs row col value Hw Hf.
    pose proof Hw as (Hlen & _ & Hl & _). subst n.
    destruct (placing_legal g cs _ row col value Hl (or_intror Hf)).
    by apply wellFormed_applyMove.
  - intros g cs (H1 & H2 & Hl & H3).
    split; [done |]. split; [done |]. split; [| done].
    eapply legalCache_shrinks; [exact Hl |].
    apply shrinks_findNakedPairEliminations.
  - intros g cs (H1 & H2 & Hl & H3).
    split; [done |]. split; [done |]. split; [| done].
    eapply legalCache_shrinks; [exact Hl |].
    apply shrinks_findPointingPairEliminations.
  - intros g cs (H1 & H2 & Hl & H3).
    split; [done |]. split; [done |]. split; [| done].
    eapply legalCache_shrinks; [exact Hl |].
    apply shrinks_findBoxLineEliminations.
Qed.

Lemma filled_cell (g : SudokuGrid) (n : nat) (p : Position) :
  (forall q, q ∈ cells n -> cellAt g q.1 q.2 <> None) ->
  isComplete g = true -> p ∈ cells n ->
  cellAt g p.1 p.2 = Some (Some (valueAt g p)).
Proof.
  intros Hcover Hdone Hp. specialize (Hcover p Hp).
  pose proof (isComplete_isNull g p.1 p.2 Hdone) as Hnn.
  unfold isNull in Hnn. unfold valueAt.
  by destruct (cellAt g p.1 p.2) as [[v |] |].
Qed.

Lemma singleton_length {A : Type} (l : list A) (x : A) :
  NoDup l -> x ∈ l -> (forall y, y ∈ l -> y = x) -> length l = 1.
Proof.
  intros Hnd Hx Hall. destruct l as [|a [|b l]]; [inversion Hx | done |].
  exfalso. inversion_clear Hnd as [|? ? Ha _]. apply Ha.
  rewrite (Hall a), (Hall b).
  - apply list_elem_of_here.
  - apply list_elem_of_further, list_elem_of_here.
  - apply list_elem_of_here.
Qed.

Lemma complete_conflictFree_solved (g : SudokuGrid) (n : nat) :
  GridSize n -> length g = n ->
  (forall p, p ∈ cells n -> cellAt g p.1 p.2 <> None) ->
  isComplete g = true -> conflictFree g = true -> inRange g n = true ->
  isGridSolved g n = true.
Proof.
  intros Hn Hlen Hcover Hdone Hfree Hrange.
  rewrite conflictFree_true in Hfree. rewrite inRange_true in Hrange.
  unfold isGridSolved. apply andb_true_iff. split.
  - apply forallb_elem. intros p Hp.
    pose proof (filled_cell g n p Hcover Hdone Hp) as Hcell.
    apply (existsb_true_elem _ _ (valueAt g p)).
    + apply elem_of_seq. specialize (Hrange p _ Hp Hcell). lia.
    + by apply holds_true.
  - apply forallb_elem. intros unit Hunit. apply forallb_elem. intros v Hv.
    apply Nat.eqb_eq.
    destruct (unit_facts n unit Hn Hunit) as [Hnd Hcells].
    assert (Hinj : forall p q, p ∈ unit -> q ∈ unit ->
                     valueAt g p = valueAt g q -> p = q).
    { intros p q Hp Hq Heq. destruct (decide (p = q)) as [| Hne]; [done |].
      exfalso.
      destruct (Hcells p Hp) as [Hpc _]. destruct (Hcells q Hq) as [Hqc _].
      pose proof (filled_cell g n p Hcover Hdone Hpc) as Hpcell.
      pose proof (filled_cell g n q Hcover Hdone Hqc) as Hqcell.
      apply elem_of_cells in Hpc as [Hp1 Hp2].
      pose proof (Hfree p.1 p.2 _ ltac:(lia) ltac:(lia) Hpcell) as Hvalid.
      apply isValidMove_peers in Hvalid as (_ & _ & Hpeers);
        [| by rewrite Hlen].
      rewrite Hlen in Hpeers.
      assert (Hne' : q <> (p.1, p.2)) by (destruct p; simpl; congruence).
      assert (Hp' : (p.1, p.2) ∈ unit) by (by destruct p).
      pose proof (Hpeers unit q Hunit Hp' Hq Hne') as Hfalse.
      rewrite Heq in Hfalse. apply holds_true in Hqcell. congruence. }
    assert (Hperm : valueAt g <$> unit ≡ₚ seq 1 n).
    { apply submseteq_length_Permutation.
      - apply NoDup_submseteq.
        + by apply NoDup_fmap_2_strong.
        + intros x Hx. apply list_elem_of_fmap in Hx as (p & -> & Hp).
          destruct (Hcells p Hp) as [Hpc _].
          pose proof (filled_cell g n p Hcover Hdone Hpc) as Hcell.
          apply elem_of_seq. specialize (Hrange p _ Hpc Hcell). lia.
      - rewrite length_fmap, length_seq.
        pose proof (unitsFull_GridSize n Hn) as Hfull.
        unfold unitsFull in Hfull. rewrite forallb_elem in Hfull.
        specialize (Hfull unit Hunit). apply Nat.eqb_eq in Hfull. lia. }
    assert (Hin : v ∈ valueAt g <$> unit) by (by rewrite Hperm).
    apply list_elem_of_fmap in Hin as (p & -> & Hp).
    destruct (Hcells p Hp) as [Hpc _].
    pose proof (filled_cell g n p Hcover Hdone Hpc) as Hpcell.
    apply (singleton_length _ p).
    + by apply NoDup_List_filter_pos.
    + apply elem_of_List_filter. split; [exact Hp | by apply holds_true].
    + intros q Hq. apply elem_of_List_filter in Hq as [Hq Hholds].
      apply Hinj; [exact Hq | exact Hp |]. by apply holds_valueAt.
Qed.

(** On a square grid of size 4, 6 or 9 whose numbers are from 1 to the
    size and are not repeated in any row, column or box, a result that
    [solveWithStrategies] reports solved is a solved grid: every cell
    holds a number from 1 to the size and every row, column and box holds
    each of them once; and it has the numbers of the input. *)
Theorem solveWithStrategies_solved_is_a_solution (g : SudokuGrid)
  (res : SolveResult) :
  GridSize (length g) -> square g ->
  conflictFree g = true -> inRange g (length g) = true ->
  solveWithStrategies g = Some res -> solved res = true ->
  isGridSolved (grid res) (length g) = true
  /\ completes (grid res) g (length g) = true.
Proof.
  intros Hn Hsq Hfree Hrange Hres Hdone.
  destruct (solveTrace_returns g) as (ts & s' & Hloop & Htrace).
  unfold solveWithStrategies in Hres. rewrite Htrace in Hres.
  simpl in Hres. simplify_eq. simpl in Hdone. simpl.
  assert (Hw : wellFormed (length g) (workingGrid s') (candidates s')).
  { apply (solveLoop_preserves (wellFormed (length g)) (length g))
      with (fuel := passBound (initialState g)) (s := initialState g)
           (ts := ts); [| | exact Hloop].
    - intros s t s1. by apply iteration_wellFormed.
    - simpl. rewrite cloneGrid_eq. split; [done |].
      split; [intros p Hp; by apply (square_cover (length g)) |].
      split; [apply legalCache_buildCandidateGrid | by split]. }
  destruct Hw as (Hlen & Hcover & _ & Hfree' & Hrange').
  split; [by apply complete_conflictFree_solved |].
  assert (Hfill : fillsIn g (workingGrid s')).
  { eapply solveLoop_fillsIn; [| | exact Hloop].
    - apply consistent_initialState.
    - simpl. rewrite cloneGrid_eq. apply fillsIn_refl. }
  apply completes_true. intros p v Hp Hcell.
  destruct Hfill as [_ Hcells]. specialize (Hcells p.1 p.2).
  rewrite Hcell in Hcells. by apply holds_true.
Qed.

Lemma solveWithStrategies_solved_is_a_solution_witness :
  exists res,
    solveWithStrategies columnFirstGrid = Some res
    /\ solved res = true
    /\ isGridSolved (grid res) (length columnFirstGrid) = true
    /\ completes (grid res) columnFirstGrid (length columnFirstGrid) = true.
Proof.
  assert (Hn : GridSize (length columnFirstGrid)) by (right; left; reflexivity).
  assert (Hsq : square columnFirstGrid) by (repeat constructor).
  assert (Hfree : conflictFree columnFirstGrid = true)
    by (vm_compute; reflexivity).
  assert (Hrange : inRange columnFirstGrid (length columnFirstGrid) = true)
    by (vm_compute; reflexivity).
  destruct (solveWithStrategies columnFirstGrid) as [res |] eqn:Hres;
    [| vm_compute in Hres; discriminate Hres].
  assert (Hdone : solved res = true).
  { vm_compute in Hres. injection Hres as <-. reflexivity. }
  exists res. split; [reflexivity |]. split; [exact Hdone |].
  exact (solveWithStrategies_solved_is_a_solution columnFirstGrid res
           Hn Hsq Hfree Hrange Hres Hdone).
Defined.

(** ** Difficulty: what 'expert' means *)

Lemma run_priority (n : nat) (b b' : SudokuGrid * Candidates)
  (ts : list Strategy) :
  run n b ts b' -> forall t, t ∈ ts -> t ∈ priority.
Proof.
  induction 1 as [| b b' b'' t ts Hstep Hrun IH].
  - intros t Ht. by apply elem_of_nil in Ht.
  - intros t' Ht'. apply elem_of_cons in Ht' as [-> | Ht']; [| auto].
    destruct Hstep as (k & Hk & _). by eapply list_elem_of_lookup_2.
Qed.

Lemma priority_not_expert (t : Strategy) :
  t ∈ priority -> t <> guessing /\ STRATEGY_DIFFICULTY t <> expert.
Proof.
  unfold priority. rewrite !elem_of_cons, elem_of_nil.
  intros [-> | [-> | [-> | [-> | [-> | []]]]]]; by split.
Qed.

Lemma solveWithStrategies_expert (g : SudokuGrid) :
  exists res,
    solveWithStrategies g = Some res
    /\ (maxDifficulty res = expert <-> solved res = false)
    /\ (guessing ∈ strategiesUsed res <-> solved res = false).
Proof.
  destruct (solveTrace_returns g) as (ts & s' & Hloop & Htrace).
  destruct (solveLoop_trace _ _ _ _ _ Hloop) as (Hrun & Hu & Hd & _).
  simpl in Hu, Hd. pose proof (run_priority _ _ _ _ Hrun) as Hprio.
  exists (finish s'). split.
  { unfold solveWithStrategies. by rewrite Htrace. }
  unfold finish. simpl. destruct (isComplete (workingGrid s')); split.
  - split; [| done]. intros Hexp. exfalso.
    destruct (fold_max_spec ts beginner) as (_ & _ & [E | (t & Ht & E)]);
      cbv zeta in E; rewrite <- Hd in E.
    + congruence.
    + destruct (priority_not_expert t (Hprio t Ht)) as [_ Hne]. congruence.
  - split; [| done]. rewrite Hu, elem_of_fold_setAdd, elem_of_nil.
    intros [[] | Hin]. by destruct (priority_not_expert _ (Hprio _ Hin)).
  - done.
  - split; [done |]. intros _. apply elem_of_setAdd. by right.
Qed.

(** On a grid of size 4, 6 or 9, [solveWithStrategies] reports the
    difficulty 'expert' exactly when it reports the puzzle unsolved, which
    is exactly when 'guessing' is among the techniques of the result;
    [analyzeDifficulty] is 'expert' exactly then. *)
Theorem solveWithStrategies_expert_iff_unsolved (g : SudokuGrid) :
  GridSize (length g) ->
  exists res,
    solveWithStrategies g = Some res
    /\ analyzeDifficulty g = Some (maxDifficulty res)
    /\ (maxDifficulty res = expert <-> solved res = false)
    /\ (guessing ∈ strategiesUsed res <-> solved res = false)
    /\ (solved res = true <-> isComplete (grid res) = true).
Proof.
  intros _.
  destruct (solveWithStrategies_expert g) as (res & Hres & H1 & H2).
  exists res. split; [exact Hres |].
  split; [unfold analyzeDifficulty; by rewrite Hres |].
  split; [exact H1 |]. split; [exact H2 |].
  destruct (solveTrace_returns g) as (ts & s' & _ & Htrace).
  unfold solveWithStrategies in Hres. rewrite Htrace in Hres.
  simpl in Hres. by simplify_eq.
Qed.

Lemma solveWithStrategies_expert_iff_unsolved_witness :
  GridSize (length emptyGrid)
  /\ exists res,
       solveWithStrategies emptyGrid = Some res
       /\ analyzeDifficulty emptyGrid = Some (maxDifficulty res)
       /\ (maxDifficulty res = expert <-> solved res = false).
Proof.
  assert (Hn : GridSize (length emptyGrid)) by (left; reflexivity).
  split; [exact Hn |].
  destruct (solveWithStrategies_expert_iff_unsolved emptyGrid Hn)
    as (res & H1 & H2 & H3 & _).
  exists res. split; [exact H1 |]. split; [exact H2 | exact H3].
Defined.

(** ** The difficulty validator: consequences *)

Lemma getMaxDifficultyForGridSize_cases (n : nat) :
  getMaxDifficultyForGridSize n = easy
  \/ getMaxDifficultyForGridSize n = medium
  \/ getMaxDifficultyForGridSize n = expert.
Proof. do 7 (destruct n as [|n]; [simpl; auto |]). simpl. auto. Qed.

(** A puzzle of size 4, 6 or 9 is always valid for the difficulty
    [analyzeDifficulty] gives it. *)
Theorem validateDifficulty_accepts_analyzed_difficulty (g : SudokuGrid) :
  GridSize (length g) ->
  exists d v,
    analyzeDifficulty g = Some d
    /\ validateDifficulty g d = Some v
    /\ actualDifficulty v = d
    /\ valid v = true.
Proof.
  intros _.
  destruct (solveWithStrategies_returns g) as (res & Hres).
  exists (maxDifficulty res). eexists.
  split; [unfold analyzeDifficulty; by rewrite Hres |].
  unfold validateDifficulty. rewrite Hres. simpl.
  split; [reflexivity |]. split; [reflexivity |]. simpl.
  destruct (getMaxDifficultyForGridSize_cases (length g)) as [E | [E | E]];
    rewrite E; by destruct (maxDifficulty res).
Qed.

Lemma validateDifficulty_accepts_analyzed_difficulty_witness :
  GridSize (length columnFirstGrid)
  /\ exists d v,
       analyzeDifficulty columnFirstGrid = Some d
       /\ validateDifficulty columnFirstGrid d = Some v
       /\ valid v = true.
Proof.
  assert (Hn : GridSize (length columnFirstGrid)) by (right; left; reflexivity).
  split; [exact Hn |].
  destruct (validateDifficulty_accepts_analyzed_difficulty columnFirstGrid Hn)
    as (d & v & H1 & H2 & _ & H3).
  exists d, v. split; [exact H1 |]. split; [exact H2 | exact H3].
Defined.

(** A puzzle that [solveWithStrategies] leaves unsolved is valid for the
    requested difficulties hard and expert and for no other, on a grid of
    any size. *)
Theorem validateDifficulty_unsolved_needs_hard_request (g : SudokuGrid)
  (requested : Difficulty) (res : SolveResult) :
  solveWithStrategies g = Some res -> solved res = false ->
  exists v,
    validateDifficulty g requested = Some v
    /\ actualDifficulty v = expert
    /\ guessing ∈ strategiesUsedArray v
    /\ (valid v = true <-> requested = hard \/ requested = expert).
Proof.
  intros Hres Hunsolved.
  destruct (solveWithStrategies_expert g) as (res' & Hres' & H1 & H2).
  rewrite Hres in Hres'. simplify_eq.
  apply H1 in Hunsolved as Hexp. apply H2 in Hunsolved as Hguess.
  unfold validateDifficulty. rewrite Hres. simpl. eexists.
  split; [reflexivity |]. simpl. rewrite Hexp.
  split; [reflexivity |]. split; [exact Hguess |].
  destruct (getMaxDifficultyForGridSize_cases (length g)) as [E | [E | E]];
    rewrite E; destruct requested; simpl; split; intros H; try done;
    try (by left); try (by right); destruct H; done.
Qed.

Lemma validateDifficulty_unsolved_needs_hard_request_witness :
  exists res v,
    solveWithStrategies emptyGrid = Some res /\ solved res = false
    /\ validateDifficulty emptyGrid medium = Some v
    /\ (valid v = true <-> medium = hard \/ medium = expert).
Proof.
  destruct (solveWithStrategies emptyGrid) as [res |] eqn:Hres;
    [| vm_compute in Hres; discriminate Hres].
  assert (Hunsolved : solved res = false).
  { vm_compute in Hres. injection Hres as <-. reflexivity. }
  destruct (validateDifficulty_unsolved_needs_hard_request emptyGrid medium
              res Hres Hunsolved) as (v & Hv & _ & _ & Hiff).
  exists res, v. split; [reflexivity |]. split; [exact Hunsolved |].
  split; [exact Hv | exact Hiff].
Defined.

(** On a 4x4 grid every puzzle is valid for the requested difficulties
    hard and expert: the request is capped at 'easy', and a harder puzzle
    is accepted for them. *)
Theorem validateDifficulty_small_grid_accepts_hard_requests (g : SudokuGrid)
  (requested : Difficulty) :
  length g = 4 -> requested = hard \/ requested = expert ->
  exists v, validateDifficulty g requested = Some v /\ valid v = true.
Proof.
  intros Hlen Hreq.
  destruct (solveWithStrategies_returns g) as (res & Hres).
  unfold validateDifficulty. rewrite Hres. simpl. eexists.
  split; [reflexivity |]. simpl. rewrite Hlen.
  destruct Hreq as [-> | ->]; by destruct (maxDifficulty res).
Qed.

Lemma validateDifficulty_small_grid_accepts_hard_requests_witness :
  length nakedSingleGrid = 4 /\ (expert = hard \/ expert = expert)
  /\ exists v,
      validateDifficulty nakedSingleGrid expert = Some v /\ valid v = true.
Proof.
  split; [reflexivity |]. split; [by right |].
  apply (validateDifficulty_small_grid_accepts_hard_requests
           nakedSingleGrid expert); [reflexivity | by right].
Defined.

(** ** The hint oracle: what it points at *)

Lemma stepNakedSingle_Some (g : SudokuGrid) (n row col value : nat)
  (res : StrategyResult) :
  stepNakedSingle g n = Some (row, col, value, res) ->
  row < n /\ col < n /\ isNull g row col = true
  /\ getCandidates g row col = [value].
Proof.
  unfold stepNakedSingle. intros H.
  apply firstSome_elem in H as (r & Hr & H).
  apply firstSome_elem in H as (c & Hc & H).
  apply elem_of_seq in Hr, Hc.
  destruct (isNull g r c) eqn:Hnull; [| done]. simpl in H.
  destruct (length (getCandidates g r c) =? 1) eqn:Hone; [| done].
  apply Nat.eqb_eq in Hone. simplify_eq.
  split; [lia |]. split; [lia |]. split; [exact Hnull |].
  by destruct (getCandidates g row col) as [|x [|? ?]].
Qed.

Lemma findPairLeadingToSingle_Some (g : SudokuGrid) (unit : list Position)
  (row col value : nat) (pairCells : list Position) (pairValues : nat * nat) :
  findPairLeadingToSingle g unit
  = Some (row, col, value, pairCells, pairValues) ->
  exists p q a b,
    p ∈ unit /\ q ∈ unit /\ (NoDup unit -> p <> q)
    /\ isNull g p.1 p.2 = true /\ isNull g q.1 q.2 = true
    /\ getCandidates g p.1 p.2 = [a; b]
    /\ getCandidates g q.1 q.2 = [a; b]
    /\ pairCells = [p; q] /\ pairValues = (a, b)
    /\ (row, col) ∈ unit /\ (row, col) <> p /\ (row, col) <> q
    /\ isNull g row col = true
    /\ List.filter (fun c => negb (includes [a; b] c))
         (getCandidates g row col) = [value].
Proof.
  intros E. unfold findPairLeadingToSingle in E. cbv zeta in E.
  set (emptyCells :=
         map (fun c => (c, getCandidates g c.1 c.2))
           (List.filter (fun c => isNull g c.1 c.2) unit)) in *.
  set (pairCs := List.filter (fun c => length c.2 =? 2) emptyCells) in *.
  assert (Hempty : forall e, e ∈ emptyCells ->
            e.1 ∈ unit /\ isNull g e.1.1 e.1.2 = true
            /\ e.2 = getCandidates g e.1.1 e.1.2).
  { intros e He. apply list_elem_of_In, in_map_iff in He as (c & <- & Hc).
    apply filter_In in Hc as [Hc Hnull]. simpl.
    split; [by apply list_elem_of_In | done]. }
  assert (Hpair : forall e, e ∈ pairCs ->
            e ∈ emptyCells /\ length e.2 = 2).
  { intros e He. apply list_elem_of_In, filter_In in He as [He Hlen].
    split; [by apply list_elem_of_In | by apply Nat.eqb_eq]. }
  assert (Hkeys : NoDup unit -> NoDup (map fst pairCs)).
  { intros Hnd. apply NoDup_map_filter. unfold emptyCells.
    rewrite map_fst_pair.
    rewrite <- (map_id (List.filter _ unit)). by apply NoDup_map_filter;
      rewrite map_id. }
  apply firstSome_elem in E as ([cell1 cell2] & Hpr & E). simpl in E.
  assert (Hdist : NoDup unit -> cell1.1 <> cell2.1).
  { intros Hnd. exact (orderedPairs_distinct fst _ _ _ (Hkeys Hnd) Hpr). }
  apply orderedPairs_elem in Hpr as [H1 H2].
  apply Hpair in H1 as [H1 Hlen1]. apply Hpair in H2 as [H2 Hlen2].
  apply Hempty in H1 as (Hu1 & Hn1 & Hc1).
  apply Hempty in H2 as (Hu2 & Hn2 & Hc2).
  destruct ((at_ cell1.2 0 =? at_ cell2.2 0)
            && (at_ cell1.2 1 =? at_ cell2.2 1)) eqn:Hsame; [| done].
  apply andb_true_iff in Hsame as [Hs0 Hs1].
  apply Nat.eqb_eq in Hs0, Hs1.
  apply firstSome_elem in E as (other & Hother & E).
  apply Hempty in Hother as (Hu3 & Hn3 & Hc3).
  destruct (samePosition other.1 cell1.1 || samePosition other.1 cell2.1)
    eqn:Hsp; [done |].
  apply orb_false_iff in Hsp as [Hsp1 Hsp2].
  destruct (length _ =? 1) eqn:Hrem in E; [| done].
  apply Nat.eqb_eq in Hrem.
  destruct cell1 as [p c1], cell2 as [q c2], other as [x c3]. simpl in *.
  subst c1 c2 c3.
  destruct (getCandidates g p.1 p.2) as [|a [|b [|]]] eqn:Ep; try done.
  destruct (getCandidates g q.1 q.2) as [|c [|d [|]]] eqn:Eq; try done.
  unfold at_ in *. simpl in *. subst c d.
  injection E as <- <- <- <- <-.
  destruct x as [xr xc]. cbn [fst snd] in *.
  exists p, q, a, b.
  split; [done |]. split; [done |]. split; [done |]. split; [done |].
  split; [done |]. split; [done |]. split; [done |]. split; [done |].
  split; [done |]. split; [done |].
  split; [intros <-; by rewrite (proj2 (samePosition_true _ _) eq_refl) in Hsp1 |].
  split; [intros <-; by rewrite (proj2 (samePosition_true _ _) eq_refl) in Hsp2 |].
  split; [done |].
  destruct (List.filter _ (getCandidates g xr xc)) as [|y [|? ?]];
    by simplify_eq/=.
Qed.

Lemma scannedUnits_units (n : nat) (unit : list Position) :
  GridSize n -> unit ∈ scannedUnits n -> NoDup unit /\ unit ∈ units n.
Proof.
  intros Hn Hin. pose proof (scannedUnitsOk_GridSize n Hn) as Hok.
  unfold scannedUnitsOk in Hok. rewrite forallb_elem in Hok.
  specialize (Hok unit Hin). apply andb_true_iff in Hok as [Hnd Hunit].
  by apply bool_decide_eq_true in Hnd, Hunit.
Qed.

Lemma stepNakedPair_scanned (g : SudokuGrid) (n : nat)
  (r : nat * nat * nat * StrategyResult) :
  stepNakedPair g n = Some r ->
  exists unit r', unit ∈ scannedUnits n
                  /\ findPairLeadingToSingle g unit = Some r'
                  /\ r = pairResult r'.
Proof.
  unfold stepNakedPair, scannedUnits. cbv zeta. intros H.
  apply fmap_Some in H as (r' & H & ->).
  destruct (firstSome _ (seq 0 n)) as [r1 |] eqn:Hrows.
  { simplify_eq. apply firstSome_elem in Hrows as (row & Hrow & Hf).
    eexists _, r'. split; [| split; [exact Hf | done]].
    apply elem_of_app. left.
    apply list_elem_of_In, in_map_iff. exists row.
    split; [done | by apply list_elem_of_In]. }
  destruct (firstSome _ (seq 0 n)) as [r2 |] eqn:Hcols in H.
  { simplify_eq. apply firstSome_elem in Hcols as (col & Hcol & Hf).
    eexists _, r'. split; [| split; [exact Hf | done]].
    apply elem_of_app. right. apply elem_of_app. left.
    apply list_elem_of_In, in_map_iff. exists col.
    split; [done | by apply list_elem_of_In]. }
  apply firstSome_elem in H as (boxRow & HboxRow & H).
  apply firstSome_elem in H as (boxCol & HboxCol & Hf).
  eexists _, r'. split; [| split; [exact Hf | done]].
  apply elem_of_app. right. apply elem_of_app. right.
  apply list_elem_of_In, in_flat_map. exists boxRow.
  split; [by apply list_elem_of_In |].
  apply in_map_iff. exists boxCol. split; [done | by apply list_elem_of_In].
Qed.

Lemma findHint_legal (g : SudokuGrid) (n row col value : nat)
  (res : StrategyResult) :
  findHint g n = Some (row, col, value, res) ->
  isNull g row col = true /\ value ∈ getCandidates g row col.
Proof.
  unfold findHint. intros H.
  destruct (stepNakedSingle g n) as [r1 |] eqn:H1.
  { simplify_eq.
    destruct (stepNakedSingle_Some _ _ _ _ _ _ H1) as (_ & _ & Hnull & Hc).
    split; [exact Hnull |]. rewrite Hc. apply list_elem_of_here. }
  destruct (stepHiddenSingle g n) as [r2 |] eqn:H2.
  { simplify_eq.
    destruct (stepHiddenSingle_Some _ _ _ H2)
      as (row' & col' & v & E & _ & _ & _ & _ & _ & Hhid & _).
    simpl in E. simplify_eq. unfold hiddenSingleAt in Hhid. cbv zeta in Hhid.
    apply andb_true_iff in Hhid as [Hcan _]. unfold canHold in Hcan.
    apply andb_true_iff in Hcan as [Hnull Hinc]. simpl in *.
    split; [exact Hnull | by apply includes_true]. }
  destruct (stepNakedPair_scanned _ _ _ H) as (unit & r' & _ & Hf & E).
  destruct r' as [[[[row' col'] value'] pc] pv]. simpl in E. simplify_eq.
  destruct (findPairLeadingToSingle_Some _ _ _ _ _ _ _ Hf)
    as (p & q & a & b & _ & _ & _ & _ & _ & _ & _ & _ & _ & _ & _ & _
        & Hnull & Hrem).
  split; [exact Hnull |].
  apply filter_singleton in Hrem as [Hin _]. exact Hin.
Qed.

(** When [useHint] points at a cell, the cell is empty on the current grid
    and the number it proposes is one of the candidates of the cell: a
    number from 1 to the grid size that no other cell of the row, of the
    column or of the box holds; the cell becomes the selected cell and one
    more hint is counted. *)
Theorem useHint_proposes_a_candidate (st : GameState) (g sol : SudokuGrid)
  (row col value : nat) :
  solution st = Some sol ->
  currentGrid st = Some g ->
  hintCell (useHint st) = Some (row, col, value) ->
  isNull g row col = true
  /\ value ∈ getCandidates g row col
  /\ 1 <= value <= length g
  /\ isValidMove g row col value = true
  /\ selectedCell (useHint st) = Some (row, col)
  /\ hintsUsed (useHint st) = hintsUsed st + 1.
Proof.
  intros Hsol Hgrid Hhint. unfold useHint in *. rewrite Hsol, Hgrid in *.
  destruct (findHint g (gridSize st)) as [[[[r c] v] res] |] eqn:Hfind;
    simpl in *; [| done].
  simplify_eq.
  destruct (findHint_legal _ _ _ _ _ _ Hfind) as [Hnull Hcand].
  split; [exact Hnull |]. split; [exact Hcand |].
  apply elem_of_getCandidates in Hcand as [Hrange Hvalid]. done.
Qed.

Lemma useHint_proposes_a_candidate_witness :
  hintCell (useHint (inProgress columnFirstGrid columnFirstSolution))
  = Some (0, 0, 5)
  /\ isNull columnFirstGrid 0 0 = true
  /\ 5 ∈ getCandidates columnFirstGrid 0 0.
Proof.
  assert (H : hintCell (useHint (inProgress columnFirstGrid
                                   columnFirstSolution)) = Some (0, 0, 5))
    by (vm_compute; reflexivity).
  split; [exact H |].
  destruct (useHint_proposes_a_candidate
              (inProgress columnFirstGrid columnFirstSolution)
              columnFirstGrid columnFirstSolution 0 0 5
              eq_refl eq_refl H) as (H1 & H2 & _).
  split; [exact H1 | exact H2].
Defined.

(** ** The hint oracle agrees with the solution *)

Section HintSound.

Context (sol g : SudokuGrid) (n : nat).
Context (Hn : GridSize n) (Hsolved : isGridSolved sol n = true).
Context (Hpart : partOf sol g n).

Lemma candAt_build_null (p : Position) :
  p ∈ cells n -> isNull g p.1 p.2 = true ->
  candAt (buildCandidateGrid g) p.1 p.2 = getCandidates g p.1 p.2.
Proof.
  intros Hp Hnull. destruct Hpart as (Hlen & _).
  apply elem_of_cells in Hp as [Hr Hc].
  rewrite candAt_buildCandidateGrid, decide_True by lia. by rewrite Hnull.
Qed.

Lemma solution_candidate (p : Position) :
  p ∈ cells n -> isNull g p.1 p.2 = true ->
  valueAt sol p ∈ getCandidates g p.1 p.2.
Proof.
  intros Hp Hnull. rewrite <- candAt_build_null by done.
  by apply (tracks_buildCandidateGrid sol n Hn Hsolved g Hpart).
Qed.

Lemma unit_solution_holder (unit : list Position) (p0 : Position) (v : nat) :
  unit ∈ units n -> p0 ∈ unit -> isNull g p0.1 p0.2 = true ->
  v ∈ getCandidates g p0.1 p0.2 ->
  exists q, q ∈ unit /\ valueAt sol q = v /\ isNull g q.1 q.2 = true
            /\ v ∈ getCandidates g q.1 q.2.
Proof.
  intros Hunit Hp0 Hnull Hv.
  destruct (unit_facts n unit Hn Hunit) as [_ Hcells].
  destruct (solution_holder sol g n Hn Hsolved Hpart (buildCandidateGrid g)
              unit p0 v
              (tracks_buildCandidateGrid sol n Hn Hsolved g Hpart) Hunit Hp0)
    as (q & Hq & Hvq & Hnullq & Hqin).
  { rewrite candAt_build_null; [done | apply (Hcells _ Hp0) | done]. }
  exists q. split; [exact Hq |]. split; [exact Hvq |].
  split; [exact Hnullq |].
  rewrite candAt_build_null in Hqin; [done | apply (Hcells _ Hq) | done].
Qed.

Lemma aloneIn_solution (unit : list Position) (p : Position) (v : nat) :
  unit ∈ units n -> p ∈ unit -> canHold g p v = true ->
  aloneIn g unit p v = true -> valueAt sol p = v.
Proof.
  intros Hunit Hp Hcan Halone. unfold canHold in Hcan.
  apply andb_true_iff in Hcan as [Hnull Hinc]. apply includes_true in Hinc.
  destruct (unit_solution_holder unit p v Hunit Hp Hnull Hinc)
    as (q & Hq & Hvq & Hnullq & Hqin).
  unfold aloneIn in Halone. rewrite forallb_elem in Halone.
  specialize (Halone q Hq).
  assert (Hcanq : canHold g q v = true).
  { unfold canHold. rewrite Hnullq. by apply includes_true. }
  rewrite Hcanq, orb_false_r in Halone.
  apply samePosition_true in Halone. by subst q.
Qed.

Lemma findHint_sound (row col value : nat) (res : StrategyResult) :
  findHint g n = Some (row, col, value, res) ->
  (row, col) ∈ cells n /\ valueAt sol (row, col) = value.
Proof.
  unfold findHint. intros H.
  destruct (stepNakedSingle g n) as [r1 |] eqn:H1.
  { simplify_eq.
    destruct (stepNakedSingle_Some _ _ _ _ _ _ H1) as (Hr & Hc & Hnull & Hcs).
    assert (Hp : (row, col) ∈ cells n) by (by apply elem_of_cells).
    split; [exact Hp |].
    pose proof (solution_candidate (row, col) Hp Hnull) as Hin.
    simpl in Hin. rewrite Hcs in Hin. by apply list_elem_of_singleton in Hin. }
  destruct (stepHiddenSingle g n) as [r2 |] eqn:H2.
  { simplify_eq.
    destruct (stepHiddenSingle_Some _ _ _ H2)
      as (row' & col' & v & E & _ & _ & _ & Hr & Hc & Hhid & _).
    simpl in E. simplify_eq.
    assert (Hp : (row', col') ∈ cells n) by (by apply elem_of_cells).
    split; [exact Hp |].
    unfold hiddenSingleAt in Hhid. cbv zeta in Hhid.
    apply andb_true_iff in Hhid as [Hcan Halone]. cbn [fst snd] in Halone.
    destruct (unitsCover_cell n row' col' Hn Hr Hc)
      as ([Hin1 Hu1] & [Hin2 Hu2] & [Hin3 Hu3]).
    apply orb_true_iff in Halone as [Halone | Halone];
      [apply orb_true_iff in Halone as [Halone | Halone] |].
    - by apply (aloneIn_solution (rowUnit n row')).
    - by apply (aloneIn_solution (colUnit n col')).
    - by apply (aloneIn_solution
                  (boxUnit n (row' / rows (getBoxDimensions n))
                     (col' / cols (getBoxDimensions n)))). }
  destruct (stepNakedPair_scanned _ _ _ H) as (unit & r' & Hscan & Hf & E).
  destruct r' as [[[[row' col'] value'] pc] pv]. simpl in E. simplify_eq.
  destruct (scannedUnits_units n unit Hn Hscan) as [Hnd Hunit].
  destruct (unit_facts n unit Hn Hunit) as [_ Hcells].
  destruct (findPairLeadingToSingle_Some _ _ _ _ _ _ _ Hf)
    as (p & q & a & b & Hp & Hq & Hpq & Hnp & Hnq & Hcp & Hcq & _ & _
        & Hx & Hxp & Hxq & Hnx & Hrem).
  specialize (Hpq Hnd).
  destruct (Hcells _ Hp) as [Hpc _]. destruct (Hcells _ Hq) as [Hqc _].
  destruct (Hcells _ Hx) as [Hxc _].
  split; [exact Hxc |].
  pose proof (solution_candidate p Hpc Hnp) as Hsp. rewrite Hcp in Hsp.
  pose proof (solution_candidate q Hqc Hnq) as Hsq. rewrite Hcq in Hsq.
  pose proof (solution_candidate _ Hxc Hnx) as Hsx. cbn [fst snd] in Hsx.
  pose proof (solved_unit_distinct sol n unit p q Hn Hsolved Hunit Hp Hq Hpq)
    as Hd1.
  pose proof (solved_unit_distinct sol n unit _ p Hn Hsolved Hunit Hx Hp Hxp)
    as Hd2.
  pose proof (solved_unit_distinct sol n unit _ q Hn Hsolved Hunit Hx Hq Hxq)
    as Hd3.
  rewrite !elem_of_cons, elem_of_nil in Hsp, Hsq.
  assert (Hin : valueAt sol (row', col')
                ∈ List.filter (fun c => negb (includes [a; b] c))
                    (getCandidates g row' col')).
  { apply elem_of_List_filter. split; [exact Hsx |].
    apply negb_true_iff. destruct (includes [a; b] _) eqn:Hinc; [| done].
    apply includes_true in Hinc.
    rewrite !elem_of_cons, elem_of_nil in Hinc. lia. }
  rewrite Hrem in Hin. by apply list_elem_of_singleton in Hin.
Qed.

End HintSound.

(** In a game on a square grid of size 4, 6 or 9 whose stored solution is
    a solved grid that has the numbers of the current grid, the number
    [useHint] proposes for a cell is the number the stored solution has in
    that cell, whichever of the three techniques finds it. *)
Theorem useHint_proposes_the_solution_number (st : GameState)
  (g sol : SudokuGrid) (row col value : nat) :
  solution st = Some sol ->
  currentGrid st = Some g ->
  gridSize st = length g ->
  GridSize (length g) -> square g ->
  isGridSolved sol (length g) = true ->
  completes sol g (length g) = true ->
  hintCell (useHint st) = Some (row, col, value) ->
  row < length g /\ col < length g
  /\ cellAt sol row col = Some (Some value).
Proof.
  intros Hsol Hgrid Hsize Hn Hsq Hsolved Hcomp Hhint.
  unfold useHint in Hhint. rewrite Hsol, Hgrid, Hsize in Hhint.
  destruct (findHint g (length g)) as [[[[r c] v] res] |] eqn:Hfind;
    simpl in Hhint; [| done].
  simplify_eq.
  assert (Hpart : partOf sol g (length g)).
  { split; [done |]. split; [| done].
    intros p Hp. by apply (square_cover (length g)). }
  destruct (findHint_sound sol g (length g) Hn Hsolved Hpart _ _ _ _ Hfind)
    as [Hp Hv].
  pose proof Hp as Hrange. apply elem_of_cells in Hrange as [Hr Hc].
  split; [exact Hr |]. split; [exact Hc |].
  destruct (solved_cell sol _ _ Hsolved Hp) as [_ Hcell].
  by rewrite Hv in Hcell.
Qed.

Lemma useHint_proposes_the_solution_number_witness :
  hintCell (useHint (inProgress columnFirstGrid columnFirstSolution))
  = Some (0, 0, 5)
  /\ cellAt columnFirstSolution 0 0 = Some (Some 5).
Proof.
  assert (H : hintCell (useHint (inProgress columnFirstGrid
                                   columnFirstSolution)) = Some (0, 0, 5))
    by (vm_compute; reflexivity).
  split; [exact H |].
  apply (useHint_proposes_the_solution_number
           (inProgress columnFirstGrid columnFirstSolution)
           columnFirstGrid columnFirstSolution 0 0 5).
  - reflexivity.
  - reflexivity.
  - reflexivity.
  - right. left. reflexivity.
  - repeat constructor.
  - vm_compute. reflexivity.
  - vm_compute. reflexivity.
  - exact H.
Defined.

(** ** The cells a hint highlights *)

Lemma addKey_elem (p x : Position) (h : list Position) :
  x ∈ addKey p h <-> x ∈ h \/ x = p.
Proof.
  unfold addKey. destruct (existsb (samePosition p) h) eqn:E.
  - apply existsb_elem in E as (y & Hy & Hsame).
    apply samePosition_true in Hsame. subst y.
    split; [by left | intros [? | ->]; done].
  - rewrite elem_of_app, list_elem_of_singleton. done.
Qed.

Lemma addKey_NoDup (p : Position) (h : list Position) :
  NoDup h -> NoDup (addKey p h).
Proof.
  intros Hnd. unfold addKey.
  destruct (existsb (samePosition p) h) eqn:E; [done |].
  apply list.NoDup_app. split; [done |]. split; [| apply NoDup_singleton].
  intros x Hx Hp. apply list_elem_of_singleton in Hp. subst x.
  pose proof (existsb_false_elem _ _ _ E Hx) as Hfalse.
  by rewrite (proj2 (samePosition_true p p) eq_refl) in Hfalse.
Qed.

Lemma forEach_addKey {A : Type} (f : A -> Position) (l : list A)
  (h : list Position) (x : Position) :
  x ∈ forEach l (fun a => addKey (f a)) h <->
  x ∈ h \/ exists a, a ∈ l /\ x = f a.
Proof.
  revert h. induction l as [|a l IH]; intros h.
  - simpl. split; [by left | intros [? | (a & Ha & _)]; [done |]].
    inversion Ha.
  - rewrite forEach_cons, IH, addKey_elem. split.
    + intros [[? | ->] | (b & Hb & ->)]; [by left | |].
      * right. exists a. split; [apply list_elem_of_here | done].
      * right. exists b. split; [by apply list_elem_of_further | done].
    + intros [? | (b & Hb & ->)]; [by left; left |].
      apply elem_of_cons in Hb as [-> | Hb]; [by left; right |].
      right. by exists b.
Qed.

Lemma forEach_addKey_NoDup {A : Type} (f : A -> Position) (l : list A)
  (h : list Position) :
  NoDup h -> NoDup (forEach l (fun a => addKey (f a)) h).
Proof.
  intros Hnd. apply (forEach_inv (fun h => NoDup h)); [| exact Hnd].
  intros a h' _. apply addKey_NoDup.
Qed.

Lemma hintHighlights_NoDup (n row col : nat) :
  NoDup (hintHighlights n row col).
Proof.
  unfold hintHighlights. cbv zeta.
  apply (forEach_inv (fun h => NoDup h)).
  - intros r h _ Hnd. by apply forEach_addKey_NoDup.
  - apply forEach_addKey_NoDup, forEach_addKey_NoDup. constructor.
Qed.

Lemma hintHighlights_box (n : nat) :
  (if n =? 4 then 2 else if n =? 6 then 2 else 3)
  = rows (getBoxDimensions n)
  /\ (if n =? 6 then 3 else if n =? 4 then 2 else if n =? 6 then 2 else 3)
     = cols (getBoxDimensions n).
Proof. by do 7 (destruct n as [|n]; [done |]). Qed.

Lemma hintHighlights_elem (n row col : nat) (p : Position) :
  p ∈ hintHighlights n row col <-> swept n row col p = true.
Proof.
  unfold hintHighlights. cbv zeta.
  destruct (hintHighlights_box n) as [-> ->].
  set (d := getBoxDimensions n).
  assert (Hbox : forall h,
    p ∈ forEach (seq (row / rows d * rows d) (rows d)) (fun r =>
          forEach (seq (col / cols d * cols d) (cols d))
            (fun c => addKey (r, c))) h
    <-> p ∈ h \/ ((row / rows d * rows d <= p.1 < row / rows d * rows d + rows d)
                  /\ (col / cols d * cols d <= p.2
                      < col / cols d * cols d + cols d))).
  { generalize (row / rows d * rows d). intros a.
    generalize (rows d). intros k. revert a.
    induction k as [|k IH]; intros a h; cbn [seq].
    - rewrite forEach_nil. split; [by left | intros [? | ?]; [done | lia]].
    - rewrite forEach_cons, IH, forEach_addKey. split.
      + intros [[? | (c & Hc & ->)] | ?]; [by left | right | right; lia].
        apply elem_of_seq in Hc. simpl. lia.
      + intros [? | [Hr Hc]]; [by left; left |].
        destruct (decide (p.1 = a)) as [E | E].
        * left. right. exists p.2. split; [apply elem_of_seq; lia |].
          destruct p; simpl in *; by subst.
        * right. lia. }
  rewrite Hbox, !forEach_addKey, elem_of_nil.
  unfold swept. cbv zeta. fold d.
  rewrite !orb_true_iff, !andb_true_iff, !Nat.eqb_eq, !Nat.ltb_lt,
    !Nat.leb_le.
  split.
  - intros [[[[] | (c & Hc & ->)] | (r & Hr & ->)] | Hb].
    + apply elem_of_seq in Hc. simpl. left. left. lia.
    + apply elem_of_seq in Hr. simpl. left. right. lia.
    + right. lia.
  - intros [[[E Hlt] | [E Hlt]] | Hb].
    + left. left. right. exists p.2. split; [apply elem_of_seq; lia |].
      destruct p; simpl in *; by subst.
    + left. right. exists p.1. split; [apply elem_of_seq; lia |].
      destruct p; simpl in *; by subst.
    + right. lia.
Qed.

(** When [useHint] points at a cell, the highlighted cells are the cells
    of the row, of the column and of the box of that cell, each of them
    once, and the three highlight preferences are switched on. *)
Theorem useHint_highlights_row_column_box (st : GameState)
  (g sol : SudokuGrid) (row col value : nat) :
  solution st = Some sol ->
  currentGrid st = Some g ->
  hintCell (useHint st) = Some (row, col, value) ->
  NoDup (highlightedCells (useHint st))
  /\ (forall p, p ∈ highlightedCells (useHint st) <->
                swept (gridSize st) row col p = true)
  /\ showRowHighlight (useHint st) = true
  /\ showColumnHighlight (useHint st) = true
  /\ showBoxHighlight (useHint st) = true.
Proof.
  intros Hsol Hgrid Hhint. unfold useHint in *. rewrite Hsol, Hgrid in *.
  destruct (findHint g (gridSize st)) as [[[[r c] v] res] |] eqn:Hfind;
    simpl in *; [| done].
  simplify_eq. split; [apply hintHighlights_NoDup |].
  split; [intros p; apply hintHighlights_elem | done].
Qed.

Lemma useHint_highlights_row_column_box_witness :
  hintCell (useHint (inProgress columnFirstGrid columnFirstSolution))
  = Some (0, 0, 5)
  /\ NoDup (highlightedCells
              (useHint (inProgress columnFirstGrid columnFirstSolution))).
Proof.
  assert (H : hintCell (useHint (inProgress columnFirstGrid
                                   columnFirstSolution)) = Some (0, 0, 5))
    by (vm_compute; reflexivity).
  split; [exact H |].
  apply (useHint_highlights_row_column_box
           (inProgress columnFirstGrid columnFirstSolution)
           columnFirstGrid columnFirstSolution 0 0 5 eq_refl eq_refl H).
Defined.

(** ** The game store: the history and the grid *)

Section Moves.

Import GameMoves.

Lemma sliceTo_nonneg {A : Type} (l : list A) (k : Z) :
  (0 <= k)%Z -> sliceTo l k = take (Z.to_nat k) l.
Proof.
  intros Hk. unfold sliceTo.
  destruct (Z.ltb_spec k 0) as [Hneg | _]; [lia | done].
Qed.

Lemma writeCell_Some (g g' : SudokuGrid) (r c : nat) (x : option nat) :
  writeCell g r c x = Some g' ->
  cellAt g r c <> None /\ g' = alter (fun rw => <[c := x]> rw) r g.
Proof.
  unfold writeCell. destruct (cellAt g r c); [| done].
  by intros [= <-].
Qed.

Lemma writeCell_defined (g : SudokuGrid) (r c : nat) (x : option nat) :
  cellAt g r c <> None -> is_Some (writeCell g r c x).
Proof. unfold writeCell. by destruct (cellAt g r c). Qed.

Lemma cellAt_write (g g' : SudokuGrid) (r c r' c' : nat) (x : option nat) :
  writeCell g r c x = Some g' ->
  cellAt g' r' c'
  = if decide (r' = r /\ c' = c) then Some x else cellAt g r' c'.
Proof.
  intros H. apply writeCell_Some in H as [Hdef ->]. unfold cellAt in *.
  destruct (decide (r' = r)) as [-> | Hr].
  - rewrite list_lookup_alter_eq.
    destruct (g !! r) as [rowl |] eqn:Hrow; simpl in *; [| done].
    destruct (decide (c' = c)) as [-> | Hc].
    + rewrite decide_True by done.
      destruct (rowl !! c) eqn:Hcol; [| done].
      apply list_lookup_insert_eq. by eapply lookup_lt_Some.
    + rewrite list_lookup_insert_ne by done.
      by rewrite decide_False by tauto.
  - rewrite list_lookup_alter_ne by done. by rewrite decide_False by tauto.
Qed.

Lemma length_write (g g' : SudokuGrid) (r c : nat) (x : option nat) :
  writeCell g r c x = Some g' -> length g' = length g.
Proof. intros H. apply writeCell_Some in H as [_ ->]. apply length_alter. Qed.

Lemma replay_app (g : SudokuGrid) (l1 l2 : list Move) :
  replay g (l1 ++ l2) = replay g l1 ≫= (fun g' => replay g' l2).
Proof.
  revert g. induction l1 as [|m l1 IH]; intros g; simpl; [done |].
  destruct (applyMoveTo g m); simpl; [apply IH | done].
Qed.

Lemma replay_snoc (g : SudokuGrid) (l : list Move) (m : Move) :
  replay g (l ++ [m]) = replay g l ≫= (fun g' => applyMoveTo g' m).
Proof.
  rewrite replay_app. destruct (replay g l) as [g' |]; simpl; [| done].
  by destruct (applyMoveTo g' m).
Qed.

Lemma gridAfter_S (initial : SudokuGrid) (moves : list Move) (k : nat)
  (m : Move) :
  moves !! k = Some m ->
  gridAfter initial moves (S k)
  = gridAfter initial moves k ≫= (fun g => applyMoveTo g m).
Proof.
  intros Hm. unfold gridAfter.
  rewrite (take_S_r _ _ _ Hm). apply replay_snoc.
Qed.

(** Moves on cells that the initial grid leaves empty do not touch the
    numbers of the initial grid. *)
Lemma replay_given (initial g g' : SudokuGrid) (moves : list Move)
  (r c v : nat) :
  (forall m, m ∈ moves -> isNull initial (row m) (col m) = true) ->
  cellAt initial r c = Some (Some v) ->
  cellAt g r c = Some (Some v) ->
  replay g moves = Some g' ->
  cellAt g' r c = Some (Some v).
Proof.
  intros Hfree Hinit. revert g. induction moves as [|m moves IH];
    intros g Hg Hreplay; simpl in Hreplay; [by simplify_eq |].
  destruct (applyMoveTo g m) as [g1 |] eqn:Hm; [| done].
  apply (IH (fun m' Hm' => Hfree m' (list_elem_of_further _ _ _ Hm')) g1);
    [| exact Hreplay].
  unfold applyMoveTo in Hm. rewrite (cellAt_write _ _ _ _ _ _ _ Hm).
  rewrite decide_False; [exact Hg |]. intros [-> ->].
  pose proof (Hfree m (list_elem_of_here _ _)) as Hnull.
  unfold isNull in Hnull. by rewrite Hinit in Hnull.
Qed.

Lemma inSync_sameBoard (st st' : GameState) :
  sameBoard st st' -> inSync st -> inSync st'.
Proof.
  intros (E1 & E2 & E3 & E4) (initial & grid & H).
  exists initial, grid. by rewrite E1, E2, E3, E4.
Qed.

Lemma sameBoard_refl (st : GameState) : sameBoard st st.
Proof. by repeat split. Qed.

Lemma sameBoard_trans (a b c : GameState) :
  sameBoard a b -> sameBoard b c -> sameBoard a c.
Proof.
  intros (E1 & E2 & E3 & E4) (F1 & F2 & F3 & F4).
  split; [congruence |]. split; [congruence |]. split; congruence.
Qed.

Lemma selectCell_sameBoard (r c : nat) (st : GameState) :
  sameBoard st (selectCell r c st).
Proof.
  unfold selectCell.
  destruct (currentGrid st) eqn:E; [| apply sameBoard_refl].
  destruct (_ || _); [apply sameBoard_refl |].
  split; [done |]. split; [by rewrite E | by split].
Qed.

Lemma reselect_sameBoard (st : GameState) : sameBoard st (reselect st).
Proof.
  unfold reselect. destruct (selectedCell st) as [[r c] |];
    [apply selectCell_sameBoard | apply sameBoard_refl].
Qed.

Lemma addPencilMark_sameBoard (v : nat) (st : GameState) :
  sameBoard st (addPencilMark v st).
Proof.
  unfold addPencilMark.
  destruct (selectedCell st) as [[r c] |]; [| apply sameBoard_refl].
  destruct (currentGrid st) as [grid |] eqn:E; [| apply sameBoard_refl].
  destruct (negb (isNull grid r c)); [apply sameBoard_refl |].
  split; [done |]. split; [by rewrite E | by split].
Qed.

Lemma useHint_sameBoard (st : GameState) : sameBoard st (useHint st).
Proof. by repeat split. Qed.

(** The actions other than [makeMove], [clearCell], [undo], [redo] and
    [resetGame] leave the grids and the history as they are. *)
Lemma act_sameBoard (a : Action) (st : GameState) :
  match a with
  | MakeMove _ _ _ | ClearCell _ | Undo | Redo | ResetGame _ => True
  | _ => sameBoard st (act a st)
  end.
Proof.
  destruct a; simpl; try done;
    try (by repeat split);
    try apply selectCell_sameBoard;
    try apply addPencilMark_sameBoard;
    try (unfold removePencilMark, clearPencilMarks;
         destruct (selectedCell st); by repeat split);
    try (eapply sameBoard_trans; [| apply reselect_sameBoard];
         by repeat split).
Qed.

Lemma take_snoc_prefix (l : list Move) (m : Move) (k k' : nat) :
  k' <= k -> k <= length l -> take k' (take k l ++ [m]) = take k' l.
Proof.
  intros H1 H2. rewrite take_app_le by (rewrite length_take; lia).
  rewrite take_take. f_equal. lia.
Qed.

(** A move appended at the place [historyIndex] points at keeps the
    history and the grid in step. *)
Lemma inSync_append (st st' : GameState) (initial grid newGrid : SudokuGrid)
  (m : Move) :
  initialGrid st = Some initial ->
  currentGrid st = Some grid ->
  inSync st ->
  isNull initial (row m) (col m) = true ->
  applyMoveTo grid m = Some newGrid ->
  initialGrid st' = Some initial ->
  currentGrid st' = Some newGrid ->
  moveHistory st'
  = sliceTo (moveHistory st) (historyIndex st + 1) ++ [m] ->
  historyIndex st' = (Z.of_nat (length (moveHistory st')) - 1)%Z ->
  inSync st'.
Proof.
  intros Hi Hg (initial' & grid' & Hi' & Hg' & Hidx & Hgrid & Hfree & Hpre)
    Hnull Hm Hi2 Hg2 Hhist Hidx2.
  rewrite Hi in Hi'. rewrite Hg in Hg'. simplify_eq.
  rewrite sliceTo_nonneg in Hhist by lia.
  set (k := Z.to_nat (historyIndex st + 1)) in *.
  assert (Hk : k <= length (moveHistory st)) by lia.
  assert (Hlen : length (moveHistory st') = S k).
  { rewrite Hhist, length_app, length_take. simpl. lia. }
  exists initial', newGrid.
  split; [done |]. split; [done |]. split; [lia |].
  split; [| split].
  - rewrite Hidx2, Hlen. replace (Z.to_nat (Z.of_nat (S k) - 1 + 1)) with (S k) by lia.
    unfold gridAfter in *. rewrite <- Hlen, firstn_all, Hhist, replay_snoc.
    fold k. by rewrite Hgrid.
  - intros m' Hm'. rewrite Hhist in Hm'.
    apply elem_of_app in Hm' as [Hm' | Hm'].
    + apply Hfree. eapply elem_of_sublist; [exact Hm' | apply sublist_take].
    + apply list_elem_of_singleton in Hm'. by subst m'.
  - intros k' Hk'. rewrite Hlen in Hk'. unfold gridAfter in *.
    destruct (decide (k' <= k)) as [Hle | Hgt].
    + rewrite Hhist, take_snoc_prefix by lia. apply Hpre. lia.
    + replace k' with (S k) by lia.
      rewrite <- Hlen, firstn_all, Hhist, replay_snoc. fold k.
      rewrite Hgrid. simpl. by rewrite Hm.
Qed.

Lemma makeMove_inSync (v now endNow : nat) (st : GameState) :
  v <> 0 -> inSync st -> inSync (makeMove v now endNow st).
Proof.
  intros Hv Hsync. unfold makeMove.
  destruct (selectedCell st) as [[r c] |] eqn:Hsel; [| done].
  destruct (currentGrid st) as [grid |] eqn:Hg; [| done].
  destruct (solution st) as [sol |] eqn:Hsol; [| done].
  destruct (initialGrid st) as [initial |] eqn:Hi; [| done].
  destruct (negb (isNull initial r c)) eqn:Hnull; [done |].
  apply negb_false_iff in Hnull.
  destruct (isPencilMode st).
  { eapply inSync_sameBoard; [apply addPencilMark_sameBoard | done]. }
  destruct (negb (isValidMove grid r c v)).
  { eapply inSync_sameBoard; [| exact Hsync]. split; [done |].
    split; [by rewrite Hg | by split]. }
  rewrite cloneGrid_eq.
  destruct (writeCell grid r c (Some v)) as [newGrid |] eqn:Hw; [| done].
  apply (inSync_append st _ initial grid newGrid
           {| row := r; col := c; value := v; timestamp := now |});
    try done.
  unfold applyMoveTo. simpl.
  destruct (Nat.eqb_spec v 0) as [-> | _]; [done | exact Hw].
Qed.

Lemma clearCell_inSync (now : nat) (st : GameState) :
  inSync st -> inSync (clearCell now st).
Proof.
  intros Hsync. unfold clearCell.
  destruct (selectedCell st) as [[r c] |] eqn:Hsel; [| done].
  destruct (currentGrid st) as [grid |] eqn:Hg; [| done].
  destruct (initialGrid st) as [initial |] eqn:Hi; [| done].
  destruct (negb (isNull initial r c)) eqn:Hnull; [done |].
  apply negb_false_iff in Hnull. rewrite cloneGrid_eq.
  destruct (writeCell grid r c None) as [newGrid |] eqn:Hw; [| done].
  by apply (inSync_append st _ initial grid newGrid
              {| row := r; col := c; value := 0; timestamp := now |}).
Qed.

Lemma undo_inSync (st : GameState) : inSync st -> inSync (undo st).
Proof.
  intros Hsync. unfold undo.
  destruct (initialGrid st) as [initial |] eqn:Hi; [| done].
  destruct (Z.ltb_spec (historyIndex st) 0) as [| Hpos]; [done |].
  destruct (Z.ltb_spec (Z.of_nat (length (moveHistory st))) (historyIndex st));
    [done |].
  rewrite cloneGrid_eq.
  destruct (replay initial _) as [newGrid |] eqn:Hr; [| done].
  destruct Hsync as (initial' & grid & Hi' & Hg & Hidx & Hgrid & Hfree & Hpre).
  rewrite Hi in Hi'. simplify_eq.
  exists initial', newGrid. simpl.
  split; [done |]. split; [done |]. split; [lia |].
  split; [| by split].
  replace (Z.to_nat (historyIndex st - 1 + 1)) with (Z.to_nat (historyIndex st))
    by lia.
  exact Hr.
Qed.

Lemma redo_inSync (st : GameState) : inSync st -> inSync (redo st).
Proof.
  intros Hsync. unfold redo.
  destruct (currentGrid st) as [grid |] eqn:Hg; [| done].
  destruct (Z.leb_spec (Z.of_nat (length (moveHistory st)) - 1)
              (historyIndex st)) as [| Hlt]; [done |].
  destruct (Z.ltb_spec (historyIndex st + 1) 0) as [| Hpos]; [done |].
  destruct (moveHistory st !! Z.to_nat (historyIndex st + 1))
    as [nextMove |] eqn:Hnext; [| done].
  rewrite cloneGrid_eq.
  destruct (applyMoveTo grid nextMove) as [newGrid |] eqn:Hm; [| done].
  destruct Hsync as (initial & grid' & Hi & Hg' & Hidx & Hgrid & Hfree & Hpre).
  rewrite Hg in Hg'. simplify_eq.
  exists initial, newGrid. simpl.
  split; [done |]. split; [done |]. split; [lia |].
  split; [| by split].
  replace (Z.to_nat (historyIndex st + 1 + 1))
    with (S (Z.to_nat (historyIndex st + 1))) by lia.
  rewrite (gridAfter_S _ _ _ _ Hnext), Hgrid. exact Hm.
Qed.

Lemma fresh_inSync (st : GameState) (initial : SudokuGrid) :
  initialGrid st = Some initial -> currentGrid st = Some initial ->
  moveHistory st = [] -> historyIndex st = (-1)%Z ->
  inSync st.
Proof.
  intros Hi Hg Hh Hidx. exists initial, initial.
  rewrite Hi, Hg, Hh, Hidx. simpl.
  split; [done |]. split; [done |]. split; [lia |]. split; [done |].
  split; [intros m Hm; inversion Hm |].
  intros k Hk. unfold gridAfter. by rewrite take_nil.
Qed.

Lemma resetGame_inSync (now : nat) (st : GameState) :
  inSync st -> inSync (resetGame now st).
Proof.
  intros Hsync. unfold resetGame.
  destruct (initialGrid st) as [initial |] eqn:Hi; [| done].
  apply (fresh_inSync _ initial); simpl; try done.
  by rewrite cloneGrid_eq.
Qed.

Lemma act_inSync (a : Action) (st : GameState) :
  nonzeroMove a -> inSync st -> inSync (act a st).
Proof.
  intros Hnz Hsync. pose proof (act_sameBoard a st) as Hsame.
  destruct a; simpl in *;
    try (by eapply inSync_sameBoard; [exact Hsame | exact Hsync]).
  - by apply makeMove_inSync.
  - by apply clearCell_inSync.
  - by apply undo_inSync.
  - by apply redo_inSync.
  - by apply resetGame_inSync.
Qed.

Lemma startNewGame_inSync (puzzle sol : SudokuGrid) (size : nat)
  (difficulty : StrategySolver.Difficulty) (now : nat) (st : GameState) :
  inSync (startNewGame puzzle sol size difficulty now st).
Proof.
  unfold startNewGame, applyHighlightPreset.
  eapply inSync_sameBoard; [apply reselect_sameBoard |].
  apply (fresh_inSync _ puzzle); simpl; try done.
  by rewrite cloneGrid_eq.
Qed.

Lemma play_inSync (actions : list Action) (st : GameState) :
  Forall nonzeroMove actions -> inSync st -> inSync (play actions st).
Proof.
  unfold play. revert st.
  induction actions as [|a actions IH]; intros st Hnz Hsync; [done |].
  inversion_clear Hnz as [|? ? Ha Hrest]. simpl.
  apply IH; [exact Hrest |]. by apply act_inSync.
Qed.

Lemma act_initialGrid (a : Action) (st : GameState) :
  inSync st -> initialGrid (act a st) = initialGrid st.
Proof.
  intros Hsync. pose proof (act_sameBoard a st) as Hsame.
  destruct a; simpl in *; try exact (proj1 Hsame).
  - unfold makeMove.
    destruct (selectedCell st) as [[r c] |]; [| done].
    destruct (currentGrid st) as [grid |]; [| done].
    destruct (solution st); [| done].
    destruct (initialGrid st) as [initial |] eqn:Hi; [| done].
    destruct (negb (isNull initial r c)); [done |].
    destruct (isPencilMode st).
    { rewrite <- Hi. apply addPencilMark_sameBoard. }
    destruct (negb (isValidMove grid r c v)); [done |].
    by destruct (writeCell _ r c (Some v)).
  - unfold clearCell.
    destruct (selectedCell st) as [[r c] |]; [| done].
    destruct (currentGrid st) as [grid |]; [| done].
    destruct (initialGrid st) as [initial |] eqn:Hi; [| done].
    destruct (negb (isNull initial r c)); [done |].
    by destruct (writeCell _ r c None).
  - unfold undo.
    destruct (initialGrid st) as [initial |] eqn:Hi; [| done].
    destruct (_ <? _)%Z; [done |]. destruct (_ <? _)%Z; [done |].
    by destruct (replay _ _).
  - unfold redo.
    destruct (currentGrid st) as [grid |]; [| done].
    destruct (_ <=? _)%Z; [done |]. destruct (_ <? _)%Z; [done |].
    destruct (moveHistory st !! _); [| done].
    by destruct (applyMoveTo _ _).
  - unfold resetGame. destruct (initialGrid st) eqn:Hi; simpl; congruence.
Qed.

Lemma play_initialGrid (actions : list Action) (st : GameState) :
  Forall nonzeroMove actions -> inSync st ->
  initialGrid (play actions st) = initialGrid st.
Proof.
  unfold play. revert st.
  induction actions as [|a actions IH]; intros st Hnz Hsync; [done |].
  inversion_clear Hnz as [|? ? Ha Hrest]. simpl.
  rewrite IH; [by apply act_initialGrid | exact Hrest | by apply act_inSync].
Qed.

Lemma store_history_in_step_grid (puzzle sol : SudokuGrid)
  (size : nat) (difficulty : StrategySolver.Difficulty) (now : nat)
  (st0 : GameState) (actions : list Action) :
  Forall nonzeroMove actions ->
  let st := play actions (startNewGame puzzle sol size difficulty now st0) in
  exists grid,
    initialGrid st = Some puzzle
    /\ currentGrid st = Some grid
    /\ (-1 <= historyIndex st < Z.of_nat (length (moveHistory st)))%Z
    /\ replay puzzle
         (take (Z.to_nat (historyIndex st + 1)) (moveHistory st))
       = Some grid
    /\ (forall m, m ∈ moveHistory st ->
          isNull puzzle (row m) (col m) = true).
Proof.
  intros Hnz st.
  pose proof (startNewGame_inSync puzzle sol size difficulty now st0) as H0.
  pose proof (play_inSync actions _ Hnz H0) as Hsync.
  pose proof (play_initialGrid actions _ Hnz H0) as Hinit.
  fold st in Hsync, Hinit.
  assert (Hp : initialGrid st = Some puzzle).
  { rewrite Hinit. unfold startNewGame, applyHighlightPreset.
    by destruct (reselect_sameBoard
      (startNewGame puzzle sol size difficulty now st0)) as [? _]. }
  destruct Hsync as (initial & grid & Hi & Hg & Hidx & Hgrid & Hfree & _).
  rewrite Hp in Hi. simplify_eq. exists grid. done.
Qed.

(** In a game, whatever the player does (with numbers other than 0):
    [historyIndex] points into the history or is -1; the current grid is
    the puzzle with the moves of the history up to [historyIndex] applied
    in order, a move of value 0 emptying its cell; and every move of the
    history is on a cell that the puzzle leaves empty. *)
Theorem store_history_and_grid_in_step (puzzle sol : SudokuGrid)
  (size : nat) (difficulty : StrategySolver.Difficulty) (now : nat)
  (st0 : GameState) (actions : list Action) :
  Forall nonzeroMove actions ->
  let st := play actions (startNewGame puzzle sol size difficulty now st0) in
  exists grid,
    initialGrid st = Some puzzle
    /\ currentGrid st = Some grid
    /\ (-1 <= historyIndex st < Z.of_nat (length (moveHistory st)))%Z
    /\ replay puzzle
         (take (Z.to_nat (historyIndex st + 1)) (moveHistory st))
       = Some grid
    /\ (forall m, m ∈ moveHistory st ->
          isNull puzzle (row m) (col m) = true).
Proof.
  intros Hnz. by apply store_history_in_step_grid.
Qed.

Lemma store_history_and_grid_in_step_witness :
  Forall nonzeroMove [SelectCell 0 3; MakeMove 4 10 11; Undo]
  /\ exists grid,
      currentGrid
        (play [SelectCell 0 3; MakeMove 4 10 11; Undo]
           (startNewGame nakedSingleGrid solvedGrid 4 StrategySolver.easy 0
              initialStore))
      = Some grid.
Proof.
  assert (Hnz : Forall nonzeroMove [SelectCell 0 3; MakeMove 4 10 11; Undo]).
  { repeat constructor. simpl. lia. }
  split; [exact Hnz |].
  destruct (store_history_and_grid_in_step nakedSingleGrid solvedGrid 4
              StrategySolver.easy 0 initialStore
              [SelectCell 0 3; MakeMove 4 10 11; Undo] Hnz)
    as (grid & _ & Hg & _).
  exists grid. exact Hg.
Defined.

(** In a game, whatever the player does, every number of the puzzle stays
    in its cell of the current grid. *)
Theorem store_keeps_given_numbers (puzzle sol : SudokuGrid)
  (size : nat) (difficulty : StrategySolver.Difficulty) (now : nat)
  (st0 : GameState) (actions : list Action) (r c v : nat) :
  Forall nonzeroMove actions ->
  cellAt puzzle r c = Some (Some v) ->
  exists grid,
    currentGrid
      (play actions (startNewGame puzzle sol size difficulty now st0))
    = Some grid
    /\ cellAt grid r c = Some (Some v).
Proof.
  intros Hnz Hgiven.
  destruct (store_history_in_step_grid puzzle sol size difficulty now st0
              actions Hnz) as (grid & _ & Hg & _ & Hreplay & Hfree).
  exists grid. split; [exact Hg |].
  eapply replay_given; [| exact Hgiven | exact Hgiven | exact Hreplay].
  intros m Hm. apply Hfree.
  eapply elem_of_sublist; [exact Hm | apply sublist_take].
Qed.

Lemma store_keeps_given_numbers_witness :
  Forall nonzeroMove [SelectCell 0 0; MakeMove 4 10 11; ClearCell 12]
  /\ cellAt nakedSingleGrid 0 0 = Some (Some 1)
  /\ exists grid,
      currentGrid
        (play [SelectCell 0 0; MakeMove 4 10 11; ClearCell 12]
           (startNewGame nakedSingleGrid solvedGrid 4 StrategySolver.easy 0
              initialStore))
      = Some grid
      /\ cellAt grid 0 0 = Some (Some 1).
Proof.
  assert (Hnz : Forall nonzeroMove
                  [SelectCell 0 0; MakeMove 4 10 11; ClearCell 12]).
  { repeat constructor. simpl. lia. }
  split; [exact Hnz |]. split; [reflexivity |].
  exact (store_keeps_given_numbers nakedSingleGrid solvedGrid 4
           StrategySolver.easy 0 initialStore
           [SelectCell 0 0; MakeMove 4 10 11; ClearCell 12] 0 0 1 Hnz
           eq_refl).
Defined.

(** *** Undo and redo *)

Lemma undo_spec (st : GameState) (initial : SudokuGrid) :
  inSync st -> initialGrid st = Some initial ->
  (0 <= historyIndex st)%Z ->
  currentGrid (undo st)
  = gridAfter initial (moveHistory st) (Z.to_nat (historyIndex st))
  /\ historyIndex (undo st) = (historyIndex st - 1)%Z
  /\ moveHistory (undo st) = moveHistory st
  /\ initialGrid (undo st) = Some initial
  /\ isComplete (undo st) = false.
Proof.
  intros (initial' & grid & Hi' & Hg & Hidx & Hgrid & Hfree & Hpre) Hi Hpos.
  rewrite Hi in Hi'. simplify_eq. unfold undo. rewrite Hi.
  destruct (Z.ltb_spec (historyIndex st) 0) as [| _]; [lia |].
  destruct (Z.ltb_spec (Z.of_nat (length (moveHistory st))) (historyIndex st));
    [lia |].
  rewrite cloneGrid_eq.
  destruct (Hpre (Z.to_nat (historyIndex st)) ltac:(lia)) as [g Hr].
  unfold gridAfter in *. rewrite Hr. simpl. done.
Qed.

Lemma redo_spec (st : GameState) (initial : SudokuGrid) :
  inSync st -> initialGrid st = Some initial ->
  (historyIndex st < Z.of_nat (length (moveHistory st)) - 1)%Z ->
  currentGrid (redo st)
  = gridAfter initial (moveHistory st) (Z.to_nat (historyIndex st + 2))
  /\ historyIndex (redo st) = (historyIndex st + 1)%Z
  /\ moveHistory (redo st) = moveHistory st
  /\ initialGrid (redo st) = Some initial
  /\ isComplete (redo st) = isComplete st.
Proof.
  intros (initial' & grid & Hi' & Hg & Hidx & Hgrid & Hfree & Hpre) Hi Hlt.
  rewrite Hi in Hi'. simplify_eq. unfold redo. rewrite Hg.
  destruct (Z.leb_spec (Z.of_nat (length (moveHistory st)) - 1)
              (historyIndex st)) as [| _]; [lia |].
  destruct (Z.ltb_spec (historyIndex st + 1) 0) as [| _]; [lia |].
  destruct (lookup_lt_is_Some_2 (moveHistory st)
              (Z.to_nat (historyIndex st + 1)) ltac:(lia)) as [next Hnext].
  rewrite Hnext, cloneGrid_eq.
  replace (Z.to_nat (historyIndex st + 2))
    with (S (Z.to_nat (historyIndex st + 1))) by lia.
  rewrite (gridAfter_S _ _ _ _ Hnext), Hgrid. simpl.
  destruct (Hpre (S (Z.to_nat (historyIndex st + 1))) ltac:(lia)) as [g Hr].
  rewrite (gridAfter_S _ _ _ _ Hnext), Hgrid in Hr. simpl in Hr.
  rewrite Hr. simpl. by rewrite Hi.
Qed.

Lemma undo_redo (st : GameState) :
  inSync st -> (0 <= historyIndex st)%Z ->
  currentGrid (redo (undo st)) = currentGrid st
  /\ historyIndex (redo (undo st)) = historyIndex st
  /\ moveHistory (redo (undo st)) = moveHistory st
  /\ isComplete (redo (undo st)) = false.
Proof.
  intros Hsync Hpos.
  pose proof Hsync as (initial & grid & Hi & Hg & Hidx & Hgrid & _).
  destruct (undo_spec st initial Hsync Hi Hpos)
    as (Hg1 & Hidx1 & Hh1 & Hi1 & Hc1).
  destruct (redo_spec (undo st) initial (undo_inSync st Hsync) Hi1)
    as (Hg2 & Hidx2 & Hh2 & _ & Hc2).
  { rewrite Hidx1, Hh1. lia. }
  rewrite Hg2, Hidx2, Hh2, Hc2, Hidx1, Hh1, Hc1, Hg.
  replace (Z.to_nat (historyIndex st - 1 + 2))
    with (Z.to_nat (historyIndex st + 1)) by lia.
  split; [exact Hgrid |]. split; [lia | done].
Qed.

Lemma redo_undo (st : GameState) :
  inSync st ->
  (historyIndex st < Z.of_nat (length (moveHistory st)) - 1)%Z ->
  currentGrid (undo (redo st)) = currentGrid st
  /\ historyIndex (undo (redo st)) = historyIndex st
  /\ moveHistory (undo (redo st)) = moveHistory st.
Proof.
  intros Hsync Hlt.
  pose proof Hsync as (initial & grid & Hi & Hg & Hidx & Hgrid & _).
  destruct (redo_spec st initial Hsync Hi Hlt)
    as (Hg1 & Hidx1 & Hh1 & Hi1 & _).
  destruct (undo_spec (redo st) initial (redo_inSync st Hsync) Hi1)
    as (Hg2 & Hidx2 & Hh2 & _).
  { rewrite Hidx1. lia. }
  rewrite Hg2, Hidx2, Hh2, Hidx1, Hh1, Hg.
  split; [exact Hgrid |]. split; [lia | done].
Qed.

(** In a state whose grid and history agree, [redo] after [undo] and
    [undo] after [redo], when there is a move to take back or to bring
    back, give back the current grid, [historyIndex] and the history;
    [redo] after [undo] leaves [isComplete] false, also on a grid that is
    complete. *)
Theorem undo_and_redo_are_inverse (st : GameState) :
  inSync st ->
  ((0 <= historyIndex st)%Z ->
   currentGrid (redo (undo st)) = currentGrid st
   /\ historyIndex (redo (undo st)) = historyIndex st
   /\ moveHistory (redo (undo st)) = moveHistory st
   /\ isComplete (redo (undo st)) = false)
  /\ ((historyIndex st < Z.of_nat (length (moveHistory st)) - 1)%Z ->
      currentGrid (undo (redo st)) = currentGrid st
      /\ historyIndex (undo (redo st)) = historyIndex st
      /\ moveHistory (undo (redo st)) = moveHistory st).
Proof.
  intros Hsync. split; [by apply undo_redo | by apply redo_undo].
Qed.

Lemma undo_and_redo_are_inverse_witness :
  let st := play [SelectCell 0 3; MakeMove 4 10 11]
              (startNewGame nakedSingleGrid solvedGrid 4 StrategySolver.easy
                 0 initialStore) in
  inSync st
  /\ isComplete st = true
  /\ currentGrid (redo (undo st)) = currentGrid st
  /\ isComplete (redo (undo st)) = false.
Proof.
  cbv zeta.
  assert (Hsync : inSync
            (play [SelectCell 0 3; MakeMove 4 10 11]
               (startNewGame nakedSingleGrid solvedGrid 4
                  StrategySolver.easy 0 initialStore))).
  { apply play_inSync; [| apply startNewGame_inSync].
    repeat constructor. simpl. lia. }
  split; [exact Hsync |]. split; [vm_compute; reflexivity |].
  destruct (undo_and_redo_are_inverse _ Hsync) as [H _].
  destruct H as (H1 & _ & _ & H2); [vm_compute; discriminate |].
  split; [exact H1 | exact H2].
Defined.

(** *** Taking back a move *)

Lemma appended_undo (st st' : GameState) (initial grid newGrid : SudokuGrid)
  (m : Move) :
  initialGrid st = Some initial ->
  currentGrid st = Some grid ->
  inSync st ->
  isNull initial (row m) (col m) = true ->
  applyMoveTo grid m = Some newGrid ->
  initialGrid st' = Some initial ->
  currentGrid st' = Some newGrid ->
  moveHistory st'
  = sliceTo (moveHistory st) (historyIndex st + 1) ++ [m] ->
  historyIndex st' = (Z.of_nat (length (moveHistory st')) - 1)%Z ->
  historyIndex st' = (historyIndex st + 1)%Z
  /\ currentGrid (undo st') = Some grid
  /\ historyIndex (undo st') = historyIndex st
  /\ isComplete (undo st') = false.
Proof.
  intros Hi Hg Hsync Hnull Hm Hi2 Hg2 Hhist Hidx2.
  pose proof (inSync_append st st' initial grid newGrid m Hi Hg Hsync Hnull
                Hm Hi2 Hg2 Hhist Hidx2) as Hsync'.
  destruct Hsync as (initial' & grid' & Hi' & Hg' & Hidx & Hgrid & _).
  rewrite Hi in Hi'. rewrite Hg in Hg'. simplify_eq.
  rewrite sliceTo_nonneg in Hhist by lia.
  assert (Hlen : length (moveHistory st')
                 = S (Z.to_nat (historyIndex st + 1))).
  { rewrite Hhist, length_app, length_take. simpl. lia. }
  assert (Hnew : historyIndex st' = (historyIndex st + 1)%Z) by lia.
  split; [exact Hnew |].
  destruct (undo_spec st' initial' Hsync' Hi2 ltac:(lia))
    as (Hg3 & Hidx3 & _ & _ & Hc3).
  split; [| split; [lia | exact Hc3]].
  rewrite Hg3, Hnew. unfold gridAfter in *.
  rewrite Hhist, take_snoc_prefix by lia. exact Hgrid.
Qed.

Lemma makeMove_taken_back (v now endNow : nat) (st : GameState) :
  inSync st -> v <> 0 ->
  historyIndex (makeMove v now endNow st) <> historyIndex st ->
  currentGrid (undo (makeMove v now endNow st)) = currentGrid st
  /\ historyIndex (undo (makeMove v now endNow st)) = historyIndex st
  /\ isComplete (undo (makeMove v now endNow st)) = false.
Proof.
  intros Hsync Hv. unfold makeMove.
  destruct (selectedCell st) as [[r c] |] eqn:Hsel; [| done].
  destruct (currentGrid st) as [grid |] eqn:Hg; [| done].
  destruct (solution st) as [sol |] eqn:Hsol; [| done].
  destruct (initialGrid st) as [initial |] eqn:Hi; [| done].
  destruct (negb (isNull initial r c)) eqn:Hnull; [done |].
  apply negb_false_iff in Hnull.
  destruct (isPencilMode st).
  { intros H. exfalso. apply H. apply addPencilMark_sameBoard. }
  destruct (negb (isValidMove grid r c v)); [done |].
  rewrite cloneGrid_eq.
  destruct (writeCell grid r c (Some v)) as [newGrid |] eqn:Hw; [| done].
  intros _.
  match goal with
  | |- context [undo ?s] =>
      destruct (appended_undo st s initial grid newGrid
                  {| row := r; col := c; value := v; timestamp := now |})
        as (_ & H1 & H2 & H3); try done
  end.
  unfold applyMoveTo. simpl.
  destruct (Nat.eqb_spec v 0) as [-> | _]; [done | exact Hw].
Qed.

Lemma clearCell_taken_back (now : nat) (st : GameState) :
  inSync st ->
  historyIndex (clearCell now st) <> historyIndex st ->
  currentGrid (undo (clearCell now st)) = currentGrid st
  /\ historyIndex (undo (clearCell now st)) = historyIndex st.
Proof.
  intros Hsync. unfold clearCell.
  destruct (selectedCell st) as [[r c] |] eqn:Hsel; [| done].
  destruct (currentGrid st) as [grid |] eqn:Hg; [| done].
  destruct (initialGrid st) as [initial |] eqn:Hi; [| done].
  destruct (negb (isNull initial r c)) eqn:Hnull; [done |].
  apply negb_false_iff in Hnull. rewrite cloneGrid_eq.
  destruct (writeCell grid r c None) as [newGrid |] eqn:Hw; [| done].
  intros _.
  match goal with
  | |- context [undo ?s] =>
      destruct (appended_undo st s initial grid newGrid
                  {| row := r; col := c; value := 0; timestamp := now |})
        as (_ & H1 & H2 & H3); try done
  end.
Qed.

(** In a state whose grid and history agree, [undo] after a move that
    [makeMove] has accepted, or after a clearing that [clearCell] has
    made, gives back the grid and the [historyIndex] from before it, and
    [undo] after a move leaves [isComplete] false. *)
Theorem undo_takes_back_the_last_move (v now endNow : nat)
  (st : GameState) :
  inSync st -> v <> 0 ->
  (historyIndex (makeMove v now endNow st) <> historyIndex st ->
   currentGrid (undo (makeMove v now endNow st)) = currentGrid st
   /\ historyIndex (undo (makeMove v now endNow st)) = historyIndex st
   /\ isComplete (undo (makeMove v now endNow st)) = false)
  /\ (historyIndex (clearCell now st) <> historyIndex st ->
      currentGrid (undo (clearCell now st)) = currentGrid st
      /\ historyIndex (undo (clearCell now st)) = historyIndex st).
Proof.
  intros Hsync Hv.
  split; [by apply makeMove_taken_back | by apply clearCell_taken_back].
Qed.

Lemma undo_takes_back_the_last_move_witness :
  let st := play [SelectCell 0 3]
              (startNewGame nakedSingleGrid solvedGrid 4 StrategySolver.easy
                 0 initialStore) in
  inSync st /\ 4 <> 0
  /\ currentGrid (makeMove 4 10 11 st) = Some solvedGrid
  /\ currentGrid (undo (makeMove 4 10 11 st)) = currentGrid st.
Proof.
  cbv zeta.
  assert (Hsync : inSync
            (play [SelectCell 0 3]
               (startNewGame nakedSingleGrid solvedGrid 4
                  StrategySolver.easy 0 initialStore))).
  { apply play_inSync; [| apply startNewGame_inSync]. by repeat constructor. }
  split; [exact Hsync |]. split; [lia |]. split; [vm_compute; reflexivity |].
  destruct (undo_takes_back_the_last_move 4 10 11 _ Hsync ltac:(lia))
    as [H _].
  destruct H as (H1 & _); [vm_compute; discriminate | exact H1].
Defined.

End Moves.

(** ** The game store: no conflict on the grid *)

Section StoreGrid.

Import GameMoves StoreSpec.

Lemma holds_write (g g' : SudokuGrid) (r c r' c' v : nat) (x : option nat) :
  writeCell g r c x = Some g' ->
  holds g' r' c' v
  = if decide (r' = r /\ c' = c)
    then match x with Some w => w =? v | None => false end
    else holds g r' c' v.
Proof.
  intros H. unfold holds. rewrite (cellAt_write _ _ _ _ _ _ _ H).
  by case_decide.
Qed.

Lemma conflictFree_write (g g' : SudokuGrid) (r c : nat) (x : option nat) :
  GridSize (length g) -> conflictFree g = true ->
  writeCell g r c x = Some g' ->
  (forall w, x = Some w -> isValidMove g r c w = true) ->
  conflictFree g' = true.
Proof.
  intros Hn Hfree Hw Hvalid.
  pose proof (length_write _ _ _ _ _ Hw) as Hlen.
  rewrite conflictFree_true in Hfree. apply conflictFree_true.
  rewrite Hlen. intros r' c' v Hr Hc Hcell.
  rewrite (cellAt_write _ _ _ _ _ _ _ Hw) in Hcell.
  apply isValidMove_peers; rewrite Hlen; [exact Hn |].
  split; [exact Hr |]. split; [exact Hc |].
  intros unit q Hunit Hp Hq Hqne. rewrite (holds_write _ _ _ _ _ _ _ _ Hw).
  case_decide as Hrc.
  - destruct Hrc as [-> ->]. simplify_eq.
    rewrite decide_False.
    + pose proof (Hvalid v eq_refl) as Hv.
      apply isValidMove_peers in Hv as (_ & _ & Hpeers); [| exact Hn].
      by apply (Hpeers unit).
    + intros [E1 E2]. apply Hqne. destruct q; simpl in *; by subst.
  - pose proof (Hfree r' c' v Hr Hc Hcell) as Hrcv.
    apply isValidMove_peers in Hrcv as (_ & _ & Hpeers); [| exact Hn].
    case_decide as Hq'; [| by apply (Hpeers unit)].
    destruct q as [qr qc]. simpl in Hq'. destruct Hq' as [-> ->].
    destruct x as [w |]; [| done].
    destruct (Nat.eqb_spec w v) as [-> |]; [| done].
    pose proof (Hvalid v eq_refl) as Hv.
    apply isValidMove_peers in Hv as (_ & _ & Hmove); [| exact Hn].
    assert (Hne : (r', c') <> (r, c)) by (intros [= -> ->]; by apply Hrc).
    pose proof (Hmove unit (r', c') Hunit Hq Hp Hne) as Hfalse.
    simpl in Hfalse. apply holds_true in Hcell. congruence.
Qed.

Lemma conflictFreeHistory_same (st st' : GameState) :
  initialGrid st' = initialGrid st -> moveHistory st' = moveHistory st ->
  conflictFreeHistory st -> conflictFreeHistory st'.
Proof.
  intros E1 E2 H initial k g. rewrite E1, E2. apply H.
Qed.

Lemma conflictFreeHistory_append (st st' : GameState)
  (initial grid newGrid : SudokuGrid) (m : Move) :
  GridSize (length initial) ->
  initialGrid st = Some initial ->
  currentGrid st = Some grid ->
  inSync st -> conflictFreeHistory st ->
  applyMoveTo grid m = Some newGrid ->
  (value m <> 0 -> isValidMove grid (row m) (col m) (value m) = true) ->
  initialGrid st' = Some initial ->
  moveHistory st'
  = sliceTo (moveHistory st) (historyIndex st + 1) ++ [m] ->
  conflictFreeHistory st'.
Proof.
  intros Hn Hi Hg Hsync Hcf Hm Hvalid Hi2 Hhist.
  destruct Hsync as (initial' & grid' & Hi' & Hg' & Hidx & Hgrid & _).
  rewrite Hi in Hi'. rewrite Hg in Hg'. simplify_eq.
  rewrite sliceTo_nonneg in Hhist by lia.
  set (k0 := Z.to_nat (historyIndex st + 1)) in *.
  destruct (Hcf initial' k0 grid' Hi Hgrid) as [Hlen Hfree].
  intros initial k g Hi3 Hk. rewrite Hi2 in Hi3. simplify_eq.
  unfold gridAfter in *.
  destruct (decide (k <= k0)) as [Hle | Hgt].
  - rewrite Hhist, take_snoc_prefix in Hk by lia.
    by apply (Hcf initial k g).
  - rewrite take_ge in Hk.
    2:{ rewrite Hhist, length_app, length_take. simpl. lia. }
    rewrite Hhist, replay_snoc in Hk. fold k0 in Hk. rewrite Hgrid in Hk.
    simpl in Hk. unfold applyMoveTo in Hk, Hm.
    split; [rewrite (length_write _ _ _ _ _ Hk); exact Hlen |].
    eapply conflictFree_write; [| exact Hfree | exact Hk |].
    + by rewrite Hlen.
    + intros w Hw. destruct (Nat.eqb_spec (value m) 0) as [| Hnz]; [done |].
      simplify_eq. by apply Hvalid.
Qed.

Lemma act_conflictFreeHistory (a : Action) (st : GameState)
  (initial : SudokuGrid) :
  GridSize (length initial) -> initialGrid st = Some initial ->
  nonzeroMove a -> inSync st -> conflictFreeHistory st ->
  conflictFreeHistory (act a st).
Proof.
  intros Hn Hi Hnz Hsync Hcf. pose proof (act_sameBoard a st) as Hsame.
  destruct a; simpl in *;
    try (destruct Hsame as (E1 & _ & E3 & _);
         by apply (conflictFreeHistory_same st)).
  - (* makeMove *)
    unfold makeMove.
    destruct (selectedCell st) as [[r c] |] eqn:Hsel; [| done].
    destruct (currentGrid st) as [grid |] eqn:Hg; [| done].
    destruct (solution st) as [sol |] eqn:Hsol; [| done].
    rewrite Hi.
    destruct (negb (isNull initial r c)) eqn:Hnull; [done |].
    destruct (isPencilMode st).
    { destruct (addPencilMark_sameBoard v st) as (E1 & _ & E3 & _).
      by apply (conflictFreeHistory_same st). }
    destruct (negb (isValidMove grid r c v)) eqn:Hvalid.
    { by apply (conflictFreeHistory_same st). }
    apply negb_false_iff in Hvalid. rewrite cloneGrid_eq.
    destruct (writeCell grid r c (Some v)) as [newGrid |] eqn:Hw; [| done].
    apply (conflictFreeHistory_append st _ initial grid newGrid
             {| row := r; col := c; value := v; timestamp := now |});
      try done.
    unfold applyMoveTo. simpl.
    destruct (Nat.eqb_spec v 0) as [-> | _]; [done | exact Hw].
  - (* clearCell *)
    unfold clearCell.
    destruct (selectedCell st) as [[r c] |] eqn:Hsel; [| done].
    destruct (currentGrid st) as [grid |] eqn:Hg; [| done].
    rewrite Hi.
    destruct (negb (isNull initial r c)) eqn:Hnull; [done |].
    rewrite cloneGrid_eq.
    destruct (writeCell grid r c None) as [newGrid |] eqn:Hw; [| done].
    by apply (conflictFreeHistory_append st _ initial grid newGrid
                {| row := r; col := c; value := 0; timestamp := now |}).
  - (* undo *)
    apply (conflictFreeHistory_same st); [| | exact Hcf].
    + by apply (act_initialGrid Undo).
    + unfold undo. rewrite Hi.
      destruct (_ <? _)%Z; [done |]. destruct (_ <? _)%Z; [done |].
      by destruct (replay _ _).
  - (* redo *)
    apply (conflictFreeHistory_same st); [| | exact Hcf].
    + by apply (act_initialGrid Redo).
    + unfold redo. destruct (currentGrid st); [| done].
      destruct (_ <=? _)%Z; [done |]. destruct (_ <? _)%Z; [done |].
      destruct (moveHistory st !! _); [| done].
      by destruct (applyMoveTo _ _).
  - (* resetGame *)
    unfold resetGame. rewrite Hi.
    intros initial' k g Hi' Hk. simpl in Hi', Hk. simplify_eq.
    unfold gridAfter in Hk. rewrite take_nil in Hk. simpl in Hk.
    simplify_eq. apply (Hcf g 0 g Hi). done.
Qed.

Lemma play_conflictFreeHistory (actions : list Action) (st : GameState)
  (initial : SudokuGrid) :
  GridSize (length initial) -> initialGrid st = Some initial ->
  Forall nonzeroMove actions -> inSync st -> conflictFreeHistory st ->
  conflictFreeHistory (play actions st).
Proof.
  intros Hn. unfold play. revert st.
  induction actions as [|a actions IH]; intros st Hi Hnz Hsync Hcf; [done |].
  inversion_clear Hnz as [|? ? Ha Hrest]. simpl.
  apply IH; [| exact Hrest | by apply act_inSync |].
  - by rewrite act_initialGrid.
  - by apply (act_conflictFreeHistory a st initial).
Qed.

(** In a game on a puzzle of size 4, 6 or 9 without a repeated number in
    any row, column or box, whatever the player does, the current grid has
    the size of the puzzle and no repeated number in any row, column or
    box: [makeMove] only lets legal moves through, and [undo] and [redo]
    only bring back grids that have been reached. *)
Theorem store_grid_stays_conflict_free (puzzle sol : SudokuGrid)
  (size : nat) (difficulty : StrategySolver.Difficulty) (now : nat)
  (st0 : GameState) (actions : list Action) :
  GridSize (length puzzle) -> conflictFree puzzle = true ->
  Forall nonzeroMove actions ->
  exists grid,
    currentGrid
      (play actions (startNewGame puzzle sol size difficulty now st0))
    = Some grid
    /\ length grid = length puzzle
    /\ conflictFree grid = true.
Proof.
  intros Hn Hfree Hnz.
  set (s0 := startNewGame puzzle sol size difficulty now st0).
  pose proof (startNewGame_inSync puzzle sol size difficulty now st0) as H0.
  fold s0 in H0.
  assert (Hi0 : initialGrid s0 = Some puzzle).
  { unfold s0, startNewGame, applyHighlightPreset.
    by destruct (reselect_sameBoard
      (startNewGame puzzle sol size difficulty now st0)) as [? _]. }
  assert (Hh0 : moveHistory s0 = []).
  { unfold s0, startNewGame, applyHighlightPreset.
    by destruct (reselect_sameBoard
      (startNewGame puzzle sol size difficulty now st0)) as (_ & _ & ? & _). }
  assert (Hcf0 : conflictFreeHistory s0).
  { intros initial k g Hi Hk. rewrite Hi0 in Hi. simplify_eq.
    rewrite Hh0 in Hk. unfold gridAfter in Hk. rewrite take_nil in Hk.
    simpl in Hk. by simplify_eq. }
  pose proof (play_conflictFreeHistory actions s0 puzzle Hn Hi0 Hnz H0 Hcf0)
    as Hcf.
  pose proof (play_inSync actions s0 Hnz H0)
    as (initial & grid & Hi & Hg & _ & Hgrid & _).
  rewrite (play_initialGrid actions s0 Hnz H0), Hi0 in Hi. simplify_eq.
  exists grid. split; [exact Hg |].
  eapply (Hcf initial); [| exact Hgrid].
  by rewrite (play_initialGrid actions s0 Hnz H0).
Qed.

Lemma store_grid_stays_conflict_free_witness :
  GridSize (length nakedSingleGrid)
  /\ conflictFree nakedSingleGrid = true
  /\ Forall nonzeroMove [SelectCell 0 3; MakeMove 2 10 11; MakeMove 4 12 13]
  /\ exists grid,
      currentGrid
        (play [SelectCell 0 3; MakeMove 2 10 11; MakeMove 4 12 13]
           (startNewGame nakedSingleGrid solvedGrid 4 StrategySolver.easy 0
              initialStore))
      = Some grid
      /\ conflictFree grid = true.
Proof.
  assert (Hn : GridSize (length nakedSingleGrid)) by (left; reflexivity).
  assert (Hfree : conflictFree nakedSingleGrid = true)
    by (vm_compute; reflexivity).
  assert (Hnz : Forall nonzeroMove
                  [SelectCell 0 3; MakeMove 2 10 11; MakeMove 4 12 13]).
  { repeat constructor; simpl; lia. }
  split; [exact Hn |]. split; [exact Hfree |]. split; [exact Hnz |].
  destruct (store_grid_stays_conflict_free nakedSingleGrid solvedGrid 4
              StrategySolver.easy 0 initialStore _ Hn Hfree Hnz)
    as (grid & Hg & _ & Hcf).
  exists grid. split; [exact Hg | exact Hcf].
Defined.

End StoreGrid.

(** ** The game store: pencil marks *)

Section PencilMarks.

Import GameMoves StoreSpec.

Lemma marksHas_false (m : PencilMarks) (k : Position) :
  marksHas m k = false -> marksGet m k = None.
Proof.
  unfold marksHas, marksGet. induction m as [|e m IH]; simpl; [done |].
  destruct (bool_decide (e.1 = k)); simpl; [done | exact IH].
Qed.

Lemma marksGet_app (m1 m2 : PencilMarks) (p : Position) :
  marksGet (m1 ++ m2) p
  = match marksGet m1 p with
    | Some x => Some x
    | None => marksGet m2 p
    end.
Proof.
  unfold marksGet. induction m1 as [|e m1 IH]; simpl; [done |].
  destruct (bool_decide (e.1 = p)); simpl; [done | exact IH].
Qed.

Lemma marksGet_replace_ne (m : PencilMarks) (k p : Position) (s : list nat) :
  p <> k ->
  marksGet (map (fun e => if bool_decide (e.1 = k) then (k, s) else e) m) p
  = marksGet m p.
Proof.
  intros Hpk. unfold marksGet. induction m as [|e m IH]; simpl; [done |].
  destruct (bool_decide_reflect (e.1 = k)) as [Hek | Hek]; simpl.
  - rewrite !bool_decide_eq_false_2 by congruence. exact IH.
  - destruct (bool_decide (e.1 = p)); [done | exact IH].
Qed.

Lemma marksGet_replace_eq (m : PencilMarks) (k : Position) (s : list nat) :
  marksHas m k = true ->
  marksGet (map (fun e => if bool_decide (e.1 = k) then (k, s) else e) m) k
  = Some s.
Proof.
  unfold marksHas, marksGet. induction m as [|e m IH]; simpl; [done |].
  destruct (bool_decide_reflect (e.1 = k)) as [Hek | Hek]; simpl.
  - intros _. by rewrite bool_decide_eq_true_2.
  - intros Hrest. rewrite bool_decide_eq_false_2 by done. by apply IH.
Qed.

Lemma marksGet_marksSet (m : PencilMarks) (k p : Position) (s : list nat) :
  marksGet (marksSet m k s) p
  = if decide (p = k) then Some s else marksGet m p.
Proof.
  unfold marksSet. destruct (marksHas m k) eqn:Hhas.
  - case_decide as Hpk.
    + subst p. by apply marksGet_replace_eq.
    + by apply marksGet_replace_ne.
  - rewrite marksGet_app. case_decide as Hpk.
    + subst p. rewrite (marksHas_false _ _ Hhas). unfold marksGet. simpl.
      by rewrite bool_decide_eq_true_2.
    + destruct (marksGet m p); [done |]. unfold marksGet. simpl.
      by rewrite bool_decide_eq_false_2 by congruence.
Qed.

Lemma marksGet_marksDelete (m : PencilMarks) (k p : Position) :
  marksGet (marksDelete m k) p
  = if decide (p = k) then None else marksGet m p.
Proof.
  unfold marksDelete, marksGet. induction m as [|e m IH]; simpl.
  - by case_decide.
  - destruct (bool_decide_reflect (e.1 = k)) as [Hek | Hek]; simpl.
    + rewrite IH. case_decide as Hpk; [done |].
      by rewrite bool_decide_eq_false_2 by congruence.
    + destruct (bool_decide_reflect (e.1 = p)) as [Hep | Hep]; simpl.
      * by rewrite decide_False by congruence.
      * exact IH.
Qed.

Lemma marksOf_marksDelete (m : PencilMarks) (k p : Position) :
  marksOf (marksDelete m k) p = if decide (p = k) then [] else marksOf m p.
Proof. unfold marksOf. rewrite marksGet_marksDelete. by case_decide. Qed.

Lemma marksOf_cleanMark (v : nat) (k p : Position) (m : PencilMarks) :
  marksOf (cleanMark v k m) p
  = if decide (p = k) then setDelete (marksOf m k) v else marksOf m p.
Proof.
  unfold cleanMark, marksOf.
  destruct (marksGet m k) as [marks |] eqn:Hget; simpl.
  - destruct (setHas marks v) eqn:Hhas.
    + destruct (length (setDelete marks v) =? 0) eqn:Hlen.
      * rewrite marksGet_marksDelete. case_decide; [| done]. simpl.
        apply Nat.eqb_eq in Hlen. by destruct (setDelete marks v).
      * rewrite marksGet_marksSet. by case_decide.
    + case_decide as Hpk; [| done]. subst p. rewrite Hget. simpl.
      symmetry. apply setDelete_absent. intros Hin.
      apply setHas_true in Hin. congruence.
  - case_decide as Hpk; [| done]. subst p. by rewrite Hget.
Qed.

Lemma marksOf_forEach_hit {A : Type} (body : A -> PencilMarks -> PencilMarks)
  (hit : A -> bool) (v : nat) (p : Position) (l : list A) :
  (forall x m, marksOf (body x m) p
               = if hit x then setDelete (marksOf m p) v else marksOf m p) ->
  forall m, marksOf (forEach l body m) p
            = if existsb hit l then setDelete (marksOf m p) v
              else marksOf m p.
Proof.
  intros Hbody. induction l as [|a l IH]; intros m; [done |].
  rewrite forEach_cons, IH, Hbody. simpl.
  destruct (hit a), (existsb hit l); simpl; try done.
  by rewrite setDelete_idem.
Qed.

Lemma marksOf_cleanMark_hit (v r c : nat) (p : Position) (m : PencilMarks) :
  marksOf (cleanMark v (r, c) m) p
  = if (p.1 =? r) && (p.2 =? c) then setDelete (marksOf m p) v
    else marksOf m p.
Proof.
  rewrite marksOf_cleanMark. destruct p as [pr pc]. simpl.
  destruct (Nat.eqb_spec pr r) as [-> | Hr], (Nat.eqb_spec pc c) as [-> | Hc];
    simpl; case_decide as Hd; try done; congruence.
Qed.

Lemma existsb_orb {A : Type} (f h : A -> bool) (l : list A) :
  existsb (fun x => f x || h x) l = existsb f l || existsb h l.
Proof.
  induction l as [|a l IH]; simpl; [done |]. rewrite IH.
  by destruct (f a), (h a), (existsb f l), (existsb h l).
Qed.

Lemma existsb_box (r c a h b w : nat) :
  existsb (fun r' => existsb (fun c' => (r =? r') && (c =? c')) (seq b w))
    (seq a h)
  = (a <=? r) && (r <? a + h) && (b <=? c) && (c <? b + w).
Proof.
  transitivity (existsb (Nat.eqb r) (seq a h)
                && existsb (Nat.eqb c) (seq b w)).
  - induction (seq a h) as [|x l IH]; simpl; [done |].
    rewrite IH, existsb_andb_l.
    by destruct (r =? x), (existsb (Nat.eqb r) l),
         (existsb (Nat.eqb c) (seq b w)).
  - by rewrite !existsb_eqb_seq, andb_assoc.
Qed.

Lemma marksOf_autoClean (n r c v : nat) (m : PencilMarks) (p : Position) :
  marksOf (autoClean n r c v m) p
  = if swept n r c p then setDelete (marksOf m p) v else marksOf m p.
Proof.
  unfold autoClean. cbv zeta.
  destruct (hintHighlights_box n) as [-> ->].
  set (d := getBoxDimensions n).
  rewrite (marksOf_forEach_hit _
             (fun r' => existsb (fun c' => (p.1 =? r') && (p.2 =? c'))
                          (seq (c / cols d * cols d) (cols d))) v).
  2:{ intros r' m'.
      apply (marksOf_forEach_hit _ (fun c' => (p.1 =? r') && (p.2 =? c')) v).
      intros c' m''. apply marksOf_cleanMark_hit. }
  rewrite (marksOf_forEach_hit _
             (fun i => ((p.1 =? r) && (p.2 =? i))
                       || ((p.1 =? i) && (p.2 =? c))) v).
  2:{ intros i m'. rewrite !marksOf_cleanMark_hit.
      destruct ((p.1 =? r) && (p.2 =? i)), ((p.1 =? i) && (p.2 =? c));
        simpl; try done. by rewrite setDelete_idem. }
  rewrite existsb_orb, existsb_andb_l, existsb_eqb_seq, existsb_box.
  assert (E : existsb (fun i => (p.1 =? i) && (p.2 =? c)) (seq 0 n)
              = (p.2 =? c) && ((0 <=? p.1) && (p.1 <? 0 + n))).
  { rewrite <- existsb_eqb_seq, <- existsb_andb_l.
    induction (seq 0 n) as [|a l IH]; simpl; [done |].
    by rewrite IH, (andb_comm (p.1 =? a)). }
  rewrite E. unfold swept. cbv zeta. fold d. simpl.
  destruct ((p.1 =? r) && (p.2 <? n)), ((p.2 =? c) && (p.1 <? n)),
    (_ && _ && _ && _); simpl; rewrite ?setDelete_idem; done.
Qed.

(** A move that [makeMove] accepts removes the pencil marks of its cell,
    and, when the auto-clean is switched on, deletes its number from the
    pencil marks of every other cell of the row, of the column and of the
    box; the marks of all other cells stay as they are. *)
Theorem makeMove_cleans_pencil_marks (v now endNow r c : nat)
  (st : GameState) (p : Position) :
  selectedCell st = Some (r, c) ->
  historyIndex (makeMove v now endNow st) <> historyIndex st ->
  marksOf (pencilMarks (makeMove v now endNow st)) p
  = if decide (p = (r, c)) then []
    else if autoCleanPencilMarks st && swept (gridSize st) r c p
         then setDelete (marksOf (pencilMarks st) p) v
         else marksOf (pencilMarks st) p.
Proof.
  intros Hsel. unfold makeMove. rewrite Hsel.
  destruct (currentGrid st) as [grid |] eqn:Hg; [| done].
  destruct (solution st) as [sol |] eqn:Hsol; [| done].
  destruct (initialGrid st) as [initial |] eqn:Hi; [| done].
  destruct (negb (isNull initial r c)) eqn:Hnull; [done |].
  destruct (isPencilMode st).
  { intros H. exfalso. apply H. apply addPencilMark_sameBoard. }
  destruct (negb (isValidMove grid r c v)); [done |].
  destruct (writeCell _ r c (Some v)) as [newGrid |] eqn:Hw; [| done].
  intros _. simpl.
  destruct (autoCleanPencilMarks st); simpl.
  - rewrite marksOf_autoClean, marksOf_marksDelete.
    case_decide; [by destruct (swept _ r c p) | done].
  - apply marksOf_marksDelete.
Qed.

Lemma makeMove_cleans_pencil_marks_witness :
  let st := play [SelectCell 0 0; AddPencilMark 4; SelectCell 0 3]
              (startNewGame emptyGrid solvedGrid 4 StrategySolver.easy
                 0 initialStore) in
  selectedCell st = Some (0, 3)
  /\ marksOf (pencilMarks st) (0, 0) = [4]
  /\ marksOf (pencilMarks (makeMove 4 10 11 st)) (0, 0) = [].
Proof.
  cbv zeta. split; [vm_compute; reflexivity |].
  split; [vm_compute; reflexivity |].
  rewrite (makeMove_cleans_pencil_marks 4 10 11 0 3 _ (0, 0));
    [| vm_compute; reflexivity | vm_compute; discriminate].
  vm_compute. reflexivity.
Defined.

(** [addPencilMark] on an empty selected cell toggles the number among
    the pencil marks of that cell and touches no other cell: twice in a
    row, it leaves the same marks; on a filled cell it does nothing. *)
Theorem addPencilMark_toggles_a_mark (v r c : nat) (st : GameState)
  (grid : SudokuGrid) :
  selectedCell st = Some (r, c) ->
  currentGrid st = Some grid ->
  (isNull grid r c = false -> addPencilMark v st = st)
  /\ (isNull grid r c = true ->
      let marks := marksOf (pencilMarks st) (r, c) in
      marksOf (pencilMarks (addPencilMark v st)) (r, c)
      = (if setHas marks v then setDelete marks v else marks ++ [v])
      /\ (forall p, p <> (r, c) ->
            marksOf (pencilMarks (addPencilMark v st)) p
            = marksOf (pencilMarks st) p)
      /\ (forall x,
            x ∈ marksOf (pencilMarks (addPencilMark v (addPencilMark v st)))
                  (r, c)
            <-> x ∈ marks)).
Proof.
  intros Hsel Hg.
  assert (Hone : forall s, selectedCell s = Some (r, c) ->
            currentGrid s = Some grid -> isNull grid r c = true ->
            (marksOf (pencilMarks (addPencilMark v s)) (r, c)
             = (if setHas (marksOf (pencilMarks s) (r, c)) v
                then setDelete (marksOf (pencilMarks s) (r, c)) v
                else marksOf (pencilMarks s) (r, c) ++ [v]))
            /\ (forall p, p <> (r, c) ->
                  marksOf (pencilMarks (addPencilMark v s)) p
                  = marksOf (pencilMarks s) p)
            /\ selectedCell (addPencilMark v s) = Some (r, c)
            /\ currentGrid (addPencilMark v s) = Some grid).
  { intros s Hs Hgs Hnull. unfold addPencilMark. rewrite Hs, Hgs, Hnull.
    simpl. unfold marksOf.
    destruct (marksHas (pencilMarks s) (r, c)) eqn:Hhas; simpl.
    - rewrite marksGet_marksSet, decide_True by done. simpl.
      split; [done |]. split; [| done].
      intros p Hp. by rewrite marksGet_marksSet, decide_False.
    - rewrite (marksHas_false _ _ Hhas). simpl.
      split; [| split; [| done]].
      + by rewrite !marksGet_marksSet, !decide_True.
      + intros p Hp. by rewrite !marksGet_marksSet, !decide_False. }
  split.
  - intros Hfilled. unfold addPencilMark. by rewrite Hsel, Hg, Hfilled.
  - intros Hnull. cbv zeta.
    destruct (Hone st Hsel Hg Hnull) as (H1 & H2 & Hsel' & Hg').
    split; [exact H1 |]. split; [exact H2 |].
    intros x.
    destruct (Hone (addPencilMark v st) Hsel' Hg' Hnull) as (H3 & _).
    rewrite H3, H1.
    destruct (setHas (marksOf (pencilMarks st) (r, c)) v) eqn:Hhas.
    + assert (Hno : setHas (setDelete (marksOf (pencilMarks st) (r, c)) v) v
                    = false).
      { destruct (setHas (setDelete _ v) v) eqn:E; [| done].
        apply setHas_true, setDelete_elem in E as [_ E]. done. }
      rewrite Hno, elem_of_app, setDelete_elem, list_elem_of_singleton.
      apply setHas_true in Hhas.
      destruct (decide (x = v)) as [-> | Hx]; [tauto |]. tauto.
    + assert (Hyes : setHas (marksOf (pencilMarks st) (r, c) ++ [v]) v = true).
      { apply setHas_true, elem_of_app. right. apply list_elem_of_here. }
      rewrite Hyes, setDelete_elem, elem_of_app, list_elem_of_singleton.
      assert (Hv : v ∉ marksOf (pencilMarks st) (r, c)).
      { intros Hin. apply setHas_true in Hin. congruence. }
      destruct (decide (x = v)) as [-> | Hx]; [tauto |]. tauto.
Qed.

Lemma addPencilMark_toggles_a_mark_witness :
  let st := play [SelectCell 0 0]
              (startNewGame emptyGrid solvedGrid 4 StrategySolver.easy
                 0 initialStore) in
  selectedCell st = Some (0, 0)
  /\ currentGrid st = Some emptyGrid
  /\ marksOf (pencilMarks (addPencilMark 3 st)) (0, 0) = [3].
Proof.
  cbv zeta. split; [reflexivity |]. split; [reflexivity |].
  destruct (addPencilMark_toggles_a_mark 3 0 0
              (play [SelectCell 0 0]
                 (startNewGame emptyGrid solvedGrid 4 StrategySolver.easy
                    0 initialStore)) emptyGrid eq_refl eq_refl) as [_ H].
  destruct (H eq_refl) as (H1 & _). exact H1.
Defined.

End PencilMarks.

(** ** The game store: highlighted cells *)

Section Highlights.

Import GameMoves StoreSpec.

Lemma box_addKey_elem (a k b w : nat) (h : list Position) (p : Position) :
  p ∈ forEach (seq a k) (fun r =>
        forEach (seq b w) (fun c => GameStore.addKey (r, c))) h
  <-> p ∈ h \/ (a <= p.1 < a + k /\ b <= p.2 < b + w).
Proof.
  revert a h. induction k as [|k IH]; intros a h; cbn [seq].
  - rewrite forEach_nil. split; [by left | intros [? | ?]; [done | lia]].
  - rewrite forEach_cons, IH, forEach_addKey. split.
    + intros [[? | (c & Hc & ->)] | ?]; [by left | right | right; lia].
      apply elem_of_seq in Hc. simpl. lia.
    + intros [? | [Hr Hc]]; [by left; left |].
      destruct (decide (p.1 = a)) as [E | E].
      * left. right. exists p.2. split; [apply elem_of_seq; lia |].
        destruct p; simpl in *; by subst.
      * right. lia.
Qed.

Lemma selectHighlights_NoDup (n r c : nat) (showRow showColumn showBox : bool) :
  NoDup (selectHighlights n r c showRow showColumn showBox).
Proof.
  unfold selectHighlights. cbv zeta.
  assert (H1 : NoDup (if showRow
                      then forEach (seq 0 n)
                             (fun c' => GameStore.addKey (r, c')) []
                      else [])).
  { destruct showRow; [| constructor].
    apply forEach_addKey_NoDup. constructor. }
  assert (H2 : NoDup (if showColumn
                      then forEach (seq 0 n)
                             (fun r' => GameStore.addKey (r', c))
                             (if showRow
                              then forEach (seq 0 n)
                                     (fun c' => GameStore.addKey (r, c')) []
                              else [])
                      else if showRow
                           then forEach (seq 0 n)
                                  (fun c' => GameStore.addKey (r, c')) []
                           else [])).
  { destruct showColumn; [| exact H1]. by apply forEach_addKey_NoDup. }
  destruct showBox; [| exact H2].
  apply (forEach_inv (fun h => NoDup h)); [| exact H2].
  intros r' h _ Hh. by apply forEach_addKey_NoDup.
Qed.

Lemma selectHighlights_elem (n r c : nat) (showRow showColumn showBox : bool)
  (p : Position) :
  p ∈ selectHighlights n r c showRow showColumn showBox
  <-> lit n r c showRow showColumn showBox p = true.
Proof.
  unfold selectHighlights, lit. cbv zeta.
  destruct (hintHighlights_box n) as [-> ->].
  set (d := getBoxDimensions n).
  assert (Hrow : p ∈ (if showRow
                      then forEach (seq 0 n)
                             (fun c' => GameStore.addKey (r, c')) []
                      else [])
                 <-> showRow && (p.1 =? r) && (p.2 <? n) = true).
  { destruct showRow; simpl; [| by rewrite elem_of_nil].
    rewrite forEach_addKey, elem_of_nil, andb_true_iff, Nat.eqb_eq,
      Nat.ltb_lt.
    split.
    - intros [[] | (c' & Hc & ->)]. apply elem_of_seq in Hc. simpl. lia.
    - intros [E Hlt]. right. exists p.2. split; [apply elem_of_seq; lia |].
      destruct p; simpl in *; by subst. }
  set (h1 := if showRow then _ else _) in *.
  assert (Hcol : p ∈ (if showColumn
                      then forEach (seq 0 n)
                             (fun r' => GameStore.addKey (r', c)) h1
                      else h1)
                 <-> showRow && (p.1 =? r) && (p.2 <? n)
                     || showColumn && (p.2 =? c) && (p.1 <? n) = true).
  { rewrite orb_true_iff, <- Hrow.
    destruct showColumn; simpl; [| by intuition].
    rewrite forEach_addKey, andb_true_iff, Nat.eqb_eq, Nat.ltb_lt.
    split.
    - intros [? | (r' & Hr & ->)]; [by left | right].
      apply elem_of_seq in Hr. simpl. lia.
    - intros [? | [E Hlt]]; [by left | right].
      exists p.1. split; [apply elem_of_seq; lia |].
      destruct p; simpl in *; by subst. }
  set (h2 := if showColumn then _ else _) in *.
  rewrite orb_true_iff, <- Hcol.
  destruct showBox; simpl.
  - rewrite box_addKey_elem, !andb_true_iff, !Nat.leb_le, !Nat.ltb_lt. tauto.
  - split; [by left | by intros [? | ?]].
Qed.

(** [selectCell] on a cell of the board selects it and highlights the
    cells of its row, of its column and of its box, as far as the three
    highlight preferences are switched on, each cell once; for a cell
    beyond the board it does nothing. *)
Theorem selectCell_highlights_enabled_units (r c : nat) (st : GameState)
  (grid : SudokuGrid) :
  currentGrid st = Some grid ->
  (r < gridSize st -> c < gridSize st ->
   selectedCell (selectCell r c st) = Some (r, c)
   /\ NoDup (highlightedCells (selectCell r c st))
   /\ forall p, p ∈ highlightedCells (selectCell r c st)
                <-> lit (gridSize st) r c (showRowHighlight st)
                      (showColumnHighlight st) (showBoxHighlight st) p = true)
  /\ (gridSize st <= r \/ gridSize st <= c -> selectCell r c st = st).
Proof.
  intros Hg. unfold selectCell. rewrite Hg. split.
  - intros Hr Hc.
    destruct (Nat.leb_spec (gridSize st) r); [lia |].
    destruct (Nat.leb_spec (gridSize st) c); [lia |]. simpl.
    split; [done |]. split; [apply selectHighlights_NoDup |].
    intros p. apply selectHighlights_elem.
  - intros Hout.
    destruct (Nat.leb_spec (gridSize st) r),
      (Nat.leb_spec (gridSize st) c); simpl; try done; lia.
Qed.

Lemma selectCell_highlights_enabled_units_witness :
  let st := startNewGame emptyGrid solvedGrid 4 StrategySolver.easy
              0 initialStore in
  currentGrid st = Some emptyGrid
  /\ highlightedCells (selectCell 1 2 st) <> []
  /\ selectCell 1 4 st = st.
Proof.
  cbv zeta. split; [reflexivity |].
  pose proof (selectCell_highlights_enabled_units 1 2
                (startNewGame emptyGrid solvedGrid 4 StrategySolver.easy
                   0 initialStore) emptyGrid eq_refl) as [Hin _].
  pose proof (selectCell_highlights_enabled_units 1 4
                (startNewGame emptyGrid solvedGrid 4 StrategySolver.easy
                   0 initialStore) emptyGrid eq_refl) as [_ Hout].
  split.
  - destruct Hin as (_ & _ & Hin); [vm_compute; lia | vm_compute; lia |].
    intros Hnil. specialize (Hin (1, 2)). rewrite Hnil in Hin.
    apply (proj1 (elem_of_nil (1, 2))). apply Hin. vm_compute. reflexivity.
  - apply Hout. right. vm_compute. lia.
Defined.

Lemma reselect_highlights (r c : nat) (st : GameState) (grid : SudokuGrid)
  (p : Position) :
  currentGrid st = Some grid ->
  selectedCell st = Some (r, c) ->
  r < gridSize st -> c < gridSize st ->
  p ∈ highlightedCells (reselect st)
  <-> lit (gridSize st) r c (showRowHighlight st) (showColumnHighlight st)
        (showBoxHighlight st) p = true.
Proof.
  intros Hg Hsel Hr Hc. unfold reselect, selectCell. rewrite Hsel, Hg.
  destruct (Nat.leb_spec (gridSize st) r); [lia |].
  destruct (Nat.leb_spec (gridSize st) c); [lia |]. simpl.
  apply selectHighlights_elem.
Qed.

(** Switching a highlight preference highlights the units of the selected
    cell again, by the new preferences: [toggleRowHighlight],
    [toggleColumnHighlight] and [toggleBoxHighlight] flip one preference,
    and [applyHighlightPreset] of [hard] switches all three off, which
    leaves no cell highlighted. *)
Theorem highlight_toggles_rehighlight_selected_cell (r c : nat)
  (st : GameState) (grid : SudokuGrid) :
  currentGrid st = Some grid ->
  selectedCell st = Some (r, c) ->
  r < gridSize st -> c < gridSize st ->
  (forall p, p ∈ highlightedCells (toggleRowHighlight st)
             <-> lit (gridSize st) r c (negb (showRowHighlight st))
                   (showColumnHighlight st) (showBoxHighlight st) p = true)
  /\ (forall p, p ∈ highlightedCells (toggleColumnHighlight st)
                <-> lit (gridSize st) r c (showRowHighlight st)
                      (negb (showColumnHighlight st)) (showBoxHighlight st) p
                    = true)
  /\ (forall p, p ∈ highlightedCells (toggleBoxHighlight st)
                <-> lit (gridSize st) r c (showRowHighlight st)
                      (showColumnHighlight st) (negb (showBoxHighlight st)) p
                    = true)
  /\ highlightedCells (applyHighlightPreset StrategySolver.hard st) = [].
Proof.
  intros Hg Hsel Hr Hc.
  split; [| split; [| split]].
  - intros p. unfold toggleRowHighlight.
    by rewrite (reselect_highlights r c _ grid).
  - intros p. unfold toggleColumnHighlight.
    by rewrite (reselect_highlights r c _ grid).
  - intros p. unfold toggleBoxHighlight.
    by rewrite (reselect_highlights r c _ grid).
  - unfold applyHighlightPreset, reselect, selectCell. cbv zeta. simpl.
    rewrite Hsel, Hg.
    destruct (Nat.leb_spec (gridSize st) r); [lia |].
    destruct (Nat.leb_spec (gridSize st) c); [lia |]. done.
Qed.

Lemma highlight_toggles_rehighlight_selected_cell_witness :
  let st := play [SelectCell 1 2]
              (startNewGame emptyGrid solvedGrid 4 StrategySolver.easy
                 0 initialStore) in
  currentGrid st = Some emptyGrid
  /\ selectedCell st = Some (1, 2)
  /\ highlightedCells st <> []
  /\ highlightedCells (applyHighlightPreset StrategySolver.hard st) = [].
Proof.
  cbv zeta. split; [reflexivity |]. split; [reflexivity |].
  split; [vm_compute; discriminate |].
  apply (highlight_toggles_rehighlight_selected_cell 1 2 _ emptyGrid);
    [reflexivity | reflexivity | vm_compute; lia | vm_compute; lia].
Defined.

End Highlights.

(** ** The cells a hint explanation points at *)

Section HintCells.

Lemma elem_of_getRowCellsForHint (n row col : nat) (p : Position) :
  p ∈ getRowCellsForHint n row col <-> p.1 = row /\ p.2 < n /\ p.2 <> col.
Proof.
  unfold getRowCellsForHint.
  rewrite elem_of_map_pair_l, elem_of_List_filter, elem_of_seq,
    negb_true_iff, Nat.eqb_neq. lia.
Qed.

Lemma elem_of_getColCellsForHint (n row col : nat) (p : Position) :
  p ∈ getColCellsForHint n row col <-> p.2 = col /\ p.1 < n /\ p.1 <> row.
Proof.
  unfold getColCellsForHint.
  rewrite elem_of_map_pair_r, elem_of_List_filter, elem_of_seq,
    negb_true_iff, Nat.eqb_neq. lia.
Qed.

Lemma NoDup_box (a h b w : nat) :
  NoDup (flat_map (fun r => map (fun c => (r, c)) (seq b w)) (seq a h)).
Proof.
  revert a. induction h as [|h IH]; intros a; cbn [seq flat_map].
  - constructor.
  - apply list.NoDup_app. split; [| split; [| apply IH]].
    + apply (NoDup_fmap_2 (fun c => (a, c))), NoDup_seq.
    + intros p Hp Hq. apply elem_of_map_pair_l in Hp as [Hp _].
      apply elem_of_flat_map in Hq as (r & Hr & Hq).
      apply elem_of_map_pair_l in Hq as [Hq _].
      apply elem_of_seq in Hr. lia.
Qed.

(** On a board of 4, 6 or 9, [getRelatedCellsForHint] of a cell of the
    board lists the other cells of its row, of its column and of its box,
    each of them once: the box cells that the row or the column already
    gave are not listed again. *)
Theorem getRelatedCellsForHint_lists_each_peer_once (n row col : nat) :
  GridSize n -> row < n -> col < n ->
  NoDup (getRelatedCellsForHint n row col)
  /\ forall p, p ∈ getRelatedCellsForHint n row col
               <-> swept n row col p = true /\ p <> (row, col).
Proof.
  intros Hn Hrow Hcol. unfold getRelatedCellsForHint. cbv zeta.
  rewrite boxHeight_rows, boxWidth_cols.
  set (d := getBoxDimensions n).
  change (flat_map _ (seq (row / rows d * rows d) (rows d)))
    with (boxCells (row / rows d * rows d) (col / cols d * cols d) d).
  split.
  - apply list.NoDup_app. split; [| split].
    + unfold getRowCellsForHint.
      apply (NoDup_fmap_2 (fun c => (row, c))), NoDup_List_filter_pos,
        NoDup_seq.
    + intros p Hp Hq. apply elem_of_getRowCellsForHint in Hp.
      apply elem_of_app in Hq as [Hq | Hq].
      * apply elem_of_getColCellsForHint in Hq. lia.
      * apply elem_of_List_filter in Hq as [_ Hq].
        apply andb_true_iff in Hq as [Hq _].
        apply negb_true_iff, Nat.eqb_neq in Hq. lia.
    + apply list.NoDup_app. split; [| split].
      * unfold getColCellsForHint.
        apply (NoDup_fmap_2 (fun r => (r, col))), NoDup_List_filter_pos,
          NoDup_seq.
      * intros p Hp Hq. apply elem_of_getColCellsForHint in Hp.
        apply elem_of_List_filter in Hq as [_ Hq].
        apply andb_true_iff in Hq as [_ Hq].
        apply negb_true_iff, Nat.eqb_neq in Hq. lia.
      * unfold boxCells.
        pose proof (NoDup_box (row / rows d * rows d) (rows d)
                      (col / cols d * cols d) (cols d)) as Hnd.
        revert Hnd. generalize (flat_map
          (fun r => map (fun c => (r, c))
                      (seq (col / cols d * cols d) (cols d)))
          (seq (row / rows d * rows d) (rows d))).
        intros l Hnd. induction Hnd as [|x l Hx Hnd IH]; simpl; [constructor |].
        destruct (_ && _); [| exact IH].
        constructor; [| exact IH].
        intros Hin. apply elem_of_List_filter in Hin as [Hin _]. done.
  - intros p.
    rewrite !elem_of_app, elem_of_getRowCellsForHint,
      elem_of_getColCellsForHint, elem_of_List_filter, elem_of_boxCells,
      andb_true_iff, !negb_true_iff, !Nat.eqb_neq.
    unfold swept. cbv zeta. fold d.
    rewrite !orb_true_iff, !andb_true_iff, !Nat.eqb_eq, !Nat.ltb_lt,
      !Nat.leb_le.
    assert (Hbox : row / rows d * rows d + rows d <= n
                   /\ col / cols d * cols d + cols d <= n).
    { subst d.
      pose proof (Nat.div_mod_eq row (rows (getBoxDimensions n))) as Er.
      pose proof (Nat.div_mod_eq col (cols (getBoxDimensions n))) as Ec.
      destruct Hn as [-> | [-> | ->]]; simpl in *.
      - pose proof (Nat.mod_upper_bound row 2 ltac:(lia)).
        pose proof (Nat.mod_upper_bound col 2 ltac:(lia)). lia.
      - pose proof (Nat.mod_upper_bound row 2 ltac:(lia)).
        pose proof (Nat.mod_upper_bound col 3 ltac:(lia)). lia.
      - pose proof (Nat.mod_upper_bound row 3 ltac:(lia)).
        pose proof (Nat.mod_upper_bound col 3 ltac:(lia)). lia. }
    assert (Hne : p <> (row, col) <-> p.1 <> row \/ p.2 <> col).
    { destruct p as [a b]. simpl. split.
      - intros Hp. destruct (decide (a = row)) as [-> | ?]; [| by left].
        right. intros ->. done.
      - intros [H | H] [= -> ->]; done. }
    rewrite Hne. lia.
Qed.

Lemma getRelatedCellsForHint_lists_each_peer_once_witness :
  GridSize 9
  /\ NoDup (getRelatedCellsForHint 9 4 7)
  /\ (4, 0) ∈ getRelatedCellsForHint 9 4 7.
Proof.
  split; [right; right; reflexivity |].
  destruct (getRelatedCellsForHint_lists_each_peer_once 9 4 7
              (or_intror (or_intror eq_refl)) ltac:(lia) ltac:(lia))
    as [Hnd Hin].
  split; [exact Hnd |].
  apply Hin. split; [reflexivity | discriminate].
Defined.

End HintCells.

(** ** The game store: a new move after undo, and the completed game *)

Section NewMoves.

Import GameMoves.

(** A move that [makeMove] accepts, or a clearing that [clearCell] makes,
    after some moves have been taken back, throws the moves taken back
    away: the history is the moves up to [historyIndex] and the new move
    (of value 0 for a clearing), and [redo] after it does nothing. *)
Theorem new_move_discards_undone_moves (v now endNow : nat)
  (st : GameState) :
  inSync st ->
  (historyIndex (makeMove v now endNow st) <> historyIndex st ->
   (exists m,
      moveHistory (makeMove v now endNow st)
      = take (Z.to_nat (historyIndex st + 1)) (moveHistory st) ++ [m]
      /\ value m = v)
   /\ redo (makeMove v now endNow st) = makeMove v now endNow st)
  /\ (historyIndex (clearCell now st) <> historyIndex st ->
      (exists m,
         moveHistory (clearCell now st)
         = take (Z.to_nat (historyIndex st + 1)) (moveHistory st) ++ [m]
         /\ value m = 0)
      /\ redo (clearCell now st) = clearCell now st).
Proof.
  intros (initial' & grid' & _ & _ & Hidx & _). split.
  - unfold makeMove.
    destruct (selectedCell st) as [[r c] |] eqn:Hsel; [| done].
    destruct (currentGrid st) as [grid |] eqn:Hg; [| done].
    destruct (solution st) as [sol |] eqn:Hsol; [| done].
    destruct (initialGrid st) as [initial |] eqn:Hi; [| done].
    destruct (negb (isNull initial r c)); [done |].
    destruct (isPencilMode st).
    { intros H. exfalso. apply H. apply addPencilMark_sameBoard. }
    destruct (negb (isValidMove grid r c v)); [done |].
    destruct (writeCell (cloneGrid grid) r c (Some v)) as [newGrid |];
      [| done].
    intros _. cbv zeta. split.
    + eexists. simpl. rewrite sliceTo_nonneg by lia. split; reflexivity.
    + unfold redo. simpl. by rewrite Z.leb_refl.
  - unfold clearCell.
    destruct (selectedCell st) as [[r c] |] eqn:Hsel; [| done].
    destruct (currentGrid st) as [grid |] eqn:Hg; [| done].
    destruct (initialGrid st) as [initial |] eqn:Hi; [| done].
    destruct (negb (isNull initial r c)); [done |].
    destruct (writeCell (cloneGrid grid) r c None) as [newGrid |]; [| done].
    intros _. cbv zeta. split.
    + eexists. simpl. rewrite sliceTo_nonneg by lia. split; reflexivity.
    + unfold redo. simpl. by rewrite Z.leb_refl.
Qed.

Lemma new_move_discards_undone_moves_witness :
  let st := play [SelectCell 0 0; MakeMove 1 10 11; MakeMove 2 12 13; Undo]
              (startNewGame emptyGrid solvedGrid 4 StrategySolver.easy
                 0 initialStore) in
  inSync st
  /\ length (moveHistory st) = 2
  /\ length (moveHistory (makeMove 3 14 15 st)) = 2
  /\ redo (makeMove 3 14 15 st) = makeMove 3 14 15 st.
Proof.
  cbv zeta.
  assert (Hsync : inSync
            (play [SelectCell 0 0; MakeMove 1 10 11; MakeMove 2 12 13; Undo]
               (startNewGame emptyGrid solvedGrid 4 StrategySolver.easy
                  0 initialStore))).
  { apply play_inSync; [| apply startNewGame_inSync].
    repeat constructor; simpl; lia. }
  split; [exact Hsync |].
  split; [vm_compute; reflexivity |].
  split; [vm_compute; reflexivity |].
  apply (new_move_discards_undone_moves 3 14 15 _ Hsync).
  vm_compute. discriminate.
Defined.

Lemma checkCompletion_true (grid sol : SudokuGrid) :
  checkCompletion grid sol = true
  <-> forall r c x, cellAt grid r c = Some x -> cellAt sol r c = Some x.
Proof.
  unfold checkCompletion. rewrite forallb_elem. split.
  - intros Hall r c x Hx. unfold cellAt in Hx.
    destruct (grid !! r) as [rowl |] eqn:Hr; [| done]. simpl in Hx.
    specialize (Hall r).
    rewrite elem_of_seq, forallb_elem, Hr in Hall. simpl in Hall.
    apply lookup_lt_Some in Hr as Hlt.
    specialize (Hall ltac:(lia) c).
    rewrite elem_of_seq in Hall. apply lookup_lt_Some in Hx as Hc.
    specialize (Hall ltac:(lia)). apply bool_decide_eq_true in Hall.
    rewrite <- Hall. unfold cellAt. by rewrite Hr.
  - intros Hall r Hr. apply elem_of_seq in Hr.
    destruct (lookup_lt_is_Some_2 grid r ltac:(lia)) as [rowl Hrow].
    rewrite forallb_elem, Hrow. simpl. intros c Hc. apply elem_of_seq in Hc.
    destruct (lookup_lt_is_Some_2 rowl c ltac:(lia)) as [x Hx].
    apply bool_decide_eq_true.
    assert (Hcell : cellAt grid r c = Some x).
    { unfold cellAt. by rewrite Hrow. }
    by rewrite (Hall r c x Hcell).
Qed.

(** A move that [makeMove] accepts reports the game complete exactly when
    every cell of the grid it produces equals the cell of the stored
    solution (or the game was complete before), and it stamps the end
    time then. *)
Theorem makeMove_reports_completion (v now endNow : nat) (st : GameState)
  (sol : SudokuGrid) :
  solution st = Some sol ->
  historyIndex (makeMove v now endNow st) <> historyIndex st ->
  exists newGrid,
    currentGrid (makeMove v now endNow st) = Some newGrid
    /\ (isComplete (makeMove v now endNow st) = true
        <-> isComplete st = true
            \/ forall r c x, cellAt newGrid r c = Some x ->
                             cellAt sol r c = Some x)
    /\ ((forall r c x, cellAt newGrid r c = Some x ->
                       cellAt sol r c = Some x) ->
        endTime (makeMove v now endNow st) = Some endNow).
Proof.
  intros Hsol. unfold makeMove. rewrite Hsol.
  destruct (selectedCell st) as [[r c] |] eqn:Hsel; [| done].
  destruct (currentGrid st) as [grid |] eqn:Hg; [| done].
  destruct (initialGrid st) as [initial |] eqn:Hi; [| done].
  destruct (negb (isNull initial r c)); [done |].
  destruct (isPencilMode st).
  { intros H. exfalso. apply H. apply addPencilMark_sameBoard. }
  destruct (negb (isValidMove grid r c v)); [done |].
  destruct (writeCell (cloneGrid grid) r c (Some v)) as [newGrid |];
    [| done].
  intros _. exists newGrid. cbv zeta. simpl. split; [done |].
  rewrite <- checkCompletion_true.
  destruct (checkCompletion newGrid sol); split; try done.
  - split; [by right | done].
  - split; [by left | by intros [? | ?]].
Qed.

Lemma makeMove_reports_completion_witness :
  let st := play [SelectCell 0 3]
              (startNewGame nakedSingleGrid solvedGrid 4 StrategySolver.easy
                 0 initialStore) in
  solution st = Some solvedGrid
  /\ isComplete st = false
  /\ exists newGrid,
       currentGrid (makeMove 4 10 11 st) = Some newGrid
       /\ (isComplete (makeMove 4 10 11 st) = true
           <-> isComplete st = true
               \/ forall r c x, cellAt newGrid r c = Some x ->
                                cellAt solvedGrid r c = Some x).
Proof.
  cbv zeta. split; [reflexivity |]. split; [reflexivity |].
  destruct (makeMove_reports_completion 4 10 11
              (play [SelectCell 0 3]
                 (startNewGame nakedSingleGrid solvedGrid 4
                    StrategySolver.easy 0 initialStore))
              solvedGrid eq_refl) as (newGrid & Hg & Hiff & _).
  { vm_compute. discriminate. }
  exists newGrid. split; [exact Hg | exact Hiff].
Defined.

End NewMoves.
